(** * Tilck kernel: intrusive AVL insertion, the VFS dispatch layer and
      formatted output

    A shallow embedding of [kernel/bintree/avl_insert.c.h], [kernel/fs/vfs.c]
    and [kernel/snprintk.c], followed by the properties proved about them. *)

From Stdlib Require Import ZArith List Lia Bool String Ascii DecimalString.
Import ListNotations.
Local Open Scope Z_scope.

(** ** Part I.  Definitions *)

(** *** The intrusive AVL engine ([avl_insert.c.h]) *)

Module Bintree.

(** A [void **] handled by the insertion code is the address of a child
    field (or of the root reference).  It is identified by the way down
    from the root reference to it. *)
Inductive dir := GoLeft | GoRight.

Definition slot := list dir.

Section Engine.

(** Host objects, the comparator the C preprocessor substitutes for [CMP],
    and the capacity of the on-stack array [stack[MAX_TREE_HEIGHT]]. *)
Variable obj : Type.
Variable CMP : obj -> obj -> Z.
Variable MAX_TREE_HEIGHT : nat.

(** [Leaf] is a NULL object reference; [Node l o r] is the host object [o]
    whose embedded [bintree_node] has [left_obj = l] and [right_obj = r]. *)
Inductive tree :=
| Leaf
| Node (left_obj : tree) (o : obj) (right_obj : tree).

Fixpoint height (t : tree) : nat :=
  match t with
  | Leaf => 0%nat
  | Node l _ r => S (Nat.max (height l) (height r))
  end.

Fixpoint size (t : tree) : nat :=
  match t with
  | Leaf => 0%nat
  | Node l _ r => S (size l + size r)
  end.

Fixpoint elements (t : tree) : list obj :=
  match t with
  | Leaf => []
  | Node l o r => elements l ++ o :: elements r
  end.

(** height(right) - height(left) *)
Definition balance_factor (t : tree) : Z :=
  match t with
  | Leaf => 0
  | Node l _ r => Z.of_nat (height r) - Z.of_nat (height l)
  end.

Definition rotate_right (t : tree) : tree :=
  match t with
  | Node (Node a x b) y c => Node a x (Node b y c)
  | _ => t
  end.

Definition rotate_left (t : tree) : tree :=
  match t with
  | Node a x (Node b y c) => Node (Node a x b) y c
  | _ => t
  end.

(** Modelled from the spec: the [BALANCE] macro, whose definition is not in
    [avl_insert.c.h].  "Standard AVL rotation rules -- single or double
    rotation chosen by the sign of the deeper subtree's own balance factor,
    applied exactly at nodes whose balance factor has left the {-1,0,1}
    range".  Heights are those of the subtrees themselves. *)
Definition balance (t : tree) : tree :=
  match t with
  | Leaf => Leaf
  | Node l o r =>
      let bf := balance_factor t in
      if bf <? -1 then
        if 0 <? balance_factor l
        then rotate_right (Node (rotate_left l) o r)
        else rotate_right t
      else if 1 <? bf then
        if balance_factor r <? 0
        then rotate_left (Node l o (rotate_right r))
        else rotate_left t
      else t
  end.

(** [*p] for a slot [p] that exists in [t]. *)
Fixpoint deref (t : tree) (p : slot) {struct p} : option tree :=
  match p with
  | [] => Some t
  | d :: p' =>
      match t with
      | Leaf => None
      | Node l _ r => deref (match d with GoLeft => l | GoRight => r end) p'
      end
  end.

(** [*p = f( *p )]: the objects above the slot keep their place. *)
Fixpoint update (f : tree -> tree) (t : tree) (p : slot) {struct p} : tree :=
  match p with
  | [] => f t
  | d :: p' =>
      match t with
      | Leaf => Leaf
      | Node l o r =>
          match d with
          | GoLeft => Node (update f l p') o r
          | GoRight => Node l o (update f r p')
          end
      end
  end.

(** [*dest = obj], for an object whose node header has been initialised
    (both children NULL), as the callers of the insertion do. *)
Definition store (t : tree) (dest : slot) (ob : obj) : tree :=
  update (fun _ => Node Leaf ob Leaf) t dest.

(** Modelled from the spec: the [STACK_PUSH] macro is not in
    [avl_insert.c.h]; the array has [MAX_TREE_HEIGHT] entries and
    "maximum-tree-height exceeded" is a fatal condition.  The head of the
    list is [STACK_TOP()]. *)
Definition STACK_PUSH (s : slot) (stack : list slot) : option (list slot) :=
  if (List.length stack <? MAX_TREE_HEIGHT)%nat then Some (s :: stack) else None.

Inductive descent :=
| Found_slot (dest : slot) (stack : list slot)
| Already_exists
| Stack_overflow.

(** The loop [while ( *dest ) { ... }].  [sub] is [*dest]; on entry of every
    iteration [STACK_TOP()] is [dest], so that [*root_obj_ref] is [sub]. *)
Fixpoint descend (ob : obj) (sub : tree) (dest : slot) (stack : list slot)
  : descent :=
  match sub with
  | Leaf => Found_slot dest stack
  | Node l o r =>
      let c := CMP ob o in
      if c =? 0 then Already_exists
      else
        let dest' := dest ++ [if c <? 0 then GoLeft else GoRight] in
        match STACK_PUSH dest' stack with
        | None => Stack_overflow
        | Some stack' => descend ob (if c <? 0 then l else r) dest' stack'
        end
  end.

(** [while (stack_size > 0) BALANCE(STACK_POP());] *)
Definition rebalance (t : tree) (stack : list slot) : tree :=
  fold_left (update balance) stack t.

(** What a call leaves behind: the value returned and the tree under
    [*root_obj_ref], or a fatal overflow of the slot stack. *)
Inductive insert_result :=
| Returned (ok : bool) (t : tree)
| Fatal_overflow.

Definition bintree_insert_internal (root : tree) (ob : obj) : insert_result :=
  match root with
  | Leaf => Returned true (Node Leaf ob Leaf)
  | Node _ _ _ =>
      match STACK_PUSH [] [] with
      | None => Fatal_overflow
      | Some stack =>
          match descend ob root [] stack with
          | Already_exists => Returned false root
          | Stack_overflow => Fatal_overflow
          | Found_slot dest stack' =>
              Returned true (rebalance (store root dest ob) stack')
          end
      end
  end.

(** A run of insertions all of which return [true]. *)
Fixpoint insert_all (t : tree) (objs : list obj) : option tree :=
  match objs with
  | [] => Some t
  | x :: xs =>
      match bintree_insert_internal t x with
      | Returned true t' => insert_all t' xs
      | _ => None
      end
  end.

(** Every node's balance factor is -1, 0 or +1. *)
Fixpoint balanced (t : tree) : Prop :=
  match t with
  | Leaf => True
  | Node l _ r => -1 <= balance_factor t <= 1 /\ balanced l /\ balanced r
  end.

Fixpoint all_objs (P : obj -> Prop) (t : tree) : Prop :=
  match t with
  | Leaf => True
  | Node l o r => P o /\ all_objs P l /\ all_objs P r
  end.

(** Search order with respect to [CMP]. *)
Fixpoint ordered (t : tree) : Prop :=
  match t with
  | Leaf => True
  | Node l o r =>
      all_objs (fun x => CMP x o < 0) l /\ all_objs (fun x => 0 < CMP x o) r
      /\ ordered l /\ ordered r
  end.

(** What makes [CMP] a three-way comparison for a total order. *)
Record three_way : Prop := {
  cmp_flip : forall x y, CMP x y < 0 <-> 0 < CMP y x;
  cmp_trans : forall x y z, CMP x y < 0 -> CMP y z < 0 -> CMP x z < 0;
  cmp_eq_l : forall x y z, CMP x y = 0 -> CMP y z < 0 -> CMP x z < 0;
  cmp_eq_r : forall x y z, CMP x y = 0 -> CMP z y < 0 -> CMP z x < 0
}.

(** The least number of nodes of a balanced tree of a given height. *)
Fixpoint min_nodes (h : nat) : nat :=
  match h with
  | O => 0%nat
  | S h' =>
      match h' with
      | O => 1%nat
      | S h'' => S (min_nodes h' + min_nodes h'')
      end
  end.

(** The insertion as a recursive function, used to reason about the
    loop-and-stack formulation above: [None] when an equal object is met. *)
Fixpoint insert_rec (ob : obj) (t : tree) : option tree :=
  match t with
  | Leaf => Some (Node Leaf ob Leaf)
  | Node l o r =>
      let c := CMP ob o in
      if c =? 0 then None
      else if c <? 0
      then option_map (fun l' => balance (Node l' o r)) (insert_rec ob l)
      else option_map (fun r' => balance (Node l o r')) (insert_rec ob r)
  end.

(** Number of [STACK_PUSH]es the loop performs on [sub]. *)
Fixpoint pushes (ob : obj) (sub : tree) : nat :=
  match sub with
  | Leaf => 0%nat
  | Node l o r =>
      let c := CMP ob o in
      if c =? 0 then 0%nat
      else S (pushes ob (if c <? 0 then l else r))
  end.

End Engine.

Arguments Leaf {obj}.
Arguments Node {obj} _ _ _.
Arguments Returned {obj} _ _.
Arguments Fatal_overflow {obj}.

(** Modelled from the spec: [bintree_insrem_ptr_cmp], the comparator of the
    [BINTREE_PTR_FUNCS] variant, is not in [avl_insert.c.h]: "a fixed
    comparator that orders by a pointer-like field read at a
    caller-specified offset inside each host object".  [read_field o off]
    is the field of [o] at offset [off]. *)
Definition bintree_insrem_ptr_cmp {obj : Type} (read_field : obj -> Z -> Z)
  (a b : obj) (field_off : Z) : Z :=
  match read_field a field_off ?= read_field b field_off with
  | Lt => -1
  | Eq => 0
  | Gt => 1
  end.

(** The same body compiled with [BINTREE_PTR_FUNCS]. *)
Definition bintree_insert_ptr_internal {obj : Type}
  (read_field : obj -> Z -> Z) (MAX_TREE_HEIGHT : nat)
  (root : tree obj) (ob : obj) (field_off : Z) : insert_result obj :=
  bintree_insert_internal obj
    (fun a b => bintree_insrem_ptr_cmp read_field a b field_off)
    MAX_TREE_HEIGHT root ob.

End Bintree.

(** *** The VFS dispatch layer ([vfs.c]) *)

Module Vfs.

(** Modelled from the spec: the error codes ([-ENOENT], [-EBADF], [-EINVAL],
    [-ESPIPE], [-ENOTTY]) and the create flag.  Their values are in headers
    that are not part of the sources at hand; the usual Linux values are
    taken. *)
Definition ENOENT : Z := 2.
Definition EBADF : Z := 9.
Definition EINVAL : Z := 22.
Definition ENOTTY : Z := 25.
Definition ESPIPE : Z := 29.
Definition O_CREAT : Z := 64.

(** Wrap-around of [u32] arithmetic. *)
Definition u32 (x : Z) : Z := x mod 2 ^ 32.

(** Ways in which a call does not return: a failed [ASSERT] (with the
    expression asserted), a [panic], a read outside a string. *)
Inductive fatal :=
| Assert_failed (expr : string)
| Panic (msg : string)
| Out_of_bounds.

Inductive outcome (A : Type) :=
| Done (a : A)
| Fatal (f : fatal).

Arguments Done {A} _.
Arguments Fatal {A} _.

Definition obind {A B} (x : outcome A) (k : A -> outcome B) : outcome B :=
  match x with
  | Done a => k a
  | Fatal f => Fatal f
  end.

Notation "'let*' x := c 'in' k" := (obind c (fun x => k))
  (at level 10, x name, c at level 100, k at level 200).

Definition NUL : ascii := Ascii.zero.
Definition SLASH : ascii := "/"%char.

(** [s[i]] for a C string whose characters before the terminator are [s]:
    position [length s] holds the terminator, anything beyond is outside
    the array. *)
Definition char_at (s : string) (i : Z) : outcome ascii :=
  if (0 <=? i) && (i <=? Z.of_nat (String.length s)) then
    match String.get (Z.to_nat i) s with
    | Some c => Done c
    | None => Done NUL
    end
  else Fatal Out_of_bounds.

(** C's [strlen]: the position of the first NUL. *)
Fixpoint strlen (s : string) : Z :=
  match s with
  | EmptyString => 0
  | String c s' => if Ascii.eqb c NUL then 0 else 1 + strlen s'
  end.

(** [path + n] as a C string. *)
Fixpoint advance (s : string) (n : nat) : string :=
  match n with
  | O => s
  | S n' =>
      match s with
      | EmptyString => EmptyString
      | String _ s' => advance s' n'
      end
  end.

(** [ASSERT(expr)] in code that touches no state. *)
Definition ASSERT_pure (expr : string) (b : bool) : outcome unit :=
  if b then Done tt else Fatal (Assert_failed expr).

(** The [for] loop of [check_mountpoint_match]; [n] is [min_len - i]. *)
Fixpoint match_loop (n : nat) (mp path : string) (i m : Z) : outcome Z :=
  match n with
  | O => Done m
  | S n' =>
      let* a := char_at mp i in
      let* b := char_at path i in
      if negb (Ascii.eqb a b) then Done m
      else match_loop n' mp path (i + 1) (u32 (m + 1))
  end.

Definition check_mountpoint_match (mp : string) (lm : Z) (path : string)
  (lp : Z) : outcome Z :=
  let min_len := Z.min lm lp in
  let* last := char_at mp (u32 (lm - 1)) in
  let* _ := ASSERT_pure "mp[lm-1] == '/'" (Ascii.eqb last SLASH) in
  let* m := match_loop (Z.to_nat min_len) mp path 0 0 in
  let* _ := ASSERT_pure "m > 0" (0 <? m) in
  let* c := char_at mp m in
  if negb (Ascii.eqb c NUL) then
    if Ascii.eqb c SLASH then
      let* c1 := char_at mp (u32 (m + 1)) in
      if Ascii.eqb c1 NUL then
        let* p := char_at path m in
        if Ascii.eqb p NUL then Done m else Done 0
      else Done 0
    else Done 0
  else
    let* p := char_at path (u32 (m - 1)) in
    if negb (Ascii.eqb p SLASH) && negb (Ascii.eqb p NUL) then Done 0
    else Done m.

(** Calls that leave the dispatch layer, in the order they are made. *)
Inductive event :=
| Fs_open (fs : N) (fs_path : string) (flags mode : Z)
| Fs_close (fs h : N)
| Fs_dup (fs h : N)
| Fs_getdents64 (fs h : N)
| Fs_exlock (fs : N)
| Fs_exunlock (fs : N)
| Fs_shlock (fs : N)
| Fs_shunlock (fs : N)
| H_read (h : N)
| H_write (h : N)
| H_seek (h : N) (off whence : Z)
| H_ioctl (h : N)
| H_stat (h : N)
| H_fcntl (h : N)
| H_exlock (h : N)
| H_exunlock (h : N)
| H_shlock (h : N)
| H_shunlock (h : N)
| H_read_ready (h : N)
| H_write_ready (h : N)
| H_except_ready (h : N)
| H_get_rready_cond (h : N)
| H_get_wready_cond (h : N)
| H_get_except_cond (h : N)
| Remove_all_mappings (h : N)
| Mp_iter_begin
| Mp_iter_end.

Section Dispatch.

(** Everything the filesystems and the rest of the kernel keep. *)
Context {fsdata : Type}.

(** What a hook may read and write: the reference counts of the
    filesystems (by address) and the data above. *)
Record world := {
  ref_count : N -> Z;
  data : fsdata
}.

Definition hook (A : Type) := world -> A * world.

(** The structures are declared in headers that are not at hand; they are
    given the fields [vfs.c] uses.

    [fops] of a handle; a NULL entry is [None].  Handles and buffers are
    passed by address. *)
Record file_ops := {
  read : option (N -> Z -> Z -> hook Z);
  write : option (N -> Z -> Z -> hook Z);
  seek : option (N -> Z -> Z -> hook Z);
  ioctl : option (N -> Z -> Z -> hook Z);
  stat : option (N -> Z -> hook Z);
  fcntl : option (N -> Z -> Z -> hook Z);
  exlock : option (N -> hook unit);
  exunlock : option (N -> hook unit);
  shlock : option (N -> hook unit);
  shunlock : option (N -> hook unit);
  read_ready : option (N -> hook bool);
  write_ready : option (N -> hook bool);
  except_ready : option (N -> hook bool);
  get_rready_cond : option (N -> hook Z);
  get_wready_cond : option (N -> hook Z);
  get_except_cond : option (N -> hook Z)
}.

(** [open] and [dup] return [rc] and what they stored through the output
    pointer. *)
Record filesystem := {
  fs_addr : N;
  open : string -> Z -> Z -> hook (Z * Z);
  close : N -> hook unit;
  dup : N -> hook (Z * Z);
  getdents64 : option (N -> Z -> Z -> hook Z);
  fs_exlock : option (hook unit);
  fs_exunlock : option (hook unit);
  fs_shlock : option (hook unit);
  fs_shunlock : option (hook unit)
}.

Record fs_handle_base := {
  h_addr : N;
  fs : filesystem;
  fops : file_ops
}.

Record mountpoint := {
  mp_fs : filesystem;
  path_len : Z;
  path : string
}.

(** [remove_all_mappings_of_handle], of the process manager. *)
Variable remove_all_mappings_of_handle : N -> hook unit.

Record kstate := {
  kworld : world;
  next_device_id : Z;
  trace : list event
}.

Definition M (A : Type) := kstate -> outcome (A * kstate).

Definition ret {A} (a : A) : M A := fun s => Done (a, s).

Definition bind {A B} (c : M A) (k : A -> M B) : M B :=
  fun s =>
    match c s with
    | Done (a, s') => k a s'
    | Fatal f => Fatal f
    end.

Definition fail {A} (f : fatal) : M A := fun _ => Fatal f.

Definition lift {A} (x : outcome A) : M A :=
  fun s => match x with Done a => Done (a, s) | Fatal f => Fatal f end.

Notation "x <- c ;; k" := (bind c (fun x => k))
  (at level 61, c at next level, right associativity).
Notation "c ;; k" := (bind c (fun _ => k))
  (at level 61, right associativity).

(** [ASSERT(expr)], taken as checked: a failure is fatal. *)
Definition ASSERT (expr : string) (b : bool) : M unit :=
  if b then ret tt else fail (Assert_failed expr).

(** A call through a function pointer (or to another subsystem): it is
    recorded, then runs on the world. *)
Definition call {A} (e : event) (f : hook A) : M A :=
  fun s =>
    let (a, w) := f (kworld s) in
    Done (a, {| kworld := w;
                next_device_id := next_device_id s;
                trace := trace s ++ [e] |}).

Definition set_ref_count (w : world) (f : N) (v : Z) : world :=
  {| ref_count := fun g => if N.eqb g f then v else ref_count w g;
     data := data w |}.

(** [fs->ref_count++] and [fs->ref_count--]; the field's declaration is not
    in [vfs.c], the count is taken as an integer. *)
Definition ref_count_incr (f : filesystem) : M unit :=
  fun s =>
    Done (tt, {| kworld := set_ref_count (kworld s) (fs_addr f)
                             (ref_count (kworld s) (fs_addr f) + 1);
                 next_device_id := next_device_id s;
                 trace := trace s |}).

Definition ref_count_decr (f : filesystem) : M unit :=
  fun s =>
    Done (tt, {| kworld := set_ref_count (kworld s) (fs_addr f)
                             (ref_count (kworld s) (fs_addr f) - 1);
                 next_device_id := next_device_id s;
                 trace := trace s |}).

Definition get_ref_count (f : filesystem) : M Z :=
  fun s => Done (ref_count (kworld s) (fs_addr f), s).

Definition is_some {A} (o : option A) : bool :=
  match o with Some _ => true | None => false end.

Definition vfs_fs_exlock (f : option filesystem) : M unit :=
  match f with
  | None => fail (Assert_failed "fs != NULL")
  | Some f =>
      match fs_exlock f with
      | None => fail (Assert_failed "fs->fs_exlock")
      | Some hk => call (Fs_exlock (fs_addr f)) hk
      end
  end.

Definition vfs_fs_exunlock (f : option filesystem) : M unit :=
  match f with
  | None => fail (Assert_failed "fs != NULL")
  | Some f =>
      match fs_exunlock f with
      | None => fail (Assert_failed "fs->fs_exunlock")
      | Some hk => call (Fs_exunlock (fs_addr f)) hk
      end
  end.

Definition vfs_fs_shlock (f : option filesystem) : M unit :=
  match f with
  | None => fail (Assert_failed "fs != NULL")
  | Some f =>
      match fs_shlock f with
      | None => fail (Assert_failed "fs->fs_shlock")
      | Some hk => call (Fs_shlock (fs_addr f)) hk
      end
  end.

Definition vfs_fs_shunlock (f : option filesystem) : M unit :=
  match f with
  | None => fail (Assert_failed "fs != NULL")
  | Some f =>
      match fs_shunlock f with
      | None => fail (Assert_failed "fs->fs_shunlock")
      | Some hk => call (Fs_shunlock (fs_addr f)) hk
      end
  end.

(** Modelled from the spec: [get_fs] is declared in a header that is not at
    hand; a handle "carries a back-reference to its owning filesystem". *)
Definition get_fs (hb : fs_handle_base) : option filesystem := Some (fs hb).

(** A NULL handle is [None]. *)
Definition vfs_exlock (h : option fs_handle_base) : M unit :=
  match h with
  | None => fail (Assert_failed "hb != NULL")
  | Some hb =>
      match exlock (fops hb) with
      | Some hk => call (H_exlock (h_addr hb)) (hk (h_addr hb))
      | None =>
          ASSERT "!hb->fops.exunlock" (negb (is_some (exunlock (fops hb)))) ;;
          vfs_fs_exlock (get_fs hb)
      end
  end.

Definition vfs_exunlock (h : option fs_handle_base) : M unit :=
  match h with
  | None => fail (Assert_failed "hb != NULL")
  | Some hb =>
      match exunlock (fops hb) with
      | Some hk => call (H_exunlock (h_addr hb)) (hk (h_addr hb))
      | None =>
          ASSERT "!hb->fops.exlock" (negb (is_some (exlock (fops hb)))) ;;
          vfs_fs_exunlock (get_fs hb)
      end
  end.

Definition vfs_shlock (h : option fs_handle_base) : M unit :=
  match h with
  | None => fail (Assert_failed "hb != NULL")
  | Some hb =>
      match shlock (fops hb) with
      | Some hk => call (H_shlock (h_addr hb)) (hk (h_addr hb))
      | None =>
          ASSERT "!hb->fops.shunlock" (negb (is_some (shunlock (fops hb)))) ;;
          vfs_fs_shlock (get_fs hb)
      end
  end.

Definition vfs_shunlock (h : option fs_handle_base) : M unit :=
  match h with
  | None => fail (Assert_failed "hb != NULL")
  | Some hb =>
      match shunlock (fops hb) with
      | Some hk => call (H_shunlock (h_addr hb)) (hk (h_addr hb))
      | None =>
          ASSERT "!hb->fops.shlock" (negb (is_some (shlock (fops hb)))) ;;
          vfs_fs_shunlock (get_fs hb)
      end
  end.

(** The scan of the registered mountpoints in [vfs_open], in the order
    [mountpoint_get_next] yields them: the best match so far and its
    length. *)
Fixpoint best_match_scan (mps : list mountpoint) (p : string) (pl : Z)
  (best_match : option mountpoint) (best_match_len : Z)
  : outcome (option mountpoint * Z) :=
  match mps with
  | [] => Done (best_match, best_match_len)
  | mp :: rest =>
      let* len := check_mountpoint_match (path mp) (path_len mp) p pl in
      if best_match_len <? len
      then best_match_scan rest p pl (Some mp) len
      else best_match_scan rest p pl best_match best_match_len
  end.

(** [fs_path = (best_match_len < pl) ? path + best_match_len - 1 : "/"] *)
Definition fs_path_of (p : string) (pl best_match_len : Z) : string :=
  if best_match_len <? pl
  then advance p (Z.to_nat (best_match_len - 1))
  else "/"%string.

(** Calls of the mountpoint cursor, which is not in [vfs.c]: they are
    recorded and leave the world as it is. *)
Definition tick (e : event) : M unit :=
  call e (fun w => (tt, w)).

(** [vfs_open]; [mps] is what the mountpoint cursor enumerates.  The result
    is [rc] and the handle stored through [out] (0 for none). *)
Definition vfs_open (mps : list mountpoint) (p : string) (flags mode : Z)
  : M (Z * Z) :=
  c <- lift (char_at p 0) ;;
  (if negb (Ascii.eqb c SLASH)
   then fail (Panic "vfs_open() works only with absolute paths")
   else ret tt) ;;
  let pl := u32 (strlen p) in
  tick Mp_iter_begin ;;
  r <- lift (best_match_scan mps p pl None 0) ;;
  match r with
  | (None, _) =>
      tick Mp_iter_end ;;
      ret (- ENOENT, 0)
  | (Some best_match, best_match_len) =>
      let f := mp_fs best_match in
      let fs_path := fs_path_of p pl best_match_len in
      r <- (if negb (Z.land flags O_CREAT =? 0) then
              vfs_fs_exlock (Some f) ;;
              r <- call (Fs_open (fs_addr f) fs_path flags mode)
                        (open f fs_path flags mode) ;;
              vfs_fs_exunlock (Some f) ;;
              ret r
            else
              vfs_fs_shlock (Some f) ;;
              r <- call (Fs_open (fs_addr f) fs_path flags mode)
                        (open f fs_path flags mode) ;;
              vfs_fs_shunlock (Some f) ;;
              ret r) ;;
      (if fst r =? 0 then ref_count_incr f else ret tt) ;;
      tick Mp_iter_end ;;
      ret r
  end.

Definition vfs_close (hb : fs_handle_base) : M unit :=
  let f := fs hb in
  call (Remove_all_mappings (h_addr hb))
       (remove_all_mappings_of_handle (h_addr hb)) ;;
  call (Fs_close (fs_addr (fs hb)) (h_addr hb)) (close (fs hb) (h_addr hb)) ;;
  ref_count_decr f ;;
  n <- get_ref_count f ;;
  ASSERT "fs->ref_count > 0" (0 <? n).

Definition vfs_dup (h : option fs_handle_base) : M (Z * Z) :=
  match h with
  | None => ret (- EBADF, 0)
  | Some hb =>
      r <- call (Fs_dup (fs_addr (fs hb)) (h_addr hb))
                (dup (fs hb) (h_addr hb)) ;;
      if negb (fst r =? 0) then ret r
      else
        ref_count_incr (fs hb) ;;
        ASSERT "*dup_h != NULL" (negb (snd r =? 0)) ;;
        ret (0, snd r)
  end.

(** The functions below dereference the handle at once: it is not NULL. *)
Definition vfs_read (hb : fs_handle_base) (buf buf_size : Z) : M Z :=
  match read (fops hb) with
  | None => ret (- EINVAL)
  | Some hk =>
      vfs_shlock (Some hb) ;;
      r <- call (H_read (h_addr hb)) (hk (h_addr hb) buf buf_size) ;;
      vfs_shunlock (Some hb) ;;
      ret r
  end.

Definition vfs_write (hb : fs_handle_base) (buf buf_size : Z) : M Z :=
  match write (fops hb) with
  | None => ret (- EINVAL)
  | Some hk =>
      vfs_exlock (Some hb) ;;
      r <- call (H_write (h_addr hb)) (hk (h_addr hb) buf buf_size) ;;
      vfs_exunlock (Some hb) ;;
      ret r
  end.

(** [off_t] is the type of the hook's argument; the conversion of [off] to
    it is left to the hook. *)
Definition vfs_seek (hb : fs_handle_base) (off whence : Z) : M Z :=
  match seek (fops hb) with
  | None => ret (- ESPIPE)
  | Some hk => call (H_seek (h_addr hb) off whence) (hk (h_addr hb) off whence)
  end.

Definition vfs_ioctl (hb : fs_handle_base) (request argp : Z) : M Z :=
  match ioctl (fops hb) with
  | None => ret (- ENOTTY)
  | Some hk =>
      vfs_exlock (Some hb) ;;
      r <- call (H_ioctl (h_addr hb)) (hk (h_addr hb) request argp) ;;
      vfs_exunlock (Some hb) ;;
      ret r
  end.

Definition vfs_stat64 (hb : fs_handle_base) (statbuf : Z) : M Z :=
  match stat (fops hb) with
  | None => fail (Assert_failed "hb->fops.stat != NULL")
  | Some hk =>
      vfs_shlock (Some hb) ;;
      r <- call (H_stat (h_addr hb)) (hk (h_addr hb) statbuf) ;;
      vfs_shunlock (Some hb) ;;
      ret r
  end.

Definition vfs_getdents64 (h : option fs_handle_base) (user_dirp buf_size : Z)
  : M Z :=
  match h with
  | None => fail (Assert_failed "hb != NULL")
  | Some hb =>
      match getdents64 (fs hb) with
      | None => fail (Assert_failed "hb->fs->getdents64")
      | Some hk =>
          vfs_fs_shlock (Some (fs hb)) ;;
          rc <- call (Fs_getdents64 (fs_addr (fs hb)) (h_addr hb))
                     (hk (h_addr hb) user_dirp buf_size) ;;
          vfs_fs_shunlock (Some (fs hb)) ;;
          ret rc
      end
  end.

Definition vfs_fcntl (hb : fs_handle_base) (cmd arg : Z) : M Z :=
  match fcntl (fops hb) with
  | None => ret (- EINVAL)
  | Some hk =>
      vfs_exlock (Some hb) ;;
      r <- call (H_fcntl (h_addr hb)) (hk (h_addr hb) cmd arg) ;;
      vfs_exunlock (Some hb) ;;
      ret r
  end.

(** [return next_device_id++;] on the [u32] counter. *)
Definition vfs_get_new_device_id : M Z :=
  fun s =>
    Done (next_device_id s,
          {| kworld := kworld s;
             next_device_id := u32 (next_device_id s + 1);
             trace := trace s |}).

Definition vfs_read_ready (hb : fs_handle_base) : M bool :=
  match read_ready (fops hb) with
  | None => ret true
  | Some hk =>
      vfs_shlock (Some hb) ;;
      r <- call (H_read_ready (h_addr hb)) (hk (h_addr hb)) ;;
      vfs_shunlock (Some hb) ;;
      ret r
  end.

Definition vfs_write_ready (hb : fs_handle_base) : M bool :=
  match write_ready (fops hb) with
  | None => ret true
  | Some hk =>
      vfs_shlock (Some hb) ;;
      r <- call (H_write_ready (h_addr hb)) (hk (h_addr hb)) ;;
      vfs_shunlock (Some hb) ;;
      ret r
  end.

Definition vfs_except_ready (hb : fs_handle_base) : M bool :=
  match except_ready (fops hb) with
  | None => ret false
  | Some hk =>
      vfs_shlock (Some hb) ;;
      r <- call (H_except_ready (h_addr hb)) (hk (h_addr hb)) ;;
      vfs_shunlock (Some hb) ;;
      ret r
  end.

(** A [kcond *] is an address, NULL is 0. *)
Definition vfs_get_rready_cond (hb : fs_handle_base) : M Z :=
  match get_rready_cond (fops hb) with
  | None => ret 0
  | Some hk => call (H_get_rready_cond (h_addr hb)) (hk (h_addr hb))
  end.

Definition vfs_get_wready_cond (hb : fs_handle_base) : M Z :=
  match get_wready_cond (fops hb) with
  | None => ret 0
  | Some hk => call (H_get_wready_cond (h_addr hb)) (hk (h_addr hb))
  end.

Definition vfs_get_except_cond (hb : fs_handle_base) : M Z :=
  match get_except_cond (fops hb) with
  | None => ret 0
  | Some hk => call (H_get_except_cond (h_addr hb)) (hk (h_addr hb))
  end.

(** [n] calls of [vfs_get_new_device_id] in a row: the state they leave
    and the value the next call returns. *)
Definition after_device_ids (n : N) (s : kstate) : kstate :=
  N.iter n
    (fun s => match vfs_get_new_device_id s with
              | Done (_, s') => s'
              | Fatal _ => s
              end) s.

Definition nth_device_id (n : N) (s : kstate) : Z :=
  match vfs_get_new_device_id (after_device_ids n s) with
  | Done (id, _) => id
  | Fatal _ => -1
  end.

(** The state at boot: the counter is a zero-initialised static. *)
Definition boot (w : world) : kstate :=
  {| kworld := w; next_device_id := 0; trace := [] |}.

(** Each per-handle lock hook comes with its unlock hook. *)
Definition paired_hooks (ops : file_ops) : bool :=
  Bool.eqb (is_some (exlock ops)) (is_some (exunlock ops)) &&
  Bool.eqb (is_some (shlock ops)) (is_some (shunlock ops)).

(** The four whole-filesystem lock operations are there. *)
Definition fs_locks_present (f : filesystem) : bool :=
  is_some (fs_exlock f) && is_some (fs_exunlock f) &&
  is_some (fs_shlock f) && is_some (fs_shunlock f).

(** A hook that leaves the reference counts alone. *)
Definition keeps_ref_counts {A} (hk : hook A) : Prop :=
  forall w g, ref_count (snd (hk w)) g = ref_count w g.

Definition keeps_if_present {A} (o : option (hook A)) : Prop :=
  match o with
  | Some hk => keeps_ref_counts hk
  | None => True
  end.

Definition fs_keeps_ref_counts (f : filesystem) : Prop :=
  (forall p flags mode, keeps_ref_counts (open f p flags mode)) /\
  (forall h, keeps_ref_counts (close f h)) /\
  (forall h, keeps_ref_counts (dup f h)) /\
  keeps_if_present (fs_exlock f) /\ keeps_if_present (fs_exunlock f) /\
  keeps_if_present (fs_shlock f) /\ keeps_if_present (fs_shunlock f).

(** The events a call added to the trace. *)
Definition added (s s' : kstate) (es : list event) : Prop :=
  trace s' = trace s ++ es.

(** What the scan and the choice of [fs_path] in [vfs_open] come to: the
    mountpoint that serves [p] and the path handed to its filesystem, or
    [None] when no mountpoint matches. *)
Definition resolve (mps : list mountpoint) (p : string)
  : outcome (option (mountpoint * string)) :=
  let pl := u32 (strlen p) in
  let* r := best_match_scan mps p pl None 0 in
  match r with
  | (None, _) => Done None
  | (Some mp, best_match_len) =>
      Done (Some (mp, fs_path_of p pl best_match_len))
  end.

(** [vfs_open] of [p] calls the [open] operation of [f] on [fp], under the
    lock of [f] that the create flag asks for, and returns what it
    returned. *)
Definition reaches (mps : list mountpoint) (p : string) (f : filesystem)
  (fp : string) : Prop :=
  forall (flags mode : Z) (s : kstate) (lk ulk : hook unit),
    let creat := negb (Z.land flags O_CREAT =? 0) in
    (if creat then fs_exlock f else fs_shlock f) = Some lk ->
    (if creat then fs_exunlock f else fs_shunlock f) = Some ulk ->
    exists s',
      vfs_open mps p flags mode s =
      Done (fst (open f fp flags mode (snd (lk (kworld s)))), s') /\
      added s s' [Mp_iter_begin;
                  if creat then Fs_exlock (fs_addr f) else Fs_shlock (fs_addr f);
                  Fs_open (fs_addr f) fp flags mode;
                  if creat then Fs_exunlock (fs_addr f)
                  else Fs_shunlock (fs_addr f);
                  Mp_iter_end].

(** The calls that touch reference counts, and runs of them. *)
Inductive vfs_call :=
| Call_open (mps : list mountpoint) (p : string) (flags mode : Z)
| Call_close (hb : fs_handle_base)
| Call_dup (h : option fs_handle_base).

Definition forget {A} (x : outcome (A * kstate)) : outcome kstate :=
  match x with
  | Done (_, s) => Done s
  | Fatal e => Fatal e
  end.

Definition step (c : vfs_call) (s : kstate) : outcome kstate :=
  match c with
  | Call_open mps p flags mode => forget (vfs_open mps p flags mode s)
  | Call_close hb => forget (vfs_close hb s)
  | Call_dup h => forget (vfs_dup h s)
  end.

Fixpoint run (calls : list vfs_call) (s : kstate) : outcome kstate :=
  match calls with
  | [] => Done s
  | c :: rest =>
      match step c s with
      | Done s' => run rest s'
      | Fatal e => Fatal e
      end
  end.

(** The filesystems a call may reach leave the reference counts alone. *)
Definition call_keeps_ref_counts (c : vfs_call) : Prop :=
  match c with
  | Call_open mps _ _ _ => Forall (fun mp => fs_keeps_ref_counts (mp_fs mp)) mps
  | Call_close hb => fs_keeps_ref_counts (fs hb)
  | Call_dup (Some hb) => fs_keeps_ref_counts (fs hb)
  | Call_dup None => True
  end.

End Dispatch.

Arguments world : clear implicits.
Arguments hook : clear implicits.
Arguments file_ops : clear implicits.
Arguments filesystem : clear implicits.
Arguments fs_handle_base : clear implicits.
Arguments mountpoint : clear implicits.
Arguments kstate : clear implicits.
Arguments M : clear implicits.
Arguments vfs_call : clear implicits.

(** **** A small configuration to run the definitions on *)

Definition idle {A} (a : A) : hook unit A := fun w => (a, w).

Definition no_ops : file_ops unit :=
  {| read := None; write := None; seek := None; ioctl := None; stat := None;
     fcntl := None; exlock := None; exunlock := None; shlock := None;
     shunlock := None; read_ready := None; write_ready := None;
     except_ready := None; get_rready_cond := None; get_wready_cond := None;
     get_except_cond := None |}.

(** A handle with a hook to take the exclusive lock and none to release
    it. *)
Definition exlock_only : file_ops unit :=
  {| read := None; write := None; seek := None; ioctl := None; stat := None;
     fcntl := None; exlock := Some (fun _ => idle tt); exunlock := None;
     shlock := None; shunlock := None; read_ready := None;
     write_ready := None; except_ready := None; get_rready_cond := None;
     get_wready_cond := None; get_except_cond := None |}.

(** A handle with every operation and its own lock hooks. *)
Definition all_ops : file_ops unit :=
  {| read := Some (fun _ _ n => idle n);
     write := Some (fun _ _ n => idle n);
     seek := Some (fun _ off _ => idle off);
     ioctl := Some (fun _ _ _ => idle 0);
     stat := Some (fun _ _ => idle 0);
     fcntl := Some (fun _ _ _ => idle 0);
     exlock := Some (fun _ => idle tt);
     exunlock := Some (fun _ => idle tt);
     shlock := Some (fun _ => idle tt);
     shunlock := Some (fun _ => idle tt);
     read_ready := Some (fun _ => idle false);
     write_ready := Some (fun _ => idle false);
     except_ready := Some (fun _ => idle true);
     get_rready_cond := Some (fun _ => idle 4096);
     get_wready_cond := Some (fun _ => idle 4100);
     get_except_cond := Some (fun _ => idle 4104) |}.

Definition demo_fs (addr : N) : filesystem unit :=
  {| fs_addr := addr;
     open := fun _ _ _ => idle (0, 512);
     close := fun _ => idle tt;
     dup := fun _ => idle (0, 516);
     getdents64 := Some (fun _ _ _ => idle 0);
     fs_exlock := Some (idle tt);
     fs_exunlock := Some (idle tt);
     fs_shlock := Some (idle tt);
     fs_shunlock := Some (idle tt) |}.

Definition demo_handle (ops : file_ops unit) : fs_handle_base unit :=
  {| h_addr := 512%N; fs := demo_fs 1; fops := ops |}.

Definition demo_root : mountpoint unit :=
  {| mp_fs := demo_fs 1; path_len := 1; path := "/"%string |}.

Definition demo_dev : mountpoint unit :=
  {| mp_fs := demo_fs 2; path_len := 5; path := "/dev/"%string |}.

(** Every mounted filesystem holds the reference of its mount. *)
Definition demo_state : kstate unit :=
  boot {| ref_count := fun _ => 1; data := tt |}.

Definition demo_unmap : N -> hook unit unit := fun _ => idle tt.

End Vfs.

(** *** The operations of [vfs.c] on an open handle, taken together *)

Module VfsOps.

Import Vfs.

Section Ops.

Context {fsdata : Type}.

Inductive lock_mode := Shared | Exclusive.

(** The functions of [vfs.c] that run a hook of the handle between a lock
    and an unlock. *)
Inductive handle_op :=
| Op_read (buf buf_size : Z)
| Op_write (buf buf_size : Z)
| Op_ioctl (request argp : Z)
| Op_stat64 (statbuf : Z)
| Op_fcntl (cmd arg : Z)
| Op_read_ready
| Op_write_ready
| Op_except_ready.

Definition bool_to_Z (b : bool) : Z := if b then 1 else 0.

Definition value {A} (f : A -> Z) (x : outcome (A * kstate fsdata))
  : outcome (Z * kstate fsdata) :=
  match x with
  | Done (a, s) => Done (f a, s)
  | Fatal e => Fatal e
  end.

(** A call of the function; a [bool] result is given as 0 or 1. *)
Definition run_op (hb : fs_handle_base fsdata) (op : handle_op)
  : M fsdata Z :=
  fun s =>
    match op with
    | Op_read buf n => vfs_read hb buf n s
    | Op_write buf n => vfs_write hb buf n s
    | Op_ioctl request argp => vfs_ioctl hb request argp s
    | Op_stat64 statbuf => vfs_stat64 hb statbuf s
    | Op_fcntl cmd arg => vfs_fcntl hb cmd arg s
    | Op_read_ready => value bool_to_Z (vfs_read_ready hb s)
    | Op_write_ready => value bool_to_Z (vfs_write_ready hb s)
    | Op_except_ready => value bool_to_Z (vfs_except_ready hb s)
    end.

(** The hook an operation runs, applied to its arguments, if the handle
    has it. *)
Definition hook_of (hb : fs_handle_base fsdata) (op : handle_op)
  : option (hook fsdata Z) :=
  let h := h_addr hb in
  let as_Z (hk : hook fsdata bool) : hook fsdata Z :=
    fun w => (bool_to_Z (fst (hk w)), snd (hk w)) in
  match op with
  | Op_read buf n => option_map (fun hk => hk h buf n) (read (fops hb))
  | Op_write buf n => option_map (fun hk => hk h buf n) (write (fops hb))
  | Op_ioctl request argp =>
      option_map (fun hk => hk h request argp) (ioctl (fops hb))
  | Op_stat64 statbuf => option_map (fun hk => hk h statbuf) (stat (fops hb))
  | Op_fcntl cmd arg => option_map (fun hk => hk h cmd arg) (fcntl (fops hb))
  | Op_read_ready => option_map (fun hk => as_Z (hk h)) (read_ready (fops hb))
  | Op_write_ready => option_map (fun hk => as_Z (hk h)) (write_ready (fops hb))
  | Op_except_ready =>
      option_map (fun hk => as_Z (hk h)) (except_ready (fops hb))
  end.

(** What is recorded when that hook is called. *)
Definition hook_event (hb : fs_handle_base fsdata) (op : handle_op) : event :=
  let h := h_addr hb in
  match op with
  | Op_read _ _ => H_read h
  | Op_write _ _ => H_write h
  | Op_ioctl _ _ => H_ioctl h
  | Op_stat64 _ => H_stat h
  | Op_fcntl _ _ => H_fcntl h
  | Op_read_ready => H_read_ready h
  | Op_write_ready => H_write_ready h
  | Op_except_ready => H_except_ready h
  end.

(** The lock an operation is expected to take. *)
Definition mode_of (op : handle_op) : lock_mode :=
  match op with
  | Op_read _ _ | Op_stat64 _
  | Op_read_ready | Op_write_ready | Op_except_ready => Shared
  | Op_write _ _ | Op_ioctl _ _ | Op_fcntl _ _ => Exclusive
  end.

(** A lock and the unlock that releases it: both of the handle, or both of
    its filesystem, in the given mode. *)
Definition lock_pair (hb : fs_handle_base fsdata) (m : lock_mode)
  (l u : event) : Prop :=
  match m with
  | Shared =>
      (l = H_shlock (h_addr hb) /\ u = H_shunlock (h_addr hb) /\
       is_some (shlock (fops hb)) = true) \/
      (l = Fs_shlock (fs_addr (fs hb)) /\ u = Fs_shunlock (fs_addr (fs hb)) /\
       is_some (shlock (fops hb)) = false)
  | Exclusive =>
      (l = H_exlock (h_addr hb) /\ u = H_exunlock (h_addr hb) /\
       is_some (exlock (fops hb)) = true) \/
      (l = Fs_exlock (fs_addr (fs hb)) /\ u = Fs_exunlock (fs_addr (fs hb)) /\
       is_some (exlock (fops hb)) = false)
  end.

Definition lock_of (m : lock_mode)
  : option (fs_handle_base fsdata) -> M fsdata unit :=
  match m with Shared => vfs_shlock | Exclusive => vfs_exlock end.

Definition unlock_of (m : lock_mode)
  : option (fs_handle_base fsdata) -> M fsdata unit :=
  match m with Shared => vfs_shunlock | Exclusive => vfs_exunlock end.

(** What an operation returns when the handle lacks the hook; [None] where
    the lack is a failed assertion. *)
Definition default_of (op : handle_op) : option Z :=
  match op with
  | Op_read _ _ | Op_write _ _ | Op_fcntl _ _ => Some (- EINVAL)
  | Op_ioctl _ _ => Some (- ENOTTY)
  | Op_stat64 _ => None
  | Op_read_ready | Op_write_ready => Some 1
  | Op_except_ready => Some 0
  end.

(** The first [n] characters of [s]. *)
Fixpoint take (n : nat) (s : string) : string :=
  match n with
  | O => EmptyString
  | S n' =>
      match s with
      | EmptyString => EmptyString
      | String c s' => String c (take n' s')
      end
  end.

(** A mountpoint path [mp] serves [p]: [mp] is a directory [dir] followed
    by [/], and [p] is that directory itself or something below it.  [rest]
    is what follows the [/] in [p]. *)
Definition serves (mp p dir rest : string) : Prop :=
  mp = (dir ++ "/")%string /\
  (p = (dir ++ "/" ++ rest)%string \/ (p = dir /\ rest = EmptyString)).

(** No NUL before the end: the C string is the whole of [s]. *)
Definition no_nul (s : string) : Prop := strlen s = Z.of_nat (String.length s).

(** A registered mountpoint: [path_len] is the length of [path], a [u32]. *)
Definition mountpoint_ok (mp : mountpoint fsdata) : Prop :=
  path_len mp = strlen (path mp) /\ strlen (path mp) < 2 ^ 32.

End Ops.

Arguments handle_op : clear implicits.

End VfsOps.

(** *** Formatted output into a bounded buffer ([snprintk.c]) *)

Module Printk.

(** Ways in which a call does not return: a failed [ASSERT], a store outside
    the output array (at the offset given), a read of the format outside its
    characters and terminator, a read of [diuox_base] outside its 128
    entries, a number longer than [intbuf], an [int] subtraction that
    overflows, a [va_arg] that finds no argument of the kind asked for.
    [Out_of_fuel] belongs to the embedding: the loop of [vsnprintk] is run
    for a bounded number of steps. *)
Inductive stop :=
| Assert_failed (expr : string)
| Write_outside (i : Z)
| Fmt_outside (i : Z)
| Table_outside (i : Z)
| Intbuf_outside
| Int_overflow
| Va_arg_mismatch
| Out_of_fuel.

Inductive result (A : Type) :=
| Ok (a : A)
| Stop (e : stop).

Arguments Ok {A} _.
Arguments Stop {A} _.

Inductive printk_width :=
| pw_long_long
| pw_long
| pw_default
| pw_short
| pw_char.

(** A variadic argument: an integer of any width, or a string. *)
Inductive arg :=
| Arg_int (v : Z)
| Arg_str (s : string).

(** [struct snprintk_ctx], with the output array beside it: [mem] is
    [initial_buf[0 .. size)], and [buf] and [buf_end] are offsets from
    [initial_buf]. *)
Record snprintk_ctx := {
  args : list arg;
  width : printk_width;
  left_padding : Z;
  right_padding : Z;
  buf : Z;
  buf_end : Z;
  zero_lpad : bool;
  hash_sign : bool;
  intbuf : string;
  mem : list ascii
}.

Definition set_args (v : list arg) (c : snprintk_ctx) : snprintk_ctx :=
  {| args := v; width := width c; left_padding := left_padding c;
     right_padding := right_padding c; buf := buf c; buf_end := buf_end c;
     zero_lpad := zero_lpad c; hash_sign := hash_sign c; intbuf := intbuf c;
     mem := mem c |}.

Definition set_width (v : printk_width) (c : snprintk_ctx) : snprintk_ctx :=
  {| args := args c; width := v; left_padding := left_padding c;
     right_padding := right_padding c; buf := buf c; buf_end := buf_end c;
     zero_lpad := zero_lpad c; hash_sign := hash_sign c; intbuf := intbuf c;
     mem := mem c |}.

Definition set_left_padding (v : Z) (c : snprintk_ctx) : snprintk_ctx :=
  {| args := args c; width := width c; left_padding := v;
     right_padding := right_padding c; buf := buf c; buf_end := buf_end c;
     zero_lpad := zero_lpad c; hash_sign := hash_sign c; intbuf := intbuf c;
     mem := mem c |}.

Definition set_right_padding (v : Z) (c : snprintk_ctx) : snprintk_ctx :=
  {| args := args c; width := width c; left_padding := left_padding c;
     right_padding := v; buf := buf c; buf_end := buf_end c;
     zero_lpad := zero_lpad c; hash_sign := hash_sign c; intbuf := intbuf c;
     mem := mem c |}.

Definition set_buf (v : Z) (c : snprintk_ctx) : snprintk_ctx :=
  {| args := args c; width := width c; left_padding := left_padding c;
     right_padding := right_padding c; buf := v; buf_end := buf_end c;
     zero_lpad := zero_lpad c; hash_sign := hash_sign c; intbuf := intbuf c;
     mem := mem c |}.

Definition set_zero_lpad (v : bool) (c : snprintk_ctx) : snprintk_ctx :=
  {| args := args c; width := width c; left_padding := left_padding c;
     right_padding := right_padding c; buf := buf c; buf_end := buf_end c;
     zero_lpad := v; hash_sign := hash_sign c; intbuf := intbuf c;
     mem := mem c |}.

Definition set_hash_sign (v : bool) (c : snprintk_ctx) : snprintk_ctx :=
  {| args := args c; width := width c; left_padding := left_padding c;
     right_padding := right_padding c; buf := buf c; buf_end := buf_end c;
     zero_lpad := zero_lpad c; hash_sign := v; intbuf := intbuf c;
     mem := mem c |}.

Definition set_intbuf (v : string) (c : snprintk_ctx) : snprintk_ctx :=
  {| args := args c; width := width c; left_padding := left_padding c;
     right_padding := right_padding c; buf := buf c; buf_end := buf_end c;
     zero_lpad := zero_lpad c; hash_sign := hash_sign c; intbuf := v;
     mem := mem c |}.

Definition set_mem (v : list ascii) (c : snprintk_ctx) : snprintk_ctx :=
  {| args := args c; width := width c; left_padding := left_padding c;
     right_padding := right_padding c; buf := buf c; buf_end := buf_end c;
     zero_lpad := zero_lpad c; hash_sign := hash_sign c; intbuf := intbuf c;
     mem := v |}.

(** Code that works on the context and may stop. *)
Definition P (A : Type) := snprintk_ctx -> result (A * snprintk_ctx).

Definition ret {A} (a : A) : P A := fun c => Ok (a, c).

Definition bind {A B} (m : P A) (k : A -> P B) : P B :=
  fun c =>
    match m c with
    | Ok (a, c') => k a c'
    | Stop e => Stop e
    end.

Definition stop_with {A} (e : stop) : P A := fun _ => Stop e.

Definition get : P snprintk_ctx := fun c => Ok (c, c).

Definition modify (f : snprintk_ctx -> snprintk_ctx) : P unit :=
  fun c => Ok (tt, f c).

Notation "x <- m ;; k" := (bind m (fun x => k))
  (at level 61, m at next level, right associativity).
Notation "m ;; k" := (bind m (fun _ => k))
  (at level 61, right associativity).

Definition ASSERT (expr : string) (b : bool) : P unit :=
  if b then ret tt else stop_with (Assert_failed expr).

(** The conversion to [int] of a wider integer. *)
Definition to_int (z : Z) : Z := (z + 2 ^ 31) mod 2 ^ 32 - 2 ^ 31.

(** [a - b] on [int]s. *)
Definition int_sub (a b : Z) : P Z :=
  if (- 2 ^ 31 <=? a - b) && (a - b <? 2 ^ 31) then ret (a - b)
  else stop_with Int_overflow.

(** [(u8)c]. *)
Definition code (c : ascii) : Z := Z.of_N (N_of_ascii c).

(** [(char)v]. *)
Definition to_char (v : Z) : ascii := ascii_of_N (Z.to_N (v mod 256)).

Definition is_chr (c : ascii) (lit : string) : bool :=
  match lit with
  | String l EmptyString => Ascii.eqb c l
  | _ => false
  end.

(** [l[n] = c]. *)
Fixpoint update (l : list ascii) (n : nat) (c : ascii) : list ascii :=
  match l, n with
  | [], _ => []
  | _ :: l', O => c :: l'
  | x :: l', S n' => x :: update l' n' c
  end.

(** [initial_buf[i] = c]. *)
Definition store (i : Z) (c : ascii) : P unit :=
  fun st =>
    if (0 <=? i) && (i <? Z.of_nat (List.length (mem st))) then
      Ok (tt, set_mem (update (mem st) (Z.to_nat i) c) st)
    else Stop (Write_outside i).

(** [fmt[i]]: the characters of the C string [fmt] and its terminator. *)
Definition fmt_at (fmt : string) (i : Z) : P ascii :=
  if (0 <=? i) && (i <=? Vfs.strlen fmt) then
    match String.get (Z.to_nat i) fmt with
    | Some c => ret c
    | None => ret Vfs.NUL
    end
  else stop_with (Fmt_outside i).

(** The loop of [write_in_buf_str]; it returns [ptr]. *)
Fixpoint write_in_buf_str_loop (s : string) (ptr : Z) : P Z :=
  match s with
  | EmptyString => ret ptr
  | String c s' =>
      st <- get ;;
      if negb (Ascii.eqb c Vfs.NUL) && (ptr <? buf_end st) then
        store ptr c ;;
        write_in_buf_str_loop s' (ptr + 1)
      else ret ptr
  end.

(** Every call passes [&ctx->buf] and [ctx->buf_end]. *)
Definition write_in_buf_str (s : string) : P bool :=
  st <- get ;;
  ptr <- write_in_buf_str_loop s (buf st) ;;
  modify (set_buf ptr) ;;
  ret (ptr <? buf_end st).

Definition write_in_buf_char (c : ascii) : P bool :=
  st <- get ;;
  let ptr := buf st in
  store ptr c ;;
  let ptr := ptr + 1 in
  modify (set_buf ptr) ;;
  ret (ptr <? buf_end st).

Definition snprintk_ctx_reset_state : P unit :=
  modify (set_width pw_default) ;;
  modify (set_left_padding 0) ;;
  modify (set_right_padding 0) ;;
  modify (set_zero_lpad false) ;;
  modify (set_hash_sign false).

(** [WRITE_CHAR(c)]: [out] is what follows the label [out], [k] the rest. *)
Definition WRITE_CHAR {A} (c : ascii) (out k : P A) : P A :=
  ok <- write_in_buf_char c ;;
  if negb ok then out else k.

Definition write_0x_prefix (fmtX : ascii) : P bool :=
  if is_chr fmtX "x" || is_chr fmtX "p" || is_chr fmtX "o" then
    WRITE_CHAR "0" (ret false)
      (if is_chr fmtX "x" || is_chr fmtX "p" then
         WRITE_CHAR "x" (ret false) (ret true)
       else ret true)
  else ret true.

(** [for (int i = 0; i < n; i++) WRITE_CHAR(pad_char);] *)
Fixpoint write_pad (n : nat) (pad_char : ascii) : P bool :=
  match n with
  | O => ret true
  | S n' => WRITE_CHAR pad_char (ret false) (write_pad n' pad_char)
  end.

Definition write_str (fmtX : ascii) (str : string) : P bool :=
  st <- get ;;
  let sl := to_int (Vfs.strlen str) in
  dl <- int_sub (left_padding st) sl ;;
  dr <- int_sub (right_padding st) sl ;;
  let lpad := Z.max 0 dl in
  let rpad := Z.max 0 dr in
  ASSERT "!lpad || !rpad" ((lpad =? 0) || (rpad =? 0)) ;;
  let off := if is_chr fmtX "x" then 2 else if is_chr fmtX "o" then 1 else 0 in
  let lpad := if hash_sign st then Z.max 0 (lpad - off) else lpad in
  let rpad := if hash_sign st then Z.max 0 (rpad - off) else rpad in
  let pad_char :=
    if zero_lpad st && negb (is_chr fmtX "c") then "0"%char else " "%char in
  ok <- (if zero_lpad st && hash_sign st then write_0x_prefix fmtX
         else ret true) ;;
  if negb ok then ret false else
  ok <- write_pad (Z.to_nat lpad) pad_char ;;
  if negb ok then ret false else
  ok <- (if (is_chr fmtX "p" || hash_sign st) && negb (is_chr pad_char "0") then
           write_0x_prefix fmtX
         else ret true) ;;
  if negb ok then ret false else
  ok <- write_in_buf_str str ;;
  if negb ok then ret false else
  write_pad (Z.to_nat rpad) pad_char.

(** [diuox_base[i]], an array of 128 entries. *)
Definition diuox_base (i : Z) : P Z :=
  if (0 <=? i) && (i <? 128) then
    ret (if (i =? code "d") || (i =? code "i") || (i =? code "u") then 10
         else if i =? code "o" then 8
         else if i =? code "x" then 16
         else 0)
  else stop_with (Table_outside i).

(** [va_arg(ctx->args, T)] for an integer type [T], and for a string. *)
Definition va_arg_int : P Z :=
  st <- get ;;
  match args st with
  | Arg_int v :: rest => modify (set_args rest) ;; ret v
  | _ => stop_with Va_arg_mismatch
  end.

Definition va_arg_str : P string :=
  st <- get ;;
  match args st with
  | Arg_str s :: rest => modify (set_args rest) ;; ret s
  | _ => stop_with Va_arg_mismatch
  end.

(** A conversion writes its digits and a terminator into [ctx->intbuf],
    64 characters long. *)
Definition fill_intbuf (s : string) : P unit :=
  if Vfs.strlen s <? 64 then modify (set_intbuf s)
  else stop_with Intbuf_outside.

(** The functions of [<tilck/common/string_util.h>] and
    [<tilck/common/utils.h>] that [snprintk.c] calls, and the sizes behind
    [width_val].  They are not part of the sources at hand: the embedding
    takes them as given, and what is proved holds for any of them.
    [tilck_strtol fmt i] stands for [tilck_strtol(fmt + i, &fmt, 10, NULL)]
    and returns the value with the new offset of [fmt]. *)
Record string_util := {
  tilck_strtol : string -> Z -> Z * Z;
  itoa64 : Z -> string;
  itoaN : Z -> string;
  uitoa64 : Z -> Z -> string;
  uitoaN : Z -> Z -> string;
  uitoaN_hex_fixed : Z -> string;
  sign_extend : Z -> Z -> Z;
  make_bitmask : Z -> Z;
  sizeof_long : Z;
  sizeof_int : Z;
  sizeof_short : Z;
  sizeof_char : Z
}.

Section Formatting.

Variable U : string_util.

Definition width_val (w : printk_width) : Z :=
  match w with
  | pw_long_long => 0
  | pw_long => 8 * sizeof_long U
  | pw_default => 8 * sizeof_int U
  | pw_short => 8 * sizeof_short U
  | pw_char => 8 * sizeof_char U
  end.

Definition write_char_param (fmtX : ascii) : P bool :=
  v <- va_arg_int ;;
  modify (set_intbuf (String (to_char v) EmptyString)) ;;
  st <- get ;;
  write_str "c" (intbuf st).

Definition write_string_param (fmtX : ascii) : P bool :=
  s <- va_arg_str ;;
  write_str fmtX s.

Definition write_pointer_param (fmtX : ascii) : P bool :=
  v <- va_arg_int ;;
  fill_intbuf (uitoaN_hex_fixed U v) ;;
  st <- get ;;
  write_str fmtX (intbuf st).

Definition write_number_param (fmtX : ascii) : P bool :=
  st <- get ;;
  let w := width_val (width st) in
  base <- diuox_base (code fmtX) ;;
  ASSERT "base" (negb (base =? 0)) ;;
  (if is_chr fmtX "d" || is_chr fmtX "i" then
     match width st with
     | pw_long_long =>
         v <- va_arg_int ;;
         fill_intbuf (itoa64 U v)
     | _ =>
         v <- va_arg_int ;;
         fill_intbuf (itoaN U (sign_extend U v w))
     end
   else
     match width st with
     | pw_long_long =>
         v <- va_arg_int ;;
         fill_intbuf (uitoa64 U v base)
     | _ =>
         v <- va_arg_int ;;
         fill_intbuf (uitoaN U (Z.land v (make_bitmask U w)) base)
     end) ;;
  st <- get ;;
  write_str fmtX (intbuf st).

(** The places of [vsnprintk] that control reaches by a jump: the test of
    the [while] loop, and the labels. *)
Inductive label :=
| Loop
| Next_char_in_seq
| Unknown_seq
| End_sequence
| Out.

(** The [case] that the [switch] of [vsnprintk] selects. *)
Inductive switch_case :=
| Case_0
| Case_1_9
| Case_minus
| Case_hash
| Case_z
| Case_j_q_L
| Case_l
| Case_h
| Case_c
| Case_s
| Case_p
| Case_default.

Definition switch (c : ascii) : switch_case :=
  if is_chr c "0" then Case_0
  else if is_chr c "1" || is_chr c "2" || is_chr c "3" || is_chr c "4" || is_chr c "5" ||
          is_chr c "6" || is_chr c "7" || is_chr c "8" || is_chr c "9" then Case_1_9
  else if is_chr c "-" then Case_minus
  else if is_chr c "#" then Case_hash
  else if is_chr c "z" then Case_z
  else if is_chr c "j" || is_chr c "q" || is_chr c "L" then Case_j_q_L
  else if is_chr c "l" then Case_l
  else if is_chr c "h" then Case_h
  else if is_chr c "c" then Case_c
  else if is_chr c "s" then Case_s
  else if is_chr c "p" then Case_p
  else Case_default.

(** [if (!*fmt) goto truncated_seq;] then [k], with [fmt] at offset [i];
    [truncated_seq] is the label [out]. *)
Definition unless_truncated (fmt : string) (i : Z) (k : P (label * Z))
  : P (label * Z) :=
  c <- fmt_at fmt i ;;
  if Ascii.eqb c Vfs.NUL then ret (Out, i) else k.

(** The code from one of these places to the next one reached, with [fmt] at
    offset [i] before and at the offset returned after. *)
Definition step (fmt : string) (l : label) (i : Z) : P (label * Z) :=
  match l with
  | Loop =>
      c <- fmt_at fmt i ;;
      if Ascii.eqb c Vfs.NUL then ret (Out, i)
      else if negb (is_chr c "%") then
        WRITE_CHAR c (ret (Out, i + 1)) (ret (Loop, i + 1))
      else
        let i := i + 1 in
        c <- fmt_at fmt i ;;
        if is_chr c "%" || (128 <=? code c) then
          WRITE_CHAR c (ret (Out, i + 1)) (ret (Loop, i + 1))
        else ret (Next_char_in_seq, i)
  | Next_char_in_seq =>
      c <- fmt_at fmt i ;;
      base <- diuox_base (code c) ;;
      if negb (base =? 0) then
        ok <- write_number_param c ;;
        if negb ok then ret (Out, i) else ret (End_sequence, i)
      else
        match switch c with
        | Case_0 =>
            modify (set_zero_lpad true) ;;
            unless_truncated fmt (i + 1) (ret (Next_char_in_seq, i + 1))
        | Case_1_9 =>
            let (v, i) := tilck_strtol U fmt i in
            modify (set_left_padding (to_int v)) ;;
            unless_truncated fmt i (ret (Next_char_in_seq, i))
        | Case_minus =>
            let (v, i) := tilck_strtol U fmt (i + 1) in
            modify (set_right_padding (to_int v)) ;;
            unless_truncated fmt i (ret (Next_char_in_seq, i))
        | Case_hash =>
            st <- get ;;
            if hash_sign st then
              c1 <- fmt_at fmt (i + 1) ;;
              if Ascii.eqb c1 Vfs.NUL then ret (Unknown_seq, i + 1)
              else ret (Next_char_in_seq, i + 1)
            else
              p <- fmt_at fmt (i - 1) ;;
              if negb (is_chr p "%") then ret (Unknown_seq, i)
              else
                n <- fmt_at fmt (i + 1) ;;
                if Ascii.eqb n Vfs.NUL then ret (Unknown_seq, i)
                else
                  modify (set_hash_sign true) ;;
                  ret (Next_char_in_seq, i + 1)
        | Case_z =>
            unless_truncated fmt (i + 1)
              (modify (set_width pw_long) ;; ret (Next_char_in_seq, i + 1))
        | Case_j_q_L =>
            unless_truncated fmt (i + 1)
              (modify (set_width pw_long_long) ;;
               ret (Next_char_in_seq, i + 1))
        | Case_l =>
            st <- get ;;
            match width st with
            | pw_default =>
                unless_truncated fmt (i + 1)
                  (modify (set_width pw_long) ;;
                   ret (Next_char_in_seq, i + 1))
            | pw_long =>
                unless_truncated fmt (i + 1)
                  (modify (set_width pw_long_long) ;;
                   ret (Next_char_in_seq, i + 1))
            | _ => ret (Unknown_seq, i)
            end
        | Case_h =>
            st <- get ;;
            match width st with
            | pw_default =>
                unless_truncated fmt (i + 1)
                  (modify (set_width pw_short) ;;
                   ret (Next_char_in_seq, i + 1))
            | pw_short =>
                unless_truncated fmt (i + 1)
                  (modify (set_width pw_char) ;;
                   ret (Next_char_in_seq, i + 1))
            | _ => ret (Unknown_seq, i)
            end
        | Case_c =>
            ok <- write_char_param c ;;
            if negb ok then ret (Out, i) else ret (End_sequence, i)
        | Case_s =>
            ok <- write_string_param c ;;
            if negb ok then ret (Out, i) else ret (End_sequence, i)
        | Case_p =>
            ok <- write_pointer_param c ;;
            if negb ok then ret (Out, i) else ret (End_sequence, i)
        | Case_default => ret (Unknown_seq, i)
        end
  | Unknown_seq =>
      WRITE_CHAR "%" (ret (Out, i))
        (st <- get ;;
         let rest :=
           c <- fmt_at fmt i ;;
           WRITE_CHAR c (ret (Out, i)) (ret (End_sequence, i)) in
         if hash_sign st then WRITE_CHAR "#" (ret (Out, i)) rest else rest)
  | End_sequence =>
      snprintk_ctx_reset_state ;;
      ret (Loop, i + 1)
  | Out => ret (Out, i)
  end.

(** The jumps of [vsnprintk] until [out] is reached, for at most [fuel] of
    them. *)
Fixpoint exec (fuel : nat) (fmt : string) (l : label) (i : Z) : P unit :=
  match l with
  | Out => ret tt
  | _ =>
      match fuel with
      | O => stop_with Out_of_fuel
      | S fuel' =>
          li <- step fmt l i ;;
          exec fuel' fmt (fst li) (snd li)
      end
  end.

(** Four jumps for each character of the format and its terminator are
    enough when [tilck_strtol] moves forward. *)
Definition enough_fuel (fmt : string) : nat := 4 * (String.length fmt + 3).

(** [vsnprintk]: the value returned and the output array at the end. *)
Definition vsnprintk (initial_buf : list ascii) (size : Z) (fmt : string)
  (args : list arg) : result (Z * list ascii) :=
  let ctx := {| args := args; width := pw_default; left_padding := 0;
                right_padding := 0; buf := 0; buf_end := 0 + size;
                zero_lpad := false; hash_sign := false;
                intbuf := EmptyString; mem := initial_buf |} in
  match (exec (enough_fuel fmt) fmt Loop 0 ;;
         st <- get ;;
         store (buf st + (if buf st <? buf_end st then 0 else -1)) Vfs.NUL ;;
         ret (to_int (buf st - 0))) ctx with
  | Ok (n, st) => Ok (n, mem st)
  | Stop e => Stop e
  end.

Definition snprintk (initial_buf : list ascii) (size : Z) (fmt : string)
  (args : list arg) : result (Z * list ascii) :=
  vsnprintk initial_buf size fmt args.

End Formatting.

End Printk.

(** *** What [snprintk.c] writes, as sequences of characters *)

Module PrintkOps.

Import Printk.

(** The characters of a C string: those before the first NUL. *)
Fixpoint chars (s : string) : list ascii :=
  match s with
  | EmptyString => []
  | String c s' => if Ascii.eqb c Vfs.NUL then [] else c :: chars s'
  end.

(** The array [m] after the characters [cs] have been stored from offset [b]
    on, as far as the array goes. *)
Definition splice (m : list ascii) (b : nat) (cs : list ascii) : list ascii :=
  firstn b m ++ firstn (List.length m - b) cs ++ skipn (b + List.length cs) m.

(** To store [cs] from [ctx->buf] on, as far as the array goes, to leave
    [ctx->buf] behind the last character stored, and to tell whether there
    is room for more. *)
Definition emit (cs : list ascii) : P bool :=
  fun st =>
    let n := buf st + Z.of_nat (List.length cs) in
    Ok (n <? buf_end st,
        set_buf (Z.min n (buf_end st))
          (set_mem (splice (mem st) (Z.to_nat (buf st)) cs) st)).

(** [ctx->buf] lies in the output array or just behind it, and [ctx->buf_end]
    is the end of the array. *)
Definition within (st : snprintk_ctx) : Prop :=
  0 <= buf st <= buf_end st /\ buf_end st = Z.of_nat (List.length (mem st)).

(** There is room for one more character. *)
Definition room (st : snprintk_ctx) : Prop :=
  within st /\ buf st < buf_end st.

(** The array from [ctx->buf] on is as it was in [m0]. *)
Definition untouched (m0 : list ascii) (st : snprintk_ctx) : Prop :=
  skipn (Z.to_nat (buf st)) (mem st) = skipn (Z.to_nat (buf st)) m0.

(** The discipline of the writers, for an output array of [n] characters
    that was [m0] at first.  With [R] for "there is room for one more
    character": code [c] that starts within the array (with room) and
    returns is within the array afterwards (with room when its result is
    [good]), it has left the array from [ctx->buf] on as it was, and it
    stops for another reason than a store outside the array.  [R] is [True]
    where this is needed, and [False] for an array without room. *)
Definition pre (n : Z) (R : Prop) (m0 : list ascii) (st : snprintk_ctx)
  : Prop :=
  within st /\ buf_end st = n /\ (R -> buf st < n) /\ untouched m0 st.

Definition fine (R : Prop) (e : stop) : Prop :=
  R -> forall i, e <> Write_outside i.

Definition post {A} (n : Z) (R : Prop) (m0 : list ascii) (good : A -> Prop)
  (a : A) (st : snprintk_ctx) : Prop :=
  within st /\ buf_end st = n /\ (R -> good a -> buf st < n) /\
  untouched m0 st.

Definition respects {A} (n : Z) (R : Prop) (m0 : list ascii)
  (good : A -> Prop) (c : P A) : Prop :=
  forall st, pre n R m0 st ->
    match c st with
    | Ok (a, st') => post n R m0 good a st'
    | Stop e => fine R e
    end.

Definition always {A} (a : A) : Prop := True.

Definition goes_on (li : label * Z) : Prop := fst li <> Out.

(** Code [c] that returns does so with a result that has [Q], and [c] does
    not stop for want of fuel. *)
Definition yields {A} (Q : A -> Prop) (c : P A) : Prop :=
  forall st,
    match c st with
    | Ok (a, _) => Q a
    | Stop e => e <> Out_of_fuel
    end.

(** How far [vsnprintk] is from the end of the format: [fmt] is at offset
    [i], at the place [l]. *)
Definition rank (l : label) : Z :=
  match l with
  | Loop => 3
  | Next_char_in_seq => 2
  | Unknown_seq => 1
  | End_sequence => 0
  | Out => 0
  end.

Definition measure (fmt : string) (l : label) (i : Z) : Z :=
  4 * (Z.of_nat (String.length fmt) + 2 - i) + rank l.

(** [fmt] is at a character of the format or at its terminator; at the test
    of the loop it may be one behind the terminator. *)
Definition reach (fmt : string) (l : label) (i : Z) : Prop :=
  i <= Vfs.strlen fmt + (match l with Loop => 1 | _ => 0 end).

(** The place [li] is nearer to the end of the format than [l] with [fmt] at
    offset [i], unless it is [out]. *)
Definition nearer (fmt : string) (l : label) (i : Z) (li : label * Z)
  : Prop :=
  fst li <> Out ->
  reach fmt (fst li) (snd li) /\
  measure fmt (fst li) (snd li) < measure fmt l i.

(** What [write_0x_prefix] writes. *)
Definition prefix (fmtX : ascii) : list ascii :=
  if is_chr fmtX "x" || is_chr fmtX "p" then ["0"; "x"]%char
  else if is_chr fmtX "o" then ["0"]%char
  else [].

(** The characters that [write_str] puts out for [str]: the prefix before
    zeros, the left padding, the prefix after blanks, the string, the right
    padding. *)
Definition rendered (st : snprintk_ctx) (fmtX : ascii) (str : string)
  : list ascii :=
  let sl := Vfs.strlen str in
  let off := if hash_sign st then
               if is_chr fmtX "x" then 2 else if is_chr fmtX "o" then 1 else 0
             else 0 in
  let lpad := Z.max 0 (Z.max 0 (left_padding st - sl) - off) in
  let rpad := Z.max 0 (Z.max 0 (right_padding st - sl) - off) in
  let zeros := zero_lpad st && negb (is_chr fmtX "c") in
  let pad_char := if zeros then "0"%char else " "%char in
  (if zero_lpad st && hash_sign st then prefix fmtX else []) ++
  repeat pad_char (Z.to_nat lpad) ++
  (if (is_chr fmtX "p" || hash_sign st) && negb zeros then prefix fmtX
   else []) ++
  chars str ++
  repeat pad_char (Z.to_nat rpad).

(** The state of the flags between two sequences of the format. *)
Definition default_flags (st : snprintk_ctx) : Prop :=
  width st = pw_default /\ left_padding st = 0 /\ right_padding st = 0 /\
  zero_lpad st = false /\ hash_sign st = false.

(** The result of a call that has put out the characters [cs], as far as
    [size] allows: the value returned, and the output array. *)
Definition printed (initial_buf : list ascii) (size : Z) (cs : list ascii)
  : result (Z * list ascii) :=
  let k := Z.to_nat (Z.min (Z.of_nat (List.length cs)) (size - 1)) in
  Ok (Z.min (Z.of_nat (List.length cs)) size,
      firstn k cs ++ Vfs.NUL :: skipn (S k) initial_buf).

(** The state after the characters [cs] have been stored at [ctx->buf], all
    of them. *)
Definition put (cs : list ascii) (st : snprintk_ctx) : snprintk_ctx :=
  set_buf (buf st + Z.of_nat (List.length cs))
    (set_mem (splice (mem st) (Z.to_nat (buf st)) cs) st).

(** There is room for [cs] and one more character. *)
Definition fits (cs : list ascii) (st : snprintk_ctx) : Prop :=
  within st /\ buf st + Z.of_nat (List.length cs) < buf_end st.

(** The state after [snprintk_ctx_reset_state]. *)
Definition reset (st : snprintk_ctx) : snprintk_ctx :=
  set_hash_sign false
    (set_zero_lpad false
       (set_right_padding 0 (set_left_padding 0 (set_width pw_default st)))).

(** The base of a conversion of integers, as [diuox_base] has it. *)
Definition base_of (d : ascii) : Z :=
  if is_chr d "d" || is_chr d "i" || is_chr d "u" then 10
  else if is_chr d "o" then 8
  else if is_chr d "x" then 16
  else 0.

(** The digits that [write_number_param] asks for, for the conversion [d]
    of the integer [v] at the width [w]. *)
Definition converted (U : string_util) (w : printk_width) (d : ascii) (v : Z)
  : string :=
  if is_chr d "d" || is_chr d "i" then
    match w with
    | pw_long_long => itoa64 U v
    | _ => itoaN U (sign_extend U v (width_val U w))
    end
  else
    match w with
    | pw_long_long => uitoa64 U v (base_of d)
    | _ => uitoaN U (Z.land v (make_bitmask U (width_val U w))) (base_of d)
    end.

(** The length modifiers of C, and the width that [vsnprintk] takes them
    for. *)
Inductive modifier : string -> printk_width -> Prop :=
| mod_none : modifier EmptyString pw_default
| mod_l : modifier "l" pw_long
| mod_ll : modifier "ll" pw_long_long
| mod_h : modifier "h" pw_short
| mod_hh : modifier "hh" pw_char
| mod_z : modifier "z" pw_long
| mod_j : modifier "j" pw_long_long
| mod_q : modifier "q" pw_long_long
| mod_L : modifier "L" pw_long_long.

(** The width after a character of a length modifier, from the width
    before; [None] where [vsnprintk] takes the character for something
    else. *)
Definition modifier_step (c : switch_case) (w : printk_width)
  : option printk_width :=
  match c, w with
  | Case_z, _ => Some pw_long
  | Case_j_q_L, _ => Some pw_long_long
  | Case_l, pw_default => Some pw_long
  | Case_l, pw_long => Some pw_long_long
  | Case_h, pw_default => Some pw_short
  | Case_h, pw_short => Some pw_char
  | _, _ => None
  end.

(** The paddings and the length of the string are such that [write_str]
    neither overflows an [int] nor fails its assertion. *)
Definition paddings_fit (st : snprintk_ctx) (str : string) : Prop :=
  Vfs.strlen str < 2 ^ 31 /\
  0 <= left_padding st < 2 ^ 31 /\ 0 <= right_padding st < 2 ^ 31 /\
  (left_padding st <= Vfs.strlen str \/ right_padding st <= Vfs.strlen str).

(** [*s] for a C string. *)
Definition first_char (s : string) : ascii :=
  match s with
  | String c _ => c
  | EmptyString => Vfs.NUL
  end.

(** A character that [vsnprintk] copies as it is. *)
Definition plain_char (c : ascii) : bool :=
  negb (Ascii.eqb c Vfs.NUL) && negb (is_chr c "%").

Fixpoint plain (s : string) : bool :=
  match s with
  | EmptyString => true
  | String c s' => plain_char c && plain s'
  end.

(** [tilck_strtol] leaves [fmt] at or behind the place it started from, and
    behind it when it started from a digit other than 0. *)
Definition moves_forward (U : string_util) : Prop :=
  forall fmt i,
    i <= snd (tilck_strtol U fmt i) /\
    (forall c, String.get (Z.to_nat i) fmt = Some c ->
               switch c = Case_1_9 -> i < snd (tilck_strtol U fmt i)).

(** An instance of the functions that are not in the sources, to run the
    embedding on examples: decimal digits, and a 32-bit [long]. *)
Fixpoint digits (s : string) (acc i : Z) : Z * Z :=
  match s with
  | String c s' =>
      let d := code c - code "0" in
      if (0 <=? d) && (d <? 10) then digits s' (10 * acc + d) (i + 1)
      else (acc, i)
  | EmptyString => (acc, i)
  end.

Definition decimal (v : Z) : string := NilZero.string_of_int (Z.to_int v).

Definition demo_util : string_util :=
  {| tilck_strtol := fun fmt i => digits (Vfs.advance fmt (Z.to_nat i)) 0 i;
     itoa64 := decimal;
     itoaN := decimal;
     uitoa64 := fun v _ => decimal v;
     uitoaN := fun v _ => decimal v;
     uitoaN_hex_fixed := decimal;
     sign_extend := fun v _ => v;
     make_bitmask := fun w => 2 ^ w - 1;
     sizeof_long := 4;
     sizeof_int := 4;
     sizeof_short := 2;
     sizeof_char := 1 |}.

Definition blank (n : nat) : list ascii := repeat " "%char n.

Definition demo_ctx (n : nat) : snprintk_ctx :=
  {| args := []; width := pw_default; left_padding := 0; right_padding := 0;
     buf := 0; buf_end := Z.of_nat n; zero_lpad := false; hash_sign := false;
     intbuf := EmptyString; mem := blank n |}.

End PrintkOps.

(** ** Part II.  Properties *)

(** *** The AVL engine *)

Module BintreeFacts.

Import Bintree.

Section Facts.

Variable obj : Type.
Variable CMP : obj -> obj -> Z.
Variable MAX_TREE_HEIGHT : nat.

Abbreviation tree := (Bintree.tree obj).
Abbreviation balance := (Bintree.balance obj).
Abbreviation height := (Bintree.height obj).
Abbreviation balanced := (Bintree.balanced obj).
Abbreviation insert_rec := (Bintree.insert_rec obj CMP).
Abbreviation deref := (Bintree.deref obj).
Abbreviation update := (Bintree.update obj).
Abbreviation store := (Bintree.store obj).
Abbreviation rebalance := (Bintree.rebalance obj).
Abbreviation pushes := (Bintree.pushes obj CMP).
Abbreviation descend := (Bintree.descend obj CMP MAX_TREE_HEIGHT).
Abbreviation STACK_PUSH := (Bintree.STACK_PUSH MAX_TREE_HEIGHT).
Abbreviation insert := (Bintree.bintree_insert_internal obj CMP MAX_TREE_HEIGHT).
Abbreviation insert_all := (Bintree.insert_all obj CMP MAX_TREE_HEIGHT).
Abbreviation elements := (Bintree.elements obj).
Abbreviation size := (Bintree.size obj).
Abbreviation all_objs := (Bintree.all_objs obj).
Abbreviation ordered := (Bintree.ordered obj CMP).
Abbreviation three_way := (Bintree.three_way obj CMP).

Ltac tree_cbn :=
  cbn [Bintree.height Bintree.size Bintree.balanced Bintree.balance_factor
       Bintree.rotate_left Bintree.rotate_right Bintree.all_objs
       Bintree.ordered] in *.

(** One [BALANCE] step repairs a node whose subtrees are balanced and differ
    in height by at most two. *)
Lemma balance_repairs (l r : tree) (o : obj) :
  balanced l -> balanced r ->
  -2 <= Z.of_nat (height r) - Z.of_nat (height l) <= 2 ->
  balanced (balance (Node l o r)) /\
  (height (balance (Node l o r)) = S (Nat.max (height l) (height r)) \/
   (height (balance (Node l o r)) = Nat.max (height l) (height r) /\
    Z.abs (Z.of_nat (height r) - Z.of_nat (height l)) = 2)).
Proof.
  intros Hl Hr Hd.
  unfold Bintree.balance.
  cbn [Bintree.balance_factor].
  destruct (Z.ltb_spec (Z.of_nat (height r) - Z.of_nat (height l)) (-1))
    as [Hlt | Hge].
  - destruct l as [| ll lo lr]; [tree_cbn; intuition lia |].
    cbn [Bintree.balance_factor].
    destruct (Z.ltb_spec 0 (Z.of_nat (height lr) - Z.of_nat (height ll)))
      as [Hpos | Hneg].
    + destruct lr as [| lrl lro lrr]; tree_cbn; intuition lia.
    + tree_cbn; intuition lia.
  - destruct (Z.ltb_spec 1 (Z.of_nat (height r) - Z.of_nat (height l)))
      as [Hgt | Hle].
    + destruct r as [| rl ro rr]; [tree_cbn; intuition lia |].
      cbn [Bintree.balance_factor].
      destruct (Z.ltb_spec (Z.of_nat (height rr) - Z.of_nat (height rl)) 0)
        as [Hneg | Hpos].
      * destruct rl as [| rll rlo rlr]; tree_cbn; intuition lia.
      * tree_cbn; intuition lia.
    + tree_cbn; intuition lia.
Qed.

Lemma insert_rec_balanced (ob : obj) (t t' : tree) :
  balanced t -> insert_rec ob t = Some t' ->
  balanced t' /\ (height t' = height t \/ height t' = S (height t)).
Proof.
  revert t'.
  induction t as [| l IHl o r IHr]; intros t' Hb Hins.
  - cbn in Hins. injection Hins as <-. cbn. lia.
  - cbn [Bintree.insert_rec] in Hins.
    destruct (CMP ob o =? 0); [discriminate |].
    destruct Hb as (Hbf & Hbl & Hbr).
    cbn [Bintree.balance_factor] in Hbf.
    destruct (CMP ob o <? 0).
    + destruct (insert_rec ob l) as [l' |]; [| discriminate].
      assert (t' = balance (Node l' o r)) as -> by (cbn [option_map] in Hins; congruence).
      destruct (IHl l' Hbl eq_refl) as (Hbl' & Hh).
      destruct (balance_repairs l' r o Hbl' Hbr) as (Hb' & Hh'); [lia |].
      split; [exact Hb' |].
      change (height (Node l o r)) with (S (Nat.max (height l) (height r))).
      lia.
    + destruct (insert_rec ob r) as [r' |]; [| discriminate].
      assert (t' = balance (Node l o r')) as -> by (cbn [option_map] in Hins; congruence).
      destruct (IHr r' Hbr eq_refl) as (Hbr' & Hh).
      destruct (balance_repairs l r' o Hbl Hbr') as (Hb' & Hh'); [lia |].
      split; [exact Hb' |].
      change (height (Node l o r)) with (S (Nat.max (height l) (height r))).
      lia.
Qed.


(** Case analysis on the result of the descent, in the goal and in the
    hypothesis that describes it. *)
Ltac case_descend H :=
  revert H;
  match goal with
  | |- context [Bintree.descend ?x1 ?x2 ?x3 ?x4 ?x5 ?x6 ?x7] =>
      destruct (Bintree.descend x1 x2 x3 x4 x5 x6 x7) as [d st | |]
  end;
  intros H.

(** **** Slots *)

Lemma deref_snoc (t l r : tree) (o : obj) (p : slot) (d : dir) :
  deref t p = Some (Node l o r) ->
  deref t (p ++ [d]) = Some (match d with GoLeft => l | GoRight => r end).
Proof.
  revert t.
  induction p as [| e p IH]; intros t H.
  - cbn in H. injection H as ->. reflexivity.
  - destruct t as [| tl tobj tr]; [discriminate |].
    cbn [app Bintree.deref] in *. now apply IH.
Qed.

Lemma update_twice (f g : tree -> tree) (t : tree) (p : slot) :
  update g (update f t p) p = update (fun x => g (f x)) t p.
Proof.
  revert t.
  induction p as [| e p IH]; intros t; [reflexivity |].
  destruct t as [| tl tobj tr]; [reflexivity |].
  destruct e; cbn [Bintree.update]; now rewrite IH.
Qed.

Lemma update_snoc (f : tree -> tree) (t l r : tree) (o : obj) (p : slot)
  (d : dir) :
  deref t p = Some (Node l o r) ->
  update f t (p ++ [d]) =
  update (fun _ => match d with
                   | GoLeft => Node (f l) o r
                   | GoRight => Node l o (f r)
                   end) t p.
Proof.
  revert t.
  induction p as [| e p IH]; intros t H.
  - cbn in H. injection H as ->. destruct d; reflexivity.
  - destruct t as [| tl tobj tr]; [discriminate |].
    cbn [Bintree.deref] in H.
    destruct e; cbn [app Bintree.update]; now rewrite IH.
Qed.

(** **** The loop and the recursive insertion agree *)

Lemma descend_spec (ob : obj) (sub : tree) :
  forall (t : tree) (dest : slot) (stack0 : list slot),
    deref t dest = Some sub ->
    (List.length (dest :: stack0) <= MAX_TREE_HEIGHT)%nat ->
    match descend ob sub dest (dest :: stack0) with
    | Found_slot d st =>
        (List.length (dest :: stack0) + pushes ob sub <= MAX_TREE_HEIGHT)%nat /\
        exists sub',
          insert_rec ob sub = Some sub' /\
          rebalance (store t d ob) st =
          rebalance (update (fun _ => sub') t dest) stack0
    | Already_exists =>
        (List.length (dest :: stack0) + pushes ob sub <= MAX_TREE_HEIGHT)%nat /\
        insert_rec ob sub = None
    | Stack_overflow =>
        (MAX_TREE_HEIGHT < List.length (dest :: stack0) + pushes ob sub)%nat
    end.
Proof.
  induction sub as [| l IHl o r IHr]; intros t dest stack0 Hd Hlen.
  - cbn [Bintree.descend Bintree.pushes Bintree.insert_rec].
    split; [lia |].
    exists (Node Leaf ob Leaf). split; [reflexivity |].
    unfold Bintree.rebalance, Bintree.store. cbn [fold_left].
    now rewrite update_twice.
  - cbn [Bintree.descend Bintree.pushes Bintree.insert_rec].
    destruct (CMP ob o =? 0); [split; [lia | reflexivity] |].
    unfold Bintree.STACK_PUSH.
    destruct (Nat.ltb_spec (List.length (dest :: stack0)) MAX_TREE_HEIGHT)
      as [Hroom | Hfull]; [| lia].
    destruct (CMP ob o <? 0).
    + specialize (IHl t (dest ++ [GoLeft]) (dest :: stack0)
                    (deref_snoc t l r o dest GoLeft Hd)).
      cbn [List.length] in IHl, Hroom |- *.
      specialize (IHl ltac:(lia)).
      case_descend IHl.
      * destruct IHl as (Hp & l' & Hl' & Hreb).
        split; [lia |].
        exists (balance (Node l' o r)).
        rewrite Hl'. split; [reflexivity |].
        rewrite Hreb.
        unfold Bintree.rebalance. cbn [fold_left].
        rewrite (update_snoc _ t l r o dest GoLeft Hd).
        now rewrite update_twice.
      * destruct IHl as (Hp & Hl'). rewrite Hl'. split; [lia | reflexivity].
      * lia.
    + specialize (IHr t (dest ++ [GoRight]) (dest :: stack0)
                    (deref_snoc t l r o dest GoRight Hd)).
      cbn [List.length] in IHr, Hroom |- *.
      specialize (IHr ltac:(lia)).
      case_descend IHr.
      * destruct IHr as (Hp & r' & Hr' & Hreb).
        split; [lia |].
        exists (balance (Node l o r')).
        rewrite Hr'. split; [reflexivity |].
        rewrite Hreb.
        unfold Bintree.rebalance. cbn [fold_left].
        rewrite (update_snoc _ t l r o dest GoRight Hd).
        now rewrite update_twice.
      * destruct IHr as (Hp & Hr'). rewrite Hr'. split; [lia | reflexivity].
      * lia.
Qed.

(** What a call does, in terms of the recursive insertion and of the
    number of slots the descent needs. *)
Lemma insert_internal_spec (t : tree) (ob : obj) :
  insert t ob =
  match t with
  | Leaf => Returned true (Node Leaf ob Leaf)
  | Node _ _ _ =>
      if (MAX_TREE_HEIGHT <? 1 + pushes ob t)%nat then Fatal_overflow
      else match insert_rec ob t with
           | Some t' => Returned true t'
           | None => Returned false t
           end
  end.
Proof.
  destruct t as [| l o r]; [reflexivity |].
  unfold Bintree.bintree_insert_internal, Bintree.STACK_PUSH.
  cbn [List.length].
  destruct (Nat.ltb_spec 0 MAX_TREE_HEIGHT) as [Hpos | Hzero].
  - pose proof (descend_spec ob (Node l o r) (Node l o r) [] [] eq_refl) as H.
    cbn [List.length] in H. specialize (H ltac:(lia)).
    case_descend H.
    + destruct H as (Hp & t' & Ht' & Hreb).
      destruct (Nat.ltb_spec MAX_TREE_HEIGHT (1 + pushes ob (Node l o r)));
        [lia |].
      rewrite Ht', Hreb. reflexivity.
    + destruct H as (Hp & Hnone).
      destruct (Nat.ltb_spec MAX_TREE_HEIGHT (1 + pushes ob (Node l o r)));
        [lia |].
      now rewrite Hnone.
    + destruct (Nat.ltb_spec MAX_TREE_HEIGHT (1 + pushes ob (Node l o r)));
        [reflexivity | lia].
  - destruct (Nat.ltb_spec MAX_TREE_HEIGHT (1 + pushes ob (Node l o r)));
      [reflexivity | lia].
Qed.

Lemma pushes_le_height (ob : obj) (t : tree) :
  (pushes ob t <= height t)%nat.
Proof.
  induction t as [| l IHl o r IHr]; [cbn; lia |].
  cbn [Bintree.pushes Bintree.height].
  destruct (CMP ob o =? 0); [lia |].
  destruct (CMP ob o <? 0); lia.
Qed.

Lemma pushes_lt_height (ob : obj) (t : tree) :
  insert_rec ob t = None -> (pushes ob t < height t)%nat.
Proof.
  induction t as [| l IHl o r IHr]; [discriminate |].
  cbn [Bintree.pushes Bintree.height Bintree.insert_rec].
  destruct (CMP ob o =? 0); [lia |].
  destruct (CMP ob o <? 0).
  - destruct (insert_rec ob l); [discriminate |]. intros _.
    specialize (IHl eq_refl). lia.
  - destruct (insert_rec ob r); [discriminate |]. intros _.
    specialize (IHr eq_refl). lia.
Qed.

Lemma insert_true (t t' : tree) (ob : obj) :
  insert t ob = Returned true t' -> insert_rec ob t = Some t'.
Proof.
  rewrite insert_internal_spec.
  destruct t as [| l o r]; [intros H; injection H as <-; reflexivity |].
  destruct (MAX_TREE_HEIGHT <? 1 + pushes ob (Node l o r))%nat;
    [discriminate |].
  destruct (insert_rec ob (Node l o r)); [| discriminate].
  intros H. injection H as <-. reflexivity.
Qed.

Lemma insert_fits (t : tree) (ob : obj) :
  (height t < MAX_TREE_HEIGHT)%nat ->
  insert t ob = match insert_rec ob t with
                | Some t' => Returned true t'
                | None => Returned false t
                end.
Proof.
  intros Hh. rewrite insert_internal_spec.
  destruct t as [| l o r]; [reflexivity |].
  pose proof (pushes_le_height ob (Node l o r)).
  destruct (Nat.ltb_spec MAX_TREE_HEIGHT (1 + pushes ob (Node l o r)));
    [lia | reflexivity].
Qed.

Lemma insert_step_balanced (t t' : tree) (ob : obj) :
  balanced t -> insert t ob = Returned true t' -> balanced t'.
Proof.
  intros Hb H. apply insert_true in H.
  exact (proj1 (insert_rec_balanced ob t t' Hb H)).
Qed.

Lemma insert_all_balanced (objs : list obj) :
  forall t t', balanced t -> insert_all t objs = Some t' -> balanced t'.
Proof.
  induction objs as [| x xs IH]; intros t t' Hb H.
  - cbn in H. now injection H as <-.
  - cbn [Bintree.insert_all] in H.
    destruct (insert t x) as [[|] t1 |] eqn:E; try discriminate.
    eapply IH; [| exact H].
    eapply insert_step_balanced; eassumption.
Qed.


(** **** Members *)

Lemma all_objs_elements (P : obj -> Prop) (t : tree) :
  all_objs P t <-> Forall P (elements t).
Proof.
  induction t as [| l IHl o r IHr]; cbn [Bintree.all_objs Bintree.elements].
  - split; auto.
  - rewrite Forall_app, Forall_cons_iff. tauto.
Qed.

Lemma size_elements (t : tree) : size t = List.length (elements t).
Proof.
  induction t as [| l IHl o r IHr]; [reflexivity |].
  cbn [Bintree.size Bintree.elements].
  rewrite length_app. cbn [List.length]. lia.
Qed.

Lemma elements_rotate_right (t : tree) :
  elements (rotate_right obj t) = elements t.
Proof.
  destruct t as [| [| a x b] y c]; try reflexivity.
  cbn [Bintree.rotate_right Bintree.elements].
  now rewrite <- app_assoc.
Qed.

Lemma elements_rotate_left (t : tree) :
  elements (rotate_left obj t) = elements t.
Proof.
  destruct t as [| a x [| b y c]]; try reflexivity.
  cbn [Bintree.rotate_left Bintree.elements].
  now rewrite <- app_assoc.
Qed.

(** [BALANCE] moves objects around but keeps them, and keeps their order
    from left to right. *)
Lemma elements_balance (t : tree) : elements (balance t) = elements t.
Proof.
  destruct t as [| l o r]; [reflexivity |].
  unfold Bintree.balance.
  destruct (balance_factor obj (Node l o r) <? -1).
  - destruct (0 <? balance_factor obj l).
    + rewrite elements_rotate_right. cbn [Bintree.elements].
      now rewrite elements_rotate_left.
    + apply elements_rotate_right.
  - destruct (1 <? balance_factor obj (Node l o r)); [| reflexivity].
    destruct (balance_factor obj r <? 0).
    + rewrite elements_rotate_left. cbn [Bintree.elements].
      now rewrite elements_rotate_right.
    + apply elements_rotate_left.
Qed.

Lemma all_objs_balance (P : obj -> Prop) (t : tree) :
  all_objs P t -> all_objs P (balance t).
Proof.
  rewrite !all_objs_elements. now rewrite elements_balance.
Qed.

Lemma size_balance (t : tree) : size (balance t) = size t.
Proof.
  rewrite !size_elements. now rewrite elements_balance.
Qed.

Lemma insert_rec_all_objs (P : obj -> Prop) (ob : obj) (t : tree) :
  forall t', P ob -> all_objs P t -> insert_rec ob t = Some t' ->
             all_objs P t'.
Proof.
  induction t as [| l IHl o r IHr]; intros t' Hob Hall Hins.
  - cbn in Hins. injection Hins as <-. cbn. tauto.
  - cbn [Bintree.insert_rec] in Hins.
    destruct Hall as (Ho & Hl & Hr).
    destruct (CMP ob o =? 0); [discriminate |].
    destruct (CMP ob o <? 0).
    + destruct (insert_rec ob l) as [l' |]; [| discriminate].
      assert (t' = balance (Node l' o r)) as ->
          by (cbn [option_map] in Hins; congruence).
      apply all_objs_balance. cbn [Bintree.all_objs]. auto.
    + destruct (insert_rec ob r) as [r' |]; [| discriminate].
      assert (t' = balance (Node l o r')) as ->
          by (cbn [option_map] in Hins; congruence).
      apply all_objs_balance. cbn [Bintree.all_objs]. auto.
Qed.

Lemma insert_rec_size (ob : obj) (t : tree) :
  forall t', insert_rec ob t = Some t' -> size t' = S (size t).
Proof.
  induction t as [| l IHl o r IHr]; intros t' Hins.
  - cbn in Hins. now injection Hins as <-.
  - cbn [Bintree.insert_rec] in Hins.
    destruct (CMP ob o =? 0); [discriminate |].
    destruct (CMP ob o <? 0).
    + destruct (insert_rec ob l) as [l' |]; [| discriminate].
      assert (t' = balance (Node l' o r)) as ->
          by (cbn [option_map] in Hins; congruence).
      rewrite size_balance. cbn [Bintree.size].
      rewrite (IHl l' eq_refl). lia.
    + destruct (insert_rec ob r) as [r' |]; [| discriminate].
      assert (t' = balance (Node l o r')) as ->
          by (cbn [option_map] in Hins; congruence).
      rewrite size_balance. cbn [Bintree.size].
      rewrite (IHr r' eq_refl). lia.
Qed.

(** The descent only stops on an object that compares equal. *)
Lemma insert_rec_fresh (ob : obj) (t : tree) :
  all_objs (fun m => CMP ob m <> 0) t -> exists t', insert_rec ob t = Some t'.
Proof.
  induction t as [| l IHl o r IHr]; intros Hall.
  - eexists. reflexivity.
  - destruct Hall as (Ho & Hl & Hr).
    cbn [Bintree.insert_rec].
    destruct (Z.eqb_spec (CMP ob o) 0); [contradiction |].
    destruct (CMP ob o <? 0).
    + destruct (IHl Hl) as (l' & ->). eexists. reflexivity.
    + destruct (IHr Hr) as (r' & ->). eexists. reflexivity.
Qed.

(** **** Height and number of nodes *)

Lemma min_nodes_step (h : nat) : (min_nodes h <= min_nodes (S h))%nat.
Proof.
  destruct h as [| h]; [cbn; lia |].
  change (min_nodes (S (S h))) with (S (min_nodes (S h) + min_nodes h)).
  lia.
Qed.

Lemma min_nodes_mono (a b : nat) :
  (a <= b)%nat -> (min_nodes a <= min_nodes b)%nat.
Proof.
  induction 1 as [| b Hle IH]; [lia |].
  pose proof (min_nodes_step b). lia.
Qed.

Lemma balanced_min_nodes (t : tree) :
  balanced t -> (min_nodes (height t) <= size t)%nat.
Proof.
  induction t as [| l IHl o r IHr]; [cbn; lia |].
  intros (Hbf & Hl & Hr).
  specialize (IHl Hl). specialize (IHr Hr).
  cbn [Bintree.balance_factor] in Hbf.
  cbn [Bintree.height Bintree.size].
  destruct (Nat.max (height l) (height r)) as [| k] eqn:Hmax; [cbn; lia |].
  change (min_nodes (S (S k))) with (S (min_nodes (S k) + min_nodes k)).
  destruct (Nat.le_ge_cases (height l) (height r)) as [Hle | Hge].
  - assert (height r = S k) as Er by lia.
    pose proof (min_nodes_mono k (height l) ltac:(lia)).
    rewrite Er in IHr. lia.
  - assert (height l = S k) as El by lia.
    pose proof (min_nodes_mono k (height r) ltac:(lia)).
    rewrite El in IHl. lia.
Qed.

Lemma balanced_fits (t : tree) :
  balanced t -> (size t < min_nodes MAX_TREE_HEIGHT)%nat ->
  (height t < MAX_TREE_HEIGHT)%nat.
Proof.
  intros Hb Hs.
  destruct (Nat.lt_ge_cases (height t) MAX_TREE_HEIGHT) as [| Hge]; [assumption |].
  pose proof (min_nodes_mono _ _ Hge).
  pose proof (balanced_min_nodes t Hb). lia.
Qed.

(** **** Runs of insertions of distinct objects *)

Lemma insert_all_distinct (objs : list obj) :
  forall t,
    balanced t ->
    all_objs (fun m => Forall (fun x => CMP x m <> 0) objs) t ->
    ForallOrdPairs (fun x y => CMP y x <> 0) objs ->
    (size t + List.length objs <= min_nodes MAX_TREE_HEIGHT)%nat ->
    exists t', insert_all t objs = Some t' /\
               size t' = (size t + List.length objs)%nat.
Proof.
  induction objs as [| x xs IH]; intros t Hb Hall Hpair Hroom.
  - exists t. cbn. split; [reflexivity | lia].
  - cbn [List.length] in Hroom.
    assert (Hfresh : all_objs (fun m => CMP x m <> 0) t).
    { rewrite all_objs_elements in Hall |- *.
      eapply Forall_impl; [| exact Hall].
      intros m Hm. now apply Forall_inv in Hm. }
    destruct (insert_rec_fresh x t Hfresh) as (t1 & Ht1).
    assert (Hfit : (height t < MAX_TREE_HEIGHT)%nat)
      by (apply balanced_fits; [assumption | lia]).
    cbn [Bintree.insert_all].
    rewrite (insert_fits t x Hfit), Ht1.
    inversion Hpair as [| a l Hx Hxs]; subst.
    destruct (IH t1) as (t' & Hrun & Hsize).
    + exact (proj1 (insert_rec_balanced x t t1 Hb Ht1)).
    + apply (insert_rec_all_objs _ x t t1); [exact Hx | | exact Ht1].
      rewrite all_objs_elements in Hall |- *.
      eapply Forall_impl; [| exact Hall].
      intros m Hm. now apply Forall_inv_tail in Hm.
    + exact Hxs.
    + rewrite (insert_rec_size x t t1 Ht1). lia.
    + exists t'. split; [exact Hrun |].
      rewrite Hsize, (insert_rec_size x t t1 Ht1). cbn [List.length]. lia.
Qed.


(** **** Search order *)

Lemma ordered_pairs_app (R : obj -> obj -> Prop) (l1 l2 : list obj) :
  ForallOrdPairs R (l1 ++ l2) <->
  ForallOrdPairs R l1 /\ ForallOrdPairs R l2 /\
  (forall x y, In x l1 -> In y l2 -> R x y).
Proof.
  induction l1 as [| a l1 IH]; cbn [app].
  - split.
    + intros H. repeat split; [constructor | exact H | intros x y []].
    + tauto.
  - split.
    + intros H. inversion H as [| b l Ha Hrest]; subst.
      apply IH in Hrest. destruct Hrest as (H1 & H2 & H12).
      apply Forall_app in Ha. destruct Ha as (Ha1 & Ha2).
      repeat split; [now constructor | exact H2 |].
      intros x y [<- | Hx] Hy; [| now apply H12].
      rewrite Forall_forall in Ha2. now apply Ha2.
    + intros (H1 & H2 & H12).
      inversion H1 as [| b l Ha Hrest]; subst.
      constructor.
      * apply Forall_app. split; [exact Ha |].
        apply Forall_forall. intros y Hy. apply H12; [now left | exact Hy].
      * apply IH. repeat split; [exact Hrest | exact H2 |].
        intros x y Hx Hy. apply H12; [now right | exact Hy].
Qed.

(** A tree is in search order exactly when its objects, read from left to
    right, are increasing. *)
Lemma ordered_increasing (t : tree) :
  three_way ->
  (ordered t <-> ForallOrdPairs (fun x y => CMP x y < 0) (elements t)).
Proof.
  intros Hcmp.
  induction t as [| l IHl o r IHr]; cbn [Bintree.ordered Bintree.elements].
  - split; [constructor | trivial].
  - rewrite ordered_pairs_app, !all_objs_elements, IHl, IHr.
    rewrite !Forall_forall.
    split.
    + intros (Hlo & Hor & Hl & Hr).
      repeat split; [exact Hl | | ].
      * constructor; [| exact Hr].
        apply Forall_forall. intros y Hy.
        apply (cmp_flip _ _ Hcmp). now apply Hor.
      * intros x y Hx [<- | Hy]; [now apply Hlo |].
        apply (cmp_trans _ _ Hcmp x o y); [now apply Hlo |].
        apply (cmp_flip _ _ Hcmp). now apply Hor.
    + intros (Hl & Hor & Hcross).
      inversion Hor as [| a l0 Ho Hr]; subst.
      rewrite Forall_forall in Ho.
      repeat split; [| | exact Hl | exact Hr].
      * intros x Hx. apply Hcross; [exact Hx | now left].
      * intros y Hy. apply (cmp_flip _ _ Hcmp). now apply Ho.
Qed.

Lemma ordered_balance (t : tree) :
  three_way -> ordered t -> ordered (balance t).
Proof.
  intros Hcmp.
  rewrite !(ordered_increasing _ Hcmp). now rewrite elements_balance.
Qed.

Lemma insert_rec_ordered (ob : obj) (t : tree) :
  three_way ->
  forall t', ordered t -> insert_rec ob t = Some t' -> ordered t'.
Proof.
  intros Hcmp.
  induction t as [| l IHl o r IHr]; intros t' Hord Hins.
  - cbn in Hins. injection Hins as <-. cbn. tauto.
  - cbn [Bintree.insert_rec] in Hins.
    destruct Hord as (Hlo & Hor & Hl & Hr).
    destruct (Z.eqb_spec (CMP ob o) 0) as [| Hne]; [discriminate |].
    destruct (Z.ltb_spec (CMP ob o) 0) as [Hlt | Hge].
    + destruct (insert_rec ob l) as [l' |] eqn:El; [| discriminate].
      assert (t' = balance (Node l' o r)) as ->
          by (cbn [option_map] in Hins; congruence).
      apply (ordered_balance _ Hcmp). cbn [Bintree.ordered].
      repeat split; [| exact Hor | now apply IHl | exact Hr].
      apply (insert_rec_all_objs _ ob l l'); [exact Hlt | exact Hlo | exact El].
    + destruct (insert_rec ob r) as [r' |] eqn:Er; [| discriminate].
      assert (t' = balance (Node l o r')) as ->
          by (cbn [option_map] in Hins; congruence).
      apply (ordered_balance _ Hcmp). cbn [Bintree.ordered].
      repeat split; [exact Hlo | | exact Hl | now apply IHr].
      apply (insert_rec_all_objs _ ob r r'); [lia | exact Hor | exact Er].
Qed.

Lemma insert_all_ordered (objs : list obj) :
  three_way ->
  forall t t', ordered t -> insert_all t objs = Some t' -> ordered t'.
Proof.
  intros Hcmp.
  induction objs as [| x xs IH]; intros t t' Hord H.
  - cbn in H. now injection H as <-.
  - cbn [Bintree.insert_all] in H.
    destruct (insert t x) as [[|] t1 |] eqn:E; try discriminate.
    eapply IH; [| exact H].
    apply insert_true in E.
    eapply insert_rec_ordered; eassumption.
Qed.

(** In a tree in search order the descent meets the member that compares
    equal to the new object. *)
Lemma insert_rec_member (ob m : obj) (t : tree) :
  three_way -> ordered t -> In m (elements t) -> CMP ob m = 0 ->
  insert_rec ob t = None.
Proof.
  intros Hcmp.
  induction t as [| l IHl o r IHr]; intros Hord Hin Heq; [destruct Hin |].
  destruct Hord as (Hlo & Hor & Hl & Hr).
  cbn [Bintree.elements] in Hin. cbn [Bintree.insert_rec].
  apply in_app_or in Hin.
  destruct Hin as [Hin | [<- | Hin]].
  - rewrite all_objs_elements, Forall_forall in Hlo.
    pose proof (cmp_eq_l _ _ Hcmp ob m o Heq (Hlo m Hin)) as Hlt.
    destruct (Z.eqb_spec (CMP ob o) 0); [reflexivity |].
    destruct (Z.ltb_spec (CMP ob o) 0); [| lia].
    now rewrite (IHl Hl Hin Heq).
  - now rewrite Heq.
  - rewrite all_objs_elements, Forall_forall in Hor.
    pose proof (proj2 (cmp_flip _ _ Hcmp o m) (Hor m Hin)) as Hom.
    pose proof (cmp_eq_r _ _ Hcmp ob m o Heq Hom) as Hlt.
    apply (cmp_flip _ _ Hcmp) in Hlt.
    destruct (Z.eqb_spec (CMP ob o) 0); [reflexivity |].
    destruct (Z.ltb_spec (CMP ob o) 0); [lia |].
    now rewrite (IHr Hr Hin Heq).
Qed.

Lemma insert_member (ob m : obj) (t : tree) :
  three_way -> ordered t -> (height t <= MAX_TREE_HEIGHT)%nat ->
  In m (elements t) -> CMP ob m = 0 ->
  insert t ob = Returned false t.
Proof.
  intros Hcmp Hord Hh Hin Heq.
  pose proof (insert_rec_member ob m t Hcmp Hord Hin Heq) as Hnone.
  pose proof (pushes_lt_height ob t Hnone) as Hp.
  rewrite insert_internal_spec.
  destruct t as [| l o r]; [destruct Hin |].
  destruct (Nat.ltb_spec MAX_TREE_HEIGHT (1 + pushes ob (Node l o r)));
    [lia |].
  now rewrite Hnone.
Qed.

End Facts.

(** The comparator of the pointer variant is a three-way comparison
    whatever the fields hold. *)
Lemma ptr_cmp_three_way (obj : Type) (read_field : obj -> Z -> Z)
  (field_off : Z) :
  three_way obj (fun a b => bintree_insrem_ptr_cmp read_field a b field_off).
Proof.
  unfold bintree_insrem_ptr_cmp.
  constructor; intros *;
    repeat match goal with
           | |- context [?a ?= ?b] => destruct (Z.compare_spec a b)
           end; lia.
Qed.


(** Claim C2 (AVL balance invariant).  Take any sequence of objects and any
    number [k] of insertions, made one after the other into the empty tree
    and each returning [true]: in the tree they leave, the balance factor
    (height of the right subtree minus height of the left one) of every node
    is -1, 0 or +1.  This holds for every comparator and every capacity of
    the slot stack. *)
Theorem avl_balance_invariant (obj : Type) (CMP : obj -> obj -> Z)
  (MAX_TREE_HEIGHT : nat) (objs : list obj) (k : nat) (t : tree obj) :
  insert_all obj CMP MAX_TREE_HEIGHT Leaf (firstn k objs) = Some t ->
  balanced obj t.
Proof.
  apply insert_all_balanced. exact I.
Qed.

Lemma avl_balance_invariant_witness :
  insert_all Z Z.sub 32 Leaf (firstn 3 [1; 2; 3; 4]) =
    Some (Node (Node Leaf 1 Leaf) 2 (Node Leaf 3 Leaf)) /\
  balanced Z (Node (Node Leaf 1 Leaf) 2 (Node Leaf 3 Leaf)).
Proof.
  split; [reflexivity |].
  apply (avl_balance_invariant Z Z.sub 32 [1; 2; 3; 4] 3).
  reflexivity.
Defined.

(** Claim C3 (no duplicates).  In a tree in search order that fits the slot
    stack, inserting an object that the comparator reports equal to a member
    returns [false] and leaves the tree as it was, for the comparator
    variant and for the pointer variant alike; every tree built by
    insertions from the empty tree is in search order; and inserting [N]
    objects no two of which compare equal, [N] being within what a tree of
    height [MAX_TREE_HEIGHT] must hold, succeeds every time and gives a tree
    of exactly [N] nodes. *)
Theorem no_duplicate_invariant (obj : Type) (MAX_TREE_HEIGHT : nat) :
  (forall (CMP : obj -> obj -> Z) (t : tree obj) (ob m : obj),
      three_way obj CMP -> ordered obj CMP t ->
      (height obj t <= MAX_TREE_HEIGHT)%nat ->
      In m (elements obj t) -> CMP ob m = 0 ->
      bintree_insert_internal obj CMP MAX_TREE_HEIGHT t ob = Returned false t)
  /\
  (forall (read_field : obj -> Z -> Z) (field_off : Z) (t : tree obj)
          (ob m : obj),
      ordered obj (fun a b => bintree_insrem_ptr_cmp read_field a b field_off) t ->
      (height obj t <= MAX_TREE_HEIGHT)%nat ->
      In m (elements obj t) ->
      bintree_insrem_ptr_cmp read_field ob m field_off = 0 ->
      bintree_insert_ptr_internal read_field MAX_TREE_HEIGHT t ob field_off =
      Returned false t)
  /\
  (forall (CMP : obj -> obj -> Z) (objs : list obj) (t : tree obj),
      three_way obj CMP ->
      insert_all obj CMP MAX_TREE_HEIGHT Leaf objs = Some t ->
      ordered obj CMP t)
  /\
  (forall (CMP : obj -> obj -> Z) (objs : list obj),
      ForallOrdPairs (fun x y => CMP y x <> 0) objs ->
      (List.length objs <= min_nodes MAX_TREE_HEIGHT)%nat ->
      exists t, insert_all obj CMP MAX_TREE_HEIGHT Leaf objs = Some t /\
                size obj t = List.length objs).
Proof.
  repeat split.
  - intros CMP t ob m. apply insert_member.
  - intros read_field field_off t ob m Hord Hh Hin Heq.
    unfold bintree_insert_ptr_internal.
    eapply insert_member; eauto using ptr_cmp_three_way.
  - intros CMP objs t Hcmp Hrun.
    eapply insert_all_ordered; [exact Hcmp | | exact Hrun]. exact I.
  - intros CMP objs Hpair Hlen.
    destruct (insert_all_distinct obj CMP MAX_TREE_HEIGHT objs Leaf)
      as (t & Hrun & Hsize); try (now cbn); try assumption.
    exists t. split; [exact Hrun | exact Hsize].
Qed.

Lemma no_duplicate_invariant_witness :
  bintree_insert_internal Z Z.sub 8
    (Node (Node Leaf 1 Leaf) 2 (Node Leaf 3 Leaf)) 3 =
    Returned false (Node (Node Leaf 1 Leaf) 2 (Node Leaf 3 Leaf)) /\
  bintree_insert_ptr_internal (fun o off => o + off) 8
    (Node (Node Leaf 1 Leaf) 2 (Node Leaf 3 Leaf)) 1 16 =
    Returned false (Node (Node Leaf 1 Leaf) 2 (Node Leaf 3 Leaf)) /\
  ordered Z Z.sub (Node (Node Leaf 4 Leaf) 5 (Node Leaf 6 Leaf)) /\
  exists t, insert_all Z Z.sub 8 Leaf [4; 2; 6; 1] = Some t /\ size Z t = 4%nat.
Proof.
  assert (Hsub : three_way Z Z.sub) by (constructor; intros; lia).
  destruct (no_duplicate_invariant Z 8) as (Hcmp & Hptr & Hord & Hrun).
  split; [| split; [| split]].
  - apply (Hcmp Z.sub _ 3 3 Hsub); cbn; try lia; tauto.
  - apply (Hptr (fun o off => o + off) 16 _ 1 1); cbn; try lia; tauto.
  - apply (Hord Z.sub [5; 4; 6] _ Hsub). reflexivity.
  - apply (Hrun Z.sub [4; 2; 6; 1]); [| cbn; lia].
    repeat constructor; cbn; lia.
Defined.

End BintreeFacts.

(** *** The VFS dispatch layer *)

Module VfsFacts.

Import Vfs.

(** **** C strings *)

Lemma obind_done {A B} (x : outcome A) (k : A -> outcome B) (b : B) :
  obind x k = Done b -> exists a, x = Done a /\ k a = Done b.
Proof.
  destruct x as [a | e]; [| discriminate].
  intros H. now exists a.
Qed.

Lemma char_at_zero (a : ascii) (s : string) : char_at (String a s) 0 = Done a.
Proof. reflexivity. Qed.

Lemma char_at_cons (a : ascii) (s : string) (i : Z) :
  0 <= i -> char_at (String a s) (i + 1) = char_at s i.
Proof.
  intros Hi. unfold char_at.
  cbn [String.length].
  replace (Z.to_nat (i + 1)) with (S (Z.to_nat i)) by lia.
  cbn [String.get].
  destruct (Z.leb_spec 0 (i + 1)); [| lia].
  destruct (Z.leb_spec 0 i); [| lia].
  destruct (Z.leb_spec (i + 1) (Z.of_nat (S (String.length s))));
    destruct (Z.leb_spec i (Z.of_nat (String.length s))); try lia;
    reflexivity.
Qed.

Lemma char_at_in_range (s : string) (i : Z) :
  0 <= i <= Z.of_nat (String.length s) -> exists c, char_at s i = Done c.
Proof.
  intros Hi. unfold char_at.
  destruct (Z.leb_spec 0 i); [| lia].
  destruct (Z.leb_spec i (Z.of_nat (String.length s))); [| lia].
  cbn [andb]. destruct (String.get (Z.to_nat i) s); eauto.
Qed.

Lemma char_at_done_range (s : string) (i : Z) (c : ascii) :
  char_at s i = Done c -> 0 <= i <= Z.of_nat (String.length s).
Proof.
  unfold char_at.
  destruct (Z.leb_spec 0 i); [| discriminate].
  destruct (Z.leb_spec i (Z.of_nat (String.length s))); [| discriminate].
  lia.
Qed.

Lemma strlen_bounds (s : string) : 0 <= strlen s <= Z.of_nat (String.length s).
Proof.
  induction s as [| a s IH]; cbn [strlen String.length]; [lia |].
  destruct (Ascii.eqb a NUL); lia.
Qed.

Lemma char_at_before_nul (s : string) :
  forall i, 0 <= i < strlen s ->
            exists c, char_at s i = Done c /\ Ascii.eqb c NUL = false.
Proof.
  induction s as [| a s IH]; intros i Hi; cbn [strlen] in Hi; [lia |].
  destruct (Ascii.eqb a NUL) eqn:Ea; [lia |].
  destruct (Z.eq_dec i 0) as [-> | Hnz].
  - exists a. now rewrite char_at_zero.
  - replace i with (i - 1 + 1) by lia.
    rewrite char_at_cons by lia. apply IH. lia.
Qed.

Lemma char_at_strlen (s : string) : char_at s (strlen s) = Done NUL.
Proof.
  induction s as [| a s IH]; [reflexivity |].
  cbn [strlen].
  destruct (Ascii.eqb_spec a NUL) as [-> | Hne]; [reflexivity |].
  rewrite Z.add_comm, char_at_cons by apply strlen_bounds.
  exact IH.
Qed.

(** Up to [strlen] the only NUL is the terminator. *)
Lemma char_at_nul_iff (s : string) (i : Z) (c : ascii) :
  0 <= i <= strlen s -> char_at s i = Done c ->
  (Ascii.eqb c NUL = true <-> i = strlen s).
Proof.
  intros Hi Hc.
  destruct (Z.eq_dec i (strlen s)) as [-> | Hne].
  - rewrite char_at_strlen in Hc. injection Hc as <-. now split.
  - destruct (char_at_before_nul s i ltac:(lia)) as (c' & Hc' & Hnn).
    rewrite Hc in Hc'. injection Hc' as <-. rewrite Hnn.
    split; [discriminate | contradiction].
Qed.

(** The loop counts the characters on which the two paths agree. *)
Lemma match_loop_spec (mp path : string) (n : nat) :
  forall m,
    0 <= m ->
    m + Z.of_nat n <= Z.of_nat (String.length mp) ->
    m + Z.of_nat n <= Z.of_nat (String.length path) ->
    m + Z.of_nat n < 2 ^ 32 ->
    exists m',
      match_loop n mp path m m = Done m' /\
      m <= m' <= m + Z.of_nat n /\
      (forall j, m <= j < m' -> char_at mp j = char_at path j) /\
      (m' < m + Z.of_nat n -> char_at mp m' <> char_at path m').
Proof.
  induction n as [| n IH]; intros m Hm Hmp Hpath Hu.
  - exists m. cbn [match_loop]. repeat split; try lia.
  - cbn [match_loop].
    destruct (char_at_in_range mp m ltac:(lia)) as (a & Ha).
    destruct (char_at_in_range path m ltac:(lia)) as (b & Hb).
    rewrite Ha, Hb. cbn [obind].
    destruct (Ascii.eqb_spec a b) as [-> | Hne]; cbn [negb].
    + replace (u32 (m + 1)) with (m + 1)
        by (unfold u32; rewrite Z.mod_small; lia).
      destruct (IH (m + 1) ltac:(lia) ltac:(lia) ltac:(lia) ltac:(lia))
        as (m' & E & Hrange & Heq & Hstop).
      exists m'. split; [exact E |].
      split; [lia |]. split.
      * intros j Hj. destruct (Z.eq_dec j m) as [-> | ?];
          [congruence | apply Heq; lia].
      * intros Hlt. apply Hstop. lia.
    + exists m. repeat split; try lia.
      intros _. congruence.
Qed.

Lemma u32_small (x : Z) : 0 <= x < 2 ^ 32 -> u32 x = x.
Proof. intros H. unfold u32. now apply Z.mod_small. Qed.

Lemma assert_pure_done (expr : string) (b : bool) (u : unit) :
  ASSERT_pure expr b = Done u -> b = true.
Proof. destruct b; [reflexivity | discriminate]. Qed.

(** Claim C10 (what [check_mountpoint_match] returns).  For C strings [mp]
    and [path] passed with their lengths: a result [m] other than 0 is the
    length of a common prefix of the two, and is either [strlen(mp)] or
    [strlen(mp) - 1], the latter only when [path] is exactly [m] characters
    long; the call returns when [mp] ends in [/] and both paths begin with
    [/]; and the second case does occur: [/dev] against [/dev/] gives 4. *)
Theorem mountpoint_match_shape (mp path : string) :
  strlen mp < 2 ^ 32 -> strlen path < 2 ^ 32 ->
  (forall m,
      check_mountpoint_match mp (strlen mp) path (strlen path) = Done m ->
      m <> 0 ->
      (forall j, 0 <= j < m -> char_at mp j = char_at path j) /\
      (m = strlen mp \/ (m = strlen mp - 1 /\ strlen path = m)))
  /\
  (char_at mp (strlen mp - 1) = Done SLASH ->
   char_at mp 0 = Done SLASH -> char_at path 0 = Done SLASH ->
   exists m, check_mountpoint_match mp (strlen mp) path (strlen path) = Done m)
  /\
  check_mountpoint_match "/dev/" (strlen "/dev/") "/dev" (strlen "/dev") =
  Done (strlen "/dev/" - 1).
Proof.
  intros Hlm Hlp.
  pose proof (strlen_bounds mp) as Bm.
  pose proof (strlen_bounds path) as Bp.
  destruct (match_loop_spec mp path
              (Z.to_nat (Z.min (strlen mp) (strlen path))) 0
              ltac:(lia) ltac:(lia) ltac:(lia) ltac:(lia))
    as (m0 & E & Hrange & Heq & Hstop).
  split; [| split; [| reflexivity]].
  - intros m H Hnz.
    unfold check_mountpoint_match in H.
    apply obind_done in H. destruct H as (last & _ & H).
    apply obind_done in H. destruct H as (u & _ & H).
    rewrite E in H. cbn [obind] in H.
    apply obind_done in H. destruct H as (u' & Hpos & H).
    apply assert_pure_done in Hpos. apply Z.ltb_lt in Hpos.
    apply obind_done in H. destruct H as (c & Hc & H).
    pose proof (char_at_nul_iff mp m0 c ltac:(lia) Hc) as Hnul.
    destruct (Ascii.eqb c NUL) eqn:Ec; cbn [negb] in H.
    + apply obind_done in H. destruct H as (q & _ & H).
      destruct (negb (Ascii.eqb q SLASH) && negb (Ascii.eqb q NUL));
        injection H as <-; [contradiction |].
      split; [exact Heq |]. left. now apply Hnul.
    + assert (m0 < strlen mp) as Hlt
          by (destruct (Z.eq_dec m0 (strlen mp)) as [Heq0 | ?];
              [apply Hnul in Heq0; discriminate | lia]).
      destruct (Ascii.eqb c SLASH); [| injection H as <-; contradiction].
      rewrite u32_small in H by lia.
      apply obind_done in H. destruct H as (c1 & Hc1 & H).
      pose proof (char_at_nul_iff mp (m0 + 1) c1 ltac:(lia) Hc1) as Hnul1.
      destruct (Ascii.eqb c1 NUL); [| injection H as <-; contradiction].
      apply obind_done in H. destruct H as (q & Hq & H).
      pose proof (char_at_nul_iff path m0 q ltac:(lia) Hq) as Hnulq.
      destruct (Ascii.eqb q NUL); injection H as <-; [| contradiction].
      split; [exact Heq |]. right.
      pose proof (proj1 Hnul1 eq_refl). pose proof (proj1 Hnulq eq_refl). lia.
  - intros Hlast Hm0 Hp0.
    pose proof (char_at_done_range _ _ _ Hlast) as Rlast.
    assert (1 <= strlen path) as Hp1.
    { destruct (Z.eq_dec (strlen path) 0) as [Hz | ?]; [| lia].
      pose proof (char_at_strlen path) as Hn. rewrite Hz, Hp0 in Hn.
      discriminate. }
    assert (0 < m0) as Hpos.
    { destruct (Z.eq_dec m0 0) as [-> | ?]; [| lia].
      exfalso. apply Hstop; [lia | congruence]. }
    unfold check_mountpoint_match.
    rewrite u32_small by lia. rewrite Hlast. cbn [obind].
    rewrite Ascii.eqb_refl. cbn [ASSERT_pure obind].
    rewrite E. cbn [obind].
    destruct (Z.ltb_spec 0 m0); [| lia]. cbn [ASSERT_pure obind].
    destruct (char_at_in_range mp m0 ltac:(lia)) as (c & Hc).
    rewrite Hc. cbn [obind].
    pose proof (char_at_nul_iff mp m0 c ltac:(lia) Hc) as Hnul.
    destruct (Ascii.eqb c NUL) eqn:Ec; cbn [negb].
    + rewrite u32_small by lia.
      destruct (char_at_in_range path (m0 - 1) ltac:(lia)) as (q & Hq).
      rewrite Hq. cbn [obind].
      destruct (negb (Ascii.eqb q SLASH) && negb (Ascii.eqb q NUL)); eauto.
    + assert (m0 < strlen mp) as Hlt
          by (destruct (Z.eq_dec m0 (strlen mp)) as [Heq0 | ?];
              [apply Hnul in Heq0; discriminate | lia]).
      destruct (Ascii.eqb c SLASH); [| eauto].
      rewrite u32_small by lia.
      destruct (char_at_in_range mp (m0 + 1) ltac:(lia)) as (c1 & Hc1).
      rewrite Hc1. cbn [obind].
      destruct (Ascii.eqb c1 NUL); [| eauto].
      destruct (char_at_in_range path m0 ltac:(lia)) as (q & Hq).
      rewrite Hq. cbn [obind].
      destruct (Ascii.eqb q NUL); eauto.
Qed.

Lemma mountpoint_match_shape_witness :
  (forall j, 0 <= j < 4 -> char_at "/dev/" j = char_at "/dev" j) /\
  (4 = strlen "/dev/" \/ (4 = strlen "/dev/" - 1 /\ strlen "/dev" = 4)).
Proof.
  apply (proj1 (mountpoint_match_shape "/dev/" "/dev" eq_refl eq_refl) 4).
  - reflexivity.
  - discriminate.
Defined.

Section Facts.

Context {fsdata : Type}.

Implicit Types (s : kstate fsdata) (hb : fs_handle_base fsdata)
  (f : filesystem fsdata).

(** **** Sequencing *)

Lemma bind_step {A B} (c : M fsdata A) (k : A -> M fsdata B) s a s1 :
  c s = Done (a, s1) -> bind c k s = k a s1.
Proof. unfold bind. now intros ->. Qed.

(** A call through a hook returns what the hook returns, on the world the
    hook leaves, and is recorded once. *)
Lemma call_done {A} (e : event) (hk : hook fsdata A) s :
  call e hk s =
  Done (fst (hk (kworld s)),
        {| kworld := snd (hk (kworld s));
           next_device_id := next_device_id s;
           trace := trace s ++ [e] |}).
Proof. unfold call. now destruct (hk (kworld s)). Qed.

(** **** The lock operations *)

Ltac open_locks :=
  unfold vfs_exlock, vfs_exunlock, vfs_shlock, vfs_shunlock, get_fs,
    vfs_fs_exlock, vfs_fs_exunlock, vfs_fs_shlock, vfs_fs_shunlock,
    paired_hooks, fs_locks_present, ASSERT, bind, ret, fail in *.

(** With paired hooks on the handle and the lock operations of the
    filesystem in place, taking or releasing a lock is one call. *)
Lemma lock_runs hb s :
  paired_hooks (fops hb) = true -> fs_locks_present (fs hb) = true ->
  forall op,
    In op [vfs_exlock; vfs_exunlock; vfs_shlock; vfs_shunlock] ->
    exists w e,
      op (Some hb) s =
      Done (tt, {| kworld := w; next_device_id := next_device_id s;
                   trace := trace s ++ [e] |}).
Proof.
  intros Hp Hf op Hop.
  cbn [In] in Hop.
  destruct Hop as [<- | [<- | [<- | [<- | []]]]];
    open_locks;
    destruct (exlock (fops hb)), (exunlock (fops hb)),
      (shlock (fops hb)), (shunlock (fops hb)); try discriminate;
    destruct (fs_exlock (fs hb)), (fs_exunlock (fs hb)),
      (fs_shlock (fs hb)), (fs_shunlock (fs hb)); try discriminate;
    cbn [is_some negb];
    rewrite call_done; do 2 eexists; destruct (fst _); reflexivity.
Qed.


(** An operation run between a lock and its unlock returns what its hook
    returned in the world the lock left. *)
Lemma locked_call_runs {A} hb s (lock unlock : option (fs_handle_base fsdata)
                                               -> M fsdata unit)
  (e : event) (hk : hook fsdata A) :
  paired_hooks (fops hb) = true -> fs_locks_present (fs hb) = true ->
  In lock [vfs_exlock; vfs_exunlock; vfs_shlock; vfs_shunlock] ->
  In unlock [vfs_exlock; vfs_exunlock; vfs_shlock; vfs_shunlock] ->
  exists s1 s' e1 e2,
    lock (Some hb) s = Done (tt, s1) /\
    bind (lock (Some hb))
         (fun _ => bind (call e hk)
                     (fun r => bind (unlock (Some hb)) (fun _ => ret r))) s =
    Done (fst (hk (kworld s1)), s') /\
    added s s' [e1; e; e2].
Proof.
  intros Hp Hf Hlock Hunlock.
  destruct (lock_runs hb s Hp Hf lock Hlock) as (w1 & e1 & E1).
  rewrite (bind_step _ _ _ _ _ E1).
  rewrite (bind_step _ _ _ _ _ (call_done e hk _)).
  match goal with
  | |- context [bind (unlock (Some hb)) _ ?s2] =>
      destruct (lock_runs hb s2 Hp Hf unlock Hunlock) as (w2 & e2 & E2);
      rewrite (bind_step _ _ _ _ _ E2)
  end.
  do 4 eexists. split; [exact E1 |]. split; [reflexivity |].
  unfold added. cbn [trace]. now rewrite <- !app_assoc.
Qed.

(** Three calls in a row, the value of the middle one being returned. *)
Lemma bracket_done {A} (e1 e2 e3 : event) (lk : hook fsdata unit)
  (hk : hook fsdata A) (ulk : hook fsdata unit) s :
  bind (call e1 lk)
       (fun _ => bind (call e2 hk)
                   (fun r => bind (call e3 ulk) (fun _ => ret r))) s =
  Done (fst (hk (snd (lk (kworld s)))),
        {| kworld := snd (ulk (snd (hk (snd (lk (kworld s))))));
           next_device_id := next_device_id s;
           trace := trace s ++ [e1; e2; e3] |}).
Proof.
  unfold bind. rewrite !call_done. cbn [kworld next_device_id trace fst snd].
  unfold ret. now rewrite <- !app_assoc.
Qed.

(** **** Opening, closing and duplicating *)

Lemma resolve_some (mps : list (mountpoint fsdata)) (p fp : string)
  (mp : mountpoint fsdata) :
  resolve mps p = Done (Some (mp, fp)) ->
  exists n,
    best_match_scan mps p (u32 (strlen p)) None 0 = Done (Some mp, n) /\
    fp = fs_path_of p (u32 (strlen p)) n.
Proof.
  unfold resolve.
  destruct (best_match_scan mps p (u32 (strlen p)) None 0)
    as [[[b |] n] | e]; cbn [obind]; try discriminate.
  intros H. injection H as -> <-. now exists n.
Qed.

Lemma resolve_none (mps : list (mountpoint fsdata)) (p : string) :
  resolve mps p = Done None ->
  exists n, best_match_scan mps p (u32 (strlen p)) None 0 = Done (None, n).
Proof.
  unfold resolve.
  destruct (best_match_scan mps p (u32 (strlen p)) None 0)
    as [[[b |] n] | e]; cbn [obind]; try discriminate.
  intros _. now exists n.
Qed.

(** What [vfs_open] does on a path that a mountpoint serves: the lock of
    the filesystem in the mode the create flag asks for, the [open]
    operation on the remainder of the path, the unlock, and one more
    reference when [open] returned 0. *)
Lemma vfs_open_resolved (mps : list (mountpoint fsdata)) (p : string)
  (flags mode : Z) s (mp : mountpoint fsdata) (fp : string)
  (lk ulk : hook fsdata unit) :
  char_at p 0 = Done SLASH ->
  resolve mps p = Done (Some (mp, fp)) ->
  let f := mp_fs mp in
  let creat := negb (Z.land flags O_CREAT =? 0) in
  (if creat then fs_exlock f else fs_shlock f) = Some lk ->
  (if creat then fs_exunlock f else fs_shunlock f) = Some ulk ->
  let w1 := snd (lk (kworld s)) in
  let r := fst (open f fp flags mode w1) in
  let w3 := snd (ulk (snd (open f fp flags mode w1))) in
  exists s',
    vfs_open mps p flags mode s = Done (r, s') /\
    kworld s' = (if fst r =? 0
                 then set_ref_count w3 (fs_addr f)
                        (ref_count w3 (fs_addr f) + 1)
                 else w3) /\
    next_device_id s' = next_device_id s /\
    added s s' [Mp_iter_begin;
                if creat then Fs_exlock (fs_addr f) else Fs_shlock (fs_addr f);
                Fs_open (fs_addr f) fp flags mode;
                if creat then Fs_exunlock (fs_addr f)
                else Fs_shunlock (fs_addr f);
                Mp_iter_end].
Proof.
  intros Hc Hres f creat Hlk Hulk w1 r w3.
  destruct (resolve_some _ _ _ _ Hres) as (n & Hscan & Hfp).
  unfold vfs_open.
  unfold lift at 1. rewrite Hc.
  rewrite (bind_step _ _ s SLASH s eq_refl).
  rewrite Ascii.eqb_refl. cbn [negb].
  rewrite (bind_step _ _ s tt s eq_refl).
  cbv zeta. unfold tick.
  rewrite (bind_step _ _ _ _ _ (call_done _ _ _)).
  unfold lift. rewrite Hscan.
  match goal with
  | |- context [bind _ _ ?s1] =>
      rewrite (bind_step _ _ s1 (Some mp, n) s1 eq_refl)
  end.
  cbv zeta. rewrite <- Hfp. fold f. fold creat.
  unfold vfs_fs_exlock, vfs_fs_exunlock, vfs_fs_shlock, vfs_fs_shunlock.
  assert (Hend :
    forall (e1 e3 : event) s1,
      exists s',
        bind (bind (call e1 lk)
                (fun _ => bind (call (Fs_open (fs_addr f) fp flags mode)
                                  (open f fp flags mode))
                            (fun r0 => bind (call e3 ulk) (fun _ => ret r0))))
          (fun r0 => bind (if fst r0 =? 0 then ref_count_incr f else ret tt)
                       (fun _ => bind (call Mp_iter_end (fun w => (tt, w)))
                                   (fun _ => ret r0))) s1 =
        Done (fst (open f fp flags mode (snd (lk (kworld s1)))), s') /\
        kworld s' =
          (let w := snd (ulk (snd (open f fp flags mode (snd (lk (kworld s1)))))) in
           if fst (fst (open f fp flags mode (snd (lk (kworld s1))))) =? 0
           then set_ref_count w (fs_addr f) (ref_count w (fs_addr f) + 1)
           else w) /\
        next_device_id s' = next_device_id s1 /\
        trace s' = trace s1 ++ [e1; Fs_open (fs_addr f) fp flags mode; e3;
                                Mp_iter_end]).
  { intros e1 e3 s1.
    rewrite (bind_step _ _ _ _ _
               (bracket_done e1 _ e3 lk (open f fp flags mode) ulk s1)).
    destruct (fst (fst (open f fp flags mode (snd (lk (kworld s1))))) =? 0);
      unfold ref_count_incr, ret, bind; rewrite call_done;
      (eexists; split; [reflexivity |]);
      cbn [kworld next_device_id trace fst snd];
      (split; [reflexivity | split; [reflexivity |]]);
      now rewrite <- !app_assoc. }
  unfold vfs_fs_exlock, vfs_fs_exunlock, vfs_fs_shlock, vfs_fs_shunlock.
  destruct creat; rewrite Hlk, Hulk.
  - destruct (Hend (Fs_exlock (fs_addr f)) (Fs_exunlock (fs_addr f))
                {| kworld := kworld s; next_device_id := next_device_id s;
                   trace := trace s ++ [Mp_iter_begin] |})
      as (s2 & E2 & Hw2 & Hn2 & Ht2).
    exists s2. split; [exact E2 |].
    split; [exact Hw2 | split; [exact Hn2 |]].
    unfold added. rewrite Ht2. cbn [trace]. now rewrite <- app_assoc.
  - destruct (Hend (Fs_shlock (fs_addr f)) (Fs_shunlock (fs_addr f))
                {| kworld := kworld s; next_device_id := next_device_id s;
                   trace := trace s ++ [Mp_iter_begin] |})
      as (s2 & E2 & Hw2 & Hn2 & Ht2).
    exists s2. split; [exact E2 |].
    split; [exact Hw2 | split; [exact Hn2 |]].
    unfold added. rewrite Ht2. cbn [trace]. now rewrite <- app_assoc.
Qed.

(** ... and on a path that no mountpoint serves. *)
Lemma vfs_open_unresolved (mps : list (mountpoint fsdata)) (p : string)
  (flags mode : Z) s :
  char_at p 0 = Done SLASH ->
  resolve mps p = Done None ->
  exists s',
    vfs_open mps p flags mode s = Done ((- ENOENT, 0), s') /\
    kworld s' = kworld s /\
    next_device_id s' = next_device_id s /\
    added s s' [Mp_iter_begin; Mp_iter_end].
Proof.
  intros Hc Hres.
  destruct (resolve_none _ _ Hres) as (n & Hscan).
  unfold vfs_open.
  unfold lift at 1. rewrite Hc.
  rewrite (bind_step _ _ s SLASH s eq_refl).
  rewrite Ascii.eqb_refl. cbn [negb].
  rewrite (bind_step _ _ s tt s eq_refl).
  cbv zeta. unfold tick.
  rewrite (bind_step _ _ _ _ _ (call_done _ _ _)).
  unfold lift. rewrite Hscan.
  match goal with
  | |- context [bind _ _ ?s1] =>
      rewrite (bind_step _ _ s1 (None, n) s1 eq_refl)
  end.
  rewrite (bind_step _ _ _ _ _ (call_done _ _ _)).
  eexists. split; [reflexivity |].
  cbn [kworld next_device_id trace fst snd].
  split; [reflexivity | split; [reflexivity |]].
  unfold added. cbn [trace]. now rewrite <- !app_assoc.
Qed.

(** A call of [vfs_open] that returns was given an absolute path and
    found the lock operations it needed. *)
Lemma vfs_open_done_inv (mps : list (mountpoint fsdata)) (p : string)
  (flags mode : Z) s r s' :
  vfs_open mps p flags mode s = Done (r, s') ->
  char_at p 0 = Done SLASH /\
  forall mp fp,
    resolve mps p = Done (Some (mp, fp)) ->
    exists lk ulk,
      (if negb (Z.land flags O_CREAT =? 0)
       then fs_exlock (mp_fs mp) else fs_shlock (mp_fs mp)) = Some lk /\
      (if negb (Z.land flags O_CREAT =? 0)
       then fs_exunlock (mp_fs mp) else fs_shunlock (mp_fs mp)) = Some ulk.
Proof.
  intros H.
  unfold vfs_open in H.
  unfold lift at 1 in H.
  destruct (char_at p 0) as [c | e]; [| discriminate].
  rewrite (bind_step _ _ s c s eq_refl) in H.
  destruct (Ascii.eqb_spec c SLASH) as [Hc | Hne]; [| discriminate].
  split; [now rewrite Hc |].
  intros mp fp Hres.
  destruct (resolve_some _ _ _ _ Hres) as (n & Hscan & ->).
  cbn [negb] in H.
  rewrite (bind_step _ _ s tt s eq_refl) in H.
  cbv zeta in H. unfold tick in H.
  rewrite (bind_step _ _ _ _ _ (call_done _ _ _)) in H.
  unfold lift in H. rewrite Hscan in H.
  match type of H with
  | context [bind _ _ ?s1] =>
      rewrite (bind_step _ _ s1 (Some mp, n) s1 eq_refl) in H
  end.
  unfold vfs_fs_exlock, vfs_fs_exunlock, vfs_fs_shlock, vfs_fs_shunlock in H.
  destruct (negb (Z.land flags O_CREAT =? 0)).
  - destruct (fs_exlock (mp_fs mp)) as [lk |]; [| discriminate].
    destruct (fs_exunlock (mp_fs mp)) as [ulk |]; [now exists lk, ulk |].
    exfalso. revert H.
    unfold bind at 1. unfold bind at 1. rewrite call_done.
    unfold bind at 1. rewrite call_done.
    discriminate.
  - destruct (fs_shlock (mp_fs mp)) as [lk |]; [| discriminate].
    destruct (fs_shunlock (mp_fs mp)) as [ulk |]; [now exists lk, ulk |].
    exfalso. revert H.
    unfold bind at 1. unfold bind at 1. rewrite call_done.
    unfold bind at 1. rewrite call_done.
    discriminate.
Qed.

Lemma vfs_close_spec (unmap : N -> hook fsdata unit) hb s :
  let a := fs_addr (fs hb) in
  let w := snd (close (fs hb) (h_addr hb)
                  (snd (unmap (h_addr hb) (kworld s)))) in
  vfs_close unmap hb s =
  if 0 <? ref_count w a - 1
  then Done (tt, {| kworld := set_ref_count w a (ref_count w a - 1);
                    next_device_id := next_device_id s;
                    trace := trace s ++ [Remove_all_mappings (h_addr hb);
                                         Fs_close a (h_addr hb)] |})
  else Fatal (Assert_failed "fs->ref_count > 0").
Proof.
  intros a w.
  unfold vfs_close, bind. rewrite !call_done.
  cbn [kworld next_device_id trace fst snd].
  unfold ref_count_decr, get_ref_count, ASSERT.
  cbn [kworld next_device_id trace fst snd set_ref_count ref_count].
  rewrite N.eqb_refl. fold a. fold w.
  destruct (0 <? ref_count w a - 1); unfold ret, fail;
    [now rewrite <- !app_assoc | reflexivity].
Qed.

Lemma vfs_dup_spec hb s :
  let a := fs_addr (fs hb) in
  let r := fst (dup (fs hb) (h_addr hb) (kworld s)) in
  let w := snd (dup (fs hb) (h_addr hb) (kworld s)) in
  vfs_dup (Some hb) s =
  if negb (fst r =? 0)
  then Done (r, {| kworld := w; next_device_id := next_device_id s;
                   trace := trace s ++ [Fs_dup a (h_addr hb)] |})
  else if negb (snd r =? 0)
       then Done ((0, snd r),
                  {| kworld := set_ref_count w a (ref_count w a + 1);
                     next_device_id := next_device_id s;
                     trace := trace s ++ [Fs_dup a (h_addr hb)] |})
       else Fatal (Assert_failed "*dup_h != NULL").
Proof.
  intros a r w.
  unfold vfs_dup, bind. rewrite call_done.
  fold a. fold r. fold w.
  destruct (negb (fst r =? 0)); [reflexivity |].
  unfold ref_count_incr, ASSERT.
  cbn [kworld next_device_id trace].
  destruct (negb (snd r =? 0)); reflexivity.
Qed.

Lemma set_ref_count_at (w : world fsdata) (a g : N) (v : Z) :
  ref_count (set_ref_count w a v) g = if N.eqb g a then v else ref_count w g.
Proof. reflexivity. Qed.

Lemma keeps_present {A} (o : option (hook fsdata A)) (hk : hook fsdata A) :
  keeps_if_present o -> o = Some hk -> keeps_ref_counts hk.
Proof. intros H ->. exact H. Qed.

Lemma vfs_open_ref_counts (mps : list (mountpoint fsdata)) (p : string)
  (flags mode : Z) s (mp : mountpoint fsdata) (fp : string) r s' :
  resolve mps p = Done (Some (mp, fp)) ->
  fs_keeps_ref_counts (mp_fs mp) ->
  vfs_open mps p flags mode s = Done (r, s') ->
  forall g,
    ref_count (kworld s') g =
    if (fst r =? 0) && N.eqb g (fs_addr (mp_fs mp))
    then ref_count (kworld s) g + 1
    else ref_count (kworld s) g.
Proof.
  intros Hres (Hopen & _ & _ & Hxl & Hxu & Hsl & Hsu) H g.
  destruct (vfs_open_done_inv _ _ _ _ _ _ _ H) as (Hc & Hlocks).
  destruct (Hlocks mp fp Hres) as (lk & ulk & Hlk & Hulk).
  destruct (vfs_open_resolved mps p flags mode s mp fp lk ulk Hc Hres Hlk Hulk)
    as (s2 & E & Hw & _ & _).
  rewrite E in H. injection H as <- <-.
  assert (Klk : keeps_ref_counts lk)
    by (destruct (negb (Z.land flags O_CREAT =? 0));
        eauto using keeps_present).
  assert (Kulk : keeps_ref_counts ulk)
    by (destruct (negb (Z.land flags O_CREAT =? 0));
        eauto using keeps_present).
  rewrite Hw.
  set (w1 := snd (lk (kworld s))).
  set (r := fst (open (mp_fs mp) fp flags mode w1)).
  assert (Hsame : forall g',
             ref_count (snd (ulk (snd (open (mp_fs mp) fp flags mode w1)))) g'
             = ref_count (kworld s) g').
  { intros g'. rewrite Kulk, (Hopen fp flags mode w1 g'). apply Klk. }
  destruct (fst r =? 0); cbn [andb].
  - rewrite set_ref_count_at.
    destruct (N.eqb_spec g (fs_addr (mp_fs mp))) as [-> |];
      now rewrite Hsame.
  - apply Hsame.
Qed.

Lemma vfs_open_done_resolve (mps : list (mountpoint fsdata)) (p : string)
  (flags mode : Z) s r s' :
  vfs_open mps p flags mode s = Done (r, s') ->
  exists res, resolve mps p = Done res.
Proof.
  intros H.
  unfold vfs_open in H.
  unfold lift at 1 in H.
  destruct (char_at p 0) as [c | e]; [| discriminate].
  rewrite (bind_step _ _ s c s eq_refl) in H.
  destruct (Ascii.eqb_spec c SLASH) as [Hc | Hne]; [| discriminate].
  cbn [negb] in H.
  rewrite (bind_step _ _ s tt s eq_refl) in H.
  cbv zeta in H. unfold tick in H.
  rewrite (bind_step _ _ _ _ _ (call_done _ _ _)) in H.
  unfold resolve.
  destruct (best_match_scan mps p (u32 (strlen p)) None 0)
    as [[[mp |] n] | e]; cbn [obind]; [eauto | eauto | discriminate].
Qed.

Lemma best_match_scan_in (mps : list (mountpoint fsdata)) (p : string)
  (pl : Z) :
  forall best len mp n,
    best_match_scan mps p pl best len = Done (Some mp, n) ->
    best = Some mp \/ In mp mps.
Proof.
  induction mps as [| m rest IH]; intros best len mp n H.
  - cbn in H. injection H as -> _. now left.
  - cbn [best_match_scan] in H.
    destruct (check_mountpoint_match (path m) (path_len m) p pl) as [k | e];
      [| discriminate].
    cbn [obind] in H.
    destruct (len <? k).
    + destruct (IH _ _ _ _ H) as [E | Hin].
      * injection E as ->. right. now left.
      * right. now right.
    + destruct (IH _ _ _ _ H) as [E | Hin]; [now left | right; now right].
Qed.

Lemma resolve_in (mps : list (mountpoint fsdata)) (p fp : string)
  (mp : mountpoint fsdata) :
  resolve mps p = Done (Some (mp, fp)) -> In mp mps.
Proof.
  unfold resolve.
  destruct (best_match_scan mps p (u32 (strlen p)) None 0)
    as [[[b |] n] | e] eqn:E; cbn [obind]; try discriminate.
  intros H. injection H as -> _.
  destruct (best_match_scan_in _ _ _ _ _ _ _ E) as [? | Hin];
    [discriminate | exact Hin].
Qed.

(** No call that returns brings a positive reference count down to 0. *)
Lemma step_keeps_positive (unmap : N -> hook fsdata unit)
  (c : vfs_call fsdata) s s' (g : N) :
  call_keeps_ref_counts c ->
  (forall h, keeps_ref_counts (unmap h)) ->
  0 < ref_count (kworld s) g ->
  step unmap c s = Done s' ->
  0 < ref_count (kworld s') g.
Proof.
  intros Hk Hunmap Hpos H.
  destruct c as [mps p flags mode | hb | [hb |]]; cbn [step] in H.
  - destruct (vfs_open mps p flags mode s) as [[r s2] | e] eqn:E;
      [| discriminate].
    cbn [forget] in H. injection H as <-.
    destruct (vfs_open_done_resolve _ _ _ _ _ _ _ E) as ([[mp fp] |] & Hres).
    + cbn [call_keeps_ref_counts] in Hk. rewrite Forall_forall in Hk.
      rewrite (vfs_open_ref_counts mps p flags mode s mp fp r s2 Hres
                 (Hk mp (resolve_in _ _ _ _ Hres)) E g).
      destruct ((fst r =? 0) && N.eqb g (fs_addr (mp_fs mp))); lia.
    + destruct (vfs_open_done_inv _ _ _ _ _ _ _ E) as (Hc & _).
      destruct (vfs_open_unresolved mps p flags mode s Hc Hres)
        as (s3 & E3 & Hw & _ & _).
      rewrite E3 in E. injection E as _ <-. now rewrite Hw.
  - rewrite vfs_close_spec in H. cbv zeta in H.
    destruct Hk as (_ & Hclose & _).
    match type of H with
    | context [0 <? ?n] => destruct (Z.ltb_spec 0 n) as [Hn |]
    end; [| discriminate].
    cbn [forget] in H. injection H as <-. cbn [kworld].
    rewrite set_ref_count_at.
    destruct (N.eqb g (fs_addr (fs hb))); [exact Hn |].
    now rewrite Hclose, Hunmap.
  - rewrite vfs_dup_spec in H. cbv zeta in H.
    destruct Hk as (_ & _ & Hdup & _).
    pose proof (Hdup (h_addr hb) (kworld s)) as Hsame.
    destruct (negb (fst (fst (dup (fs hb) (h_addr hb) (kworld s))) =? 0)).
    + cbn [forget] in H. injection H as <-. cbn [kworld]. now rewrite Hsame.
    + destruct (negb (snd (fst (dup (fs hb) (h_addr hb) (kworld s))) =? 0));
        [| discriminate].
      cbn [forget] in H. injection H as <-. cbn [kworld].
      rewrite set_ref_count_at.
      destruct (N.eqb_spec g (fs_addr (fs hb))) as [Hg |];
        [rewrite <- Hg |]; rewrite Hsame; lia.
  - cbn in H. injection H as <-. exact Hpos.
Qed.

Lemma run_keeps_positive (unmap : N -> hook fsdata unit)
  (calls : list (vfs_call fsdata)) (g : N) :
  Forall call_keeps_ref_counts calls ->
  (forall h, keeps_ref_counts (unmap h)) ->
  forall s s',
    0 < ref_count (kworld s) g ->
    run unmap calls s = Done s' ->
    0 < ref_count (kworld s') g.
Proof.
  intros Hk Hunmap.
  induction Hk as [| c rest Hc Hrest IH]; intros s s' Hpos H.
  - cbn in H. now injection H as <-.
  - cbn [run] in H.
    destruct (step unmap c s) as [s1 | e] eqn:E; [| discriminate].
    eapply IH; [| exact H].
    eapply step_keeps_positive; eassumption.
Qed.

Lemma resolve_reaches (mps : list (mountpoint fsdata)) (p fp : string)
  (mp : mountpoint fsdata) :
  char_at p 0 = Done SLASH ->
  resolve mps p = Done (Some (mp, fp)) ->
  reaches mps p (mp_fs mp) fp.
Proof.
  intros Hc Hres flags mode s lk ulk creat Hlk Hulk.
  destruct (vfs_open_resolved mps p flags mode s mp fp lk ulk Hc Hres Hlk Hulk)
    as (s' & E & _ & _ & Hadd).
  exists s'. split; [exact E | exact Hadd].
Qed.

End Facts.

(** Claim C1 (mount resolution).  With the mountpoints [/] and [/dev/]
    registered, in either order: [/dev/null] is served by the filesystem
    of [/dev/], the longer of the two matches, whose [open] operation
    receives [/null]; [/devX] is served by the filesystem of [/], the match
    against [/dev/] stopping inside a component being rejected (length 0);
    [/dev] is served by the filesystem of [/dev/] (match of length 4), whose
    [open] operation receives [/]. *)
Theorem mount_resolution {fsdata : Type} (fs_root fs_dev : filesystem fsdata)
  (mps : list (mountpoint fsdata)) :
  let root := {| mp_fs := fs_root; path_len := 1; path := "/" |} in
  let dev := {| mp_fs := fs_dev; path_len := 5; path := "/dev/" |} in
  mps = [root; dev] \/ mps = [dev; root] ->
  (check_mountpoint_match "/" 1 "/dev/null" 9 = Done 1 /\
   check_mountpoint_match "/dev/" 5 "/dev/null" 9 = Done 5 /\
   check_mountpoint_match "/dev/" 5 "/devX" 5 = Done 0 /\
   check_mountpoint_match "/dev/" 5 "/dev" 4 = Done 4)
  /\
  (resolve mps "/dev/null" = Done (Some (dev, "/null"%string)) /\
   resolve mps "/devX" = Done (Some (root, "/devX"%string)) /\
   resolve mps "/dev" = Done (Some (dev, "/"%string)))
  /\
  (reaches mps "/dev/null" fs_dev "/null" /\
   reaches mps "/devX" fs_root "/devX" /\
   reaches mps "/dev" fs_dev "/").
Proof.
  intros root dev Hmps.
  assert (Hres :
    resolve mps "/dev/null" = Done (Some (dev, "/null"%string)) /\
    resolve mps "/devX" = Done (Some (root, "/devX"%string)) /\
    resolve mps "/dev" = Done (Some (dev, "/"%string)))
    by (destruct Hmps as [-> | ->]; repeat split).
  destruct Hres as (H1 & H2 & H3).
  split; [repeat split |].
  split; [repeat split; assumption |].
  split; [| split].
  - exact (resolve_reaches mps "/dev/null" "/null" dev eq_refl H1).
  - exact (resolve_reaches mps "/devX" "/devX" root eq_refl H2).
  - exact (resolve_reaches mps "/dev" "/" dev eq_refl H3).
Qed.

Lemma mount_resolution_witness :
  (resolve [demo_root; demo_dev] "/dev/null" =
     Done (Some (demo_dev, "/null"%string)) /\
   resolve [demo_root; demo_dev] "/devX" =
     Done (Some (demo_root, "/devX"%string)) /\
   resolve [demo_root; demo_dev] "/dev" = Done (Some (demo_dev, "/"%string)))
  /\
  exists s',
    vfs_open [demo_root; demo_dev] "/dev" 0 0 demo_state = Done ((0, 512), s') /\
    added demo_state s'
      [Mp_iter_begin; Fs_shlock 2; Fs_open 2 "/" 0 0; Fs_shunlock 2;
       Mp_iter_end].
Proof.
  destruct (mount_resolution (demo_fs 1) (demo_fs 2) [demo_root; demo_dev]
              (or_introl eq_refl)) as (_ & Hres & _ & _ & Hdev).
  split; [exact Hres |].
  exact (Hdev 0 0 demo_state (idle tt) (idle tt) eq_refl eq_refl).
Defined.

(** Claim C4 (reference counting).  [vfs_open] adds exactly one to the
    reference count of the filesystem it resolved to when the [open]
    operation returned 0, and nothing otherwise; [vfs_close] takes exactly
    one from the count the [close] operation left, after that operation and
    after the mappings were dropped, and returns only if the count is still
    positive, the assertion failing otherwise; [vfs_dup] adds exactly one
    when the [dup] operation returned 0.  The counts of the other
    filesystems are not touched.  (The operations of the filesystem are
    taken to leave the counts alone where the count is compared with its
    value before the call.) *)
Theorem reference_counting {fsdata : Type} (unmap : N -> hook fsdata unit)
  (s : kstate fsdata) :
  (forall mps p flags mode mp fp r s',
      resolve mps p = Done (Some (mp, fp)) ->
      fs_keeps_ref_counts (mp_fs mp) ->
      vfs_open mps p flags mode s = Done (r, s') ->
      forall g,
        ref_count (kworld s') g =
        if (fst r =? 0) && N.eqb g (fs_addr (mp_fs mp))
        then ref_count (kworld s) g + 1
        else ref_count (kworld s) g)
  /\
  (forall mps p flags mode r s',
      resolve mps p = Done None ->
      vfs_open mps p flags mode s = Done (r, s') ->
      fst r = - ENOENT /\ kworld s' = kworld s)
  /\
  (forall hb,
      let a := fs_addr (fs hb) in
      let w := snd (close (fs hb) (h_addr hb)
                      (snd (unmap (h_addr hb) (kworld s)))) in
      (forall s',
          vfs_close unmap hb s = Done (tt, s') ->
          kworld s' = set_ref_count w a (ref_count w a - 1) /\
          0 < ref_count (kworld s') a /\
          added s s' [Remove_all_mappings (h_addr hb); Fs_close a (h_addr hb)])
      /\
      (ref_count w a - 1 <= 0 ->
       vfs_close unmap hb s = Fatal (Assert_failed "fs->ref_count > 0"))
      /\
      (0 < ref_count w a - 1 -> exists s', vfs_close unmap hb s = Done (tt, s'))
      /\
      (fs_keeps_ref_counts (fs hb) ->
       (forall h, keeps_ref_counts (unmap h)) ->
       forall s' g,
         vfs_close unmap hb s = Done (tt, s') ->
         ref_count (kworld s') g =
         if N.eqb g a then ref_count (kworld s) g - 1
         else ref_count (kworld s) g))
  /\
  (forall hb r s' g,
      fs_keeps_ref_counts (fs hb) ->
      vfs_dup (Some hb) s = Done (r, s') ->
      ref_count (kworld s') g =
      if (fst r =? 0) && N.eqb g (fs_addr (fs hb))
      then ref_count (kworld s) g + 1
      else ref_count (kworld s) g)
  /\
  vfs_dup None s = Done ((- EBADF, 0), s)
  /\
  (forall calls s' g,
      Forall call_keeps_ref_counts calls ->
      (forall h, keeps_ref_counts (unmap h)) ->
      0 < ref_count (kworld s) g ->
      run unmap calls s = Done s' ->
      0 < ref_count (kworld s') g).
Proof.
  split; [| split; [| split; [| split; [| split]]]].
  - intros mps p flags mode mp fp r s'. apply vfs_open_ref_counts.
  - intros mps p flags mode r s' Hres H.
    destruct (vfs_open_done_inv _ _ _ _ _ _ _ H) as (Hc & _).
    destruct (vfs_open_unresolved mps p flags mode s Hc Hres)
      as (s2 & E & Hw & _ & _).
    rewrite E in H. injection H as <- <-. split; [reflexivity | exact Hw].
  - intros hb a w.
    pose proof (vfs_close_spec unmap hb s) as Hspec.
    cbv zeta in Hspec. fold a in Hspec. fold w in Hspec.
    split; [| split; [| split]].
    + intros s' H. rewrite Hspec in H.
      destruct (Z.ltb_spec 0 (ref_count w a - 1)); [| discriminate].
      injection H as <-. cbn [kworld trace].
      split; [reflexivity |]. split; [| reflexivity].
      rewrite set_ref_count_at, N.eqb_refl. assumption.
    + intros Hle. rewrite Hspec.
      destruct (Z.ltb_spec 0 (ref_count w a - 1)); [lia | reflexivity].
    + intros Hlt. rewrite Hspec.
      destruct (Z.ltb_spec 0 (ref_count w a - 1)); [| lia].
      eexists. reflexivity.
    + intros (_ & Hclose & _) Hunmap s' g H. rewrite Hspec in H.
      destruct (Z.ltb_spec 0 (ref_count w a - 1)); [| discriminate].
      injection H as <-. cbn [kworld].
      assert (Hsame : forall g', ref_count w g' = ref_count (kworld s) g').
      { intros g'. unfold w. rewrite Hclose. apply Hunmap. }
      rewrite set_ref_count_at.
      destruct (N.eqb_spec g a) as [-> |]; now rewrite Hsame.
  - intros hb r s' g (_ & _ & Hdup & _) H.
    rewrite vfs_dup_spec in H. cbv zeta in H.
    pose proof (Hdup (h_addr hb) (kworld s)) as Hsame.
    destruct (Z.eqb_spec (fst (fst (dup (fs hb) (h_addr hb) (kworld s)))) 0)
      as [Hz | Hnz]; cbn [negb] in H.
    + destruct (negb (snd (fst (dup (fs hb) (h_addr hb) (kworld s))) =? 0));
        [| discriminate].
      injection H as <- <-. cbn [kworld fst]. cbn [Z.eqb andb].
      rewrite set_ref_count_at.
      destruct (N.eqb_spec g (fs_addr (fs hb))) as [-> |]; now rewrite Hsame.
    + injection H as <- <-. cbn [kworld].
      destruct (Z.eqb_spec (fst (fst (dup (fs hb) (h_addr hb) (kworld s)))) 0);
        [contradiction |].
      cbn [andb]. apply Hsame.
  - reflexivity.
  - intros calls s' g Hk Hunmap Hpos H.
    exact (run_keeps_positive unmap calls g Hk Hunmap s s' Hpos H).
Qed.

Lemma reference_counting_witness :
  (exists s',
      vfs_open [demo_root; demo_dev] "/dev/null" 0 0 demo_state =
        Done ((0, 512), s') /\
      ref_count (kworld s') 2 = 2 /\ ref_count (kworld s') 1 = 1) /\
  vfs_close demo_unmap (demo_handle no_ops) demo_state =
    Fatal (Assert_failed "fs->ref_count > 0") /\
  (exists s',
      run demo_unmap
        [Call_dup (Some (demo_handle no_ops)); Call_close (demo_handle no_ops)]
        demo_state = Done s' /\
      0 < ref_count (kworld s') 1).
Proof.
  assert (Hfs : forall a, fs_keeps_ref_counts (demo_fs a))
    by (intros a; repeat split).
  destruct (reference_counting demo_unmap demo_state)
    as (Hopen & _ & Hclose & _ & _ & Hrun).
  split; [| split].
  - destruct (vfs_open [demo_root; demo_dev] "/dev/null" 0 0 demo_state)
      as [[r s'] | e] eqn:E; [| discriminate E].
    pose proof (Hopen [demo_root; demo_dev] "/dev/null"%string 0 0 demo_dev
                  "/null"%string r s' eq_refl (Hfs 2%N) E) as Hcount.
    vm_compute in E. injection E as <- Es.
    exists s'. split; [reflexivity |].
    split; [exact (Hcount 2%N) | exact (Hcount 1%N)].
  - apply (proj1 (proj2 (Hclose (demo_handle no_ops)))). cbn. lia.
  - destruct (run demo_unmap
                [Call_dup (Some (demo_handle no_ops));
                 Call_close (demo_handle no_ops)] demo_state)
      as [s' | e] eqn:E; [| discriminate E].
    exists s'. split; [reflexivity |].
    apply (Hrun [Call_dup (Some (demo_handle no_ops));
                 Call_close (demo_handle no_ops)] s' 1%N);
      [| | cbn; lia | exact E].
    + repeat constructor; apply Hfs.
    + intros h w g. reflexivity.
Defined.


(** Claim C6, as stated, fails: a handle that has a hook to take the
    exclusive lock and none to release it does not make [vfs_exlock] fail.
    The assertion on the pairing is in the branch taken when the hook of the
    direction called is missing; [vfs_exlock] finds its hook and calls it. *)
Lemma lock_pairing_unchecked_refuted :
  ~ (forall (hb : fs_handle_base unit) (s : kstate unit),
        (is_some (exlock (fops hb)) <> is_some (exunlock (fops hb)) ->
         (exists expr,
             vfs_exlock (Some hb) s = Fatal (Assert_failed expr)) /\
         (exists expr,
             vfs_exunlock (Some hb) s = Fatal (Assert_failed expr))) /\
        (is_some (shlock (fops hb)) <> is_some (shunlock (fops hb)) ->
         (exists expr,
             vfs_shlock (Some hb) s = Fatal (Assert_failed expr)) /\
         (exists expr,
             vfs_shunlock (Some hb) s = Fatal (Assert_failed expr)))).
Proof.
  intros H.
  destruct (H (demo_handle exlock_only) demo_state) as [Hex _].
  destruct Hex as [[expr E] _]; [cbn; discriminate |].
  vm_compute in E. discriminate E.
Qed.

(** Claim C6, amended.  For each of [vfs_exlock], [vfs_exunlock],
    [vfs_shlock] and [vfs_shunlock] on a handle:
    - the per-handle hook of that direction, when the handle has it, is
      called, whether or not the hook of the other direction is there;
    - when the handle lacks it but has the hook of the other direction, the
      assertion on the pairing fails; so on a handle with one hook of a pair
      the function of the direction that is there calls the hook and the
      function of the missing direction fails;
    - when the handle has neither, the lock operation of the same mode of
      the handle's filesystem is called (and asserted to be there);
    - with paired hooks no assertion on the pairing fails, and the call
      returns when the filesystem has its lock operations. *)
Theorem lock_delegation {fsdata : Type} (hb : fs_handle_base fsdata)
  (s : kstate fsdata) :
  ((forall hk, exlock (fops hb) = Some hk ->
      vfs_exlock (Some hb) s = call (H_exlock (h_addr hb)) (hk (h_addr hb)) s) /\
   (forall hk, exunlock (fops hb) = Some hk ->
      vfs_exunlock (Some hb) s =
      call (H_exunlock (h_addr hb)) (hk (h_addr hb)) s) /\
   (forall hk, shlock (fops hb) = Some hk ->
      vfs_shlock (Some hb) s = call (H_shlock (h_addr hb)) (hk (h_addr hb)) s) /\
   (forall hk, shunlock (fops hb) = Some hk ->
      vfs_shunlock (Some hb) s =
      call (H_shunlock (h_addr hb)) (hk (h_addr hb)) s))
  /\
  ((exlock (fops hb) = None -> exunlock (fops hb) <> None ->
      vfs_exlock (Some hb) s = Fatal (Assert_failed "!hb->fops.exunlock")) /\
   (exunlock (fops hb) = None -> exlock (fops hb) <> None ->
      vfs_exunlock (Some hb) s = Fatal (Assert_failed "!hb->fops.exlock")) /\
   (shlock (fops hb) = None -> shunlock (fops hb) <> None ->
      vfs_shlock (Some hb) s = Fatal (Assert_failed "!hb->fops.shunlock")) /\
   (shunlock (fops hb) = None -> shlock (fops hb) <> None ->
      vfs_shunlock (Some hb) s = Fatal (Assert_failed "!hb->fops.shlock")))
  /\
  ((forall hk, exlock (fops hb) = Some hk -> exunlock (fops hb) = None ->
      vfs_exlock (Some hb) s =
        call (H_exlock (h_addr hb)) (hk (h_addr hb)) s /\
      vfs_exunlock (Some hb) s = Fatal (Assert_failed "!hb->fops.exlock")) /\
   (forall hk, exunlock (fops hb) = Some hk -> exlock (fops hb) = None ->
      vfs_exunlock (Some hb) s =
        call (H_exunlock (h_addr hb)) (hk (h_addr hb)) s /\
      vfs_exlock (Some hb) s = Fatal (Assert_failed "!hb->fops.exunlock")) /\
   (forall hk, shlock (fops hb) = Some hk -> shunlock (fops hb) = None ->
      vfs_shlock (Some hb) s =
        call (H_shlock (h_addr hb)) (hk (h_addr hb)) s /\
      vfs_shunlock (Some hb) s = Fatal (Assert_failed "!hb->fops.shlock")) /\
   (forall hk, shunlock (fops hb) = Some hk -> shlock (fops hb) = None ->
      vfs_shunlock (Some hb) s =
        call (H_shunlock (h_addr hb)) (hk (h_addr hb)) s /\
      vfs_shlock (Some hb) s = Fatal (Assert_failed "!hb->fops.shunlock")))
  /\
  ((exlock (fops hb) = None -> exunlock (fops hb) = None ->
      vfs_exlock (Some hb) s =
        match fs_exlock (fs hb) with
        | Some lk => call (Fs_exlock (fs_addr (fs hb))) lk s
        | None => Fatal (Assert_failed "fs->fs_exlock")
        end /\
      vfs_exunlock (Some hb) s =
        match fs_exunlock (fs hb) with
        | Some lk => call (Fs_exunlock (fs_addr (fs hb))) lk s
        | None => Fatal (Assert_failed "fs->fs_exunlock")
        end) /\
   (shlock (fops hb) = None -> shunlock (fops hb) = None ->
      vfs_shlock (Some hb) s =
        match fs_shlock (fs hb) with
        | Some lk => call (Fs_shlock (fs_addr (fs hb))) lk s
        | None => Fatal (Assert_failed "fs->fs_shlock")
        end /\
      vfs_shunlock (Some hb) s =
        match fs_shunlock (fs hb) with
        | Some lk => call (Fs_shunlock (fs_addr (fs hb))) lk s
        | None => Fatal (Assert_failed "fs->fs_shunlock")
        end))
  /\
  (paired_hooks (fops hb) = true ->
   (forall op, In op [vfs_exlock; vfs_exunlock; vfs_shlock; vfs_shunlock] ->
               forall expr, In expr ["!hb->fops.exunlock"; "!hb->fops.exlock";
                                     "!hb->fops.shunlock"; "!hb->fops.shlock"]%string ->
                            op (Some hb) s <> Fatal (Assert_failed expr)) /\
   (fs_locks_present (fs hb) = true ->
    forall op, In op [vfs_exlock; vfs_exunlock; vfs_shlock; vfs_shunlock] ->
               exists s', op (Some hb) s = Done (tt, s'))).
Proof.
  split; [| split; [| split; [| split]]].
  - repeat split; intros hk H;
      unfold vfs_exlock, vfs_exunlock, vfs_shlock, vfs_shunlock;
      now rewrite H.
  - split; [| split; [| split]];
      intros H H';
      unfold vfs_exlock, vfs_exunlock, vfs_shlock, vfs_shunlock;
      rewrite H;
      match type of H' with ?o <> None => destruct o; [| contradiction] end;
      reflexivity.
  - split; [| split; [| split]];
      intros hk H H';
      unfold vfs_exlock, vfs_exunlock, vfs_shlock, vfs_shunlock;
      rewrite H, H'; split; reflexivity.
  - split; intros H H';
      unfold vfs_exlock, vfs_exunlock, vfs_shlock, vfs_shunlock, get_fs,
        vfs_fs_exlock, vfs_fs_exunlock, vfs_fs_shlock, vfs_fs_shunlock;
      rewrite H, H'; cbn [is_some negb ASSERT];
      split;
      match goal with
      | |- context [match ?o with Some _ => _ | None => _ end] => destruct o
      end; reflexivity.
  - intros Hp. split.
    + intros op Hop expr Hexpr.
      cbn [In] in Hop, Hexpr.
      unfold paired_hooks in Hp.
      destruct Hop as [<- | [<- | [<- | [<- | []]]]];
        unfold vfs_exlock, vfs_exunlock, vfs_shlock, vfs_shunlock, get_fs,
          vfs_fs_exlock, vfs_fs_exunlock, vfs_fs_shlock, vfs_fs_shunlock,
          ASSERT, bind, ret, fail;
        destruct (exlock (fops hb)), (exunlock (fops hb)),
          (shlock (fops hb)), (shunlock (fops hb)); try discriminate;
        cbn [is_some negb];
        try (rewrite call_done; discriminate);
        destruct (fs_exlock (fs hb)), (fs_exunlock (fs hb)),
          (fs_shlock (fs hb)), (fs_shunlock (fs hb));
        try (rewrite call_done; discriminate);
        destruct Hexpr as [<- | [<- | [<- | [<- | []]]]]; discriminate.
    + intros Hf op Hop.
      destruct (lock_runs hb s Hp Hf op Hop) as (w & e & E).
      eexists. exact E.
Qed.

Lemma lock_delegation_witness :
  vfs_exlock (Some (demo_handle all_ops)) demo_state =
    call (H_exlock 512) (idle tt) demo_state /\
  (vfs_exlock (Some (demo_handle exlock_only)) demo_state =
     call (H_exlock 512) (idle tt) demo_state /\
   vfs_exunlock (Some (demo_handle exlock_only)) demo_state =
     Fatal (Assert_failed "!hb->fops.exlock")) /\
  vfs_exunlock (Some (demo_handle exlock_only)) demo_state =
    Fatal (Assert_failed "!hb->fops.exlock") /\
  (vfs_shlock (Some (demo_handle no_ops)) demo_state =
     call (Fs_shlock 1) (idle tt) demo_state /\
   vfs_shunlock (Some (demo_handle no_ops)) demo_state =
     call (Fs_shunlock 1) (idle tt) demo_state) /\
  exists s', vfs_shlock (Some (demo_handle no_ops)) demo_state = Done (tt, s').
Proof.
  destruct (lock_delegation (demo_handle all_ops) demo_state)
    as ((Hex & _) & _).
  destruct (lock_delegation (demo_handle exlock_only) demo_state)
    as (_ & (_ & Hmissing & _) & (Hone & _) & _).
  destruct (lock_delegation (demo_handle no_ops) demo_state)
    as (_ & _ & _ & (_ & Hsh) & Hpaired).
  split; [| split; [| split; [| split]]].
  - apply (Hex (fun _ => idle tt)). reflexivity.
  - apply (Hone (fun _ => idle tt)); reflexivity.
  - apply Hmissing; [reflexivity | discriminate].
  - apply Hsh; reflexivity.
  - apply (proj2 (Hpaired eq_refl) eq_refl vfs_shlock).
    cbn. tauto.
Defined.

(** Claim C7 (capability errors).  On a handle whose operation table lacks
    the hook, [vfs_seek] returns [-ESPIPE], [vfs_ioctl] returns [-ENOTTY]
    and [vfs_read], [vfs_write] and [vfs_fcntl] return [-EINVAL], leaving
    the state and the record of calls as they were.  When the hook is
    there, [vfs_seek] returns what it returns; so do the other four, run
    between their lock and unlock (on a handle with paired lock hooks and a
    filesystem with its lock operations, so that the locks can be taken). *)
Theorem capability_errors {fsdata : Type} (hb : fs_handle_base fsdata)
  (s : kstate fsdata) :
  ((seek (fops hb) = None ->
      forall off whence, vfs_seek hb off whence s = Done (- ESPIPE, s)) /\
   (ioctl (fops hb) = None ->
      forall request argp, vfs_ioctl hb request argp s = Done (- ENOTTY, s)) /\
   (read (fops hb) = None ->
      forall buf n, vfs_read hb buf n s = Done (- EINVAL, s)) /\
   (write (fops hb) = None ->
      forall buf n, vfs_write hb buf n s = Done (- EINVAL, s)) /\
   (fcntl (fops hb) = None ->
      forall cmd arg, vfs_fcntl hb cmd arg s = Done (- EINVAL, s)))
  /\
  (forall hk off whence,
      seek (fops hb) = Some hk ->
      exists s',
        vfs_seek hb off whence s =
        Done (fst (hk (h_addr hb) off whence (kworld s)), s') /\
        added s s' [H_seek (h_addr hb) off whence])
  /\
  (paired_hooks (fops hb) = true -> fs_locks_present (fs hb) = true ->
   (forall hk request argp,
       ioctl (fops hb) = Some hk ->
       exists s1 s' e1 e2,
         vfs_exlock (Some hb) s = Done (tt, s1) /\
         vfs_ioctl hb request argp s =
         Done (fst (hk (h_addr hb) request argp (kworld s1)), s') /\
         added s s' [e1; H_ioctl (h_addr hb); e2]) /\
   (forall hk buf n,
       read (fops hb) = Some hk ->
       exists s1 s' e1 e2,
         vfs_shlock (Some hb) s = Done (tt, s1) /\
         vfs_read hb buf n s =
         Done (fst (hk (h_addr hb) buf n (kworld s1)), s') /\
         added s s' [e1; H_read (h_addr hb); e2]) /\
   (forall hk buf n,
       write (fops hb) = Some hk ->
       exists s1 s' e1 e2,
         vfs_exlock (Some hb) s = Done (tt, s1) /\
         vfs_write hb buf n s =
         Done (fst (hk (h_addr hb) buf n (kworld s1)), s') /\
         added s s' [e1; H_write (h_addr hb); e2]) /\
   (forall hk cmd arg,
       fcntl (fops hb) = Some hk ->
       exists s1 s' e1 e2,
         vfs_exlock (Some hb) s = Done (tt, s1) /\
         vfs_fcntl hb cmd arg s =
         Done (fst (hk (h_addr hb) cmd arg (kworld s1)), s') /\
         added s s' [e1; H_fcntl (h_addr hb); e2])).
Proof.
  split; [| split].
  - repeat split; intros H *;
      unfold vfs_seek, vfs_ioctl, vfs_read, vfs_write, vfs_fcntl;
      now rewrite H.
  - intros hk off whence H.
    unfold vfs_seek. rewrite H, call_done.
    eexists. split; reflexivity.
  - intros Hp Hf.
    repeat split; intros hk a b H;
      unfold vfs_ioctl, vfs_read, vfs_write, vfs_fcntl; rewrite H;
      apply locked_call_runs; try assumption; cbn [In]; tauto.
Qed.

Lemma capability_errors_witness :
  vfs_seek (demo_handle no_ops) 0 0 demo_state = Done (- ESPIPE, demo_state) /\
  vfs_fcntl (demo_handle no_ops) 0 0 demo_state = Done (- EINVAL, demo_state) /\
  (exists s', vfs_seek (demo_handle all_ops) 7 0 demo_state = Done (7, s')) /\
  (exists s', vfs_read (demo_handle all_ops) 0 10 demo_state = Done (10, s')).
Proof.
  destruct (capability_errors (demo_handle no_ops) demo_state)
    as ((Hseek & _ & _ & _ & Hfcntl) & _).
  destruct (capability_errors (demo_handle all_ops) demo_state)
    as (_ & Hseek' & Hlocked).
  split; [| split; [| split]].
  - apply Hseek. reflexivity.
  - apply Hfcntl. reflexivity.
  - destruct (Hseek' (fun _ off _ => idle off) 7 0 eq_refl) as (s' & E & _).
    exists s'. exact E.
  - destruct (Hlocked eq_refl eq_refl) as (_ & Hread & _).
    destruct (Hread (fun _ _ n => idle n) 0 10 eq_refl)
      as (s1 & s' & e1 & e2 & _ & E & _).
    exists s'. exact E.
Defined.

(** Claim C8 (readiness defaults).  A handle without readiness hooks is
    reported ready for reading, ready for writing and not in an exceptional
    condition, and a handle without the condition getters yields NULL for
    each of the three conditions; none of this calls anything. *)
Theorem readiness_defaults {fsdata : Type} (hb : fs_handle_base fsdata)
  (s : kstate fsdata) :
  (read_ready (fops hb) = None -> vfs_read_ready hb s = Done (true, s)) /\
  (write_ready (fops hb) = None -> vfs_write_ready hb s = Done (true, s)) /\
  (except_ready (fops hb) = None -> vfs_except_ready hb s = Done (false, s)) /\
  (get_rready_cond (fops hb) = None ->
     vfs_get_rready_cond hb s = Done (0, s)) /\
  (get_wready_cond (fops hb) = None ->
     vfs_get_wready_cond hb s = Done (0, s)) /\
  (get_except_cond (fops hb) = None ->
     vfs_get_except_cond hb s = Done (0, s)).
Proof.
  repeat split; intros H;
    unfold vfs_read_ready, vfs_write_ready, vfs_except_ready,
      vfs_get_rready_cond, vfs_get_wready_cond, vfs_get_except_cond;
    now rewrite H.
Qed.

Lemma readiness_defaults_witness :
  vfs_read_ready (demo_handle no_ops) demo_state = Done (true, demo_state) /\
  vfs_write_ready (demo_handle no_ops) demo_state = Done (true, demo_state) /\
  vfs_except_ready (demo_handle no_ops) demo_state = Done (false, demo_state) /\
  vfs_get_rready_cond (demo_handle no_ops) demo_state = Done (0, demo_state) /\
  vfs_get_wready_cond (demo_handle no_ops) demo_state = Done (0, demo_state) /\
  vfs_get_except_cond (demo_handle no_ops) demo_state = Done (0, demo_state).
Proof.
  destruct (readiness_defaults (demo_handle no_ops) demo_state)
    as (H1 & H2 & H3 & H4 & H5 & H6).
  split; [apply H1 | split; [apply H2 | split; [apply H3 | split;
    [apply H4 | split; [apply H5 | apply H6]]]]]; reflexivity.
Defined.

(** Claim C5, as stated, fails: on a handle that has its own shared-lock
    hooks [vfs_getdents64] still takes the lock of the whole filesystem, and
    the handle's hook is not called. *)
Lemma getdents_per_handle_lock_refuted :
  ~ (forall (hb : fs_handle_base unit) (s s' : kstate unit) (dirp n rc : Z),
        shlock (fops hb) <> None ->
        vfs_getdents64 (Some hb) dirp n s = Done (rc, s') ->
        exists es, added s s' es /\ In (H_shlock (h_addr hb)) es).
Proof.
  intros H.
  destruct (H (demo_handle all_ops) demo_state _ 0 0 0 ltac:(discriminate)
              eq_refl) as (es & Hadd & Hin).
  unfold added in Hadd. cbn in Hadd. subst es.
  cbn in Hin.
  repeat (destruct Hin as [Hin | Hin]; [discriminate |]).
  exact Hin.
Qed.

(** Claim C5, amended.  [vfs_getdents64] takes the shared lock of the whole
    filesystem, calls the [getdents64] operation of the filesystem and
    releases that lock, whatever lock hooks the handle has; it returns what
    the operation returned. *)
Theorem getdents_locks_filesystem {fsdata : Type} (hb : fs_handle_base fsdata)
  (s : kstate fsdata) (hk : N -> Z -> Z -> hook fsdata Z)
  (lk ulk : hook fsdata unit) (dirp n : Z) :
  getdents64 (fs hb) = Some hk ->
  fs_shlock (fs hb) = Some lk ->
  fs_shunlock (fs hb) = Some ulk ->
  exists s1 s',
    vfs_fs_shlock (Some (fs hb)) s = Done (tt, s1) /\
    vfs_getdents64 (Some hb) dirp n s =
    Done (fst (hk (h_addr hb) dirp n (kworld s1)), s') /\
    added s s' [Fs_shlock (fs_addr (fs hb));
                Fs_getdents64 (fs_addr (fs hb)) (h_addr hb);
                Fs_shunlock (fs_addr (fs hb))].
Proof.
  intros Hg Hl Hu.
  unfold vfs_getdents64, vfs_fs_shlock, vfs_fs_shunlock.
  rewrite Hg, Hl, Hu.
  rewrite (bind_step _ _ _ _ _ (call_done _ lk s)).
  rewrite (bind_step _ _ _ _ _ (call_done _ (hk _ _ _) _)).
  rewrite (bind_step _ _ _ _ _ (call_done _ ulk _)).
  do 2 eexists. split; [| split].
  - rewrite call_done. destruct (fst (lk (kworld s))). reflexivity.
  - reflexivity.
  - unfold added. cbn [trace]. now rewrite <- !app_assoc.
Qed.

Lemma getdents_locks_filesystem_witness :
  exists s1 s',
    vfs_fs_shlock (Some (demo_fs 1)) demo_state = Done (tt, s1) /\
    vfs_getdents64 (Some (demo_handle all_ops)) 0 0 demo_state = Done (0, s') /\
    added demo_state s' [Fs_shlock 1; Fs_getdents64 1 512; Fs_shunlock 1].
Proof.
  exact (getdents_locks_filesystem (demo_handle all_ops) demo_state
           (fun _ _ _ => idle 0) (idle tt) (idle tt) 0 0
           eq_refl eq_refl eq_refl).
Defined.

(** **** The device identifiers *)

Lemma after_device_ids_counter {fsdata : Type} (n : N) (s : kstate fsdata) :
  0 <= next_device_id s < 2 ^ 32 ->
  next_device_id (after_device_ids n s) =
  (next_device_id s + Z.of_N n) mod 2 ^ 32.
Proof.
  intros Hs. unfold after_device_ids.
  match goal with
  | |- context [N.iter n ?step s] => set (F := step)
  end.
  assert (HF : forall x, next_device_id (F x) = u32 (next_device_id x + 1))
    by reflexivity.
  induction n as [| n IH] using N.peano_ind.
  - cbn [N.iter]. rewrite Z.add_0_r. symmetry. now apply Z.mod_small.
  - rewrite N.iter_succ, HF, IH. unfold u32.
    rewrite Zplus_mod_idemp_l. f_equal. lia.
Qed.

Lemma nth_device_id_value {fsdata : Type} (n : N) (s : kstate fsdata) :
  0 <= next_device_id s < 2 ^ 32 ->
  nth_device_id n s = (next_device_id s + Z.of_N n) mod 2 ^ 32.
Proof.
  intros Hs. unfold nth_device_id. cbn [vfs_get_new_device_id].
  now apply after_device_ids_counter.
Qed.

(** Claim C9, as stated, fails: the counter is a [u32] and wraps; counting
    the calls from 0, call number [2^32] returns 0, less than the
    [4294967295] returned before it and equal to what the first call
    returned. *)
Lemma device_id_wraps :
  ~ (forall i j : N,
        (i < j)%N ->
        nth_device_id i demo_state < nth_device_id j demo_state).
Proof.
  intros H.
  specialize (H (2 ^ 32 - 1)%N (2 ^ 32)%N ltac:(lia)).
  rewrite !nth_device_id_value in H by (cbn; lia).
  cbn in H. lia.
Qed.

(** Claim C9, amended.  Counting the calls of [vfs_get_new_device_id] from
    0 at boot, call number [i] returns [i mod 2^32]: among the first [2^32]
    calls every call returns more than the calls before it, and so no value
    is returned twice. *)
Theorem device_ids_increase {fsdata : Type} (w : world fsdata) (i j : N) :
  (i < j)%N -> (j < 2 ^ 32)%N ->
  nth_device_id i (boot w) = Z.of_N i /\
  nth_device_id j (boot w) = Z.of_N j /\
  nth_device_id i (boot w) < nth_device_id j (boot w).
Proof.
  intros Hij Hj.
  rewrite !nth_device_id_value by (cbn; lia).
  cbn [boot next_device_id].
  rewrite !Z.mod_small by lia.
  lia.
Qed.

Lemma device_ids_increase_witness :
  nth_device_id 3 demo_state = 3 /\
  nth_device_id 7 demo_state = 7 /\
  nth_device_id 3 demo_state < nth_device_id 7 demo_state.
Proof.
  apply (device_ids_increase {| ref_count := fun _ => 1; data := tt |} 3 7);
    reflexivity.
Defined.

End VfsFacts.

(** *** The operations on an open handle, taken together *)

Module VfsOpsFacts.

Import Vfs VfsOps VfsFacts.

Section Facts.

Context {fsdata : Type}.

Implicit Types (s : kstate fsdata) (hb : fs_handle_base fsdata).

(** A hook run between the lock and the unlock of a mode: if the whole
    returns, the lock and the unlock were of the same kind. *)
Lemma bracket_inv {A} hb (m : lock_mode) (e : event) (hk : hook fsdata A)
  s (r : A) s' :
  bind (lock_of m (Some hb))
       (fun _ => bind (call e hk)
                   (fun r0 => bind (unlock_of m (Some hb)) (fun _ => ret r0)))
       s = Done (r, s') ->
  exists l u s1,
    lock_pair hb m l u /\
    added s s' [l; e; u] /\
    lock_of m (Some hb) s = Done (tt, s1) /\
    r = fst (hk (kworld s1)).
Proof.
  destruct m; unfold lock_of, unlock_of, lock_pair;
    unfold vfs_exlock, vfs_exunlock, vfs_shlock, vfs_shunlock, get_fs,
      vfs_fs_exlock, vfs_fs_exunlock, vfs_fs_shlock, vfs_fs_shunlock,
      ASSERT, bind, ret, fail;
    destruct (exlock (fops hb)), (exunlock (fops hb)),
      (shlock (fops hb)), (shunlock (fops hb));
    cbn [is_some negb];
    destruct (fs_exlock (fs hb)), (fs_exunlock (fs hb)),
      (fs_shlock (fs hb)), (fs_shunlock (fs hb));
    rewrite ?call_done; try discriminate;
    cbn [kworld next_device_id trace fst snd];
    rewrite ?call_done; try discriminate;
    cbn [kworld next_device_id trace fst snd];
    rewrite ?call_done; try discriminate;
    cbn [kworld next_device_id trace fst snd];
    intros H; injection H as <- <-;
    do 3 eexists;
    (split; [first [left; repeat split; reflexivity
                   | right; repeat split; reflexivity] |]);
    (split; [unfold added; cbn [trace]; now rewrite <- !app_assoc |]);
    (split; [match goal with |- Done (?u, _) = _ => destruct u end;
             reflexivity | reflexivity]).
Qed.

Ltac open_op :=
  cbn [run_op hook_of default_of mode_of hook_event];
  unfold vfs_read, vfs_write, vfs_ioctl, vfs_stat64, vfs_fcntl,
    vfs_read_ready, vfs_write_ready, vfs_except_ready.

Ltac case_hook hb :=
  match goal with
  | |- context [read (fops hb)] => destruct (read (fops hb)) as [hk |]
  | |- context [write (fops hb)] => destruct (write (fops hb)) as [hk |]
  | |- context [ioctl (fops hb)] => destruct (ioctl (fops hb)) as [hk |]
  | |- context [stat (fops hb)] => destruct (stat (fops hb)) as [hk |]
  | |- context [fcntl (fops hb)] => destruct (fcntl (fops hb)) as [hk |]
  | |- context [read_ready (fops hb)] =>
      destruct (read_ready (fops hb)) as [hk |]
  | |- context [write_ready (fops hb)] =>
      destruct (write_ready (fops hb)) as [hk |]
  | |- context [except_ready (fops hb)] =>
      destruct (except_ready (fops hb)) as [hk |]
  end;
  cbn [option_map].

Lemma value_done {A} (f : A -> Z) (x : outcome (A * kstate fsdata)) r s' :
  value f x = Done (r, s') -> exists a, x = Done (a, s') /\ r = f a.
Proof.
  destruct x as [[a s1] | e]; [| discriminate].
  cbn [value]. intros H. injection H as <- <-. now exists a.
Qed.

Lemma run_op_returns hb (op : handle_op) s r s' :
  run_op hb op s = Done (r, s') ->
  match hook_of hb op with
  | None => default_of op = Some r /\ s' = s
  | Some hk =>
      exists l u s1,
        lock_pair hb (mode_of op) l u /\
        added s s' [l; hook_event hb op; u] /\
        lock_of (mode_of op) (Some hb) s = Done (tt, s1) /\
        r = fst (hk (kworld s1))
  end.
Proof.
  destruct op; unfold run_op; open_op; case_hook hb; intros H;
    try (apply value_done in H; destruct H as (b & H & ->));
    try (injection H as <- <-; now split);
    try discriminate.
  - exact (bracket_inv hb Shared _ _ _ _ _ H).
  - exact (bracket_inv hb Exclusive _ _ _ _ _ H).
  - exact (bracket_inv hb Exclusive _ _ _ _ _ H).
  - exact (bracket_inv hb Shared _ _ _ _ _ H).
  - exact (bracket_inv hb Exclusive _ _ _ _ _ H).
  - destruct (bracket_inv hb Shared _ _ _ _ _ H)
      as (l & u & s1 & Hp & Ha & Hl & ->).
    exists l, u, s1. now repeat split.
  - destruct (bracket_inv hb Shared _ _ _ _ _ H)
      as (l & u & s1 & Hp & Ha & Hl & ->).
    exists l, u, s1. now repeat split.
  - destruct (bracket_inv hb Shared _ _ _ _ _ H)
      as (l & u & s1 & Hp & Ha & Hl & ->).
    exists l, u, s1. now repeat split.
Qed.

Lemma run_op_without_hook hb (op : handle_op) s :
  hook_of hb op = None ->
  run_op hb op s =
  match default_of op with
  | Some r => Done (r, s)
  | None => Fatal (Assert_failed "hb->fops.stat != NULL")
  end.
Proof.
  destruct op; unfold run_op; open_op; case_hook hb;
    try discriminate; reflexivity.
Qed.

Lemma run_op_with_hook hb (op : handle_op) s :
  hook_of hb op <> None ->
  paired_hooks (fops hb) = true -> fs_locks_present (fs hb) = true ->
  exists r s', run_op hb op s = Done (r, s').
Proof.
  intros Hh Hp Hf. revert Hh.
  destruct op; unfold run_op; open_op; case_hook hb; intros Hh;
    try contradiction;
    match goal with
    | |- context [bind (?lock (Some hb))
                    (fun _ => bind (call ?e ?k)
                                (fun r0 => bind (?unlock (Some hb)) _))] =>
        destruct (locked_call_runs hb s lock unlock e k Hp Hf
                    ltac:(cbn [In]; tauto) ltac:(cbn [In]; tauto))
          as (s1 & s' & e1 & e2 & _ & E & _)
    end;
    rewrite E; cbn [value]; eauto.
Qed.

End Facts.

(** The operations that run a hook of the handle ([vfs_read], [vfs_write],
    [vfs_ioctl], [vfs_stat64], [vfs_fcntl] and the three readiness
    queries).  A call that returns either found no hook, changed nothing
    and returned the default of the operation, or took one lock, called the
    hook once and released that same lock: shared for reads, [stat] and the
    readiness queries, exclusive for the others; the handle's own lock when
    the handle has one, the filesystem's otherwise; and it returned what the
    hook returned.  Without the hook the call returns its default, except
    [vfs_stat64] whose assertion fails; with the hook, paired lock hooks and
    the lock operations of the filesystem, the call returns. *)
Theorem handle_operation {fsdata : Type} (hb : fs_handle_base fsdata)
  (op : handle_op) (s : kstate fsdata) :
  (forall r s',
      run_op hb op s = Done (r, s') ->
      match hook_of hb op with
      | None => default_of op = Some r /\ s' = s
      | Some hk =>
          exists l u s1,
            lock_pair hb (mode_of op) l u /\
            added s s' [l; hook_event hb op; u] /\
            lock_of (mode_of op) (Some hb) s = Done (tt, s1) /\
            r = fst (hk (kworld s1))
      end)
  /\
  (hook_of hb op = None ->
   run_op hb op s =
   match default_of op with
   | Some r => Done (r, s)
   | None => Fatal (Assert_failed "hb->fops.stat != NULL")
   end)
  /\
  (hook_of hb op <> None ->
   paired_hooks (fops hb) = true -> fs_locks_present (fs hb) = true ->
   exists r s', run_op hb op s = Done (r, s')).
Proof.
  split; [| split].
  - intros r s'. apply run_op_returns.
  - apply run_op_without_hook.
  - apply run_op_with_hook.
Qed.

Lemma handle_operation_witness :
  (exists l u s1,
      lock_pair (demo_handle all_ops) Shared l u /\
      added demo_state
        {| kworld := kworld demo_state; next_device_id := 0;
           trace := [H_shlock 512; H_stat 512; H_shunlock 512] |}
        [l; H_stat 512; u] /\
      vfs_shlock (Some (demo_handle all_ops)) demo_state = Done (tt, s1) /\
      0 = fst (idle 0 (kworld s1))) /\
  run_op (demo_handle no_ops) (Op_stat64 0) demo_state =
    Fatal (Assert_failed "hb->fops.stat != NULL") /\
  exists r s', run_op (demo_handle all_ops) Op_except_ready demo_state =
               Done (r, s').
Proof.
  destruct (handle_operation (demo_handle all_ops) (Op_stat64 0) demo_state)
    as (Hret & _ & _).
  destruct (handle_operation (demo_handle no_ops) (Op_stat64 0) demo_state)
    as (_ & Hnone & _).
  destruct (handle_operation (demo_handle all_ops) Op_except_ready demo_state)
    as (_ & _ & Hsome).
  split; [| split].
  - exact (Hret 0 _ eq_refl).
  - exact (Hnone eq_refl).
  - apply Hsome; [discriminate | reflexivity | reflexivity].
Defined.

(** **** Strings, once more *)

Local Open Scope string_scope.

Lemma str_app_assoc (a b c : string) : (a ++ b) ++ c = a ++ (b ++ c).
Proof. induction a as [| x a IH]; cbn; [reflexivity | now rewrite IH]. Qed.

Lemma str_length_app (a b : string) :
  String.length (a ++ b) = (String.length a + String.length b)%nat.
Proof. induction a as [| x a IH]; cbn; [reflexivity | now rewrite IH]. Qed.

Lemma take_advance (n : nat) : forall s, s = take n s ++ advance s n.
Proof.
  induction n as [| n IH]; intros s; [now destruct s |].
  destruct s as [| c s]; [reflexivity |].
  cbn. now rewrite <- IH.
Qed.

Lemma take_all (s : string) : take (String.length s) s = s.
Proof. induction s as [| c s IH]; cbn; [reflexivity | now rewrite IH]. Qed.

Lemma advance_all (s : string) : advance s (String.length s) = "".
Proof. induction s as [| c s IH]; cbn; [reflexivity | exact IH]. Qed.

Lemma char_at_succ (c : ascii) (s : string) (n : nat) :
  char_at (String c s) (Z.of_nat (S n)) = char_at s (Z.of_nat n).
Proof.
  rewrite Nat2Z.inj_succ. unfold Z.succ. apply char_at_cons. lia.
Qed.

Lemma take_ext (n : nat) :
  forall a b,
    (n <= String.length a)%nat -> (n <= String.length b)%nat ->
    (forall j, 0 <= j < Z.of_nat n -> char_at a j = char_at b j) ->
    take n a = take n b.
Proof.
  induction n as [| n IH]; intros a b Ha Hb H; [reflexivity |].
  destruct a as [| x a]; [cbn in Ha; lia |].
  destruct b as [| y b]; [cbn in Hb; lia |].
  cbn [String.length] in Ha, Hb. cbn [take].
  pose proof (H 0 ltac:(lia)) as H0.
  rewrite !char_at_zero in H0. injection H0 as ->.
  f_equal. apply IH; [lia | lia |].
  intros j Hj.
  specialize (H (j + 1) ltac:(lia)).
  now rewrite !char_at_cons in H by lia.
Qed.

Lemma char_at_nat (n : nat) :
  forall s, (n < String.length s)%nat ->
            exists c, char_at s (Z.of_nat n) = Done c /\
                      advance s n = String c (advance s (S n)).
Proof.
  induction n as [| n IH]; intros s Hn;
    (destruct s as [| x s]; [cbn in Hn; lia |]).
  - exists x. split; [reflexivity | now destruct s].
  - cbn [String.length] in Hn.
    destruct (IH s ltac:(lia)) as (c & Hc & Hadv).
    exists c. split; [now rewrite char_at_succ | exact Hadv].
Qed.

Lemma char_at_app_l (a b : string) :
  forall j, 0 <= j < Z.of_nat (String.length a) ->
            char_at (a ++ b) j = char_at a j.
Proof.
  induction a as [| x a IH]; intros j Hj; [cbn in Hj; lia |].
  cbn [String.length] in Hj. cbn [append].
  destruct (Z.eq_dec j 0) as [-> | Hnz]; [reflexivity |].
  replace j with (j - 1 + 1) by lia.
  rewrite !char_at_cons by lia. apply IH. lia.
Qed.

Lemma char_at_app_mid (a b : string) (c : ascii) :
  char_at (a ++ String c b) (Z.of_nat (String.length a)) = Done c.
Proof.
  induction a as [| x a IH]; [reflexivity |].
  cbn [String.length append]. now rewrite char_at_succ.
Qed.

(** What a result other than 0 tells. *)
Lemma check_inv (mp path : string) (m : Z) :
  strlen mp < 2 ^ 32 -> strlen path < 2 ^ 32 ->
  check_mountpoint_match mp (strlen mp) path (strlen path) = Done m ->
  m <> 0 ->
  0 < m <= strlen path /\
  char_at mp (strlen mp - 1) = Done SLASH /\
  (forall j, 0 <= j < m -> char_at mp j = char_at path j) /\
  (m = strlen mp \/ (m = strlen mp - 1 /\ strlen path = m)).
Proof.
  intros Hlm Hlp H Hnz.
  pose proof (strlen_bounds mp) as Bm.
  pose proof (strlen_bounds path) as Bp.
  destruct (match_loop_spec mp path
              (Z.to_nat (Z.min (strlen mp) (strlen path))) 0
              ltac:(lia) ltac:(lia) ltac:(lia) ltac:(lia))
    as (m0 & E & Hrange & Heq & Hstop).
  unfold check_mountpoint_match in H.
  apply obind_done in H. destruct H as (last & Hlast & H).
  apply obind_done in H. destruct H as (u & Hslash & H).
  apply assert_pure_done in Hslash.
  apply Ascii.eqb_eq in Hslash. subst last.
  rewrite E in H. cbn [obind] in H.
  apply obind_done in H. destruct H as (u' & Hpos & H).
  apply assert_pure_done in Hpos. apply Z.ltb_lt in Hpos.
  rewrite u32_small in Hlast by lia.
  apply obind_done in H. destruct H as (c & Hc & H).
  pose proof (char_at_nul_iff mp m0 c ltac:(lia) Hc) as Hnul.
  destruct (Ascii.eqb c NUL) eqn:Ec; cbn [negb] in H.
  - apply obind_done in H. destruct H as (q & _ & H).
    destruct (negb (Ascii.eqb q SLASH) && negb (Ascii.eqb q NUL));
      injection H as <-; [contradiction |].
    pose proof (proj1 Hnul eq_refl).
    repeat split; try assumption; lia.
  - assert (m0 < strlen mp) as Hlt
        by (destruct (Z.eq_dec m0 (strlen mp)) as [Heq0 | ?];
            [apply Hnul in Heq0; discriminate | lia]).
    destruct (Ascii.eqb c SLASH); [| injection H as <-; contradiction].
    rewrite u32_small in H by lia.
    apply obind_done in H. destruct H as (c1 & Hc1 & H).
    pose proof (char_at_nul_iff mp (m0 + 1) c1 ltac:(lia) Hc1) as Hnul1.
    destruct (Ascii.eqb c1 NUL); [| injection H as <-; contradiction].
    apply obind_done in H. destruct H as (q & Hq & H).
    pose proof (char_at_nul_iff path m0 q ltac:(lia) Hq) as Hnulq.
    destruct (Ascii.eqb q NUL); injection H as <-; [| contradiction].
    pose proof (proj1 Hnul1 eq_refl). pose proof (proj1 Hnulq eq_refl).
    repeat split; try assumption; lia.
Qed.

(** A result other than 0 means that the mountpoint serves the path, and
    the path handed to the filesystem is [/] followed by what comes after
    the mountpoint's directory.  ([mp] and [p] are C strings shorter than
    [2^32], passed with their lengths.) *)
Theorem match_serves (mp p : string) (n : Z) :
  no_nul mp -> no_nul p -> strlen mp < 2 ^ 32 -> strlen p < 2 ^ 32 ->
  check_mountpoint_match mp (strlen mp) p (strlen p) = Done n ->
  n <> 0 ->
  exists dir rest,
    serves mp p dir rest /\
    fs_path_of p (strlen p) n = "/" ++ rest.
Proof.
  intros Nm Np Hlm Hlp H Hnz.
  unfold no_nul in Nm, Np.
  destruct (check_inv mp p n Hlm Hlp H Hnz)
    as (Hpos & Hlast & Heq & Hshape).
  pose proof (char_at_done_range _ _ _ Hlast) as Rlast.
  set (k := Z.to_nat (strlen mp - 1)).
  assert (Hmp : mp = take k mp ++ "/").
  { rewrite (take_advance k mp) at 1. f_equal.
    destruct (char_at_nat k mp ltac:(lia)) as (c & Hc & Hadv).
    rewrite Hadv.
    replace (Z.of_nat k) with (strlen mp - 1) in Hc by lia.
    rewrite Hlast in Hc. injection Hc as <-.
    replace (S k) with (String.length mp) by lia.
    now rewrite advance_all. }
  exists (take k mp).
  destruct Hshape as [Hn | (Hn & Hp)].
  - exists (advance p (Z.to_nat n)). split.
    + split; [exact Hmp |]. left.
      rewrite (take_advance (Z.to_nat n) p) at 1.
      rewrite <- str_app_assoc, <- Hmp. f_equal.
      rewrite (take_ext (Z.to_nat n) p mp) by
        (try lia; intros j Hj; symmetry; apply Heq; lia).
      replace (Z.to_nat n) with (String.length mp) by lia.
      apply take_all.
    + unfold fs_path_of.
      destruct (Z.ltb_spec n (strlen p)).
      * destruct (char_at_nat (Z.to_nat (n - 1)) p ltac:(lia))
          as (c & Hc & Hadv).
        rewrite Hadv.
        replace (Z.of_nat (Z.to_nat (n - 1))) with (n - 1) in Hc by lia.
        rewrite <- Heq in Hc by lia.
        replace (n - 1) with (strlen mp - 1) in Hc by lia.
        rewrite Hlast in Hc. injection Hc as <-.
        replace (S (Z.to_nat (n - 1))) with (Z.to_nat n) by lia.
        reflexivity.
      * replace (Z.to_nat n) with (String.length p) by lia.
        now rewrite advance_all.
  - exists "". split.
    + split; [exact Hmp |]. right. split; [| reflexivity].
      rewrite <- (take_all p) at 1.
      replace (String.length p) with k by lia.
      apply take_ext; try lia.
      intros j Hj. symmetry. apply Heq. lia.
    + unfold fs_path_of.
      destruct (Z.ltb_spec n (strlen p)); [lia | reflexivity].
Qed.

Lemma match_serves_witness :
  exists dir rest,
    serves "/dev/" "/dev/null" dir rest /\
    fs_path_of "/dev/null" (strlen "/dev/null") 5 = "/" ++ rest.
Proof.
  apply (match_serves "/dev/" "/dev/null" 5); try reflexivity; discriminate.
Defined.

(** The loop stops at the shorter length when the two paths agree up to
    there. *)
Lemma match_loop_full (mp path : string) (n : Z) :
  0 <= n -> n <= strlen mp -> n <= strlen path -> n < 2 ^ 32 ->
  (forall j, 0 <= j < n -> char_at mp j = char_at path j) ->
  match_loop (Z.to_nat n) mp path 0 0 = Done n.
Proof.
  intros Hn Hmp Hpath Hu Heq.
  pose proof (strlen_bounds mp). pose proof (strlen_bounds path).
  destruct (match_loop_spec mp path (Z.to_nat n) 0
              ltac:(lia) ltac:(lia) ltac:(lia) ltac:(lia))
    as (m0 & E & Hrange & _ & Hstop).
  rewrite E. f_equal.
  destruct (Z.eq_dec m0 n) as [| Hne]; [assumption |].
  exfalso. apply Hstop; [lia |]. apply Heq. lia.
Qed.

(** Conversely, a mountpoint that serves a path matches it: with the whole
    of its own path when the path goes on after the directory, with all but
    the final [/] when the path is the directory itself. *)
Theorem serves_match (mp p dir rest : string) :
  no_nul mp -> no_nul p -> strlen mp < 2 ^ 32 -> strlen p < 2 ^ 32 ->
  mp = dir ++ "/" ->
  (p = dir ++ "/" ++ rest ->
   check_mountpoint_match mp (strlen mp) p (strlen p) = Done (strlen mp)) /\
  (p = dir -> p <> "" ->
   check_mountpoint_match mp (strlen mp) p (strlen p) = Done (strlen p)).
Proof.
  intros Nm Np Hlm Hlp Hmp.
  unfold no_nul in Nm, Np.
  assert (Ldir : Z.of_nat (String.length dir) = strlen mp - 1)
    by (rewrite Nm, Hmp, str_length_app; cbn [String.length]; lia).
  assert (Hlast : char_at mp (strlen mp - 1) = Done SLASH)
    by (rewrite <- Ldir, Hmp; apply char_at_app_mid).
  split.
  - intros Hp.
    assert (Hp' : p = mp ++ rest) by (now rewrite Hmp, str_app_assoc).
    assert (Lp : strlen mp <= strlen p)
      by (rewrite Np, Nm, Hp', str_length_app; lia).
    assert (Heq : forall j, 0 <= j < strlen mp ->
                            char_at mp j = char_at p j)
      by (intros j Hj; rewrite Hp'; symmetry; apply char_at_app_l; lia).
    unfold check_mountpoint_match.
    rewrite u32_small by lia. rewrite Hlast. cbn [obind].
    rewrite Ascii.eqb_refl. cbn [ASSERT_pure obind].
    replace (Z.min (strlen mp) (strlen p)) with (strlen mp) by lia.
    rewrite match_loop_full by (try lia; assumption). cbn [obind].
    destruct (Z.ltb_spec 0 (strlen mp)); [| lia]. cbn [ASSERT_pure obind].
    rewrite char_at_strlen. cbn [obind].
    rewrite Ascii.eqb_refl. cbn [negb].
    rewrite u32_small by lia.
    rewrite <- Heq by lia. rewrite Hlast. cbn [obind].
    rewrite Ascii.eqb_refl. reflexivity.
  - intros Hp Hne.
    assert (Lp : strlen p = strlen mp - 1) by (rewrite <- Ldir, Np; now subst).
    assert (1 <= strlen p)
      by (rewrite Np; destruct p; [contradiction | cbn [String.length]; lia]).
    assert (Heq : forall j, 0 <= j < strlen p ->
                            char_at mp j = char_at p j)
      by (intros j Hj; rewrite Hmp, <- Hp; apply char_at_app_l; lia).
    unfold check_mountpoint_match.
    rewrite u32_small by lia. rewrite Hlast. cbn [obind].
    rewrite Ascii.eqb_refl. cbn [ASSERT_pure obind].
    replace (Z.min (strlen mp) (strlen p)) with (strlen p) by lia.
    rewrite match_loop_full by (try lia; assumption). cbn [obind].
    destruct (Z.ltb_spec 0 (strlen p)); [| lia]. cbn [ASSERT_pure obind].
    replace (strlen p) with (strlen mp - 1) at 1 by lia.
    rewrite Hlast. cbn [obind].
    change (Ascii.eqb SLASH NUL) with false. cbn [negb].
    rewrite Ascii.eqb_refl.
    replace (u32 (strlen p + 1)) with (strlen mp)
      by (rewrite u32_small; lia).
    rewrite char_at_strlen. cbn [obind]. rewrite Ascii.eqb_refl.
    rewrite char_at_strlen. cbn [obind]. rewrite Ascii.eqb_refl.
    reflexivity.
Qed.

Lemma serves_match_witness :
  check_mountpoint_match "/mnt/" (strlen "/mnt/") "/mnt/file.txt"
    (strlen "/mnt/file.txt") = Done (strlen "/mnt/") /\
  check_mountpoint_match "/mnt/" (strlen "/mnt/") "/mnt" (strlen "/mnt") =
    Done (strlen "/mnt").
Proof.
  split.
  - apply (proj1 (serves_match "/mnt/" "/mnt/file.txt" "/mnt" "file.txt"
                    eq_refl eq_refl eq_refl eq_refl eq_refl)).
    reflexivity.
  - apply (proj2 (serves_match "/mnt/" "/mnt" "/mnt" ""
                    eq_refl eq_refl eq_refl eq_refl eq_refl)).
    + reflexivity.
    + discriminate.
Defined.

(** A call that returns was given two non-empty paths. *)
Lemma check_done_pos (mp path : string) (m : Z) :
  strlen mp < 2 ^ 32 -> strlen path < 2 ^ 32 ->
  check_mountpoint_match mp (strlen mp) path (strlen path) = Done m ->
  1 <= strlen mp /\ 1 <= strlen path.
Proof.
  intros Hlm Hlp H.
  pose proof (strlen_bounds mp) as Bm.
  pose proof (strlen_bounds path) as Bp.
  destruct (match_loop_spec mp path
              (Z.to_nat (Z.min (strlen mp) (strlen path))) 0
              ltac:(lia) ltac:(lia) ltac:(lia) ltac:(lia))
    as (m0 & E & Hrange & _ & _).
  unfold check_mountpoint_match in H.
  apply obind_done in H. destruct H as (last & _ & H).
  apply obind_done in H. destruct H as (u & _ & H).
  rewrite E in H. cbn [obind] in H.
  apply obind_done in H. destruct H as (u' & Hpos & _).
  apply assert_pure_done in Hpos. apply Z.ltb_lt in Hpos. lia.
Qed.

Section Registry.

Context {fsdata : Type}.

Implicit Types (mp : mountpoint fsdata) (mps : list (mountpoint fsdata)).

Lemma scan_spec (p : string) (pl : Z) mps :
  forall best len r n,
    best_match_scan mps p pl best len = Done (r, n) ->
    len <= n /\
    Forall (fun mp =>
              exists k, check_mountpoint_match (path mp) (path_len mp) p pl
                        = Done k /\ k <= n) mps /\
    ((r = best /\ n = len) \/
     (exists l1 mp l2,
         mps = (l1 ++ mp :: l2)%list /\ r = Some mp /\
         check_mountpoint_match (path mp) (path_len mp) p pl = Done n /\
         len < n /\
         Forall (fun mp' =>
                   exists k,
                     check_mountpoint_match (path mp') (path_len mp') p pl
                     = Done k /\ k < n) l1)).
Proof.
  induction mps as [| m rest IH]; intros best len r n H.
  - cbn in H. injection H as <- <-.
    split; [lia |]. split; [constructor | now left].
  - cbn [best_match_scan] in H.
    destruct (check_mountpoint_match (path m) (path_len m) p pl)
      as [k | e] eqn:Ek; [| discriminate].
    cbn [obind] in H.
    destruct (Z.ltb_spec len k) as [Hlt | Hge].
    + destruct (IH _ _ _ _ H) as (Hle & Hall & Hcase).
      split; [lia |]. split.
      * constructor; [exists k; split; [exact Ek | lia] | exact Hall].
      * right.
        destruct Hcase as [(-> & ->) | (l1 & mp & l2 & -> & -> & Hn & Hkn & Hl1)].
        -- exists []%list, m, rest. repeat split; try assumption.
           constructor.
        -- exists (m :: l1)%list, mp, l2. repeat split; try assumption; [lia |].
           constructor; [exists k; split; [exact Ek | lia] | exact Hl1].
    + destruct (IH _ _ _ _ H) as (Hle & Hall & Hcase).
      split; [lia |]. split.
      * constructor; [exists k; split; [exact Ek | lia] | exact Hall].
      * destruct Hcase as [(-> & ->) | (l1 & mp & l2 & -> & -> & Hn & Hkn & Hl1)].
        -- now left.
        -- right. exists (m :: l1)%list, mp, l2.
           repeat split; try assumption.
           constructor; [exists k; split; [exact Ek | lia] | exact Hl1].
Qed.

End Registry.

(** The scan of the mountpoints in [vfs_open]: the mountpoint kept has the
    greatest match length of all, a positive one, and is the first with
    that length in the order of enumeration; none is kept exactly when no
    match length is positive. *)
Theorem longest_match_wins {fsdata : Type} (mps : list (mountpoint fsdata))
  (p : string) (pl : Z) (r : option (mountpoint fsdata)) (n : Z) :
  best_match_scan mps p pl None 0 = Done (r, n) ->
  Forall (fun mp =>
            exists k, check_mountpoint_match (path mp) (path_len mp) p pl
                      = Done k /\ k <= n) mps /\
  match r with
  | None => n = 0
  | Some mp =>
      0 < n /\
      exists l1 l2,
        mps = (l1 ++ mp :: l2)%list /\
        check_mountpoint_match (path mp) (path_len mp) p pl = Done n /\
        Forall (fun mp' =>
                  exists k,
                    check_mountpoint_match (path mp') (path_len mp') p pl
                    = Done k /\ k < n) l1
  end.
Proof.
  intros H.
  destruct (scan_spec p pl mps None 0 r n H) as (Hle & Hall & Hcase).
  split; [exact Hall |].
  destruct Hcase as [(-> & ->) | (l1 & mp & l2 & -> & -> & Hn & Hpos & Hl1)].
  - reflexivity.
  - split; [exact Hpos |]. now exists l1, l2.
Qed.

Lemma longest_match_wins_witness :
  Forall (fun mp =>
            exists k, check_mountpoint_match (path mp) (path_len mp)
                        "/dev/null" 9 = Done k /\ k <= 5)
         [demo_root; demo_dev] /\
  0 < 5 /\
  exists l1 l2,
    [demo_root; demo_dev] = (l1 ++ demo_dev :: l2)%list /\
    check_mountpoint_match (path demo_dev) (path_len demo_dev) "/dev/null" 9
    = Done 5 /\
    Forall (fun mp' =>
              exists k,
                check_mountpoint_match (path mp') (path_len mp') "/dev/null" 9
                = Done k /\ k < 5) l1.
Proof.
  exact (longest_match_wins [demo_root; demo_dev] "/dev/null" 9
           (Some demo_dev) 5 eq_refl).
Defined.

(** Mount resolution as a whole, for a registry of well-formed mountpoints
    and a C string [p] shorter than [2^32]: the mountpoint chosen serves
    [p] and its filesystem is handed [/] followed by what comes after the
    mountpoint's directory in [p]; and when none is chosen, no registered
    mountpoint serves [p]. *)
Theorem resolution {fsdata : Type} (mps : list (mountpoint fsdata))
  (p : string) :
  Forall (fun mp => mountpoint_ok mp /\ no_nul (path mp)) mps ->
  no_nul p -> strlen p < 2 ^ 32 ->
  (forall mp fp,
      resolve mps p = Done (Some (mp, fp)) ->
      In mp mps /\
      exists dir rest, serves (path mp) p dir rest /\ fp = "/" ++ rest)
  /\
  (resolve mps p = Done None ->
   forall mp dir rest, In mp mps -> ~ serves (path mp) p dir rest).
Proof.
  intros Hok Np Hlp.
  rewrite Forall_forall in Hok.
  split.
  - intros mp fp Hres.
    pose proof (resolve_in _ _ _ _ Hres) as Hin.
    split; [exact Hin |].
    destruct (resolve_some _ _ _ _ Hres) as (n & Hscan & ->).
    destruct (longest_match_wins _ _ _ _ _ Hscan)
      as (_ & Hpos & l1 & l2 & _ & Hn & _).
    destruct (Hok mp Hin) as ((Hlen & Hlm) & Nm).
    rewrite Hlen in Hn. rewrite u32_small in *
      by (pose proof (strlen_bounds p); lia).
    apply (match_serves (path mp) p n); try assumption. lia.
  - intros Hres mp dir rest Hin (Hmp & Hp).
    destruct (resolve_none _ _ Hres) as (n & Hscan).
    destruct (longest_match_wins _ _ _ _ _ Hscan) as (Hall & ->).
    rewrite Forall_forall in Hall.
    destruct (Hall mp Hin) as (k & Hk & Hle).
    destruct (Hok mp Hin) as ((Hlen & Hlm) & Nm).
    rewrite Hlen in Hk. rewrite u32_small in Hk
      by (pose proof (strlen_bounds p); lia).
    destruct (check_done_pos _ _ _ Hlm Hlp Hk) as (H1 & H2).
    destruct (serves_match (path mp) p dir rest Nm Np Hlm Hlp Hmp)
      as (Hlong & Hshort).
    destruct Hp as [Hp | (Hp & _)].
    + rewrite (Hlong Hp) in Hk. injection Hk as <-. lia.
    + rewrite (Hshort Hp) in Hk; [injection Hk as <-; lia |].
      intros ->. cbn in H2. lia.
Qed.

Lemma resolution_witness :
  (In demo_dev [demo_root; demo_dev] /\
   exists dir rest,
     serves (path demo_dev) "/dev/null" dir rest /\ "/null" = "/" ++ rest) /\
  (forall mp dir rest,
      In mp [demo_dev] -> ~ serves (path mp) "/etc/passwd" dir rest).
Proof.
  assert (Hok : forall mp, In mp [demo_root; demo_dev] ->
                           mountpoint_ok mp /\ no_nul (path mp)).
  { intros mp [<- | [<- | []]]; repeat split. }
  split.
  - apply (proj1 (resolution [demo_root; demo_dev] "/dev/null"
                    (proj2 (Forall_forall _ _) Hok) eq_refl eq_refl)).
    reflexivity.
  - apply (proj2 (resolution [demo_dev] "/etc/passwd"
                    (proj2 (Forall_forall _ _)
                       (fun mp H => Hok mp (in_cons demo_root mp _ H)))
                    eq_refl eq_refl)).
    reflexivity.
Defined.

(** [vfs_open], case by case, for any registry: a path that does not begin
    with [/] (the empty path included) is a panic before anything is
    looked at; a failure while matching a mountpoint (one that does not end
    in [/], say) is fatal; when no mountpoint matches, the result is
    [-ENOENT] and no filesystem was called; otherwise the [open] operation
    of the filesystem chosen is called on the remainder of the path, under
    the exclusive lock with [O_CREAT] and the shared lock without, and its
    result is returned. *)
Theorem vfs_open_outcomes {fsdata : Type} (mps : list (mountpoint fsdata))
  (p : string) (flags mode : Z) (s : kstate fsdata) :
  (char_at p 0 <> Done SLASH ->
   vfs_open mps p flags mode s =
   Fatal (Panic "vfs_open() works only with absolute paths"))
  /\
  (char_at p 0 = Done SLASH ->
   (forall e, resolve mps p = Fatal e ->
              vfs_open mps p flags mode s = Fatal e) /\
   (resolve mps p = Done None ->
    exists s',
      vfs_open mps p flags mode s = Done ((- ENOENT, 0), s') /\
      kworld s' = kworld s /\
      added s s' [Mp_iter_begin; Mp_iter_end]) /\
   (forall mp fp,
       resolve mps p = Done (Some (mp, fp)) -> reaches mps p (mp_fs mp) fp)).
Proof.
  split.
  - intros Hc.
    destruct (char_at_in_range p 0 ltac:(lia)) as (c & Ec).
    unfold vfs_open. unfold lift at 1. rewrite Ec.
    rewrite (bind_step _ _ s c s eq_refl).
    destruct (Ascii.eqb_spec c SLASH) as [-> | Hne]; [contradiction |].
    reflexivity.
  - intros Hc. split; [| split].
    + intros e Hres.
      unfold vfs_open. unfold lift at 1. rewrite Hc.
      rewrite (bind_step _ _ s SLASH s eq_refl).
      rewrite Ascii.eqb_refl. cbn [negb].
      rewrite (bind_step _ _ s tt s eq_refl).
      cbv zeta. unfold tick.
      rewrite (bind_step _ _ _ _ _ (call_done _ _ _)).
      unfold resolve in Hres.
      destruct (best_match_scan mps p (u32 (strlen p)) None 0)
        as [[[mp |] n] | e'] eqn:E; cbn [obind] in Hres; try discriminate.
      injection Hres as ->. reflexivity.
    + intros Hres.
      destruct (vfs_open_unresolved mps p flags mode s Hc Hres)
        as (s' & E & Hw & _ & Ha).
      now exists s'.
    + intros mp fp Hres. now apply resolve_reaches.
Qed.

Lemma vfs_open_outcomes_witness :
  vfs_open [demo_root; demo_dev] "dev/null" 0 0 demo_state =
    Fatal (Panic "vfs_open() works only with absolute paths") /\
  (exists s',
      vfs_open [demo_dev] "/etc" 0 0 demo_state = Done ((- ENOENT, 0), s') /\
      kworld s' = kworld demo_state /\
      added demo_state s' [Mp_iter_begin; Mp_iter_end]) /\
  vfs_open [{| mp_fs := demo_fs 3; path_len := 4; path := "/mnt" |}]
    "/mnt/x" 0 0 demo_state = Fatal (Assert_failed "mp[lm-1] == '/'").
Proof.
  split; [| split].
  - apply (proj1 (vfs_open_outcomes [demo_root; demo_dev] "dev/null" 0 0
                    demo_state)).
    discriminate.
  - apply (proj2 (vfs_open_outcomes [demo_dev] "/etc" 0 0 demo_state) eq_refl).
    reflexivity.
  - apply (proj2 (vfs_open_outcomes
                    [{| mp_fs := demo_fs 3; path_len := 4; path := "/mnt" |}]
                    "/mnt/x" 0 0 demo_state) eq_refl).
    reflexivity.
Defined.

(** [vfs_dup] on a handle calls the [dup] operation of the filesystem and
    nothing else.  An error of the operation is returned as it is, with
    whatever the operation stored; a success is returned as 0 with the new
    handle, which is not NULL -- were it NULL, the call would not return. *)
Theorem vfs_dup_outcomes {fsdata : Type} (hb : fs_handle_base fsdata)
  (s : kstate fsdata) :
  let r := fst (dup (fs hb) (h_addr hb) (kworld s)) in
  (forall rc h' s',
      vfs_dup (Some hb) s = Done ((rc, h'), s') ->
      added s s' [Fs_dup (fs_addr (fs hb)) (h_addr hb)] /\
      rc = fst r /\ h' = snd r /\ (rc = 0 -> h' <> 0))
  /\
  (fst r = 0 -> snd r = 0 ->
   vfs_dup (Some hb) s = Fatal (Assert_failed "*dup_h != NULL"))
  /\
  (fst r <> 0 \/ snd r <> 0 -> exists s', vfs_dup (Some hb) s = Done (r, s')).
Proof.
  intros r.
  pose proof (vfs_dup_spec hb s) as Hspec. cbv zeta in Hspec. fold r in Hspec.
  split; [| split].
  - intros rc h' s' H. rewrite Hspec in H.
    destruct (Z.eqb_spec (fst r) 0) as [Hz | Hnz]; cbn [negb] in H.
    + destruct (Z.eqb_spec (snd r) 0) as [Hz' | Hnz']; cbn [negb] in H;
        [discriminate |].
      injection H as <- <- <-. cbn [trace]. unfold added.
      repeat split; auto.
    + injection H as Hr <-. unfold added. cbn [trace].
      assert (Hrc : rc = fst r) by now rewrite Hr.
      assert (Hh : h' = snd r) by now rewrite Hr.
      repeat split; auto. intros ->. congruence.
  - intros Hz Hz'. rewrite Hspec, Hz, Hz'. reflexivity.
  - intros Hor. rewrite Hspec.
    destruct (Z.eqb_spec (fst r) 0) as [Hz | Hnz]; cbn [negb]; [| eauto].
    destruct (Z.eqb_spec (snd r) 0) as [Hz' | Hnz']; cbn [negb]; [lia |].
    eexists. f_equal. f_equal. destruct r as [rc h']. cbn in Hz. now subst.
Qed.

Lemma vfs_dup_outcomes_witness :
  exists s', vfs_dup (Some (demo_handle no_ops)) demo_state =
             Done ((0, 516), s').
Proof.
  apply (proj2 (proj2 (vfs_dup_outcomes (demo_handle no_ops) demo_state))).
  right. discriminate.
Defined.

End VfsOpsFacts.

(** *** The AVL engine, further *)

Module BintreeMoreFacts.

Import Bintree BintreeFacts.

Section Facts.

Variable obj : Type.
Variable CMP : obj -> obj -> Z.
Variable MAX_TREE_HEIGHT : nat.

Abbreviation tree := (Bintree.tree obj).
Abbreviation insert_rec := (Bintree.insert_rec obj CMP).
Abbreviation insert := (Bintree.bintree_insert_internal obj CMP MAX_TREE_HEIGHT).
Abbreviation insert_all := (Bintree.insert_all obj CMP MAX_TREE_HEIGHT).
Abbreviation elements := (Bintree.elements obj).
Abbreviation height := (Bintree.height obj).
Abbreviation size := (Bintree.size obj).
Abbreviation balanced := (Bintree.balanced obj).
Abbreviation pushes := (Bintree.pushes obj CMP).

(** The new object goes somewhere in the left-to-right sequence of the
    objects, which is otherwise unchanged. *)
Lemma insert_rec_elements (ob : obj) (t : tree) :
  forall t', insert_rec ob t = Some t' ->
             exists l1 l2, elements t = l1 ++ l2 /\
                           elements t' = l1 ++ ob :: l2.
Proof.
  induction t as [| l IHl o r IHr]; intros t' Hins.
  - cbn in Hins. injection Hins as <-. now exists [], [].
  - cbn [Bintree.insert_rec] in Hins.
    destruct (CMP ob o =? 0); [discriminate |].
    destruct (CMP ob o <? 0).
    + destruct (insert_rec ob l) as [l' |]; [| discriminate].
      assert (t' = Bintree.balance obj (Node l' o r)) as ->
          by (cbn [option_map] in Hins; congruence).
      destruct (IHl l' eq_refl) as (l1 & l2 & H1 & H2).
      exists l1, (l2 ++ o :: elements r).
      rewrite elements_balance. cbn [Bintree.elements].
      rewrite H1, H2, <- !app_assoc. split; reflexivity.
    + destruct (insert_rec ob r) as [r' |]; [| discriminate].
      assert (t' = Bintree.balance obj (Node l o r')) as ->
          by (cbn [option_map] in Hins; congruence).
      destruct (IHr r' eq_refl) as (l1 & l2 & H1 & H2).
      exists (elements l ++ o :: l1), l2.
      rewrite elements_balance. cbn [Bintree.elements].
      rewrite H1, H2, <- !app_assoc. split; reflexivity.
Qed.

(** The descent gives up only on an object that compares equal. *)
Lemma insert_rec_none (ob : obj) (t : tree) :
  insert_rec ob t = None ->
  exists m, In m (elements t) /\ CMP ob m = 0.
Proof.
  induction t as [| l IHl o r IHr]; [discriminate |].
  cbn [Bintree.insert_rec Bintree.elements].
  destruct (Z.eqb_spec (CMP ob o) 0) as [Hz | Hnz].
  - intros _. exists o. split; [apply in_elt | exact Hz].
  - destruct (CMP ob o <? 0).
    + destruct (insert_rec ob l); [discriminate |]. intros _.
      destruct (IHl eq_refl) as (m & Hin & Hm).
      exists m. split; [apply in_or_app; now left | exact Hm].
    + destruct (insert_rec ob r); [discriminate |]. intros _.
      destruct (IHr eq_refl) as (m & Hin & Hm).
      exists m. split; [apply in_or_app; right; now right | exact Hm].
Qed.

Lemma insert_all_size (objs : list obj) :
  forall t t', insert_all t objs = Some t' ->
               size t' = (size t + List.length objs)%nat.
Proof.
  induction objs as [| x xs IH]; intros t t' H.
  - cbn in H. injection H as <-. cbn. lia.
  - cbn [Bintree.insert_all] in H.
    destruct (insert t x) as [[|] t1 |] eqn:E; try discriminate.
    apply insert_true in E.
    rewrite (IH _ _ H), (insert_rec_size _ _ _ _ _ E). cbn [List.length]. lia.
Qed.

(** A balanced tree of height [h] has at least [2^(h/2) - 1] nodes. *)
Lemma min_nodes_pow (h : nat) :
  (2 ^ (h / 2) <= min_nodes h + 1)%nat /\
  (2 ^ (S h / 2) <= min_nodes (S h) + 1)%nat.
Proof.
  induction h as [| h (IH0 & IH1)]; [cbn; lia |].
  split; [exact IH1 |].
  change (min_nodes (S (S h))) with (S (min_nodes (S h) + min_nodes h)).
  replace (S (S h) / 2)%nat with (S (h / 2))%nat
    by (replace (S (S h)) with (1 * 2 + h)%nat by lia;
        now rewrite Nat.div_add_l by lia).
  pose proof (min_nodes_step h). cbn [Nat.pow]. lia.
Qed.

End Facts.

(** A successful insertion adds the object and nothing else: read from
    left to right, the objects of the new tree are those of the old one
    with the new object put in at one place, so that the members are the
    old ones and the new object, and there is one node more; search order
    is kept; and a balanced tree grows in height by one at most.  (With
    [BALANCE] as the rotations of the spec.) *)
Theorem insert_adds_object (obj : Type) (CMP : obj -> obj -> Z)
  (MAX_TREE_HEIGHT : nat) (t t' : tree obj) (ob : obj) :
  bintree_insert_internal obj CMP MAX_TREE_HEIGHT t ob = Returned true t' ->
  (exists l1 l2, elements obj t = l1 ++ l2 /\
                 elements obj t' = l1 ++ ob :: l2) /\
  (forall x, In x (elements obj t') <-> x = ob \/ In x (elements obj t)) /\
  size obj t' = S (size obj t) /\
  (three_way obj CMP -> ordered obj CMP t -> ordered obj CMP t') /\
  (balanced obj t ->
   (height obj t <= height obj t' <= S (height obj t))%nat).
Proof.
  intros H. apply insert_true in H.
  destruct (insert_rec_elements obj CMP ob t t' H) as (l1 & l2 & H1 & H2).
  split; [now exists l1, l2 |].
  split; [| split; [| split]].
  - intros x. rewrite H1, H2, !in_app_iff. cbn [In].
    split; intros [? | ?]; intuition auto.
  - exact (insert_rec_size _ _ _ _ _ H).
  - intros Hcmp Hord. exact (insert_rec_ordered _ _ _ _ Hcmp _ Hord H).
  - intros Hb. destruct (insert_rec_balanced _ _ _ _ _ Hb H) as (_ & Hh). lia.
Qed.

Lemma insert_adds_object_witness :
  (exists l1 l2, [1; 2; 3] = l1 ++ l2 /\ [1; 2; 3; 4] = l1 ++ 4 :: l2) /\
  (forall x, In x [1; 2; 3; 4] <-> x = 4 \/ In x [1; 2; 3]).
Proof.
  destruct (insert_adds_object Z Z.sub 32
              (Node (Node Leaf 1 Leaf) 2 (Node Leaf 3 Leaf))
              (Node (Node Leaf 1 Leaf) 2 (Node Leaf 3 (Node Leaf 4 Leaf)))
              4 eq_refl) as (H1 & H2 & _).
  split; [exact H1 | exact H2].
Defined.

(** An insertion returns [false] only because of a duplicate: the tree is
    then as it was and has a member that compares equal to the object,
    whatever the shape of the tree and whatever the comparator. *)
Theorem false_means_duplicate (obj : Type) (CMP : obj -> obj -> Z)
  (MAX_TREE_HEIGHT : nat) (t t' : tree obj) (ob : obj) :
  bintree_insert_internal obj CMP MAX_TREE_HEIGHT t ob = Returned false t' ->
  t' = t /\ exists m, In m (elements obj t) /\ CMP ob m = 0.
Proof.
  rewrite insert_internal_spec.
  destruct t as [| l o r]; [discriminate |].
  destruct (MAX_TREE_HEIGHT <? 1 + pushes obj CMP ob (Node l o r))%nat;
    [discriminate |].
  destruct (insert_rec obj CMP ob (Node l o r)) as [t1 |] eqn:E;
    [discriminate |].
  intros H. injection H as <-.
  split; [reflexivity |]. now apply insert_rec_none.
Qed.

Lemma false_means_duplicate_witness :
  Node (Node Leaf 1 Leaf) 2 (Node Leaf 3 Leaf) =
    Node (Node Leaf 1 Leaf) 2 (Node Leaf 3 Leaf) /\
  exists m, In m [1; 2; 3] /\ 3 - m = 0.
Proof.
  exact (false_means_duplicate Z Z.sub 32
           (Node (Node Leaf 1 Leaf) 2 (Node Leaf 3 Leaf)) _ 3 eq_refl).
Defined.

(** The slot stack is large enough for any tree lower than
    [MAX_TREE_HEIGHT], balanced or not; a tree built by [N] successful
    insertions has [N] nodes and a height [h] with [2^(h/2) <= N + 1]; and
    as long as [N] is below the least size of a balanced tree of height
    [MAX_TREE_HEIGHT], the next insertion does not overflow the stack. *)
Theorem stack_suffices (obj : Type) (CMP : obj -> obj -> Z)
  (MAX_TREE_HEIGHT : nat) :
  (forall t ob,
      (height obj t < MAX_TREE_HEIGHT)%nat ->
      bintree_insert_internal obj CMP MAX_TREE_HEIGHT t ob <> Fatal_overflow)
  /\
  (forall objs t,
      insert_all obj CMP MAX_TREE_HEIGHT Leaf objs = Some t ->
      size obj t = List.length objs /\
      (2 ^ (height obj t / 2) <= List.length objs + 1)%nat /\
      ((List.length objs < min_nodes MAX_TREE_HEIGHT)%nat ->
       forall ob,
         bintree_insert_internal obj CMP MAX_TREE_HEIGHT t ob
         <> Fatal_overflow)).
Proof.
  assert (Hfit : forall t ob,
             (height obj t < MAX_TREE_HEIGHT)%nat ->
             bintree_insert_internal obj CMP MAX_TREE_HEIGHT t ob
             <> Fatal_overflow).
  { intros t ob Hh. rewrite (insert_fits _ _ _ _ _ Hh).
    destruct (insert_rec obj CMP ob t); discriminate. }
  split; [exact Hfit |].
  intros objs t Hrun.
  pose proof (insert_all_size obj CMP MAX_TREE_HEIGHT objs Leaf t Hrun) as Hs.
  cbn [size] in Hs.
  assert (Hb : balanced obj t)
    by (eapply insert_all_balanced; [| exact Hrun]; exact I).
  pose proof (balanced_min_nodes obj t Hb) as Hmin.
  split; [exact Hs |]. split.
  - pose proof (proj1 (min_nodes_pow (height obj t))). lia.
  - intros Hlen ob. apply Hfit.
    apply balanced_fits; [exact Hb | lia].
Qed.

Lemma stack_suffices_witness :
  bintree_insert_internal Z Z.sub 3
    (Node (Node Leaf 1 Leaf) 2 (Node Leaf 3 Leaf)) 4 <> Fatal_overflow /\
  (2 ^ (height Z (Node (Node Leaf 1 Leaf) 2 (Node Leaf 3 Leaf))%Z / 2)
   <= List.length [1; 2; 3]%Z + 1)%nat.
Proof.
  destruct (stack_suffices Z Z.sub 3) as (Hfit & Hrun).
  split.
  - apply Hfit. cbn. lia.
  - exact (proj1 (proj2 (Hrun [1; 2; 3] _ eq_refl))).
Defined.

End BintreeMoreFacts.

(** *** Formatted output *)

Module PrintkFacts.

Import Printk PrintkOps.

Ltac ctx_cbn :=
  unfold set_args, set_width, set_left_padding, set_right_padding, set_buf,
    set_zero_lpad, set_hash_sign, set_intbuf, set_mem;
  cbn [args width left_padding right_padding buf buf_end zero_lpad hash_sign
       intbuf mem].

Lemma set_mem_same st : set_mem (mem st) st = st.
Proof. now destruct st. Qed.

Lemma set_buf_same st : set_buf (buf st) st = st.
Proof. now destruct st. Qed.

Lemma bind_ok {A B} (m : P A) (k : A -> P B) st a st' :
  m st = Ok (a, st') -> bind m k st = k a st'.
Proof. unfold bind. now intros ->. Qed.

Lemma bind_stop {A B} (m : P A) (k : A -> P B) st e :
  m st = Stop e -> bind m k st = Stop e.
Proof. unfold bind. now intros ->. Qed.

(** **** Strings *)

Lemma advance_0 s : Vfs.advance s 0 = s.
Proof. now destruct s. Qed.

Lemma get_advance n : forall fmt,
  String.get n fmt =
  match Vfs.advance fmt n with String c _ => Some c | EmptyString => None end.
Proof.
  induction n as [|n IH]; intros [|a fmt]; try reflexivity.
  cbn [String.get Vfs.advance]. apply IH.
Qed.

Lemma advance_S n : forall fmt c s,
  Vfs.advance fmt n = String c s -> Vfs.advance fmt (S n) = s.
Proof.
  induction n as [|n IH]; intros [|a fmt] c s H; try discriminate.
  - cbn in H. cbn. rewrite advance_0. congruence.
  - cbn [Vfs.advance] in *. now apply IH in H.
Qed.

Lemma strlen_advance n : forall fmt,
  Z.of_nat n <= Vfs.strlen fmt ->
  Vfs.strlen fmt = Z.of_nat n + Vfs.strlen (Vfs.advance fmt n).
Proof.
  induction n as [|n IH]; intros fmt H.
  - now rewrite advance_0.
  - destruct fmt as [|a fmt]; cbn [Vfs.strlen] in *; [lia|].
    destruct (Ascii.eqb a Vfs.NUL); [lia|].
    cbn [Vfs.advance]. rewrite (IH fmt); lia.
Qed.

(** **** The output array *)

Lemma splice_nil_l b cs : splice [] b cs = [].
Proof.
  unfold splice. rewrite firstn_nil, skipn_nil. cbn [List.length Nat.sub].
  now rewrite firstn_O.
Qed.

Lemma splice_cons_S x m b cs : splice (x :: m) (S b) cs = x :: splice m b cs.
Proof. reflexivity. Qed.

Lemma splice_cons_0 x m c cs : splice (x :: m) 0 (c :: cs) = c :: splice m 0 cs.
Proof. unfold splice. cbn. now rewrite Nat.sub_0_r. Qed.

Lemma splice_nil_r m b : splice m b [] = m.
Proof.
  unfold splice. rewrite firstn_nil. cbn [List.length app].
  rewrite Nat.add_0_r. apply firstn_skipn.
Qed.

Lemma splice_beyond m b cs : (List.length m <= b)%nat -> splice m b cs = m.
Proof.
  intros H. unfold splice.
  replace (List.length m - b)%nat with 0%nat by lia.
  rewrite firstn_O, firstn_all2 by lia. rewrite skipn_all2 by lia.
  now rewrite !app_nil_r.
Qed.

Lemma splice_length m b cs : List.length (splice m b cs) = List.length m.
Proof.
  revert b cs. induction m as [|x m IH]; intros b cs.
  - now rewrite splice_nil_l.
  - destruct b as [|b].
    + destruct cs as [|c cs].
      * now rewrite splice_nil_r.
      * rewrite splice_cons_0. cbn [List.length]. now rewrite IH.
    + rewrite splice_cons_S. cbn [List.length]. now rewrite IH.
Qed.

Lemma update_length m n c : List.length (update m n c) = List.length m.
Proof.
  revert n. induction m as [|x m IH]; intros [|n]; cbn [update List.length];
    try reflexivity.
  now rewrite IH.
Qed.

Lemma update_splice m b c cs :
  (b < List.length m)%nat ->
  splice (update m b c) (S b) cs = splice m b (c :: cs).
Proof.
  revert b. induction m as [|x m IH]; intros b H.
  - cbn [List.length] in H. lia.
  - destruct b as [|b].
    + cbn [update]. rewrite splice_cons_S, splice_cons_0. reflexivity.
    + cbn [update]. rewrite !splice_cons_S. f_equal. apply IH.
      cbn [List.length] in H. lia.
Qed.

Lemma splice_splice m b cs ds :
  (b + List.length cs <= List.length m)%nat ->
  splice (splice m b cs) (b + List.length cs) ds = splice m b (cs ++ ds).
Proof.
  revert b cs. induction m as [|x m IH]; intros b cs H.
  - now rewrite !splice_nil_l.
  - destruct b as [|b].
    + destruct cs as [|c cs].
      * now rewrite splice_nil_r.
      * cbn [List.length] in H. rewrite splice_cons_0.
        cbn [List.length Nat.add app]. rewrite splice_cons_S, splice_cons_0.
        f_equal. apply (IH 0%nat cs). cbn [Nat.add]. lia.
    + cbn [List.length] in H. cbn [Nat.add]. rewrite !splice_cons_S.
      f_equal. apply IH. lia.
Qed.

Lemma splice_cut m b cs ds :
  (List.length m <= b + List.length cs)%nat ->
  splice m b (cs ++ ds) = splice m b cs.
Proof.
  revert b cs. induction m as [|x m IH]; intros b cs H.
  - now rewrite !splice_nil_l.
  - destruct b as [|b].
    + destruct cs as [|c cs].
      * cbn [List.length] in H. lia.
      * cbn [app]. rewrite !splice_cons_0. f_equal. apply IH.
        cbn [List.length] in H. cbn [Nat.add]. lia.
    + rewrite !splice_cons_S. f_equal. apply IH.
      cbn [List.length Nat.add] in H. lia.
Qed.

(** **** The writers *)

Lemma within_room st : room st -> within st.
Proof. now intros [H _]. Qed.

Lemma store_in st i c :
  0 <= i < Z.of_nat (List.length (mem st)) ->
  store i c st = Ok (tt, set_mem (update (mem st) (Z.to_nat i) c) st).
Proof.
  intros H. unfold store.
  destruct (0 <=? i) eqn:E1; [|lia].
  destruct (i <? Z.of_nat (List.length (mem st))) eqn:E2; [|lia].
  reflexivity.
Qed.

Lemma store_out st i c :
  ~ 0 <= i < Z.of_nat (List.length (mem st)) ->
  store i c st = Stop (Write_outside i).
Proof.
  intros H. unfold store.
  destruct (0 <=? i) eqn:E1; destruct (i <? Z.of_nat (List.length (mem st))) eqn:E2;
    try reflexivity.
  lia.
Qed.

Lemma chars_length s : Z.of_nat (List.length (chars s)) = Vfs.strlen s.
Proof.
  induction s as [|c s IH]; cbn [chars Vfs.strlen]; [reflexivity|].
  destruct (Ascii.eqb c Vfs.NUL); cbn [List.length]; lia.
Qed.

Lemma write_in_buf_str_loop_spec s : forall ptr st,
  0 <= ptr <= buf_end st ->
  buf_end st = Z.of_nat (List.length (mem st)) ->
  write_in_buf_str_loop s ptr st =
  Ok (Z.min (ptr + Z.of_nat (List.length (chars s))) (buf_end st),
      set_mem (splice (mem st) (Z.to_nat ptr) (chars s)) st).
Proof.
  induction s as [|c s IH]; intros ptr st Hp He.
  - cbn [write_in_buf_str_loop chars List.length]. unfold ret.
    rewrite splice_nil_r, set_mem_same. f_equal. f_equal. lia.
  - cbn [write_in_buf_str_loop chars]. unfold bind at 1, get.
    destruct (Ascii.eqb c Vfs.NUL) eqn:Ec; cbn [negb andb].
    + unfold ret. cbn [List.length].
      rewrite splice_nil_r, set_mem_same. f_equal. f_equal. lia.
    + destruct (ptr <? buf_end st) eqn:El.
      * assert (Hlt : ptr < buf_end st) by lia.
        rewrite (bind_ok _ _ _ _ _ (store_in st ptr c ltac:(lia))).
        rewrite IH by (ctx_cbn; rewrite ?update_length; lia).
        ctx_cbn. cbn [List.length].
        replace (Z.to_nat (ptr + 1)) with (S (Z.to_nat ptr)) by lia.
        rewrite update_splice by lia.
        f_equal. f_equal. lia.
      * unfold ret. rewrite splice_beyond by lia. rewrite set_mem_same.
        f_equal. f_equal. lia.
Qed.

Lemma write_in_buf_str_emit s st :
  within st -> write_in_buf_str s st = emit (chars s) st.
Proof.
  intros [Hb He]. unfold write_in_buf_str, emit.
  unfold bind at 1, get.
  rewrite (bind_ok _ _ _ _ _ (write_in_buf_str_loop_spec s (buf st) st Hb He)).
  unfold bind, modify, ret. f_equal. f_equal.
  destruct (Z.ltb_spec (buf st + Z.of_nat (List.length (chars s))) (buf_end st));
    destruct (Z.ltb_spec (Z.min (buf st + Z.of_nat (List.length (chars s)))
                                (buf_end st)) (buf_end st)); try reflexivity; lia.
Qed.

Lemma write_in_buf_char_emit_aux c st :
  within st -> buf st < buf_end st ->
  (store (buf st) c ;;
   modify (set_buf (buf st + 1)) ;;
   ret (buf st + 1 <? buf_end st)) st =
  Ok (buf st + 1 <? buf_end st,
      set_buf (buf st + 1) (set_mem (update (mem st) (Z.to_nat (buf st)) c) st)).
Proof.
  intros [Hb He] Hr.
  now rewrite (bind_ok _ _ _ _ _ (store_in st (buf st) c ltac:(lia))).
Qed.

Lemma write_in_buf_char_emit c st :
  room st -> write_in_buf_char c st = emit [c] st.
Proof.
  intros [[Hb He] Hr]. unfold write_in_buf_char, emit.
  unfold bind at 1, get.
  rewrite (bind_ok _ _ _ _ _ (store_in st (buf st) c ltac:(lia))).
  unfold bind, modify, ret. cbn [List.length].
  assert (Hs : splice (mem st) (Z.to_nat (buf st)) [c] =
               update (mem st) (Z.to_nat (buf st)) c).
  { rewrite <- update_splice by lia. now rewrite splice_nil_r. }
  rewrite Hs. destruct st; cbn [set_mem set_buf buf buf_end mem] in *.
  f_equal. f_equal. f_equal. lia.
Qed.

Lemma write_in_buf_char_full c st :
  within st -> buf st = buf_end st ->
  write_in_buf_char c st = Stop (Write_outside (buf st)).
Proof.
  intros [Hb He] Hr. unfold write_in_buf_char.
  unfold bind at 1, get.
  now rewrite (bind_stop _ _ _ _ (store_out st (buf st) c ltac:(lia))).
Qed.

Lemma emit_nil st : room st -> emit [] st = Ok (true, st).
Proof.
  intros [[Hb He] Hr]. unfold emit. cbn [List.length].
  rewrite splice_nil_r, set_mem_same.
  replace (Z.min (buf st + Z.of_nat 0) (buf_end st)) with (buf st) by lia.
  rewrite set_buf_same. f_equal. f_equal. apply Z.ltb_lt. lia.
Qed.

Lemma emit_keeps cs st b st' :
  within st -> emit cs st = Ok (b, st') ->
  within st' /\ buf_end st' = buf_end st /\ (b = true -> room st').
Proof.
  intros [Hb He] H. unfold emit in H.
  assert (Hs : st' = set_buf
            (Z.min (buf st + Z.of_nat (List.length cs)) (buf_end st))
            (set_mem (splice (mem st) (Z.to_nat (buf st)) cs) st))
    by congruence.
  assert (Hk : b = (buf st + Z.of_nat (List.length cs) <? buf_end st))
    by congruence.
  subst st' b. unfold room, within. ctx_cbn. rewrite splice_length.
  repeat split; lia.
Qed.

Lemma emit_app cs ds st :
  within st ->
  (ok <- emit cs ;; if negb ok then ret false else emit ds) st =
  emit (cs ++ ds) st.
Proof.
  intros [Hb He]. unfold bind, emit at 1.
  destruct (Z.ltb_spec (buf st + Z.of_nat (List.length cs)) (buf_end st))
    as [Hl|Hl]; cbn [negb].
  - unfold emit. ctx_cbn.
    rewrite length_app, Nat2Z.inj_add.
    replace (Z.min (buf st + Z.of_nat (List.length cs)) (buf_end st))
      with (buf st + Z.of_nat (List.length cs)) by lia.
    replace (Z.to_nat (buf st + Z.of_nat (List.length cs)))
      with (Z.to_nat (buf st) + List.length cs)%nat by lia.
    rewrite splice_splice by lia.
    rewrite Z.add_assoc. reflexivity.
  - unfold ret, emit. ctx_cbn.
    rewrite length_app, Nat2Z.inj_add.
    rewrite splice_cut by lia.
    replace (Z.min (buf st + Z.of_nat (List.length cs)) (buf_end st))
      with (buf_end st) by lia.
    replace (Z.min (buf st + (Z.of_nat (List.length cs) +
                              Z.of_nat (List.length ds))) (buf_end st))
      with (buf_end st) by lia.
    destruct (Z.ltb_spec (buf st + (Z.of_nat (List.length cs) +
                                    Z.of_nat (List.length ds))) (buf_end st));
      [lia | reflexivity].
Qed.

(** A writer that is [emit a] where there is room, followed by one that is
    [emit b], with [goto out] between them. *)
Lemma guard_emits (m k : P bool) a b :
  (forall st, room st -> m st = emit a st) ->
  (forall st, room st -> k st = emit b st) ->
  forall st, room st ->
    (ok <- m ;; if negb ok then ret false else k) st = emit (a ++ b) st.
Proof.
  intros Hm Hk st Hr. rewrite <- emit_app by now apply within_room.
  unfold bind. rewrite (Hm st Hr).
  destruct (emit a st) as [[ok st']|e] eqn:E; [|reflexivity].
  destruct ok; cbn [negb]; [|reflexivity].
  apply Hk. now apply (emit_keeps a st true st' (within_room st Hr) E).
Qed.

Lemma ret_true_emit st : room st -> ret true st = emit [] st.
Proof. intros H. now rewrite emit_nil. Qed.

Lemma write_pad_emit n c st :
  room st -> write_pad n c st = emit (repeat c n) st.
Proof.
  revert st. induction n as [|n IH]; intros st Hr.
  - now apply ret_true_emit.
  - cbn [write_pad repeat]. unfold WRITE_CHAR.
    apply (guard_emits _ _ [c] (repeat c n)); try assumption.
    intros st' Hr'. now apply write_in_buf_char_emit.
Qed.

Lemma write_0x_prefix_emit fmtX st :
  room st -> write_0x_prefix fmtX st = emit (prefix fmtX) st.
Proof.
  intros Hr. unfold write_0x_prefix, prefix.
  destruct (is_chr fmtX "x") eqn:Ex; cbn [orb].
  - unfold WRITE_CHAR.
    apply (guard_emits _ _ ["0"%char] ["x"%char]); try assumption.
    + intros; now apply write_in_buf_char_emit.
    + intros st' Hr'.
      rewrite <- (app_nil_r ["x"%char]).
      apply (guard_emits _ _ ["x"%char] []); try assumption.
      * intros; now apply write_in_buf_char_emit.
      * intros; now apply ret_true_emit.
  - destruct (is_chr fmtX "p") eqn:Ep; cbn [orb].
    + unfold WRITE_CHAR.
      apply (guard_emits _ _ ["0"%char] ["x"%char]); try assumption.
      * intros; now apply write_in_buf_char_emit.
      * intros st' Hr'.
        rewrite <- (app_nil_r ["x"%char]).
        apply (guard_emits _ _ ["x"%char] []); try assumption.
        -- intros; now apply write_in_buf_char_emit.
        -- intros; now apply ret_true_emit.
    + destruct (is_chr fmtX "o") eqn:Eo.
      * unfold WRITE_CHAR.
        rewrite <- (app_nil_r ["0"%char]).
        apply (guard_emits _ _ ["0"%char] []); try assumption.
        -- intros; now apply write_in_buf_char_emit.
        -- intros; now apply ret_true_emit.
      * now apply ret_true_emit.
Qed.

Lemma to_int_small z : - 2 ^ 31 <= z < 2 ^ 31 -> to_int z = z.
Proof.
  intros H. unfold to_int. rewrite Z.mod_small; lia.
Qed.

Lemma int_sub_ok a b st :
  - 2 ^ 31 <= a - b < 2 ^ 31 -> int_sub a b st = Ok (a - b, st).
Proof.
  intros H. unfold int_sub.
  destruct (Z.leb_spec (- 2 ^ 31) (a - b)); [|lia].
  destruct (Z.ltb_spec (a - b) (2 ^ 31)); [|lia].
  reflexivity.
Qed.

Lemma strlen_nonneg s : 0 <= Vfs.strlen s.
Proof. rewrite <- chars_length. lia. Qed.

Lemma write_str_cases fmtX str st :
  room st ->
  Vfs.strlen str < 2 ^ 31 ->
  0 <= left_padding st < 2 ^ 31 ->
  0 <= right_padding st < 2 ^ 31 ->
  (left_padding st <= Vfs.strlen str \/ right_padding st <= Vfs.strlen str ->
   write_str fmtX str st = emit (rendered st fmtX str) st) /\
  (Vfs.strlen str < left_padding st -> Vfs.strlen str < right_padding st ->
   write_str fmtX str st = Stop (Assert_failed "!lpad || !rpad")).
Proof.
  intros Hr Hs Hl Hp.
  pose proof (strlen_nonneg str) as H0.
  split; [intros Hone | intros Hbl Hbr];
    unfold write_str; unfold bind at 1, get;
    rewrite (to_int_small (Vfs.strlen str)) by lia;
    rewrite (bind_ok _ _ _ _ _
               (int_sub_ok (left_padding st) (Vfs.strlen str) st ltac:(lia)));
    rewrite (bind_ok _ _ _ _ _
               (int_sub_ok (right_padding st) (Vfs.strlen str) st ltac:(lia))).
  - assert (Ha : (Z.max 0 (left_padding st - Vfs.strlen str) =? 0) ||
                 (Z.max 0 (right_padding st - Vfs.strlen str) =? 0) = true).
    { apply orb_true_iff. rewrite !Z.eqb_eq. lia. }
    rewrite Ha. unfold ASSERT. unfold bind at 1, ret at 1.
    unfold rendered.
    set (off := if is_chr fmtX "x" then 2 else if is_chr fmtX "o" then 1 else 0).
    assert (Hoff : 0 <= off <= 2)
      by (unfold off; destruct (is_chr fmtX "x"), (is_chr fmtX "o"); lia).
    set (L := Z.max 0 (left_padding st - Vfs.strlen str)).
    set (R := Z.max 0 (right_padding st - Vfs.strlen str)).
    replace (if hash_sign st then Z.max 0 (L - off) else L)
      with (Z.max 0 (L - (if hash_sign st then off else 0)))
      by (destruct (hash_sign st); lia).
    replace (if hash_sign st then Z.max 0 (R - off) else R)
      with (Z.max 0 (R - (if hash_sign st then off else 0)))
      by (destruct (hash_sign st); lia).
    apply guard_emits; [| |assumption].
    { intros st' Hr'. destruct (zero_lpad st && hash_sign st).
      - now apply write_0x_prefix_emit.
      - now apply ret_true_emit. }
    intros st1 Hr1. apply guard_emits; [| |assumption].
    { intros st' Hr'. now apply write_pad_emit. }
    intros st2 Hr2. apply guard_emits; [| |assumption].
    { intros st' Hr'.
      destruct (zero_lpad st && negb (is_chr fmtX "c"));
        cbn [is_chr negb Ascii.eqb Bool.eqb andb];
        rewrite ?andb_false_r, ?andb_true_r; [now apply ret_true_emit|].
      match goal with
      | |- context [if ?b then write_0x_prefix _ else _] => destruct b
      end.
      - now apply write_0x_prefix_emit.
      - now apply ret_true_emit. }
    intros st3 Hr3. apply guard_emits; [| |assumption].
    { intros st' Hr'. apply write_in_buf_str_emit. now apply within_room. }
    intros st4 Hr4. now apply write_pad_emit.
  - assert (Ha : (Z.max 0 (left_padding st - Vfs.strlen str) =? 0) ||
                 (Z.max 0 (right_padding st - Vfs.strlen str) =? 0) = false).
    { apply orb_false_iff. rewrite !Z.eqb_neq. lia. }
    rewrite Ha. reflexivity.
Qed.

(** The two writers of [snprintk.c] differ in when they look at [buf_end].
    [write_in_buf_str] looks before each character: it stores the characters
    of the string as far as the array goes, also when the array is full, and
    never outside.  [write_in_buf_char] stores first and looks afterwards:
    with room for one character it does the same, but at the end of the
    array it stores one character behind the array.  Both return whether
    room is left. *)
Theorem buffer_writers st :
  within st ->
  (forall s, write_in_buf_str s st = emit (chars s) st) /\
  (forall c, buf st < buf_end st -> write_in_buf_char c st = emit [c] st) /\
  (forall c, buf st = buf_end st ->
             write_in_buf_char c st = Stop (Write_outside (buf st))).
Proof.
  intros Hw. split; [|split].
  - intros s. now apply write_in_buf_str_emit.
  - intros c Hr. apply write_in_buf_char_emit. now split.
  - intros c Hr. now apply write_in_buf_char_full.
Qed.

Lemma buffer_writers_witness :
  write_in_buf_str "abcdef" (demo_ctx 4) = emit (chars "abcdef") (demo_ctx 4) /\
  write_in_buf_char "a" (set_buf 4 (demo_ctx 4)) = Stop (Write_outside 4).
Proof.
  split.
  - apply (buffer_writers (demo_ctx 4)).
    unfold within. cbn [buf buf_end mem demo_ctx blank]. cbn. lia.
  - apply (buffer_writers (set_buf 4 (demo_ctx 4))); [|reflexivity].
    unfold within. cbn. lia.
Defined.

(** What [write_str] puts out, with room in the array and paddings and
    length that fit an [int]: the characters of [rendered], cut at the end
    of the array, and [false] when the array is full afterwards.  A left and
    a right padding that are both longer than the string fail the assertion
    of [write_str]. *)
Theorem write_str_layout fmtX str st :
  room st ->
  Vfs.strlen str < 2 ^ 31 ->
  0 <= left_padding st < 2 ^ 31 ->
  0 <= right_padding st < 2 ^ 31 ->
  (left_padding st <= Vfs.strlen str \/ right_padding st <= Vfs.strlen str ->
   write_str fmtX str st = emit (rendered st fmtX str) st) /\
  (Vfs.strlen str < left_padding st -> Vfs.strlen str < right_padding st ->
   write_str fmtX str st = Stop (Assert_failed "!lpad || !rpad")).
Proof.
  apply write_str_cases.
Qed.

Lemma write_str_layout_witness :
  write_str "s" "ab" (set_left_padding 5 (demo_ctx 8)) =
  emit [" "; " "; " "; "a"; "b"]%char (set_left_padding 5 (demo_ctx 8)) /\
  write_str "s" "ab" (set_right_padding 3 (set_left_padding 5 (demo_ctx 8))) =
  Stop (Assert_failed "!lpad || !rpad").
Proof.
  assert (Hroom : forall st, buf st = 0 -> buf_end st = 8 ->
                             mem st = blank 8 -> room st).
  { intros st Hb He Hm. unfold room, within. rewrite Hb, He, Hm. cbn. lia. }
  split.
  - refine (proj1 (write_str_layout "s" "ab" (set_left_padding 5 (demo_ctx 8))
                     (Hroom (set_left_padding 5 (demo_ctx 8))
                        eq_refl eq_refl eq_refl) _ _ _) _);
      cbn; lia.
  - refine (proj2 (write_str_layout "s" "ab"
                     (set_right_padding 3 (set_left_padding 5 (demo_ctx 8)))
                     (Hroom (set_right_padding 3
                               (set_left_padding 5 (demo_ctx 8)))
                        eq_refl eq_refl eq_refl) _ _ _) _ _);
      cbn; lia.
Defined.

Lemma skipn_update m : forall k c j,
  (k < j)%nat -> skipn j (update m k c) = skipn j m.
Proof.
  induction m as [|x m IH]; intros k c j H.
  - now destruct k.
  - destruct j as [|j]; [lia|]. destruct k as [|k]; cbn [update skipn].
    + reflexivity.
    + apply IH. lia.
Qed.

Lemma skipn_splice m : forall b cs j,
  (Nat.min (b + List.length cs) (List.length m) <= j)%nat ->
  (b <= j)%nat ->
  skipn j (splice m b cs) = skipn j m.
Proof.
  induction m as [|x m IH]; intros b cs j H Hb.
  - now rewrite splice_nil_l.
  - destruct b as [|b].
    + destruct cs as [|c cs]; [now rewrite splice_nil_r|].
      rewrite splice_cons_0. cbn [List.length Nat.add] in H.
      destruct j as [|j]; [lia|]. cbn [skipn]. apply IH; [|lia].
      cbn [Nat.add]. lia.
    + rewrite splice_cons_S. destruct j as [|j]; [lia|]. cbn [skipn].
      apply IH; [|lia]. cbn [List.length Nat.add] in H. lia.
Qed.

(** **** The discipline of the writers *)

Section Discipline.

Variable U : string_util.
Variable n : Z.
Variable R : Prop.
Variable m0 : list ascii.

Abbreviation respects := (respects n R m0).

Lemma respects_ret {A} (good : A -> Prop) a : respects good (ret a).
Proof.
  intros st (Hw & He & Hr & Hu). unfold ret, post. auto.
Qed.

Lemma respects_bind {A B} (good : B -> Prop) (m : P A) (k : A -> P B) :
  respects always m -> (forall a, respects good (k a)) ->
  respects good (bind m k).
Proof.
  intros Hm Hk st Hpre. specialize (Hm st Hpre). unfold bind.
  destruct (m st) as [[a st']|e]; [|exact Hm].
  destruct Hm as (Hw & He & Hr & Hu). apply Hk. unfold pre, always in *.
  auto.
Qed.

Lemma respects_guard {A} (good : A -> Prop) (m : P bool) a0 (k : P A) :
  respects (fun b => b = true) m -> ~ good a0 -> respects good k ->
  respects good (ok <- m ;; if negb ok then ret a0 else k).
Proof.
  intros Hm Hn Hk st Hpre. specialize (Hm st Hpre). unfold bind.
  destruct (m st) as [[ok st']|e]; [|exact Hm].
  destruct Hm as (Hw & He & Hr & Hu). destruct ok; cbn [negb].
  - apply Hk. unfold pre. auto.
  - unfold ret, post. split; [assumption|]. split; [assumption|].
    split; [|assumption]. intros _ Hg. now destruct Hn.
Qed.

Lemma respects_if {A} (good : A -> Prop) (b : bool) (c d : P A) :
  respects good c -> respects good d -> respects good (if b then c else d).
Proof. now destruct b. Qed.

Lemma respects_stop {A} (good : A -> Prop) e :
  (forall i, e <> Write_outside i) -> respects good (stop_with e).
Proof. intros H st _. unfold stop_with, fine. auto. Qed.

Lemma respects_get : respects always get.
Proof. intros st (Hw & He & Hr & Hu). unfold get, post. auto. Qed.

Lemma respects_modify f :
  (forall st, buf (f st) = buf st /\ buf_end (f st) = buf_end st /\
              mem (f st) = mem st) ->
  respects always (modify f).
Proof.
  intros Hf st ((Hb & Hm) & He & Hr & Hu).
  unfold modify, post, within, untouched in *.
  destruct (Hf st) as (-> & -> & ->). auto.
Qed.

Lemma respects_fmt_at fmt i : respects always (fmt_at fmt i).
Proof.
  unfold fmt_at.
  destruct ((0 <=? i) && (i <=? Vfs.strlen fmt)).
  - destruct (String.get (Z.to_nat i) fmt); apply respects_ret.
  - now apply respects_stop.
Qed.

Lemma respects_diuox_base i : respects always (diuox_base i).
Proof.
  unfold diuox_base. apply respects_if.
  - apply respects_ret.
  - now apply respects_stop.
Qed.

Lemma respects_int_sub a b : respects always (int_sub a b).
Proof.
  unfold int_sub. apply respects_if.
  - apply respects_ret.
  - now apply respects_stop.
Qed.

Lemma respects_ASSERT expr b : respects always (ASSERT expr b).
Proof.
  unfold ASSERT. apply respects_if.
  - apply respects_ret.
  - now apply respects_stop.
Qed.

Lemma respects_va_arg_int : respects always va_arg_int.
Proof.
  unfold va_arg_int. apply respects_bind; [apply respects_get|].
  intros st. destruct (args st) as [|[v|s] rest];
    try (now apply respects_stop).
  apply respects_bind; [now apply respects_modify | intros; apply respects_ret].
Qed.

Lemma respects_va_arg_str : respects always va_arg_str.
Proof.
  unfold va_arg_str. apply respects_bind; [apply respects_get|].
  intros st. destruct (args st) as [|[v|s] rest];
    try (now apply respects_stop).
  apply respects_bind; [now apply respects_modify | intros; apply respects_ret].
Qed.

Lemma respects_fill_intbuf s : respects always (fill_intbuf s).
Proof.
  unfold fill_intbuf. apply respects_if.
  - now apply respects_modify.
  - now apply respects_stop.
Qed.

Lemma respects_write_in_buf_char c :
  respects (fun b => b = true) (write_in_buf_char c).
Proof.
  intros st ((Hb & Hm) & He & Hr & Hu). unfold write_in_buf_char.
  unfold bind at 1, get.
  destruct (Z.lt_ge_cases (buf st) (buf_end st)) as [Hlt|Hge].
  - rewrite (write_in_buf_char_emit_aux c st); try (unfold within; tauto); try lia.
    unfold post, within, untouched in *. ctx_cbn. rewrite update_length.
    split; [lia|]. split; [lia|]. split; [lia|].
    replace (Z.to_nat (buf st + 1)) with (1 + Z.to_nat (buf st))%nat by lia.
    rewrite skipn_update by lia.
    now rewrite <- !skipn_skipn, Hu.
  - rewrite (bind_stop _ _ _ _ (store_out st (buf st) c ltac:(lia))).
    intros r i. specialize (Hr r). lia.
Qed.

Lemma respects_write_in_buf_str s :
  respects (fun b => b = true) (write_in_buf_str s).
Proof.
  intros st (Hw & He & Hr & Hu). rewrite write_in_buf_str_emit by assumption.
  destruct (emit (chars s) st) as [[b st']|e] eqn:E.
  - destruct (emit_keeps _ _ _ _ Hw E) as (Hw' & He' & Hr').
    unfold post. split; [assumption|]. split; [congruence|]. split.
    + intros _ Hb. destruct (Hr' Hb) as [_ Hlt]. congruence.
    + unfold emit in E.
      assert (st' = set_buf
                (Z.min (buf st + Z.of_nat (List.length (chars s))) (buf_end st))
                (set_mem (splice (mem st) (Z.to_nat (buf st)) (chars s)) st))
        as -> by congruence.
      destruct Hw as [Hb Hm]. unfold untouched in *. ctx_cbn.
      set (k := Z.to_nat (Z.min (buf st + Z.of_nat (List.length (chars s)))
                            (buf_end st))).
      rewrite skipn_splice by lia.
      replace k with ((k - Z.to_nat (buf st)) + Z.to_nat (buf st))%nat by lia.
      now rewrite <- !skipn_skipn, Hu.
  - discriminate.
Qed.

Lemma respects_WRITE_CHAR {A} (good : A -> Prop) c a0 (k : P A) :
  ~ good a0 -> respects good k -> respects good (WRITE_CHAR c (ret a0) k).
Proof.
  intros Hn Hk. unfold WRITE_CHAR.
  apply respects_guard; [apply respects_write_in_buf_char | assumption ..].
Qed.

Lemma respects_write_pad k c : respects (fun b => b = true) (write_pad k c).
Proof.
  induction k as [|k IH]; cbn [write_pad].
  - apply respects_ret.
  - apply respects_WRITE_CHAR; [discriminate | exact IH].
Qed.

Lemma respects_write_0x_prefix fmtX :
  respects (fun b => b = true) (write_0x_prefix fmtX).
Proof.
  unfold write_0x_prefix. apply respects_if; [|apply respects_ret].
  apply respects_WRITE_CHAR; [discriminate|].
  apply respects_if; [|apply respects_ret].
  apply respects_WRITE_CHAR; [discriminate | apply respects_ret].
Qed.

Lemma respects_write_str fmtX str :
  respects (fun b => b = true) (write_str fmtX str).
Proof.
  unfold write_str.
  apply respects_bind; [apply respects_get | intros st].
  apply respects_bind; [apply respects_int_sub | intros dl].
  apply respects_bind; [apply respects_int_sub | intros dr].
  apply respects_bind; [apply respects_ASSERT | intros _].
  apply respects_guard; [|discriminate|].
  { apply respects_if; [apply respects_write_0x_prefix | apply respects_ret]. }
  apply respects_guard; [apply respects_write_pad|discriminate|].
  apply respects_guard; [|discriminate|].
  { apply respects_if; [apply respects_write_0x_prefix | apply respects_ret]. }
  apply respects_guard; [apply respects_write_in_buf_str|discriminate|].
  apply respects_write_pad.
Qed.

Lemma respects_write_char_param fmtX :
  respects (fun b => b = true) (write_char_param fmtX).
Proof.
  unfold write_char_param.
  apply respects_bind; [apply respects_va_arg_int | intros v].
  apply respects_bind; [now apply respects_modify | intros _].
  apply respects_bind; [apply respects_get | intros st].
  apply respects_write_str.
Qed.

Lemma respects_write_string_param fmtX :
  respects (fun b => b = true) (write_string_param fmtX).
Proof.
  unfold write_string_param.
  apply respects_bind; [apply respects_va_arg_str | intros v].
  apply respects_write_str.
Qed.

Lemma respects_write_pointer_param fmtX :
  respects (fun b => b = true) (write_pointer_param U fmtX).
Proof.
  unfold write_pointer_param.
  apply respects_bind; [apply respects_va_arg_int | intros v].
  apply respects_bind; [apply respects_fill_intbuf | intros _].
  apply respects_bind; [apply respects_get | intros st].
  apply respects_write_str.
Qed.

Lemma respects_convert (f : Z -> string) :
  respects always (v <- va_arg_int ;; fill_intbuf (f v)).
Proof.
  apply respects_bind; [apply respects_va_arg_int | intros v].
  apply respects_fill_intbuf.
Qed.

Lemma respects_write_number_param fmtX :
  respects (fun b => b = true) (write_number_param U fmtX).
Proof.
  unfold write_number_param.
  apply respects_bind; [apply respects_get | intros st].
  apply respects_bind; [apply respects_diuox_base | intros base].
  apply respects_bind; [apply respects_ASSERT | intros _].
  apply respects_bind.
  - apply respects_if; destruct (width st);
      first [ apply (respects_convert (fun v => itoa64 U v))
            | apply (respects_convert (fun v => itoaN U (sign_extend U v _)))
            | apply (respects_convert (fun v => uitoa64 U v base))
            | apply (respects_convert
                       (fun v => uitoaN U (Z.land v (make_bitmask U _)) base)) ].
  - intros _. apply respects_bind; [apply respects_get | intros st'].
    apply respects_write_str.
Qed.

Lemma not_goes_on_out i : ~ goes_on (Out, i).
Proof. unfold goes_on. cbn. tauto. Qed.

Lemma respects_unless_truncated fmt i k :
  respects goes_on k -> respects goes_on (unless_truncated fmt i k).
Proof.
  intros Hk. unfold unless_truncated.
  apply respects_bind; [apply respects_fmt_at | intros c].
  apply respects_if; [apply respects_ret | exact Hk].
Qed.

Lemma respects_set_then {A} (good : A -> Prop) f a :
  (forall st, buf (f st) = buf st /\ buf_end (f st) = buf_end st /\
              mem (f st) = mem st) ->
  respects good (modify f ;; ret a).
Proof.
  intros Hf. apply respects_bind; [now apply respects_modify | intros _].
  apply respects_ret.
Qed.

Lemma respects_param (m : P bool) i :
  respects (fun b => b = true) m ->
  respects goes_on
    (ok <- m ;; if negb ok then ret (Out, i) else ret (End_sequence, i)).
Proof.
  intros Hm. apply respects_guard;
    [exact Hm | apply not_goes_on_out | apply respects_ret].
Qed.

Lemma respects_step fmt l i : respects goes_on (step U fmt l i).
Proof.
  destruct l; cbn [step].
  - apply respects_bind; [apply respects_fmt_at | intros c].
    apply respects_if; [apply respects_ret|].
    apply respects_if.
    + apply respects_WRITE_CHAR; [apply not_goes_on_out | apply respects_ret].
    + apply respects_bind; [apply respects_fmt_at | intros c'].
      apply respects_if; [|apply respects_ret].
      apply respects_WRITE_CHAR; [apply not_goes_on_out | apply respects_ret].
  - apply respects_bind; [apply respects_fmt_at | intros c].
    apply respects_bind; [apply respects_diuox_base | intros base].
    apply respects_if.
    { apply respects_param, respects_write_number_param. }
    destruct (switch c).
    + apply respects_bind; [now apply respects_modify | intros _].
      apply respects_unless_truncated, respects_ret.
    + destruct (tilck_strtol U fmt i) as [v e].
      apply respects_bind; [now apply respects_modify | intros _].
      apply respects_unless_truncated, respects_ret.
    + destruct (tilck_strtol U fmt (i + 1)) as [v e].
      apply respects_bind; [now apply respects_modify | intros _].
      apply respects_unless_truncated, respects_ret.
    + apply respects_bind; [apply respects_get | intros st].
      apply respects_if.
      * apply respects_bind; [apply respects_fmt_at | intros c1].
        apply respects_if; apply respects_ret.
      * apply respects_bind; [apply respects_fmt_at | intros p].
        apply respects_if; [apply respects_ret|].
        apply respects_bind; [apply respects_fmt_at | intros c1].
        apply respects_if; [apply respects_ret|].
        now apply respects_set_then.
    + apply respects_unless_truncated. now apply respects_set_then.
    + apply respects_unless_truncated. now apply respects_set_then.
    + apply respects_bind; [apply respects_get | intros st].
      destruct (width st); try apply respects_ret;
        apply respects_unless_truncated; now apply respects_set_then.
    + apply respects_bind; [apply respects_get | intros st].
      destruct (width st); try apply respects_ret;
        apply respects_unless_truncated; now apply respects_set_then.
    + apply respects_param, respects_write_char_param.
    + apply respects_param, respects_write_string_param.
    + apply respects_param, respects_write_pointer_param.
    + apply respects_ret.
  - apply respects_WRITE_CHAR; [apply not_goes_on_out|].
    apply respects_bind; [apply respects_get | intros st].
    assert (Hrest : respects goes_on
              (c <- fmt_at fmt i ;;
               WRITE_CHAR c (ret (Out, i)) (ret (End_sequence, i)))).
    { apply respects_bind; [apply respects_fmt_at | intros c].
      apply respects_WRITE_CHAR; [apply not_goes_on_out | apply respects_ret]. }
    apply respects_if; [|exact Hrest].
    apply respects_WRITE_CHAR; [apply not_goes_on_out | exact Hrest].
  - unfold snprintk_ctx_reset_state.
    apply respects_bind; [|intros; apply respects_ret].
    repeat (apply respects_bind; [now apply respects_modify | intros _]).
    now apply respects_modify.
  - apply respects_ret.
Qed.

Lemma exec_respects fmt fuel : forall l i st,
  within st -> buf_end st = n -> (l <> Out -> R -> buf st < n) ->
  untouched m0 st ->
  match exec U fuel fmt l i st with
  | Ok (_, st') => within st' /\ buf_end st' = n /\ untouched m0 st'
  | Stop e => fine R e
  end.
Proof.
  induction fuel as [|fuel IH]; intros l i st Hw He Hr Hu.
  - destruct l; cbn [exec]; unfold ret, stop_with, fine;
      try (intros; discriminate); auto.
  - assert (Hstep : l <> Out ->
      match (li <- step U fmt l i ;; exec U fuel fmt (fst li) (snd li)) st with
      | Ok (_, st') => within st' /\ buf_end st' = n /\ untouched m0 st'
      | Stop e => fine R e
      end).
    { intros Hl. unfold bind.
      pose proof (respects_step fmt l i st) as Hs.
      destruct (step U fmt l i st) as [[[l' i'] st']|e].
      - destruct Hs as (Hw' & He' & Hr' & Hu'); [unfold pre; auto|].
        apply IH; auto.
      - apply Hs. unfold pre; auto. }
    destruct l; cbn [exec]; try (apply Hstep; discriminate).
    unfold ret. auto.
Qed.

End Discipline.

Lemma update_nth m k c d :
  (k < List.length m)%nat -> nth k (update m k c) d = c.
Proof.
  revert k. induction m as [|x m IH]; intros [|k] H; cbn [List.length] in H;
    try lia; cbn [update nth]; [reflexivity|].
  apply IH. lia.
Qed.

(** With an array of [size >= 1] characters, [vsnprintk] never stores a
    character outside the array, whatever the format, the arguments and the
    conversions are.  When it returns, the value [r] returned is between 0
    and [size], the array has its length, and it holds a terminator at
    offset [r], or at [size - 1] when [r] is [size]. *)
Theorem vsnprintk_in_bounds U initial_buf size fmt args :
  size = Z.of_nat (List.length initial_buf) -> 1 <= size < 2 ^ 31 ->
  match vsnprintk U initial_buf size fmt args with
  | Ok (r, m) =>
      0 <= r <= size /\ List.length m = List.length initial_buf /\
      nth (Z.to_nat (Z.min r (size - 1))) m " "%char = Vfs.NUL
  | Stop e => forall i, e <> Write_outside i
  end.
Proof.
  intros Hsize Hrange. unfold vsnprintk.
  set (ctx := {| args := args; width := pw_default; left_padding := 0;
                 right_padding := 0; buf := 0; buf_end := 0 + size;
                 zero_lpad := false; hash_sign := false;
                 intbuf := EmptyString; mem := initial_buf |}).
  pose proof (exec_respects U size True initial_buf fmt (enough_fuel fmt)
                Loop 0 ctx) as H.
  unfold bind at 1.
  destruct (exec U (enough_fuel fmt) fmt Loop 0 ctx) as [[[] st]|e].
  - destruct H as ([Hb Hm] & He & _);
      try (unfold within; subst ctx; cbn [buf buf_end mem]; intros; lia);
      [reflexivity|].
    unfold bind at 1, get.
    set (j := buf st + (if buf st <? buf_end st then 0 else -1)).
    assert (Hj : j = Z.min (buf st) (size - 1)).
    { unfold j. destruct (Z.ltb_spec (buf st) (buf_end st)); lia. }
    rewrite (bind_ok _ _ _ _ _ (store_in st j Vfs.NUL ltac:(lia))).
    unfold ret. ctx_cbn. rewrite update_length.
    rewrite Z.sub_0_r, to_int_small by lia.
    repeat split; try lia.
    rewrite <- Hj. apply update_nth. lia.
  - intros i. apply H; try exact I; try reflexivity;
      unfold within; subst ctx; cbn [buf buf_end mem]; intros; lia.
Qed.

Lemma vsnprintk_in_bounds_witness :
  match vsnprintk demo_util (blank 4) 4 "%d%s" [Arg_int 12; Arg_str "abc"] with
  | Ok (r, m) =>
      0 <= r <= 4 /\ List.length m = List.length (blank 4) /\
      nth (Z.to_nat (Z.min r (4 - 1))) m " "%char = Vfs.NUL
  | Stop e => forall i, e <> Write_outside i
  end.
Proof.
  apply (vsnprintk_in_bounds demo_util (blank 4) 4); [reflexivity | lia].
Defined.

(** With an array of [size >= 1] characters, [vsnprintk] that returns [r]
    has left every character of the array after offset [r] as it was before
    the call: the output and its terminator are all it stores. *)
Theorem vsnprintk_leaves_rest U initial_buf size fmt args r m :
  size = Z.of_nat (List.length initial_buf) -> 1 <= size < 2 ^ 31 ->
  vsnprintk U initial_buf size fmt args = Ok (r, m) ->
  skipn (Z.to_nat r + 1) m = skipn (Z.to_nat r + 1) initial_buf.
Proof.
  intros Hsize Hrange. unfold vsnprintk.
  set (ctx := {| args := args; width := pw_default; left_padding := 0;
                 right_padding := 0; buf := 0; buf_end := 0 + size;
                 zero_lpad := false; hash_sign := false;
                 intbuf := EmptyString; mem := initial_buf |}).
  pose proof (exec_respects U size True initial_buf fmt (enough_fuel fmt)
                Loop 0 ctx) as H.
  unfold bind at 1.
  destruct (exec U (enough_fuel fmt) fmt Loop 0 ctx) as [[[] st]|e];
    [|discriminate].
  destruct H as ([Hb Hm] & He & Hu);
    try (unfold within; subst ctx; cbn [buf buf_end mem]; intros; lia);
    [reflexivity|].
  unfold bind at 1, get.
  set (j := buf st + (if buf st <? buf_end st then 0 else -1)).
  assert (Hj : j <= buf st).
  { unfold j. destruct (Z.ltb_spec (buf st) (buf_end st)); lia. }
  assert (Hj0 : 0 <= j < Z.of_nat (List.length (mem st))).
  { unfold j. destruct (Z.ltb_spec (buf st) (buf_end st)); lia. }
  rewrite (bind_ok _ _ _ _ _ (store_in st j Vfs.NUL Hj0)).
  unfold ret. ctx_cbn. rewrite Z.sub_0_r, to_int_small by lia.
  intros E. assert (r = buf st) as -> by congruence.
  assert (m = update (mem st) (Z.to_nat j) Vfs.NUL) as -> by congruence.
  rewrite skipn_update by lia. unfold untouched in Hu.
  replace (Z.to_nat (buf st) + 1)%nat with (1 + Z.to_nat (buf st))%nat by lia.
  now rewrite <- !skipn_skipn, Hu.
Qed.

Lemma vsnprintk_leaves_rest_witness :
  skipn (Z.to_nat 2 + 1)
    ["h"; "i"; Vfs.NUL; "d"; "e"; "f"]%char
  = skipn (Z.to_nat 2 + 1) ["a"; "b"; "c"; "d"; "e"; "f"]%char.
Proof.
  apply (vsnprintk_leaves_rest demo_util ["a"; "b"; "c"; "d"; "e"; "f"]%char 6
           "hi" []); [reflexivity | lia | reflexivity].
Defined.

(** **** The loop comes to an end *)

Lemma strlen_le_length s : Vfs.strlen s <= Z.of_nat (String.length s).
Proof.
  induction s as [|c s IH]; cbn [Vfs.strlen String.length]; [lia|].
  destruct (Ascii.eqb c Vfs.NUL); lia.
Qed.

Lemma get_before_nul s : forall i c,
  0 <= i <= Vfs.strlen s -> String.get (Z.to_nat i) s = Some c ->
  c <> Vfs.NUL -> i < Vfs.strlen s.
Proof.
  induction s as [|a s IH]; intros i c Hi Hg Hc.
  - cbn in Hg. discriminate.
  - cbn [Vfs.strlen] in *.
    destruct (Ascii.eqb a Vfs.NUL) eqn:Ea.
    + assert (i = 0) by lia. subst i. cbn in Hg.
      apply Ascii.eqb_eq in Ea. congruence.
    + destruct (Z.eq_dec i 0) as [->|Hn]; [pose proof (strlen_nonneg s); lia|].
      replace (Z.to_nat i) with (S (Z.to_nat (i - 1))) in Hg by lia.
      cbn [String.get] in Hg.
      specialize (IH (i - 1) c ltac:(lia) Hg Hc). lia.
Qed.

Lemma yields_ret {A} (Q : A -> Prop) a : Q a -> yields Q (ret a).
Proof. intros H st. exact H. Qed.

Lemma yields_stop {A} (Q : A -> Prop) e :
  e <> Out_of_fuel -> yields Q (stop_with e).
Proof. intros H st. exact H. Qed.

Lemma yields_bind {A B} (Q1 : A -> Prop) (Q : B -> Prop) m k :
  yields Q1 m -> (forall a, Q1 a -> yields Q (k a)) -> yields Q (bind m k).
Proof.
  intros Hm Hk st. specialize (Hm st). unfold bind.
  destruct (m st) as [[a st']|e]; [|exact Hm].
  now apply Hk.
Qed.

Lemma quiet_bind {A B} (Q : B -> Prop) (m : P A) k :
  yields always m -> (forall a, yields Q (k a)) -> yields Q (bind m k).
Proof. intros Hm Hk. apply (yields_bind always); auto. Qed.

Lemma yields_if {A} (Q : A -> Prop) (b : bool) c d :
  yields Q c -> yields Q d -> yields Q (if b then c else d).
Proof. now destruct b. Qed.

Lemma yields_weaken {A} (Q Q' : A -> Prop) c :
  yields Q c -> (forall a, Q a -> Q' a) -> yields Q' c.
Proof.
  intros H HQ st. specialize (H st). destruct (c st) as [[a st']|e]; auto.
Qed.

Lemma quiet_get : yields always get.
Proof. intros st. exact I. Qed.

Lemma quiet_modify f : yields always (modify f).
Proof. intros st. exact I. Qed.

Lemma quiet_store i c : yields always (store i c).
Proof.
  intros st. unfold store.
  destruct ((0 <=? i) && (i <? Z.of_nat (List.length (mem st))));
    [exact I | discriminate].
Qed.

Lemma yields_fmt_at fmt i :
  yields (fun c => 0 <= i <= Vfs.strlen fmt /\
                   (c <> Vfs.NUL ->
                    i < Vfs.strlen fmt /\
                    String.get (Z.to_nat i) fmt = Some c))
         (fmt_at fmt i).
Proof.
  intros st. unfold fmt_at.
  destruct (Z.leb_spec 0 i); cbn [andb]; [|discriminate].
  destruct (Z.leb_spec i (Vfs.strlen fmt)); [|discriminate].
  destruct (String.get (Z.to_nat i) fmt) as [c|] eqn:Eg; unfold ret.
  - split; [lia|]. intros Hc. split; [|reflexivity].
    now apply (get_before_nul fmt i c).
  - split; [lia|]. intros Hc. now destruct Hc.
Qed.

Ltac quiet_step :=
  lazymatch goal with
  | |- yields _ get => apply quiet_get
  | |- yields _ (modify _) => apply quiet_modify
  | |- yields _ (store _ _) => apply quiet_store
  | |- yields _ (ret _) => apply yields_ret; exact I
  | |- yields _ (stop_with _) => apply yields_stop; discriminate
  | |- yields _ (if _ then _ else _) => apply yields_if
  | |- yields _ (bind _ _) => apply quiet_bind; [|intros ?]
  end.

Lemma quiet_fmt_at fmt i : yields always (fmt_at fmt i).
Proof. apply (yields_weaken _ _ _ (yields_fmt_at fmt i)). now intros. Qed.

Lemma quiet_write_in_buf_char c : yields always (write_in_buf_char c).
Proof. unfold write_in_buf_char. repeat quiet_step. Qed.

Lemma quiet_write_in_buf_str_loop s : forall ptr,
  yields always (write_in_buf_str_loop s ptr).
Proof.
  induction s as [|c s IH]; intros ptr; cbn [write_in_buf_str_loop];
    repeat quiet_step.
  apply IH.
Qed.

Lemma quiet_write_in_buf_str s : yields always (write_in_buf_str s).
Proof.
  unfold write_in_buf_str. repeat quiet_step.
  apply quiet_write_in_buf_str_loop.
Qed.

Lemma quiet_WRITE_CHAR {A} (Q : A -> Prop) c out k :
  yields Q out -> yields Q k -> yields Q (WRITE_CHAR c out k).
Proof.
  intros Ho Hk. unfold WRITE_CHAR.
  apply quiet_bind; [apply quiet_write_in_buf_char | intros ok].
  now apply yields_if.
Qed.

Ltac quiet :=
  repeat first
    [ quiet_step
    | lazymatch goal with
      | |- yields _ (WRITE_CHAR _ _ _) => apply quiet_WRITE_CHAR
      | |- yields _ (fmt_at _ _) => apply quiet_fmt_at
      | |- yields _ (write_in_buf_str _) => apply quiet_write_in_buf_str
      end ].

Lemma quiet_write_pad k c : yields always (write_pad k c).
Proof.
  induction k as [|k IH]; cbn [write_pad]; quiet. exact IH.
Qed.

Lemma quiet_write_0x_prefix fmtX : yields always (write_0x_prefix fmtX).
Proof.
  unfold write_0x_prefix. quiet.
Qed.

Lemma quiet_write_str fmtX str : yields always (write_str fmtX str).
Proof.
  unfold write_str, int_sub, ASSERT. quiet;
    try apply quiet_write_0x_prefix; try apply quiet_write_pad;
    try apply quiet_write_in_buf_str.
Qed.

Lemma quiet_va_arg_int : yields always va_arg_int.
Proof.
  unfold va_arg_int. quiet.
  match goal with |- context [args ?s] => destruct (args s) as [|[v|x] r] end;
    quiet.
Qed.

Lemma quiet_va_arg_str : yields always va_arg_str.
Proof.
  unfold va_arg_str. quiet.
  match goal with |- context [args ?s] => destruct (args s) as [|[v|x] r] end;
    quiet.
Qed.

Lemma quiet_param (m : P bool) (i : Z) :
  yields always m ->
  yields (fun li : label * Z => li = (Out, i) \/ li = (End_sequence, i))
    (ok <- m ;; if negb ok then ret (Out, i) else ret (End_sequence, i)).
Proof.
  intros Hm. apply quiet_bind; [exact Hm | intros ok].
  apply yields_if; apply yields_ret; auto.
Qed.

Lemma quiet_write_number_param U fmtX :
  yields always (write_number_param U fmtX).
Proof.
  unfold write_number_param, diuox_base, ASSERT, fill_intbuf. quiet;
    try apply quiet_write_str.
  match goal with |- context [width ?s] => destruct (width s) end;
    quiet; apply quiet_va_arg_int.
  match goal with |- context [width ?s] => destruct (width s) end;
    quiet; apply quiet_va_arg_int.
Qed.

Lemma quiet_write_char_param fmtX : yields always (write_char_param fmtX).
Proof.
  unfold write_char_param. quiet;
    [apply quiet_va_arg_int | apply quiet_write_str].
Qed.

Lemma quiet_write_string_param fmtX : yields always (write_string_param fmtX).
Proof.
  unfold write_string_param. quiet;
    [apply quiet_va_arg_str | apply quiet_write_str].
Qed.

Lemma quiet_write_pointer_param U fmtX :
  yields always (write_pointer_param U fmtX).
Proof.
  unfold write_pointer_param, fill_intbuf. quiet;
    [apply quiet_va_arg_int | apply quiet_write_str].
Qed.

Section Termination.

Variable U : string_util.
Variable fmt : string.
Hypothesis forward : moves_forward U.

Abbreviation nearer := (nearer fmt).

Ltac land :=
  apply yields_ret; unfold PrintkOps.nearer; cbn [fst snd];
  first [ intros H; now destruct H
        | intros _; unfold reach, measure, rank; split; lia ].

Lemma nearer_unless_truncated l i j k :
  (0 <= j <= Vfs.strlen fmt -> yields (nearer l i) k) ->
  yields (nearer l i) (unless_truncated fmt j k).
Proof.
  intros Hk. unfold unless_truncated.
  apply (yields_bind _ _ _ _ (yields_fmt_at fmt j)). intros c [Hj _].
  apply yields_if; [land | now apply Hk].
Qed.

Lemma nearer_param l i (m : P bool) :
  i <= Vfs.strlen fmt -> rank End_sequence < rank l ->
  yields always m ->
  yields (nearer l i)
    (ok <- m ;; if negb ok then ret (Out, i) else ret (End_sequence, i)).
Proof.
  intros Hi Hr Hm. apply (yields_weaken _ _ _ (quiet_param m i Hm)).
  intros li [->| ->]; unfold PrintkOps.nearer; cbn [fst snd].
  - intros H; now destruct H.
  - intros _. unfold reach, measure. split; lia.
Qed.

Lemma step_nearer l i :
  reach fmt l i -> yields (nearer l i) (step U fmt l i).
Proof.
  intros Hreach. destruct l; cbn [step].
  - apply (yields_bind _ _ _ _ (yields_fmt_at fmt i)). intros c [Hi Hc].
    destruct (Ascii.eqb c Vfs.NUL) eqn:Ec; [land|].
    apply Ascii.eqb_neq in Ec. destruct (Hc Ec) as [Hlt _].
    apply yields_if.
    + apply quiet_WRITE_CHAR; land.
    + apply (yields_bind _ _ _ _ (yields_fmt_at fmt (i + 1))).
      intros c' [Hi' Hc'].
      destruct (is_chr c' "%" || (128 <=? code c')) eqn:E; [|land].
      assert (Hn : c' <> Vfs.NUL).
      { intros ->. cbv in E. discriminate. }
      destruct (Hc' Hn) as [Hlt' _].
      apply quiet_WRITE_CHAR; land.
  - unfold reach in Hreach.
    apply (yields_bind _ _ _ _ (yields_fmt_at fmt i)). intros c [Hi Hc].
    apply quiet_bind; [unfold diuox_base; quiet | intros base].
    apply yields_if.
    { apply nearer_param; [lia | cbn; lia | apply quiet_write_number_param]. }
    destruct (switch c) eqn:Esw.
    + apply quiet_bind; [quiet | intros _].
      apply nearer_unless_truncated. intros Hj. land.
    + assert (Hn : c <> Vfs.NUL) by (intros ->; cbv in Esw; discriminate).
      destruct (Hc Hn) as [_ Hg].
      destruct (forward fmt i) as [_ Hf]. specialize (Hf c Hg Esw).
      destruct (tilck_strtol U fmt i) as [v e]. cbn [snd] in Hf.
      apply quiet_bind; [quiet | intros _].
      apply nearer_unless_truncated. intros Hj. land.
    + destruct (forward fmt (i + 1)) as [Hf _].
      destruct (tilck_strtol U fmt (i + 1)) as [v e]. cbn [snd] in Hf.
      apply quiet_bind; [quiet | intros _].
      apply nearer_unless_truncated. intros Hj. land.
    + apply quiet_bind; [quiet | intros st].
      apply yields_if.
      * apply (yields_bind _ _ _ _ (yields_fmt_at fmt (i + 1))).
        intros c1 [Hi1 _]. apply yields_if; land.
      * apply quiet_bind; [quiet | intros p].
        apply yields_if; [land|].
        apply (yields_bind _ _ _ _ (yields_fmt_at fmt (i + 1))).
        intros c1 [Hi1 _]. apply yields_if; [land|].
        apply quiet_bind; [quiet | intros _]. land.
    + apply nearer_unless_truncated. intros Hj.
      apply quiet_bind; [quiet | intros _]. land.
    + apply nearer_unless_truncated. intros Hj.
      apply quiet_bind; [quiet | intros _]. land.
    + apply quiet_bind; [quiet | intros st].
      destruct (width st); try land;
        apply nearer_unless_truncated; intros Hj;
        (apply quiet_bind; [quiet | intros _]); land.
    + apply quiet_bind; [quiet | intros st].
      destruct (width st); try land;
        apply nearer_unless_truncated; intros Hj;
        (apply quiet_bind; [quiet | intros _]); land.
    + apply nearer_param; [lia | cbn; lia | apply quiet_write_char_param].
    + apply nearer_param; [lia | cbn; lia | apply quiet_write_string_param].
    + apply nearer_param; [lia | cbn; lia | apply quiet_write_pointer_param].
    + land.
  - unfold reach in Hreach.
    assert (Hrest : yields (nearer Unknown_seq i)
              (c <- fmt_at fmt i ;;
               WRITE_CHAR c (ret (Out, i)) (ret (End_sequence, i)))).
    { apply quiet_bind; [quiet | intros c]. apply quiet_WRITE_CHAR; land. }
    apply quiet_WRITE_CHAR; [land|].
    apply quiet_bind; [quiet | intros st].
    apply yields_if; [|exact Hrest].
    apply quiet_WRITE_CHAR; [land | exact Hrest].
  - unfold reach in Hreach. unfold snprintk_ctx_reset_state.
    apply quiet_bind; [quiet | intros _]. land.
  - land.
Qed.

Lemma exec_terminates fuel : forall l i st,
  reach fmt l i -> measure fmt l i <= Z.of_nat fuel ->
  exec U fuel fmt l i st <> Stop Out_of_fuel.
Proof.
  induction fuel as [|fuel IH]; intros l i st Hreach Hm.
  - pose proof (strlen_le_length fmt).
    destruct l; unfold reach, measure, rank in *; lia.
  - assert (Hstep : (li <- step U fmt l i ;;
                     exec U fuel fmt (fst li) (snd li)) st <> Stop Out_of_fuel).
    { unfold bind. pose proof (step_nearer l i Hreach st) as Hs.
      destruct (step U fmt l i st) as [[[l' i'] st']|e]; [|congruence].
      unfold PrintkOps.nearer in Hs. cbn [fst snd] in *.
      destruct l'; try (apply IH; [apply Hs; discriminate |
                          assert (measure fmt _ i' < measure fmt l i)
                            by (apply Hs; discriminate); lia]).
      destruct fuel; cbn [exec]; discriminate. }
    destruct l; cbn [exec]; try exact Hstep. discriminate.
Qed.

End Termination.

Lemma vsnprintk_ends U initial_buf size fmt args :
  moves_forward U ->
  vsnprintk U initial_buf size fmt args <> Stop Out_of_fuel.
Proof.
  intros Hf. unfold vsnprintk.
  match goal with |- context [bind _ _ ?c] => set (ctx := c) end.
  pose proof (exec_terminates U fmt Hf (enough_fuel fmt) Loop 0 ctx) as H.
  unfold bind at 1.
  destruct (exec U (enough_fuel fmt) fmt Loop 0 ctx) as [[[] st]|e].
  - unfold bind at 1, get. unfold bind, store, ret.
    destruct ((0 <=? _) && _); discriminate.
  - intros He. apply H.
    + pose proof (strlen_nonneg fmt). unfold reach. lia.
    + unfold measure, enough_fuel, rank. lia.
    + congruence.
Qed.

Lemma digits_moves s : forall acc i, i <= snd (digits s acc i).
Proof.
  induction s as [|c s IH]; intros acc i; cbn [digits snd]; [lia|].
  destruct ((0 <=? code c - code "0") && (code c - code "0" <? 10));
    [|cbn [snd]; lia].
  specialize (IH (10 * acc + (code c - code "0")) (i + 1)). lia.
Qed.

Lemma case_1_9_digit c :
  switch c = Case_1_9 ->
  (0 <=? code c - code "0") && (code c - code "0" <? 10) = true.
Proof.
  destruct c as [[] [] [] [] [] [] [] []]; cbv; intros H;
    first [reflexivity | discriminate].
Qed.

Lemma demo_util_moves_forward : moves_forward demo_util.
Proof.
  intros fmt i. cbn [demo_util tilck_strtol]. split.
  - apply digits_moves.
  - intros c Hg Hc. rewrite get_advance in Hg.
    destruct (Vfs.advance fmt (Z.to_nat i)) as [|c' r]; [discriminate|].
    assert (c' = c) by congruence. subst c'.
    cbn [digits]. rewrite (case_1_9_digit c Hc).
    pose proof (digits_moves r (10 * 0 + (code c - code "0")) (i + 1)). lia.
Qed.

(** The loop of [vsnprintk] ends, for every format and every array, when
    [tilck_strtol] moves forward: four jumps for each character of the format
    are enough. *)
Theorem vsnprintk_terminates U initial_buf size fmt args :
  moves_forward U ->
  vsnprintk U initial_buf size fmt args <> Stop Out_of_fuel.
Proof.
  apply vsnprintk_ends.
Qed.

Lemma vsnprintk_terminates_witness :
  vsnprintk demo_util (blank 8) 8 "%-12d|%5" [Arg_int 7] <> Stop Out_of_fuel.
Proof.
  apply (vsnprintk_terminates demo_util (blank 8) 8 "%-12d|%5" [Arg_int 7]).
  exact demo_util_moves_forward.
Defined.

(** **** Plain text *)

Lemma fmt_at_advance fmt n st :
  Z.of_nat n <= Vfs.strlen fmt ->
  fmt_at fmt (Z.of_nat n) st = Ok (first_char (Vfs.advance fmt n), st).
Proof.
  intros H. unfold fmt_at.
  destruct (Z.leb_spec 0 (Z.of_nat n)); [|lia].
  destruct (Z.leb_spec (Z.of_nat n) (Vfs.strlen fmt)); [|lia].
  cbn [andb]. rewrite Nat2Z.id, get_advance.
  now destruct (Vfs.advance fmt n).
Qed.

Lemma fmt_at_outside fmt i st :
  Vfs.strlen fmt < i -> fmt_at fmt i st = Stop (Fmt_outside i).
Proof.
  intros H. unfold fmt_at.
  destruct (Z.leb_spec i (Vfs.strlen fmt)); [lia|].
  now rewrite andb_false_r.
Qed.

Lemma plain_strlen s : plain s = true -> Vfs.strlen s = Z.of_nat (String.length s).
Proof.
  induction s as [|c s IH]; cbn [plain Vfs.strlen String.length]; [reflexivity|].
  intros H. apply andb_prop in H as [Hc Hs]. unfold plain_char in Hc.
  apply andb_prop in Hc as [Hc _].
  destruct (Ascii.eqb c Vfs.NUL); [discriminate|]. rewrite (IH Hs). lia.
Qed.

Lemma exec_out U fuel fmt i : exec U fuel fmt Out i = ret tt.
Proof. now destruct fuel. Qed.

(** The loop on a stretch of plain text [lit] of the format: it is written
    as far as there is room, and the loop goes on behind it when room is
    left. *)
Lemma exec_literal U fmt lit : forall rest n fuel st,
  plain lit = true ->
  Vfs.advance fmt n = (lit ++ rest)%string ->
  Z.of_nat n <= Vfs.strlen fmt ->
  room st ->
  (String.length lit <= fuel)%nat ->
  exec U fuel fmt Loop (Z.of_nat n) st =
  match emit (list_ascii_of_string lit) st with
  | Ok (true, st') =>
      exec U (fuel - String.length lit) fmt Loop
        (Z.of_nat (n + String.length lit)) st'
  | Ok (false, st') => Ok (tt, st')
  | Stop e => Stop e
  end.
Proof.
  induction lit as [|c lit IH]; intros rest n fuel st Hp Ha Hn Hr Hf.
  - cbn [list_ascii_of_string String.length]. rewrite emit_nil by assumption.
    now rewrite Nat.sub_0_r, Nat.add_0_r.
  - cbn [plain] in Hp. apply andb_prop in Hp as [Hc Hp].
    unfold plain_char in Hc. apply andb_prop in Hc as [Hc1 Hc2].
    cbn [String.length] in Hf. destruct fuel as [|fuel]; [lia|].
    cbn [exec step]. unfold bind at 1. unfold bind at 1.
    rewrite fmt_at_advance by assumption. rewrite Ha.
    cbn [String.append first_char].
    apply negb_true_iff in Hc1. rewrite Hc1, Hc2.
    unfold WRITE_CHAR. unfold bind at 1.
    rewrite write_in_buf_char_emit by assumption.
    pose proof (emit_app [c] (list_ascii_of_string lit) st (within_room st Hr))
      as Happ.
    cbn [list_ascii_of_string String.length app] in *.
    rewrite <- Happ. unfold bind.
    destruct (emit [c] st) as [[ok st1]|e] eqn:E1; [|reflexivity].
    destruct (emit_keeps _ _ _ _ (within_room st Hr) E1) as (Hw1 & He1 & Hr1).
    destruct ok; cbn [negb].
    + unfold ret at 1. cbn [fst snd].
      replace (Z.of_nat n + 1) with (Z.of_nat (S n)) by lia.
      rewrite (IH rest (S n) fuel st1); try assumption; try lia.
      * replace (S n + String.length lit)%nat
          with (n + S (String.length lit))%nat by lia.
        reflexivity.
      * cbn [String.append] in Ha. now apply advance_S in Ha.
      * rewrite (strlen_advance n fmt Hn), Ha. cbn [String.append Vfs.strlen].
        rewrite Hc1. pose proof (strlen_nonneg (lit ++ rest)). lia.
      * now apply Hr1.
    + unfold ret at 1. cbn [fst snd]. now rewrite exec_out.
Qed.

Lemma update_splice_0 m : forall cs k c,
  (k <= List.length cs)%nat -> (k < List.length m)%nat ->
  k = List.length cs \/ S k = List.length m ->
  update (splice m 0 cs) k c = firstn k cs ++ c :: skipn (S k) m.
Proof.
  induction m as [|x m IH]; intros cs k c Hk Hm Hor;
    cbn [List.length] in Hm; [lia|].
  destruct cs as [|a cs].
  - cbn [List.length] in Hk. assert (k = 0)%nat by lia. subst k.
    now rewrite splice_nil_r.
  - rewrite splice_cons_0. cbn [List.length] in *. destruct k as [|k].
    + cbn [update firstn skipn app]. destruct Hor as [Hor|Hor]; [lia|].
      destruct m; [|cbn [List.length] in Hor; lia].
      now rewrite splice_nil_l.
    + cbn [update firstn skipn app]. f_equal. apply IH; lia.
Qed.

Lemma list_ascii_length s :
  List.length (list_ascii_of_string s) = String.length s.
Proof.
  induction s as [|c s IH]; cbn [list_ascii_of_string List.length String.length];
    congruence.
Qed.

Lemma advance_to_end s : Vfs.advance s (String.length s) = EmptyString.
Proof. induction s; cbn; auto. Qed.

Lemma append_empty s : (s ++ EmptyString)%string = s.
Proof. induction s; cbn; congruence. Qed.

(** The loop at the terminator of the format. *)
Lemma step_loop_end U fmt n st :
  Z.of_nat n <= Vfs.strlen fmt ->
  Vfs.advance fmt n = EmptyString ->
  step U fmt Loop (Z.of_nat n) st = Ok ((Out, Z.of_nat n), st).
Proof.
  intros Hn Ha. cbn [step]. unfold bind.
  rewrite fmt_at_advance, Ha by assumption. cbn [first_char].
  now rewrite Ascii.eqb_refl.
Qed.

(** What [vsnprintk] does behind the label [out]. *)
Lemma vsnprintk_out st size :
  within st -> buf_end st = size -> 1 <= size < 2 ^ 31 ->
  (st0 <- get ;;
   store (buf st0 + (if buf st0 <? buf_end st0 then 0 else -1)) Vfs.NUL ;;
   ret (to_int (buf st0 - 0))) st =
  Ok (buf st,
      set_mem (update (mem st) (Z.to_nat (Z.min (buf st) (size - 1))) Vfs.NUL)
        st).
Proof.
  intros [Hb Hm] He Hs. unfold bind at 1, get.
  assert (Hj : buf st + (if buf st <? buf_end st then 0 else -1) =
               Z.min (buf st) (size - 1)).
  { destruct (Z.ltb_spec (buf st) (buf_end st)); lia. }
  rewrite Hj.
  rewrite (bind_ok _ _ _ _ _
             (store_in st (Z.min (buf st) (size - 1)) Vfs.NUL ltac:(lia))).
  unfold ret. now rewrite Z.sub_0_r, to_int_small by lia.
Qed.

Lemma vsnprintk_run U initial_buf size fmt args st :
  exec U (enough_fuel fmt) fmt Loop 0
    {| args := args; width := pw_default; left_padding := 0;
       right_padding := 0; buf := 0; buf_end := 0 + size;
       zero_lpad := false; hash_sign := false;
       intbuf := EmptyString; mem := initial_buf |} = Ok (tt, st) ->
  within st -> buf_end st = size -> 1 <= size < 2 ^ 31 ->
  vsnprintk U initial_buf size fmt args =
  Ok (buf st, update (mem st) (Z.to_nat (Z.min (buf st) (size - 1))) Vfs.NUL).
Proof.
  intros He Hw Hb Hs. unfold vsnprintk. unfold bind at 1. rewrite He.
  now rewrite (vsnprintk_out st size).
Qed.

Lemma vsnprintk_stop U initial_buf size fmt args e :
  exec U (enough_fuel fmt) fmt Loop 0
    {| args := args; width := pw_default; left_padding := 0;
       right_padding := 0; buf := 0; buf_end := 0 + size;
       zero_lpad := false; hash_sign := false;
       intbuf := EmptyString; mem := initial_buf |} = Stop e ->
  vsnprintk U initial_buf size fmt args = Stop e.
Proof.
  intros He. unfold vsnprintk. unfold bind at 1. now rewrite He.
Qed.

Lemma initial_room args0 size initial_buf :
  size = Z.of_nat (List.length initial_buf) -> 1 <= size ->
  room {| args := args0; width := pw_default; left_padding := 0;
          right_padding := 0; buf := 0; buf_end := 0 + size;
          zero_lpad := false; hash_sign := false;
          intbuf := EmptyString; mem := initial_buf |}.
Proof. intros. unfold room, within. cbn [buf buf_end mem]. lia. Qed.

(** A format without percent sign is copied: when it fits, [vsnprintk]
    returns its length and the array holds it with a terminator; when it
    does not, [vsnprintk] returns [size] (not the length the output would
    have) and the array holds the first [size - 1] characters and a
    terminator. *)
Theorem vsnprintk_plain_text U initial_buf size fmt args :
  plain fmt = true ->
  size = Z.of_nat (List.length initial_buf) -> 1 <= size < 2 ^ 31 ->
  vsnprintk U initial_buf size fmt args =
  Ok (Z.min (Z.of_nat (String.length fmt)) size,
      let k := Z.to_nat (Z.min (Z.of_nat (String.length fmt)) (size - 1)) in
      firstn k (list_ascii_of_string fmt) ++
      Vfs.NUL :: skipn (S k) initial_buf).
Proof.
  intros Hp Hsize Hrange.
  pose proof (initial_room args size initial_buf Hsize ltac:(lia)) as Hroom.
  pose proof (plain_strlen fmt Hp) as Hlen.
  set (ctx := {| args := args; width := pw_default; left_padding := 0;
                 right_padding := 0; buf := 0; buf_end := 0 + size;
                 zero_lpad := false; hash_sign := false;
                 intbuf := EmptyString; mem := initial_buf |}) in *.
  pose proof (exec_literal U fmt fmt EmptyString 0 (enough_fuel fmt) ctx Hp)
    as Hlit.
  rewrite advance_0, append_empty in Hlit.
  specialize (Hlit eq_refl (strlen_nonneg fmt) Hroom
                ltac:(unfold enough_fuel; lia)).
  change (Z.of_nat 0) with 0 in Hlit.
  destruct (emit (list_ascii_of_string fmt) ctx) as [[ok st]|e] eqn:E;
    [|discriminate].
  destruct (emit_keeps _ _ _ _ (within_room _ Hroom) E) as (Hw & He & Hr).
  unfold emit in E. rewrite list_ascii_length in E.
  assert (Hbuf : buf st = Z.min (Z.of_nat (String.length fmt)) size).
  { assert (st = set_buf (Z.min (buf ctx + Z.of_nat (String.length fmt))
                                (buf_end ctx))
                   (set_mem (splice (mem ctx) (Z.to_nat (buf ctx))
                               (list_ascii_of_string fmt)) ctx)) as ->
      by congruence.
    subst ctx. ctx_cbn. lia. }
  assert (Hmem : mem st = splice initial_buf 0 (list_ascii_of_string fmt)).
  { assert (st = set_buf (Z.min (buf ctx + Z.of_nat (String.length fmt))
                                (buf_end ctx))
                   (set_mem (splice (mem ctx) (Z.to_nat (buf ctx))
                               (list_ascii_of_string fmt)) ctx)) as ->
      by congruence.
    reflexivity. }
  assert (Hok : ok = (Z.of_nat (String.length fmt) <? size)).
  { assert (ok = (buf ctx + Z.of_nat (String.length fmt) <? buf_end ctx))
      as -> by congruence.
    reflexivity. }
  assert (Hexec : exec U (enough_fuel fmt) fmt Loop 0 ctx = Ok (tt, st)).
  { rewrite Hlit. destruct ok; [|reflexivity].
    destruct (enough_fuel fmt - String.length fmt)%nat as [|f] eqn:Ef;
      [unfold enough_fuel in Ef; lia|].
    cbn [exec Nat.add]. unfold bind.
    rewrite step_loop_end; [| lia | apply advance_to_end].
    cbn [fst snd]. now rewrite exec_out. }
  rewrite (vsnprintk_run U initial_buf size fmt args st Hexec Hw
             ltac:(subst ctx; cbn [buf_end] in He; lia) Hrange).
  rewrite Hbuf, Hmem. cbv zeta.
  pose proof (list_ascii_length fmt).
  replace (Z.min (Z.min (Z.of_nat (String.length fmt)) size) (size - 1))
    with (Z.min (Z.of_nat (String.length fmt)) (size - 1)) by lia.
  rewrite update_splice_0 by lia. reflexivity.
Qed.

Lemma vsnprintk_plain_text_witness :
  vsnprintk demo_util (blank 8) 8 "hello world" [] =
  Ok (8, ["h"; "e"; "l"; "l"; "o"; " "; "w"; Vfs.NUL]%char).
Proof.
  apply (vsnprintk_plain_text demo_util (blank 8) 8 "hello world" []);
    [reflexivity | reflexivity | lia].
Defined.

(** **** Reads outside the format and outside [diuox_base] *)

Lemma strlen_app lit s :
  plain lit = true ->
  Vfs.strlen (lit ++ s) = Z.of_nat (String.length lit) + Vfs.strlen s.
Proof.
  induction lit as [|c lit IH]; cbn [plain String.append Vfs.strlen String.length];
    [reflexivity|].
  intros H. apply andb_prop in H as [Hc Hs]. unfold plain_char in Hc.
  apply andb_prop in Hc as [Hc _].
  destruct (Ascii.eqb c Vfs.NUL); [discriminate|]. rewrite (IH Hs). lia.
Qed.

Lemma advance_app lit s : Vfs.advance (lit ++ s) (String.length lit) = s.
Proof.
  induction lit as [|c lit IH]; cbn [String.append String.length Vfs.advance];
    [apply advance_0 | exact IH].
Qed.

Lemma length_append lit s :
  String.length (lit ++ s) = (String.length lit + String.length s)%nat.
Proof.
  induction lit as [|c lit IH]; cbn [String.append String.length Nat.add];
    congruence.
Qed.

(** The state in which the loop leaves a stretch of plain text that fits. *)
Lemma exec_literal_fits U lit rest initial_buf size args fuel :
  plain lit = true ->
  size = Z.of_nat (List.length initial_buf) ->
  Z.of_nat (String.length lit) < size ->
  (String.length lit <= fuel)%nat ->
  exec U fuel (lit ++ rest) Loop 0
    {| args := args; width := pw_default; left_padding := 0;
       right_padding := 0; buf := 0; buf_end := 0 + size;
       zero_lpad := false; hash_sign := false;
       intbuf := EmptyString; mem := initial_buf |} =
  exec U (fuel - String.length lit) (lit ++ rest) Loop
    (Z.of_nat (String.length lit))
    {| args := args; width := pw_default; left_padding := 0;
       right_padding := 0; buf := Z.of_nat (String.length lit);
       buf_end := 0 + size;
       zero_lpad := false; hash_sign := false;
       intbuf := EmptyString;
       mem := splice initial_buf 0 (list_ascii_of_string lit) |}.
Proof.
  intros Hp Hsize Hlt Hf.
  pose proof (initial_room args size initial_buf Hsize ltac:(lia)) as Hroom.
  change 0 with (Z.of_nat 0) at 1.
  rewrite (exec_literal U (lit ++ rest) lit rest 0 fuel _ Hp);
    try assumption.
  - unfold emit. ctx_cbn. rewrite list_ascii_length.
    destruct (Z.ltb_spec (0 + Z.of_nat (String.length lit)) (0 + size)); [|lia].
    cbn [Nat.add Z.to_nat].
    replace (Z.min (0 + Z.of_nat (String.length lit)) (0 + size))
      with (Z.of_nat (String.length lit)) by lia.
    reflexivity.
  - apply advance_0.
  - cbn. apply strlen_nonneg.
Qed.

Lemma exec_S U fuel fmt l i st l' i' st' :
  l <> Out -> step U fmt l i st = Ok ((l', i'), st') ->
  exec U (S fuel) fmt l i st = exec U fuel fmt l' i' st'.
Proof.
  intros Hl Hs. destruct l; try (now destruct Hl);
    cbn [exec]; unfold bind; now rewrite Hs.
Qed.

Lemma exec_S_stop U fuel fmt l i st e :
  l <> Out -> step U fmt l i st = Stop e ->
  exec U (S fuel) fmt l i st = Stop e.
Proof.
  intros Hl Hs. destruct l; try (now destruct Hl);
    cbn [exec]; unfold bind; now rewrite Hs.
Qed.

(** [size = 0] does not make [vsnprintk] store nothing.  A format that
    begins with a character to copy has this character stored at offset 0,
    since [write_in_buf_char] stores before it compares with the end of the
    array; the terminator is then stored over it and 1 is returned, more
    than [size].  With the empty format nothing is copied and the terminator
    is stored at offset [-1], before the array. *)
Theorem vsnprintk_size_zero U c0 rest fmt args :
  (plain_char (first_char fmt) = true ->
   vsnprintk U (c0 :: rest) 0 fmt args = Ok (1, Vfs.NUL :: rest)) /\
  (first_char fmt = Vfs.NUL ->
   vsnprintk U (c0 :: rest) 0 fmt args = Stop (Write_outside (-1))).
Proof.
  unfold vsnprintk, enough_fuel.
  set (ctx := {| args := args; width := pw_default; left_padding := 0;
                 right_padding := 0; buf := 0; buf_end := 0 + 0;
                 zero_lpad := false; hash_sign := false;
                 intbuf := EmptyString; mem := c0 :: rest |}).
  replace (4 * (String.length fmt + 3))%nat
    with (S (4 * String.length fmt + 11)) by lia.
  assert (Hat : fmt_at fmt 0 ctx = Ok (first_char fmt, ctx)).
  { change 0 with (Z.of_nat 0) at 1. rewrite fmt_at_advance.
    - now rewrite advance_0.
    - pose proof (strlen_nonneg fmt). lia. }
  split; intros Hc.
  - unfold plain_char in Hc. apply andb_prop in Hc as [Hnul Hpct].
    unfold bind at 1.
    rewrite (exec_S U _ fmt Loop 0 ctx Out 1
               (set_buf 1 (set_mem (first_char fmt :: rest) ctx))).
    + rewrite exec_out. reflexivity.
    + discriminate.
    + cbn [step]. unfold bind at 1. rewrite Hat.
      destruct (Ascii.eqb (first_char fmt) Vfs.NUL); [discriminate|].
      rewrite Hpct. reflexivity.
  - unfold bind at 1.
    rewrite (exec_S U _ fmt Loop 0 ctx Out 0 ctx).
    + rewrite exec_out. reflexivity.
    + discriminate.
    + cbn [step]. unfold bind at 1. rewrite Hat, Hc.
      now rewrite Ascii.eqb_refl.
Qed.

Lemma vsnprintk_size_zero_witness :
  vsnprintk demo_util ["a"; "b"; "c"]%char 0 "hi" [] =
    Ok (1, [Vfs.NUL; "b"; "c"]%char) /\
  vsnprintk demo_util ["a"; "b"; "c"]%char 0 EmptyString [] =
    Stop (Write_outside (-1)).
Proof.
  destruct (vsnprintk_size_zero demo_util "a"%char ["b"; "c"]%char "hi" [])
    as [Hcopy _].
  destruct (vsnprintk_size_zero demo_util "a"%char ["b"; "c"]%char
              EmptyString []) as [_ Hempty].
  split; [apply Hcopy | apply Hempty]; reflexivity.
Defined.

(** The test of the loop at a percent sign that begins a sequence. *)
Lemma step_percent U fmt n r st :
  Vfs.advance fmt n = String "%" r ->
  Z.of_nat n < Vfs.strlen fmt ->
  is_chr (first_char r) "%" || (128 <=? code (first_char r)) = false ->
  step U fmt Loop (Z.of_nat n) st = Ok ((Next_char_in_seq, Z.of_nat (S n)), st).
Proof.
  intros Ha Hn Hc. cbn [step]. unfold bind.
  rewrite fmt_at_advance, Ha by lia. cbn [first_char].
  change (Ascii.eqb "%" Vfs.NUL) with false.
  change (negb (is_chr "%" "%")) with false. cbv iota.
  replace (Z.of_nat n + 1) with (Z.of_nat (S n)) by lia.
  rewrite fmt_at_advance by lia.
  rewrite (advance_S n fmt _ _ Ha), Hc. reflexivity.
Qed.

(** [next_char_in_seq] at the terminator of the format. *)
Lemma step_next_at_end U fmt n st :
  Vfs.advance fmt n = EmptyString ->
  Z.of_nat n <= Vfs.strlen fmt ->
  step U fmt Next_char_in_seq (Z.of_nat n) st = Ok ((Unknown_seq, Z.of_nat n), st).
Proof.
  intros Ha Hn. cbn [step]. unfold bind.
  rewrite fmt_at_advance, Ha by lia. reflexivity.
Qed.

(** [next_char_in_seq] at the flag [0], with more of the format behind. *)
Lemma step_next_zero_flag U fmt n r st :
  Vfs.advance fmt n = String "0" r ->
  Z.of_nat (S n) <= Vfs.strlen fmt ->
  first_char r <> Vfs.NUL ->
  step U fmt Next_char_in_seq (Z.of_nat n) st =
  Ok ((Next_char_in_seq, Z.of_nat (S n)), set_zero_lpad true st).
Proof.
  intros Ha Hn Hc. cbn [step]. unfold bind at 1.
  rewrite fmt_at_advance, Ha by lia. cbn [first_char].
  change (diuox_base (code "0")) with (@ret Z 0).
  unfold bind at 1, ret at 1.
  change (negb (0 =? 0)) with false. cbv iota.
  change (switch "0") with Case_0. cbv iota.
  unfold bind at 1, modify. unfold unless_truncated, bind.
  replace (Z.of_nat n + 1) with (Z.of_nat (S n)) by lia.
  rewrite fmt_at_advance by assumption.
  rewrite (advance_S n fmt _ _ Ha).
  apply Ascii.eqb_neq in Hc. now rewrite Hc.
Qed.

(** [next_char_in_seq] at a character that is not ASCII. *)
Lemma step_next_table U fmt n st :
  Z.of_nat n <= Vfs.strlen fmt ->
  128 <= code (first_char (Vfs.advance fmt n)) ->
  step U fmt Next_char_in_seq (Z.of_nat n) st =
  Stop (Table_outside (code (first_char (Vfs.advance fmt n)))).
Proof.
  intros Hn Hc. cbn [step]. unfold bind at 1.
  rewrite fmt_at_advance by lia.
  unfold bind, diuox_base.
  destruct (Z.ltb_spec (code (first_char (Vfs.advance fmt n))) 128); [lia|].
  now rewrite andb_false_r.
Qed.

(** [unknown_seq] at the terminator of the format, with room for two
    characters. *)
Lemma step_unknown_at_end U fmt n st :
  Vfs.advance fmt n = EmptyString ->
  Z.of_nat n <= Vfs.strlen fmt ->
  hash_sign st = false ->
  within st -> buf st + 2 < buf_end st ->
  exists st',
    step U fmt Unknown_seq (Z.of_nat n) st = Ok ((End_sequence, Z.of_nat n), st').
Proof.
  intros Ha Hn Hh Hw Hr. cbn [step]. unfold WRITE_CHAR at 1. unfold bind at 1.
  rewrite write_in_buf_char_emit by (unfold room; split; [assumption | lia]).
  destruct (emit ["%"%char] st) as [[ok st1]|e] eqn:E1; [|discriminate].
  destruct (emit_keeps _ _ _ _ Hw E1) as (Hw1 & He1 & _).
  unfold emit in E1.
  assert (Hst1 : st1 = set_buf (Z.min (buf st + 1) (buf_end st))
                         (set_mem (splice (mem st) (Z.to_nat (buf st))
                                     ["%"%char]) st)) by (cbn in E1; congruence).
  assert (Hok : ok = (buf st + 1 <? buf_end st)) by (cbn in E1; congruence).
  assert (Hb1 : buf st1 = buf st + 1) by (subst st1; ctx_cbn; lia).
  assert (Hh1 : hash_sign st1 = false) by (subst st1; ctx_cbn; assumption).
  destruct (Z.ltb_spec (buf st + 1) (buf_end st)); [|lia]. subst ok.
  cbn [negb]. unfold bind at 1, get. rewrite Hh1.
  unfold bind at 1. rewrite fmt_at_advance, Ha by lia. cbn [first_char].
  unfold WRITE_CHAR, bind.
  rewrite write_in_buf_char_emit by (unfold room; split; [assumption | lia]).
  unfold emit. cbn [List.length].
  destruct (Z.ltb_spec (buf st1 + Z.of_nat 1) (buf_end st1)); [|lia].
  cbn [negb]. unfold ret. eauto.
Qed.

Lemma step_end U fmt i st :
  exists st', step U fmt End_sequence i st = Ok ((Loop, i + 1), st').
Proof. cbn [step]. unfold snprintk_ctx_reset_state, bind, modify, ret. eauto. Qed.

(** The test of the loop behind the terminator of the format. *)
Lemma step_loop_outside U fmt i st :
  Vfs.strlen fmt < i -> step U fmt Loop i st = Stop (Fmt_outside i).
Proof.
  intros H. cbn [step]. unfold bind. now rewrite fmt_at_outside.
Qed.

(** A format that ends in a lone percent sign, with room for two characters
    more than the text before it: [vsnprintk] puts out the percent sign and
    the terminator of the format, moves [fmt] behind the terminator, and
    then reads the format outside its characters. *)
Theorem vsnprintk_trailing_percent U initial_buf size lit args :
  plain lit = true ->
  size = Z.of_nat (List.length initial_buf) -> size < 2 ^ 31 ->
  Z.of_nat (String.length lit) + 2 < size ->
  vsnprintk U initial_buf size (lit ++ "%") args =
  Stop (Fmt_outside (Z.of_nat (String.length lit) + 2)).
Proof.
  intros Hp Hsize Hrange Hfit. apply vsnprintk_stop.
  set (fmt := (lit ++ "%")%string).
  assert (Hlen : Vfs.strlen fmt = Z.of_nat (String.length lit) + 1).
  { unfold fmt. now rewrite strlen_app. }
  assert (Hfuel : exists f, (enough_fuel fmt - String.length lit =
                             S (S (S (S (S f)))))%nat).
  { exists (enough_fuel fmt - String.length lit - 5)%nat.
    unfold enough_fuel, fmt. rewrite length_append. lia. }
  destruct Hfuel as [f Hfuel].
  unfold fmt at 2.
  rewrite (exec_literal_fits U lit "%" initial_buf size args (enough_fuel fmt)
             Hp Hsize ltac:(lia) ltac:(lia)).
  fold fmt. rewrite Hfuel.
  set (n := String.length lit) in *.
  assert (Ha : Vfs.advance fmt n = "%"%string) by apply advance_app.
  assert (Ha1 : Vfs.advance fmt (S n) = EmptyString)
    by now apply (advance_S n fmt "%"%char).
  match goal with |- exec _ _ _ _ _ ?s = _ => set (st := s) end.
  rewrite (exec_S U _ fmt Loop _ st _ _ _ ltac:(discriminate)
             (step_percent U fmt n EmptyString st Ha ltac:(lia) eq_refl)).
  rewrite (exec_S U _ fmt Next_char_in_seq _ st _ _ _ ltac:(discriminate)
             (step_next_at_end U fmt (S n) st Ha1 ltac:(lia))).
  destruct (step_unknown_at_end U fmt (S n) st Ha1 ltac:(lia) eq_refl)
    as [st1 Hs1].
  { unfold within, st. cbn [buf buf_end mem]. rewrite splice_length. lia. }
  { unfold st. cbn [buf buf_end]. lia. }
  rewrite (exec_S U _ fmt Unknown_seq _ st _ _ _ ltac:(discriminate) Hs1).
  destruct (step_end U fmt (Z.of_nat (S n)) st1) as [st2 Hs2].
  rewrite (exec_S U _ fmt End_sequence _ st1 _ _ _ ltac:(discriminate) Hs2).
  rewrite (exec_S_stop U _ fmt Loop _ st2 _ ltac:(discriminate)
             (step_loop_outside U fmt (Z.of_nat (S n) + 1) st2 ltac:(lia))).
  f_equal. f_equal. lia.
Qed.

Lemma vsnprintk_trailing_percent_witness :
  vsnprintk demo_util (blank 8) 8 "100%" [] = Stop (Fmt_outside 5).
Proof.
  apply (vsnprintk_trailing_percent demo_util (blank 8) 8 "100" []);
    [reflexivity | reflexivity | lia | cbn; lia].
Defined.

(** A character that is not ASCII is copied when it follows the percent
    sign, but behind a flag of a sequence (here [0]) it is used as an index
    of [diuox_base], which has 128 entries. *)
Theorem vsnprintk_non_ascii_in_sequence U initial_buf size lit c rest args :
  plain lit = true ->
  size = Z.of_nat (List.length initial_buf) ->
  Z.of_nat (String.length lit) < size ->
  128 <= code c ->
  vsnprintk U initial_buf size (lit ++ "%0" ++ String c rest) args =
  Stop (Table_outside (code c)).
Proof.
  intros Hp Hsize Hfit Hc. apply vsnprintk_stop.
  set (fmt := (lit ++ "%0" ++ String c rest)%string).
  assert (Hnn : c <> Vfs.NUL).
  { intros ->. cbv in Hc. now apply Hc. }
  assert (Hlen : Z.of_nat (String.length lit) + 3 <= Vfs.strlen fmt).
  { unfold fmt. rewrite strlen_app by assumption.
    cbn [String.append Vfs.strlen].
    change (Ascii.eqb "%" Vfs.NUL) with false.
    change (Ascii.eqb "0" Vfs.NUL) with false. cbv iota.
    apply Ascii.eqb_neq in Hnn. rewrite Hnn.
    pose proof (strlen_nonneg rest). lia. }
  assert (Hfuel : exists f, (enough_fuel fmt - String.length lit =
                             S (S (S f)))%nat).
  { exists (enough_fuel fmt - String.length lit - 3)%nat.
    unfold enough_fuel, fmt. rewrite length_append. lia. }
  destruct Hfuel as [f Hfuel].
  unfold fmt at 2.
  rewrite (exec_literal_fits U lit _ initial_buf size args (enough_fuel fmt)
             Hp Hsize ltac:(lia) ltac:(lia)).
  fold fmt. rewrite Hfuel.
  set (n := String.length lit) in *.
  assert (Ha : Vfs.advance fmt n = ("%0" ++ String c rest)%string)
    by apply advance_app.
  cbn [String.append] in Ha.
  pose proof (advance_S n fmt _ _ Ha) as Ha1.
  pose proof (advance_S (S n) fmt _ _ Ha1) as Ha2.
  match goal with |- exec _ _ _ _ _ ?s = _ => set (st := s) end.
  rewrite (exec_S U _ fmt Loop _ st _ _ _ ltac:(discriminate)
             (step_percent U fmt n _ st Ha ltac:(lia) eq_refl)).
  rewrite (exec_S U _ fmt Next_char_in_seq _ st _ _ _ ltac:(discriminate)
             (step_next_zero_flag U fmt (S n) _ st Ha1 ltac:(lia) Hnn)).
  rewrite (exec_S_stop U _ fmt Next_char_in_seq _ _ _ ltac:(discriminate)
             (step_next_table U fmt (S (S n)) _ ltac:(lia)
                ltac:(rewrite Ha2; exact Hc))).
  now rewrite Ha2.
Qed.

Lemma vsnprintk_non_ascii_in_sequence_witness :
  vsnprintk demo_util (blank 8) 8 ("a%0" ++ String (ascii_of_nat 233) "d")
    [Arg_int 1] =
  Stop (Table_outside 233).
Proof.
  apply (vsnprintk_non_ascii_in_sequence demo_util (blank 8) 8 "a"
           (ascii_of_nat 233) "d" [Arg_int 1]);
    [reflexivity | reflexivity | cbn; lia | cbv; discriminate].
Defined.

(** **** Sequences without flags *)

Lemma emit_fields cs st ok st' :
  emit cs st = Ok (ok, st') ->
  ok = (buf st + Z.of_nat (List.length cs) <? buf_end st) /\
  buf st' = Z.min (buf st + Z.of_nat (List.length cs)) (buf_end st) /\
  mem st' = splice (mem st) (Z.to_nat (buf st)) cs /\
  buf_end st' = buf_end st /\ args st' = args st /\
  (default_flags st -> default_flags st').
Proof.
  unfold emit. intros H.
  assert (Hs : st' = set_buf
            (Z.min (buf st + Z.of_nat (List.length cs)) (buf_end st))
            (set_mem (splice (mem st) (Z.to_nat (buf st)) cs) st))
    by congruence.
  assert (Hk : ok = (buf st + Z.of_nat (List.length cs) <? buf_end st))
    by congruence.
  subst st'. unfold default_flags. ctx_cbn. tauto.
Qed.

Lemma emit_ok cs st : exists ok st', emit cs st = Ok (ok, st').
Proof. unfold emit. eauto. Qed.

Lemma write_str_plain fmtX str st :
  room st -> default_flags st -> is_chr fmtX "p" = false ->
  Vfs.strlen str < 2 ^ 31 ->
  write_str fmtX str st = emit (chars str) st.
Proof.
  intros Hr (_ & Hl & Hp & Hz & Hh) Hx Hs.
  pose proof (strlen_nonneg str).
  destruct (write_str_cases fmtX str st Hr Hs ltac:(lia) ltac:(lia))
    as [Hw _].
  rewrite Hw by lia. unfold rendered. rewrite Hl, Hp, Hz, Hh, Hx.
  cbn [andb orb negb].
  replace (Z.max 0 (Z.max 0 (0 - Vfs.strlen str) - 0)) with 0 by lia.
  cbn [Z.to_nat repeat app]. now rewrite app_nil_r.
Qed.

Lemma step_end_keeps U fmt i st :
  exists st', step U fmt End_sequence i st = Ok ((Loop, i + 1), st') /\
              buf st' = buf st /\ buf_end st' = buf_end st /\
              mem st' = mem st.
Proof.
  cbn [step]. unfold snprintk_ctx_reset_state, bind, modify, ret.
  eexists. split; [reflexivity|]. ctx_cbn. auto.
Qed.

(** [next_char_in_seq] at [s], with a string as the next argument. *)
Lemma step_next_s U fmt n r s rest st :
  Vfs.advance fmt n = String "s" r ->
  Z.of_nat n <= Vfs.strlen fmt ->
  args st = Arg_str s :: rest ->
  room st -> default_flags st -> Vfs.strlen s < 2 ^ 31 ->
  exists st0,
    buf st0 = buf st /\ mem st0 = mem st /\ buf_end st0 = buf_end st /\
    step U fmt Next_char_in_seq (Z.of_nat n) st =
    match emit (chars s) st0 with
    | Ok (ok, st') =>
        Ok ((if ok then End_sequence else Out, Z.of_nat n), st')
    | Stop e => Stop e
    end.
Proof.
  intros Ha Hn Hargs Hr Hd Hs. exists (set_args rest st).
  split; [reflexivity|]. split; [reflexivity|]. split; [reflexivity|].
  cbn [step]. unfold bind at 1.
  rewrite fmt_at_advance, Ha by lia. cbn [first_char].
  change (diuox_base (code "s")) with (@ret Z 0).
  unfold bind at 1, ret at 1.
  change (negb (0 =? 0)) with false. cbv iota.
  change (switch "s") with Case_s. cbv iota.
  unfold bind at 1. unfold write_string_param, va_arg_str.
  unfold bind at 1. unfold bind at 1, get. rewrite Hargs.
  unfold bind at 1, modify, ret at 1.
  rewrite write_str_plain; try assumption; try reflexivity.
  destruct (emit (chars s) (set_args rest st)) as [[[] st']|e]; reflexivity.
Qed.

(** [next_char_in_seq] at [c], with an integer as the next argument. *)
Lemma step_next_c U fmt n r v rest st :
  Vfs.advance fmt n = String "c" r ->
  Z.of_nat n <= Vfs.strlen fmt ->
  args st = Arg_int v :: rest ->
  room st -> default_flags st ->
  exists st0,
    buf st0 = buf st /\ mem st0 = mem st /\ buf_end st0 = buf_end st /\
    step U fmt Next_char_in_seq (Z.of_nat n) st =
    match emit (chars (String (to_char v) EmptyString)) st0 with
    | Ok (ok, st') =>
        Ok ((if ok then End_sequence else Out, Z.of_nat n), st')
    | Stop e => Stop e
    end.
Proof.
  intros Ha Hn Hargs Hr Hd.
  exists (set_intbuf (String (to_char v) EmptyString) (set_args rest st)).
  split; [reflexivity|]. split; [reflexivity|]. split; [reflexivity|].
  cbn [step]. unfold bind at 1.
  rewrite fmt_at_advance, Ha by lia. cbn [first_char].
  change (diuox_base (code "c")) with (@ret Z 0).
  unfold bind at 1, ret at 1.
  change (negb (0 =? 0)) with false. cbv iota.
  change (switch "c") with Case_c. cbv iota.
  unfold bind at 1. unfold write_char_param, va_arg_int.
  unfold bind at 1. unfold bind at 1, get at 1. rewrite Hargs.
  unfold bind at 1, modify at 1, ret at 1.
  unfold bind at 1, modify at 1. unfold bind at 1, get.
  cbn [intbuf set_intbuf].
  rewrite write_str_plain; try assumption; try reflexivity.
  - match goal with
    | |- context [emit ?cs ?s] => destruct (emit cs s) as [[[] st']|e]
    end; reflexivity.
  - cbn [Vfs.strlen]. destruct (Ascii.eqb (to_char v) Vfs.NUL); lia.
Qed.

(** What [vsnprintk] returns when the loop has put out [cs]. *)
Lemma vsnprintk_emitted U initial_buf size fmt args cs st :
  size = Z.of_nat (List.length initial_buf) -> 1 <= size < 2 ^ 31 ->
  exec U (enough_fuel fmt) fmt Loop 0
    {| args := args; width := pw_default; left_padding := 0;
       right_padding := 0; buf := 0; buf_end := 0 + size;
       zero_lpad := false; hash_sign := false;
       intbuf := EmptyString; mem := initial_buf |} = Ok (tt, st) ->
  buf st = Z.min (Z.of_nat (List.length cs)) size ->
  mem st = splice initial_buf 0 cs ->
  buf_end st = size ->
  vsnprintk U initial_buf size fmt args = printed initial_buf size cs.
Proof.
  intros Hsize Hrange He Hb Hm Hend.
  rewrite (vsnprintk_run U initial_buf size fmt args st He); try assumption.
  - unfold printed. rewrite Hb, Hm.
    replace (Z.min (Z.min (Z.of_nat (List.length cs)) size) (size - 1))
      with (Z.min (Z.of_nat (List.length cs)) (size - 1)) by lia.
    rewrite update_splice_0 by lia. reflexivity.
  - unfold within. rewrite Hb, Hm, Hend, splice_length. lia.
Qed.

(** A format that is plain text followed by one sequence of a single
    character [d], which puts out [cs]. *)
Lemma last_directive U initial_buf size lit d a args cs :
  plain lit = true ->
  size = Z.of_nat (List.length initial_buf) -> 1 <= size < 2 ^ 31 ->
  d <> Vfs.NUL ->
  is_chr d "%" || (128 <=? code d) = false ->
  (forall st,
     room st -> default_flags st -> Printk.args st = a :: args ->
     exists st0,
       buf st0 = buf st /\ mem st0 = mem st /\ buf_end st0 = buf_end st /\
       step U (lit ++ String "%" (String d EmptyString)) Next_char_in_seq
         (Z.of_nat (S (String.length lit))) st =
       match emit cs st0 with
       | Ok (ok, st') =>
           Ok ((if ok then End_sequence else Out,
                Z.of_nat (S (String.length lit))), st')
       | Stop e => Stop e
       end) ->
  vsnprintk U initial_buf size (lit ++ String "%" (String d EmptyString))
    (a :: args) =
  printed initial_buf size (list_ascii_of_string lit ++ cs).
Proof.
  intros Hp Hsize Hrange Hnn Hd Hstep.
  set (fmt := (lit ++ String "%" (String d EmptyString))%string) in *.
  set (n := String.length lit) in *.
  set (ctx := {| args := a :: args; width := pw_default; left_padding := 0;
                 right_padding := 0; buf := 0; buf_end := 0 + size;
                 zero_lpad := false; hash_sign := false;
                 intbuf := EmptyString; mem := initial_buf |}).
  pose proof (initial_room (a :: args) size initial_buf Hsize ltac:(lia))
    as Hroom. fold ctx in Hroom.
  assert (Hlen : Vfs.strlen fmt = Z.of_nat n + 2).
  { unfold fmt. rewrite strlen_app by assumption.
    cbn [Vfs.strlen]. change (Ascii.eqb "%" Vfs.NUL) with false. cbv iota.
    apply Ascii.eqb_neq in Hnn. rewrite Hnn. fold n. lia. }
  assert (Hfuel : exists f, (enough_fuel fmt - n = S (S (S (S f))))%nat).
  { exists (enough_fuel fmt - n - 4)%nat.
    unfold enough_fuel, fmt. rewrite length_append. fold n. lia. }
  destruct Hfuel as [f Hfuel].
  pose proof (exec_literal U fmt lit _ 0 (enough_fuel fmt) ctx Hp
                (advance_0 fmt) (strlen_nonneg fmt) Hroom ltac:(fold n; lia))
    as Hlit.
  change (Z.of_nat 0) with 0 in Hlit. cbn [Nat.add] in Hlit. fold n in Hlit.
  destruct (emit_ok (list_ascii_of_string lit) ctx) as (ok1 & st1 & E1).
  rewrite E1 in Hlit.
  destruct (emit_keeps _ _ _ _ (within_room _ Hroom) E1) as (Hw1 & He1 & Hr1).
  destruct (emit_fields _ _ _ _ E1) as (Hok1 & Hb1 & Hm1 & _ & Ha1 & Hf1).
  rewrite list_ascii_length in Hok1, Hb1. fold n in Hok1, Hb1.
  change (buf ctx) with 0 in *. change (buf_end ctx) with (0 + size) in *.
  change (mem ctx) with initial_buf in *. cbn [Z.to_nat] in Hm1.
  change (Printk.args ctx) with (a :: args) in Ha1.
  specialize (Hf1 ltac:(unfold default_flags, ctx; cbn; auto)).
  pose proof (list_ascii_length lit) as Hll. fold n in Hll.
  assert (Hfinal : exists st,
            exec U (enough_fuel fmt) fmt Loop 0 ctx = Ok (tt, st) /\
            buf st = Z.min (Z.of_nat n + Z.of_nat (List.length cs)) size /\
            mem st = splice initial_buf 0 (list_ascii_of_string lit ++ cs) /\
            buf_end st = size).
  { destruct ok1; symmetry in Hok1.
    - (* the text fits *)
      apply Z.ltb_lt in Hok1. specialize (Hr1 eq_refl).
      rewrite Hlit, Hfuel.
      assert (Ha : Vfs.advance fmt n = String "%" (String d EmptyString))
        by apply advance_app.
      rewrite (exec_S U _ fmt Loop _ st1 _ _ _ ltac:(discriminate)
                 (step_percent U fmt n _ st1 Ha ltac:(lia) Hd)).
      destruct (Hstep st1 Hr1 Hf1 Ha1) as (st0 & Hb0 & Hm0 & He0 & Hs).
      destruct (emit_ok cs st0) as (ok2 & st2 & E2). rewrite E2 in Hs.
      rewrite (exec_S U _ fmt Next_char_in_seq _ st1 _ _ _ ltac:(discriminate)
                 Hs).
      destruct (emit_fields _ _ _ _ E2) as (Hok2 & Hb2 & Hm2 & He2 & _).
      assert (Hbuf2 : buf st2 =
                      Z.min (Z.of_nat n + Z.of_nat (List.length cs)) size).
      { rewrite Hb2, Hb0, He0, He1, Hb1. lia. }
      assert (Hmem2 : mem st2 =
                      splice initial_buf 0 (list_ascii_of_string lit ++ cs)).
      { rewrite Hm2, Hm0, Hb0, Hm1, Hb1.
        replace (Z.to_nat (Z.min (0 + Z.of_nat n) (0 + size))) with (0 + n)%nat
          by lia.
        rewrite <- Hll. apply splice_splice. lia. }
      assert (Hend2 : buf_end st2 = size) by (rewrite He2, He0, He1; lia).
      destruct ok2.
      + destruct (step_end_keeps U fmt (Z.of_nat (S n)) st2)
          as (st3 & Hs3 & Hb3 & He3 & Hm3).
        rewrite (exec_S U _ fmt End_sequence _ st2 _ _ _ ltac:(discriminate)
                   Hs3).
        replace (Z.of_nat (S n) + 1) with (Z.of_nat (S (S n))) by lia.
        assert (Ha2 : Vfs.advance fmt (S (S n)) = EmptyString).
        { apply (advance_S (S n) fmt d).
          now apply (advance_S n fmt "%"%char). }
        rewrite (exec_S U _ fmt Loop _ st3 _ _ _ ltac:(discriminate)
                   (step_loop_end U fmt (S (S n)) st3 ltac:(lia) Ha2)).
        rewrite exec_out. exists st3. unfold ret.
        repeat split; congruence.
      + rewrite exec_out. exists st2. unfold ret. repeat split; assumption.
    - apply Z.ltb_ge in Hok1. exists st1. rewrite Hlit.
      split; [reflexivity|]. split; [lia|]. split; [|lia].
      rewrite Hm1. symmetry. apply splice_cut. lia. }
  destruct Hfinal as (st & Hexec & Hbuf & Hmem & Hend).
  apply (vsnprintk_emitted U initial_buf size fmt (a :: args) _ st);
    try assumption.
  rewrite length_app, Nat2Z.inj_add, Hll. exact Hbuf.
Qed.

(** Plain text followed by [%s], with a string as the first argument: the
    text and the characters of the string are put out, as far as [size]
    allows. *)
Theorem vsnprintk_string U initial_buf size lit s args :
  plain lit = true ->
  size = Z.of_nat (List.length initial_buf) -> 1 <= size < 2 ^ 31 ->
  Vfs.strlen s < 2 ^ 31 ->
  vsnprintk U initial_buf size (lit ++ "%s") (Arg_str s :: args) =
  printed initial_buf size (list_ascii_of_string lit ++ chars s).
Proof.
  intros Hp Hsize Hrange Hs.
  apply last_directive; try assumption; try reflexivity; try discriminate.
  intros st Hr Hf Ha.
  apply (step_next_s U _ _ EmptyString s args st); try assumption.
  - apply (advance_S (String.length lit) _ "%"%char). apply advance_app.
  - rewrite strlen_app by assumption. cbn. lia.
Qed.

Lemma vsnprintk_string_witness :
  vsnprintk demo_util (blank 8) 8 "id=%s" [Arg_str "root"] =
  Ok (7, ["i"; "d"; "="; "r"; "o"; "o"; "t"; Vfs.NUL]%char).
Proof.
  apply (vsnprintk_string demo_util (blank 8) 8 "id=" "root" []);
    [reflexivity | reflexivity | lia | cbn; lia].
Defined.

(** Plain text followed by [%c], with an integer as the first argument:
    the text and the integer reduced to a [char] are put out, as far as
    [size] allows; a [char] that is 0 puts out nothing. *)
Theorem vsnprintk_character U initial_buf size lit v args :
  plain lit = true ->
  size = Z.of_nat (List.length initial_buf) -> 1 <= size < 2 ^ 31 ->
  vsnprintk U initial_buf size (lit ++ "%c") (Arg_int v :: args) =
  printed initial_buf size
    (list_ascii_of_string lit ++
     (if Ascii.eqb (to_char v) Vfs.NUL then [] else [to_char v])).
Proof.
  intros Hp Hsize Hrange.
  replace (if Ascii.eqb (to_char v) Vfs.NUL then [] else [to_char v])
    with (chars (String (to_char v) EmptyString))
    by (cbn [chars]; now destruct (Ascii.eqb (to_char v) Vfs.NUL)).
  apply last_directive; try assumption; try reflexivity; try discriminate.
  intros st Hr Hf Ha.
  apply (step_next_c U _ _ EmptyString v args st); try assumption.
  - apply (advance_S (String.length lit) _ "%"%char). apply advance_app.
  - rewrite strlen_app by assumption. cbn. lia.
Qed.

Lemma vsnprintk_character_witness :
  vsnprintk demo_util (blank 4) 4 "<%c" [Arg_int 321] =
  Ok (2, ["<"; "A"; Vfs.NUL; " "]%char).
Proof.
  apply (vsnprintk_character demo_util (blank 4) 4 "<" 321 []);
    [reflexivity | reflexivity | lia].
Defined.

(** **** Output that fits *)

Lemma emit_fits cs st : fits cs st -> emit cs st = Ok (true, put cs st).
Proof.
  intros [[Hb He] Hf]. unfold emit, put.
  destruct (Z.ltb_spec (buf st + Z.of_nat (List.length cs)) (buf_end st));
    [|lia].
  now replace (Z.min (buf st + Z.of_nat (List.length cs)) (buf_end st))
    with (buf st + Z.of_nat (List.length cs)) by lia.
Qed.

Lemma fits_room cs st : fits cs st -> room st.
Proof. intros [Hw Hf]. split; [assumption | lia]. Qed.

Lemma within_put cs st : fits cs st -> within (put cs st).
Proof.
  intros [[Hb He] Hf]. unfold within, put. ctx_cbn.
  rewrite splice_length. lia.
Qed.

Lemma write_in_buf_char_put c st :
  fits [c] st -> write_in_buf_char c st = Ok (true, put [c] st).
Proof.
  intros H. rewrite write_in_buf_char_emit by now apply (fits_room [c]).
  now apply emit_fits.
Qed.

Lemma exec_step U fuel fmt l i st l' i' st' :
  (1 <= fuel)%nat -> l <> Out -> step U fmt l i st = Ok ((l', i'), st') ->
  exec U fuel fmt l i st = exec U (fuel - 1) fmt l' i' st'.
Proof.
  intros Hf Hl Hs. destruct fuel as [|fuel]; [lia|].
  cbn [Nat.sub]. rewrite Nat.sub_0_r. now apply exec_S.
Qed.

(** The loop on a stretch of plain text that fits. *)
Lemma exec_literal_put U fmt lit rest n fuel st :
  plain lit = true ->
  Vfs.advance fmt n = (lit ++ rest)%string ->
  Z.of_nat n <= Vfs.strlen fmt ->
  fits (list_ascii_of_string lit) st ->
  (String.length lit <= fuel)%nat ->
  exec U fuel fmt Loop (Z.of_nat n) st =
  exec U (fuel - String.length lit) fmt Loop
    (Z.of_nat (n + String.length lit)) (put (list_ascii_of_string lit) st).
Proof.
  intros Hp Ha Hn Hf Hfuel.
  rewrite (exec_literal U fmt lit rest n fuel st Hp Ha Hn
             (fits_room _ _ Hf) Hfuel).
  now rewrite emit_fits.
Qed.

(** The test of the loop at a percent sign that is followed by a second one,
    or by a character that is not ASCII: the character is copied. *)
Lemma step_copy U fmt n c r st :
  Vfs.advance fmt n = String "%" (String c r) ->
  Z.of_nat n + 2 <= Vfs.strlen fmt ->
  is_chr c "%" || (128 <=? code c) = true ->
  fits [c] st ->
  step U fmt Loop (Z.of_nat n) st = Ok ((Loop, Z.of_nat (n + 2)), put [c] st).
Proof.
  intros Ha Hn Hc Hf. cbn [step]. unfold bind at 1.
  rewrite fmt_at_advance, Ha by lia. cbn [first_char].
  change (Ascii.eqb "%" Vfs.NUL) with false.
  change (negb (is_chr "%" "%")) with false. cbv iota.
  unfold bind at 1.
  replace (Z.of_nat n + 1) with (Z.of_nat (S n)) by lia.
  rewrite fmt_at_advance by lia.
  rewrite (advance_S n fmt _ _ Ha). cbn [first_char]. rewrite Hc.
  unfold WRITE_CHAR, bind. rewrite write_in_buf_char_put by assumption.
  cbn [negb]. unfold ret. repeat f_equal. lia.
Qed.

Lemma step_end_reset U fmt i st :
  step U fmt End_sequence i st = Ok ((Loop, i + 1), reset st).
Proof. reflexivity. Qed.

Lemma code_eqb a b : (code a =? code b) = Ascii.eqb a b.
Proof.
  unfold code. destruct (Ascii.eqb_spec a b) as [->|Hn].
  - apply Z.eqb_refl.
  - apply Z.eqb_neq. intros H. apply Hn.
    apply N2Z.inj in H.
    now rewrite <- (ascii_N_embedding a), <- (ascii_N_embedding b), H.
Qed.

Lemma diuox_base_ascii c st :
  code c < 128 -> diuox_base (code c) st = Ok (base_of c, st).
Proof.
  intros H. unfold diuox_base, base_of, is_chr.
  assert (H0 : 0 <= code c) by (unfold code; lia).
  destruct (Z.leb_spec 0 (code c)); [|lia].
  destruct (Z.ltb_spec (code c) 128); [|lia].
  cbn [andb]. now rewrite !code_eqb.
Qed.

Lemma splice_splice_Z m k a z b :
  z = Z.of_nat (k + List.length a) ->
  (k + List.length a <= List.length m)%nat ->
  splice (splice m k a) (Z.to_nat z) b = splice m k (a ++ b).
Proof.
  intros -> H. rewrite Nat2Z.id. now apply splice_splice.
Qed.

(** The fields of a state that is given by the steps that led to it. *)
Ltac fields :=
  cbn [args width left_padding right_padding buf buf_end zero_lpad hash_sign
       mem put reset set_buf set_mem set_args set_width set_left_padding
       set_right_padding set_zero_lpad set_hash_sign set_intbuf].

(** The side conditions of a run: where [fmt] is, and what fits. *)
Ltac side0 :=
  solve
    [ eassumption
    | match goal with
      | H : forall j, Vfs.advance _ (_ + j) = _ |- Vfs.advance _ _ = _ =>
          rewrite H; reflexivity
      end
    | unfold fits, within, room, paddings_fit; fields;
      rewrite ?splice_length, ?length_app, ?list_ascii_length,
        ?repeat_length;
      cbn [List.length first_char];
      first [ eassumption | reflexivity | discriminate | lia
            | split; [split|]; lia
            | repeat split; lia ] ].

Ltac side := try side0.

Lemma splice_put_Z m a z b :
  z = Z.of_nat (List.length a) -> (List.length a <= List.length m)%nat ->
  splice (splice m 0 a) (Z.to_nat z) b = splice m 0 (a ++ b).
Proof. intros Hz H. apply splice_splice_Z; [exact Hz | exact H]. Qed.

(** The array at the end of a run, as one stretch of characters. *)
Ltac one_stretch :=
  fields; cbn [Z.to_nat];
  repeat (rewrite splice_put_Z
            by (rewrite ?length_app, ?list_ascii_length, ?repeat_length;
                cbn [List.length]; lia));
  rewrite <- ?app_assoc; cbn [app]; try reflexivity.

(** What [vsnprintk] returns when the loop has put out [cs], and all of it
    fits. *)
Lemma vsnprintk_put U initial_buf size fmt args cs st :
  size = Z.of_nat (List.length initial_buf) -> size < 2 ^ 31 ->
  Z.of_nat (List.length cs) < size ->
  exec U (enough_fuel fmt) fmt Loop 0
    {| args := args; width := pw_default; left_padding := 0;
       right_padding := 0; buf := 0; buf_end := 0 + size;
       zero_lpad := false; hash_sign := false;
       intbuf := EmptyString; mem := initial_buf |} = Ok (tt, st) ->
  buf st = Z.of_nat (List.length cs) ->
  mem st = splice initial_buf 0 cs ->
  buf_end st = 0 + size ->
  vsnprintk U initial_buf size fmt args = printed initial_buf size cs.
Proof.
  intros Hsize Hrange Hfit He Hb Hm Hend.
  apply (vsnprintk_emitted U initial_buf size fmt args cs st);
    try assumption; lia.
Qed.

Lemma exec_step_to U fuel fmt l i st l' i' st' r :
  step U fmt l i st = Ok ((l', i'), st') -> l <> Out -> (1 <= fuel)%nat ->
  exec U (fuel - 1) fmt l' i' st' = r ->
  exec U fuel fmt l i st = r.
Proof. intros Hs Hl Hf <-. now apply exec_step. Qed.

Lemma exec_literal_to U fmt lit rest n fuel st r :
  plain lit = true ->
  Vfs.advance fmt n = (lit ++ rest)%string ->
  Z.of_nat n <= Vfs.strlen fmt ->
  fits (list_ascii_of_string lit) st ->
  (String.length lit <= fuel)%nat ->
  exec U (fuel - String.length lit) fmt Loop
    (Z.of_nat (n + String.length lit)) (put (list_ascii_of_string lit) st) = r ->
  exec U fuel fmt Loop (Z.of_nat n) st = r.
Proof. intros Hp Ha Hn Hf Hfuel <-. now apply (exec_literal_put U fmt lit rest). Qed.

Lemma exec_end_to U fmt n fuel st :
  Vfs.advance fmt n = EmptyString ->
  Z.of_nat n <= Vfs.strlen fmt ->
  (1 <= fuel)%nat ->
  exec U fuel fmt Loop (Z.of_nat n) st = Ok (tt, st).
Proof.
  intros Ha Hn Hf.
  rewrite (exec_step U fuel fmt Loop _ st _ _ _ Hf ltac:(discriminate)
             (step_loop_end U fmt n st Hn Ha)).
  now rewrite exec_out.
Qed.

Lemma step_end_nat U fmt n st :
  step U fmt End_sequence (Z.of_nat n) st = Ok ((Loop, Z.of_nat (S n)), reset st).
Proof. rewrite step_end_reset. repeat f_equal. lia. Qed.

(** [fmt] is at offset [k]. *)
Ltac at_index k :=
  match goal with
  | |- exec _ _ _ _ (Z.of_nat ?j) _ = _ => replace j with k by lia
  end.

(** One jump of the loop, by the lemma [L]. *)
Ltac jump L :=
  eapply exec_step_to; [eapply L; side | discriminate | lia |].

Ltac jump_strict L :=
  eapply exec_step_to; [eapply L; side0 | discriminate | lia |].

(** [fmt] is at an offset [len + j]. *)
Ltac norm_index len :=
  match goal with
  | |- exec _ _ _ _ (Z.of_nat ?j) _ = _ =>
      first [ replace j with (len + 0)%nat by lia
            | replace j with (len + 1)%nat by lia
            | replace j with (len + 2)%nat by lia
            | replace j with (len + 3)%nat by lia
            | replace j with (len + 4)%nat by lia ]
  end.

(** Two percent signs put out one, and the text goes on. *)
Theorem vsnprintk_percent_percent U initial_buf size lit lit2 args :
  plain lit = true -> plain lit2 = true ->
  size = Z.of_nat (List.length initial_buf) -> size < 2 ^ 31 ->
  Z.of_nat (String.length lit + 1 + String.length lit2) < size ->
  vsnprintk U initial_buf size (lit ++ "%%" ++ lit2) args =
  printed initial_buf size
    (list_ascii_of_string lit ++ "%"%char :: list_ascii_of_string lit2).
Proof.
  intros Hp Hp2 Hsize Hrange Hfit.
  set (fmt := (lit ++ "%%" ++ lit2)%string).
  set (n := String.length lit) in *. set (n2 := String.length lit2) in *.
  assert (Hlen : Vfs.strlen fmt = Z.of_nat (n + 2 + n2)).
  { unfold fmt. rewrite strlen_app by assumption.
    cbn [String.append Vfs.strlen].
    change (Ascii.eqb "%" Vfs.NUL) with false. cbv iota.
    rewrite (plain_strlen lit2 Hp2). fold n n2. lia. }
  assert (Hfuel : (n + 1 + n2 + 1 <= enough_fuel fmt)%nat).
  { unfold enough_fuel, fmt. rewrite !length_append. fold n n2.
    cbn [String.length]. lia. }
  assert (Ha : Vfs.advance fmt n = ("%%" ++ lit2)%string) by apply advance_app.
  cbn [String.append] in Ha.
  assert (Ha2 : Vfs.advance fmt (n + 2) = (lit2 ++ EmptyString)%string).
  { rewrite append_empty. replace (n + 2)%nat with (S (S n)) by lia.
    apply (advance_S (S n) fmt "%"%char). now apply (advance_S n fmt "%"%char). }
  assert (Ha3 : Vfs.advance fmt (n + 2 + n2) = EmptyString).
  { replace (n + 2 + n2)%nat with (String.length fmt); [apply advance_to_end|].
    unfold fmt. rewrite !length_append. fold n n2. cbn [String.length]. lia. }
  pose proof (list_ascii_length lit) as Hl. fold n in Hl.
  pose proof (list_ascii_length lit2) as Hl2. fold n2 in Hl2.
  eapply vsnprintk_put; try eassumption.
  - rewrite length_app. cbn [List.length]. lia.
  - change 0 with (Z.of_nat 0) at 1.
    eapply exec_literal_to;
      [exact Hp | apply advance_0 | lia | side | fold n; lia |].
    fold n. at_index n.
    jump step_copy.
    eapply exec_literal_to; [exact Hp2 | exact Ha2 | lia | side | fold n2; lia |].
    fold n2.
    apply exec_end_to; [exact Ha3 | lia | lia].
  - fields. rewrite length_app. cbn [List.length]. lia.
  - one_stretch.
  - reflexivity.
Qed.

Lemma vsnprintk_percent_percent_witness :
  vsnprintk demo_util (blank 8) 8 "50%% ok" [] =
  Ok (6, ["5"; "0"; "%"; " "; "o"; "k"; Vfs.NUL; " "]%char).
Proof.
  apply (vsnprintk_percent_percent demo_util (blank 8) 8 "50" " ok" []);
    [reflexivity | reflexivity | reflexivity | lia | cbn; lia].
Defined.

(** **** The places of a sequence *)

Lemma write_str_put fmtX str st :
  paddings_fit st str -> fits (rendered st fmtX str) st ->
  write_str fmtX str st = Ok (true, put (rendered st fmtX str) st).
Proof.
  intros (Hs & Hl & Hr & Hone) Hf.
  destruct (write_str_cases fmtX str st (fits_room _ _ Hf) Hs Hl Hr)
    as [Hw _].
  rewrite (Hw Hone). now apply emit_fits.
Qed.

Lemma rendered_plain st fmtX str :
  left_padding st = 0 -> right_padding st = 0 ->
  zero_lpad st = false -> hash_sign st = false -> is_chr fmtX "p" = false ->
  rendered st fmtX str = chars str.
Proof.
  intros Hl Hp Hz Hh Hx. pose proof (strlen_nonneg str).
  unfold rendered. rewrite Hl, Hp, Hz, Hh, Hx. cbn [andb orb negb].
  replace (Z.max 0 (Z.max 0 (0 - Vfs.strlen str) - 0)) with 0 by lia.
  cbn [Z.to_nat repeat app]. now rewrite app_nil_r.
Qed.

(** [next_char_in_seq] at a character that the [switch] has no [case]
    for. *)
Lemma step_next_default U fmt n c r st :
  Vfs.advance fmt n = String c r ->
  Z.of_nat n <= Vfs.strlen fmt ->
  code c < 128 -> base_of c = 0 -> switch c = Case_default ->
  step U fmt Next_char_in_seq (Z.of_nat n) st = Ok ((Unknown_seq, Z.of_nat n), st).
Proof.
  intros Ha Hn Hc Hb Hs. cbn [step]. unfold bind at 1.
  rewrite fmt_at_advance, Ha by lia. cbn [first_char].
  unfold bind at 1. rewrite diuox_base_ascii, Hb by assumption.
  change (negb (0 =? 0)) with false. cbv iota. now rewrite Hs.
Qed.

(** [unknown_seq] without [#]: the percent sign and the character are put
    out. *)
Lemma step_unknown_put U fmt n c r st :
  Vfs.advance fmt n = String c r ->
  Z.of_nat n <= Vfs.strlen fmt ->
  hash_sign st = false ->
  fits ["%"; c]%char st ->
  step U fmt Unknown_seq (Z.of_nat n) st =
  Ok ((End_sequence, Z.of_nat n), put [c] (put ["%"%char] st)).
Proof.
  intros Ha Hn Hh [Hw Hf]. cbn [List.length] in Hf.
  cbn [step]. unfold WRITE_CHAR at 1. unfold bind at 1.
  rewrite write_in_buf_char_put by (split; [assumption | cbn [List.length]; lia]).
  cbn [negb]. unfold bind at 1, get.
  replace (hash_sign (put ["%"%char] st)) with false by (symmetry; exact Hh).
  unfold bind at 1. rewrite fmt_at_advance, Ha by lia. cbn [first_char].
  unfold WRITE_CHAR, bind.
  rewrite write_in_buf_char_put; [reflexivity|].
  split.
  - apply within_put. split; [assumption | cbn [List.length]; lia].
  - unfold put. ctx_cbn. cbn [List.length]. lia.
Qed.

(** [next_char_in_seq] at a character of a length modifier. *)
Lemma step_next_modifier U fmt n c r st w :
  Vfs.advance fmt n = String c r ->
  Z.of_nat n < Vfs.strlen fmt ->
  code c < 128 -> base_of c = 0 ->
  modifier_step (switch c) (width st) = Some w ->
  step U fmt Next_char_in_seq (Z.of_nat n) st =
  Ok (if Ascii.eqb (first_char r) Vfs.NUL then ((Out, Z.of_nat (S n)), st)
      else ((Next_char_in_seq, Z.of_nat (S n)), set_width w st)).
Proof.
  intros Ha Hn Hc Hb Hm. cbn [step]. unfold bind at 1.
  rewrite fmt_at_advance, Ha by lia. cbn [first_char].
  unfold bind at 1. rewrite diuox_base_ascii, Hb by assumption.
  change (negb (0 =? 0)) with false. cbv iota.
  replace (Z.of_nat n + 1) with (Z.of_nat (S n)) by lia.
  assert (Hu : forall w' s,
            unless_truncated fmt (Z.of_nat (S n))
              (modify (set_width w') ;; ret (Next_char_in_seq, Z.of_nat (S n)))
              s =
            Ok (if Ascii.eqb (first_char r) Vfs.NUL
                then ((Out, Z.of_nat (S n)), s)
                else ((Next_char_in_seq, Z.of_nat (S n)), set_width w' s))).
  { intros w' s. unfold unless_truncated, bind at 1.
    rewrite fmt_at_advance by lia. rewrite (advance_S n fmt _ _ Ha).
    now destruct (Ascii.eqb (first_char r) Vfs.NUL). }
  destruct (switch c); cbn [modifier_step] in Hm; try discriminate.
  - assert (w = pw_long) as -> by congruence. apply Hu.
  - assert (w = pw_long_long) as -> by congruence. apply Hu.
  - unfold bind at 1, get. destruct (width st); try discriminate.
    + assert (w = pw_long_long) as -> by congruence. apply Hu.
    + assert (w = pw_long) as -> by congruence. apply Hu.
  - unfold bind at 1, get. destruct (width st); try discriminate.
    + assert (w = pw_short) as -> by congruence. apply Hu.
    + assert (w = pw_char) as -> by congruence. apply Hu.
Qed.

Lemma va_arg_int_ok v rest st :
  args st = Arg_int v :: rest -> va_arg_int st = Ok (v, set_args rest st).
Proof. intros H. unfold va_arg_int, bind, get. now rewrite H. Qed.

Lemma va_arg_str_ok s rest st :
  args st = Arg_str s :: rest -> va_arg_str st = Ok (s, set_args rest st).
Proof. intros H. unfold va_arg_str, bind, get. now rewrite H. Qed.

Lemma fill_intbuf_ok s st :
  Vfs.strlen s < 64 -> fill_intbuf s st = Ok (tt, set_intbuf s st).
Proof.
  intros H. unfold fill_intbuf.
  now destruct (Z.ltb_spec (Vfs.strlen s) 64); [|lia].
Qed.

(** [next_char_in_seq] at one of [d], [i], [u], [o], [x], with an integer as
    the next argument. *)
Lemma step_next_number U fmt n d r v rest st w cs :
  Vfs.advance fmt n = String d r ->
  Z.of_nat n <= Vfs.strlen fmt ->
  code d < 128 -> base_of d <> 0 ->
  args st = Arg_int v :: rest ->
  width st = w ->
  Vfs.strlen (converted U w d v) < 64 ->
  paddings_fit st (converted U w d v) ->
  rendered st d (converted U w d v) = cs ->
  fits cs st ->
  step U fmt Next_char_in_seq (Z.of_nat n) st =
  Ok ((End_sequence, Z.of_nat n),
      put cs (set_intbuf (converted U w d v) (set_args rest st))).
Proof.
  intros Ha Hn Hc Hb Hargs <- Hlen Hpad <- Hfit.
  set (s := converted U (width st) d v) in *.
  cbn [step]. unfold bind at 1.
  rewrite fmt_at_advance, Ha by lia. cbn [first_char].
  unfold bind at 1. rewrite diuox_base_ascii by assumption.
  apply Z.eqb_neq in Hb. rewrite Hb. cbn [negb].
  unfold bind at 1.
  assert (Hw : write_number_param U d st =
               Ok (true, put (rendered st d s)
                           (set_intbuf s (set_args rest st)))).
  { unfold write_number_param. unfold bind at 1, get.
    unfold bind at 1. rewrite diuox_base_ascii by assumption.
    rewrite Hb. cbn [negb]. unfold ASSERT. unfold bind at 1, ret at 1.
    assert (Hconv :
      (if is_chr d "d" || is_chr d "i"
       then
         match width st with
         | pw_long_long => v0 <- va_arg_int ;; fill_intbuf (itoa64 U v0)
         | _ => v0 <- va_arg_int ;;
                fill_intbuf
                  (itoaN U (sign_extend U v0 (width_val U (width st))))
         end
       else
         match width st with
         | pw_long_long =>
             v0 <- va_arg_int ;; fill_intbuf (uitoa64 U v0 (base_of d))
         | _ => v0 <- va_arg_int ;;
                fill_intbuf
                  (uitoaN U
                     (Z.land v0 (make_bitmask U (width_val U (width st))))
                     (base_of d))
         end) st = Ok (tt, set_intbuf s (set_args rest st))).
    { unfold s, converted in *.
      destruct (is_chr d "d" || is_chr d "i"); destruct (width st);
        unfold bind; rewrite (va_arg_int_ok v rest st Hargs);
        now rewrite fill_intbuf_ok. }
    unfold bind at 1. rewrite Hconv.
    unfold bind, get. cbn [intbuf set_intbuf].
    exact (write_str_put d s (set_intbuf s (set_args rest st)) Hpad Hfit). }
  now rewrite Hw.
Qed.

(** [next_char_in_seq] at [s], with a string as the next argument, under
    any flags. *)
Lemma step_next_str U fmt n r s rest st cs :
  Vfs.advance fmt n = String "s" r ->
  Z.of_nat n <= Vfs.strlen fmt ->
  args st = Arg_str s :: rest ->
  paddings_fit st s -> rendered st "s" s = cs -> fits cs st ->
  step U fmt Next_char_in_seq (Z.of_nat n) st =
  Ok ((End_sequence, Z.of_nat n), put cs (set_args rest st)).
Proof.
  intros Ha Hn Hargs Hpad <- Hfit. cbn [step]. unfold bind at 1.
  rewrite fmt_at_advance, Ha by lia. cbn [first_char].
  change (diuox_base (code "s")) with (@ret Z 0).
  unfold bind at 1, ret at 1.
  change (negb (0 =? 0)) with false. cbv iota.
  change (switch "s") with Case_s. cbv iota.
  unfold bind at 1. unfold write_string_param.
  unfold bind at 1. rewrite (va_arg_str_ok s rest st Hargs).
  now rewrite (write_str_put "s" s (set_args rest st) Hpad Hfit).
Qed.

(** [next_char_in_seq] at [p], with an integer as the next argument. *)
Lemma step_next_ptr U fmt n r v rest st cs :
  Vfs.advance fmt n = String "p" r ->
  Z.of_nat n <= Vfs.strlen fmt ->
  args st = Arg_int v :: rest ->
  Vfs.strlen (uitoaN_hex_fixed U v) < 64 ->
  paddings_fit st (uitoaN_hex_fixed U v) ->
  rendered st "p" (uitoaN_hex_fixed U v) = cs ->
  fits cs st ->
  step U fmt Next_char_in_seq (Z.of_nat n) st =
  Ok ((End_sequence, Z.of_nat n),
      put cs (set_intbuf (uitoaN_hex_fixed U v) (set_args rest st))).
Proof.
  intros Ha Hn Hargs Hlen Hpad <- Hfit. cbn [step]. unfold bind at 1.
  rewrite fmt_at_advance, Ha by lia. cbn [first_char].
  change (diuox_base (code "p")) with (@ret Z 0).
  unfold bind at 1, ret at 1.
  change (negb (0 =? 0)) with false. cbv iota.
  change (switch "p") with Case_p. cbv iota.
  unfold bind at 1. unfold write_pointer_param.
  unfold bind at 1. rewrite (va_arg_int_ok v rest st Hargs).
  unfold bind at 1. rewrite fill_intbuf_ok by assumption.
  unfold bind at 1, get. cbn [intbuf set_intbuf].
  now rewrite (write_str_put "p" _
                 (set_intbuf (uitoaN_hex_fixed U v) (set_args rest st))
                 Hpad Hfit).
Qed.

Lemma case_1_9_ascii c :
  switch c = Case_1_9 -> code c < 128 /\ base_of c = 0.
Proof.
  destruct c as [[] [] [] [] [] [] [] []]; cbv; intros H;
    first [discriminate | split; reflexivity].
Qed.

(** [next_char_in_seq] at a digit from 1 to 9: the number that
    [tilck_strtol] reads is the left padding. *)
Lemma step_next_width U fmt n c r w k st :
  Vfs.advance fmt n = String c r ->
  switch c = Case_1_9 ->
  tilck_strtol U fmt (Z.of_nat n) = (w, Z.of_nat k) ->
  Z.of_nat n <= Vfs.strlen fmt -> Z.of_nat k <= Vfs.strlen fmt ->
  first_char (Vfs.advance fmt k) <> Vfs.NUL ->
  step U fmt Next_char_in_seq (Z.of_nat n) st =
  Ok ((Next_char_in_seq, Z.of_nat k), set_left_padding (to_int w) st).
Proof.
  intros Ha Hs Ht Hn Hk Hc. destruct (case_1_9_ascii c Hs) as [Hc1 Hb].
  cbn [step]. unfold bind at 1.
  rewrite fmt_at_advance, Ha by lia. cbn [first_char].
  unfold bind at 1. rewrite diuox_base_ascii, Hb by assumption.
  change (negb (0 =? 0)) with false. cbv iota. rewrite Hs, Ht.
  unfold bind at 1, modify. unfold unless_truncated, bind.
  rewrite fmt_at_advance by assumption.
  apply Ascii.eqb_neq in Hc. now rewrite Hc.
Qed.

(** [next_char_in_seq] at a minus sign: the number that [tilck_strtol] reads
    behind it is the right padding. *)
Lemma step_next_minus U fmt n r w k st :
  Vfs.advance fmt n = String "-" r ->
  tilck_strtol U fmt (Z.of_nat n + 1) = (w, Z.of_nat k) ->
  Z.of_nat n <= Vfs.strlen fmt -> Z.of_nat k <= Vfs.strlen fmt ->
  first_char (Vfs.advance fmt k) <> Vfs.NUL ->
  step U fmt Next_char_in_seq (Z.of_nat n) st =
  Ok ((Next_char_in_seq, Z.of_nat k), set_right_padding (to_int w) st).
Proof.
  intros Ha Ht Hn Hk Hc.
  cbn [step]. unfold bind at 1.
  rewrite fmt_at_advance, Ha by lia. cbn [first_char].
  change (diuox_base (code "-")) with (@ret Z 0).
  unfold bind at 1, ret at 1.
  change (negb (0 =? 0)) with false. cbv iota.
  change (switch "-") with Case_minus. cbv iota. rewrite Ht.
  unfold bind at 1, modify. unfold unless_truncated, bind.
  rewrite fmt_at_advance by assumption.
  apply Ascii.eqb_neq in Hc. now rewrite Hc.
Qed.

(** [next_char_in_seq] at a [#] that follows the percent sign, with more
    of the format behind. *)
Lemma step_next_hash U fmt n r st :
  Vfs.advance fmt n = String "%" (String "#" r) ->
  Z.of_nat n + 2 <= Vfs.strlen fmt ->
  hash_sign st = false ->
  first_char r <> Vfs.NUL ->
  step U fmt Next_char_in_seq (Z.of_nat (S n)) st =
  Ok ((Next_char_in_seq, Z.of_nat (S (S n))), set_hash_sign true st).
Proof.
  intros Ha Hn Hh Hc.
  pose proof (advance_S n fmt _ _ Ha) as Ha1.
  pose proof (advance_S (S n) fmt _ _ Ha1) as Ha2.
  cbn [step]. unfold bind at 1.
  rewrite fmt_at_advance, Ha1 by lia. cbn [first_char].
  change (diuox_base (code "#")) with (@ret Z 0).
  unfold bind at 1, ret at 1.
  change (negb (0 =? 0)) with false. cbv iota.
  change (switch "#") with Case_hash. cbv iota.
  unfold bind at 1, get. rewrite Hh.
  unfold bind at 1.
  replace (Z.of_nat (S n) - 1) with (Z.of_nat n) by lia.
  rewrite fmt_at_advance, Ha by lia. cbn [first_char].
  change (negb (is_chr "%" "%")) with false. cbv iota.
  unfold bind at 1.
  replace (Z.of_nat (S n) + 1) with (Z.of_nat (S (S n))) by lia.
  rewrite fmt_at_advance, Ha2 by lia.
  apply Ascii.eqb_neq in Hc. rewrite Hc.
  reflexivity.
Qed.

(** **** Sequences in a format *)

Lemma advance_add n : forall fmt k,
  Vfs.advance fmt (n + k) = Vfs.advance (Vfs.advance fmt n) k.
Proof.
  induction n as [|n IH]; intros fmt k; cbn [Nat.add].
  - now rewrite advance_0.
  - destruct fmt as [|c fmt]; cbn [Vfs.advance]; [|apply IH].
    now destruct k.
Qed.

Lemma advance_behind lit s k :
  Vfs.advance (lit ++ s) (String.length lit + k) = Vfs.advance s k.
Proof. now rewrite advance_add, advance_app. Qed.

(** A character behind the percent sign that begins no sequence: the
    percent sign and the character are put out, and the text goes on. *)
Theorem vsnprintk_unknown_sequence U initial_buf size lit d lit2 args :
  plain lit = true -> plain lit2 = true ->
  size = Z.of_nat (List.length initial_buf) -> size < 2 ^ 31 ->
  d <> Vfs.NUL -> is_chr d "%" = false -> code d < 128 ->
  base_of d = 0 -> switch d = Case_default ->
  Z.of_nat (String.length lit + 2 + String.length lit2) < size ->
  vsnprintk U initial_buf size (lit ++ String "%" (String d lit2)) args =
  printed initial_buf size
    (list_ascii_of_string lit ++ "%"%char :: d :: list_ascii_of_string lit2).
Proof.
  intros Hp Hp2 Hsize Hrange Hnn Hnp Hc Hb Hs Hfit.
  set (fmt := (lit ++ String "%" (String d lit2))%string).
  set (n := String.length lit) in *. set (n2 := String.length lit2) in *.
  assert (Hlen : Vfs.strlen fmt = Z.of_nat (n + 2 + n2)).
  { unfold fmt. rewrite strlen_app by assumption. cbn [Vfs.strlen].
    change (Ascii.eqb "%" Vfs.NUL) with false. cbv iota.
    apply Ascii.eqb_neq in Hnn. rewrite Hnn.
    rewrite (plain_strlen lit2 Hp2). fold n n2. lia. }
  assert (Hfuel : (n + 4 + n2 + 1 <= enough_fuel fmt)%nat).
  { unfold enough_fuel, fmt. rewrite !length_append. fold n n2.
    cbn [String.length]. fold n2. lia. }
  assert (Hadv : forall k, Vfs.advance fmt (n + k) =
                           Vfs.advance (String "%" (String d lit2)) k)
    by (intros k; apply advance_behind).
  pose proof (Hadv 0%nat) as Ha0. pose proof (Hadv 1%nat) as Ha1.
  pose proof (Hadv 2%nat) as Ha2. cbn [Vfs.advance] in Ha0, Ha1, Ha2.
  rewrite advance_0 in Ha2. rewrite Nat.add_0_r in Ha0.
  assert (Ha3 : Vfs.advance fmt (n + 2 + n2) = EmptyString).
  { rewrite advance_add, Ha2. apply advance_to_end. }
  rewrite <- (append_empty lit2) in Ha2.
  pose proof (list_ascii_length lit) as Hl. fold n in Hl.
  pose proof (list_ascii_length lit2) as Hl2. fold n2 in Hl2.
  eapply vsnprintk_put; try eassumption.
  - rewrite length_app. cbn [List.length]. lia.
  - change 0 with (Z.of_nat 0) at 1.
    eapply exec_literal_to;
      [exact Hp | apply advance_0 | lia | side | fold n; lia |].
    fold n. at_index n.
    jump step_percent.
    { cbn [first_char]. rewrite Hnp. cbn [orb].
      destruct (Z.leb_spec 128 (code d)); [lia | reflexivity]. }
    at_index (n + 1)%nat.
    jump step_next_default.
    jump step_unknown_put.
    jump step_end_nat.
    at_index (n + 2)%nat.
    eapply exec_literal_to; [exact Hp2 | exact Ha2 | lia | side | fold n2; lia |].
    fold n2.
    apply exec_end_to; [exact Ha3 | lia | lia].
  - fields. rewrite length_app. cbn [List.length]. lia.
  - one_stretch.
  - reflexivity.
Qed.

Lemma vsnprintk_unknown_sequence_witness :
  vsnprintk demo_util (blank 8) 8 "a%kb" [] =
  Ok (4, ["a"; "%"; "k"; "b"; Vfs.NUL; " "; " "; " "]%char).
Proof.
  apply (vsnprintk_unknown_sequence demo_util (blank 8) 8 "a" "k" "b" []);
    try reflexivity; try discriminate; cbn; lia.
Defined.

Lemma step_next_modifier_more U fmt n c r st w :
  Vfs.advance fmt n = String c r ->
  Z.of_nat n < Vfs.strlen fmt ->
  code c < 128 -> base_of c = 0 ->
  modifier_step (switch c) (width st) = Some w ->
  first_char r <> Vfs.NUL ->
  step U fmt Next_char_in_seq (Z.of_nat n) st =
  Ok ((Next_char_in_seq, Z.of_nat (S n)), set_width w st).
Proof.
  intros Ha Hn Hc Hb Hm Hr.
  rewrite (step_next_modifier U fmt n c r st w Ha Hn Hc Hb Hm).
  apply Ascii.eqb_neq in Hr. now rewrite Hr.
Qed.

Lemma step_next_modifier_cut U fmt n c st w :
  Vfs.advance fmt n = String c EmptyString ->
  Z.of_nat n < Vfs.strlen fmt ->
  code c < 128 -> base_of c = 0 ->
  modifier_step (switch c) (width st) = Some w ->
  step U fmt Next_char_in_seq (Z.of_nat n) st = Ok ((Out, Z.of_nat (S n)), st).
Proof.
  intros Ha Hn Hc Hb Hm.
  now rewrite (step_next_modifier U fmt n c _ st w Ha Hn Hc Hb Hm).
Qed.

Lemma base_of_conversion d :
  base_of d <> 0 ->
  d <> Vfs.NUL /\ is_chr d "%" = false /\ code d < 128 /\
  is_chr d "p" = false.
Proof.
  intros H.
  assert (Hd : d = "d"%char \/ d = "i"%char \/ d = "u"%char \/
               d = "o"%char \/ d = "x"%char).
  { unfold base_of, is_chr in H.
    destruct (Ascii.eqb_spec d "d"); [tauto|].
    destruct (Ascii.eqb_spec d "i"); [tauto|].
    destruct (Ascii.eqb_spec d "u"); [tauto|].
    destruct (Ascii.eqb_spec d "o"); [tauto|].
    destruct (Ascii.eqb_spec d "x"); [tauto|].
    now destruct H. }
  destruct Hd as [->|[->|[->|[->| ->]]]];
    (split; [discriminate | repeat split; reflexivity]).
Qed.

Lemma modifier_plain m w : modifier m w -> plain m = true.
Proof. now destruct 1. Qed.

Lemma first_char_append m s :
  m <> EmptyString -> first_char (m ++ s) = first_char m.
Proof. destruct m; [now intros H; destruct H | reflexivity]. Qed.

(** The prelude of a run on the format [lit ++ seq]: where the characters
    of [seq] are, and that there is fuel for [lit], for [k] jumps and for
    the end. *)
Lemma sequence_prelude lit seq k :
  plain lit = true ->
  Vfs.strlen seq = Z.of_nat (String.length seq) ->
  (k <= 4 * String.length seq)%nat ->
  Vfs.strlen (lit ++ seq) =
    Z.of_nat (String.length lit + String.length seq) /\
  (String.length lit + k + 1 <= enough_fuel (lit ++ seq))%nat /\
  (forall j, Vfs.advance (lit ++ seq) (String.length lit + j) =
             Vfs.advance seq j).
Proof.
  intros Hp Hs Hk. split; [|split].
  - rewrite strlen_app by assumption. lia.
  - unfold enough_fuel. rewrite length_append. lia.
  - intros j. apply advance_behind.
Qed.

(** The conversions of integers, with the length modifiers of C: the
    text is followed by the digits that the conversion at the width of the
    modifier gives. *)
Theorem vsnprintk_integer U initial_buf size lit m w d v args :
  plain lit = true ->
  size = Z.of_nat (List.length initial_buf) -> size < 2 ^ 31 ->
  modifier m w -> base_of d <> 0 ->
  Vfs.strlen (converted U w d v) < 64 ->
  Z.of_nat (String.length lit) + Vfs.strlen (converted U w d v) < size ->
  vsnprintk U initial_buf size (lit ++ "%" ++ m ++ String d EmptyString)
    (Arg_int v :: args) =
  printed initial_buf size
    (list_ascii_of_string lit ++ chars (converted U w d v)).
Proof.
  intros Hp Hsize Hrange Hmod Hb Hs64 Hfit.
  destruct (base_of_conversion d Hb) as (Hnn & Hnp & Hc & Hdp).
  pose proof (strlen_nonneg (converted U w d v)) as Hs0.
  pose proof (chars_length (converted U w d v)) as Hcl.
  pose proof (list_ascii_length lit) as Hl.
  set (seq := ("%" ++ m ++ String d EmptyString)%string).
  assert (Hseq : Vfs.strlen seq = Z.of_nat (String.length seq)).
  { unfold seq. cbn [String.append Vfs.strlen String.length].
    change (Ascii.eqb "%" Vfs.NUL) with false. cbv iota.
    rewrite strlen_app, length_append by now apply (modifier_plain m w).
    cbn [Vfs.strlen String.length]. apply Ascii.eqb_neq in Hnn.
    rewrite Hnn. cbn [Vfs.strlen]. lia. }
  destruct (sequence_prelude lit seq 5 Hp Hseq) as (Hlen & Hfuel & Hadv).
  { unfold seq. cbn [String.append String.length]. rewrite length_append.
    cbn [String.length]. lia. }
  assert (Hend : Vfs.advance (lit ++ seq)
                   (String.length lit + String.length seq) = EmptyString)
    by (rewrite Hadv; apply advance_to_end).
  assert (Hnd : is_chr d "%" || (128 <=? code d) = false).
  { rewrite Hnp. cbn [orb]. destruct (Z.leb_spec 128 (code d)); [lia|].
    reflexivity. }
  fold seq.
  destruct Hmod; unfold seq in *; cbn [String.append String.length] in *.
  all: eapply vsnprintk_put; try eassumption;
    [ rewrite length_app; lia | | | | ].
  all: try (change 0 with (Z.of_nat 0) at 1;
    (eapply exec_literal_to; [exact Hp | apply advance_0 | lia | side | lia |]);
    norm_index (String.length lit); jump_strict step_percent;
    repeat (norm_index (String.length lit);
            jump_strict step_next_modifier_more);
    norm_index (String.length lit);
    (eapply exec_step_to;
       [ eapply step_next_number;
         [ side0 | side0 | side0 | side0 | side0 | fields; reflexivity
         | side0 | side0
         | apply rendered_plain; fields; first [reflexivity | assumption]
         | side0 ]
       | discriminate | lia | ]);
    jump_strict step_end_nat;
    (apply exec_end_to; [ | lia | lia ]);
    match goal with
    | |- Vfs.advance _ ?j = _ =>
        match type of Hend with
        | Vfs.advance _ ?k = _ => replace j with k by lia
        end
    end; exact Hend).
  all: try (fields; rewrite length_app; lia).
  all: try one_stretch.
  all: reflexivity.
Qed.

Lemma vsnprintk_integer_witness :
  vsnprintk demo_util (blank 8) 8 "n=%lld" [Arg_int 42] =
  Ok (4, ["n"; "="; "4"; "2"; Vfs.NUL; " "; " "; " "]%char).
Proof.
  apply (vsnprintk_integer demo_util (blank 8) 8 "n=" "ll" pw_long_long "d"
           42 []);
    try reflexivity; try discriminate; try (cbn; lia).
  constructor.
Defined.

Lemma exec_out_to U fuel fmt i st : exec U fuel fmt Out i st = Ok (tt, st).
Proof. now rewrite exec_out. Qed.

(** [next_char_in_seq] at the flag [0] at the end of the format. *)
Lemma step_next_zero_cut U fmt n st :
  Vfs.advance fmt n = String "0" EmptyString ->
  Z.of_nat (S n) <= Vfs.strlen fmt ->
  step U fmt Next_char_in_seq (Z.of_nat n) st =
  Ok ((Out, Z.of_nat (S n)), set_zero_lpad true st).
Proof.
  intros Ha Hn. cbn [step]. unfold bind at 1.
  rewrite fmt_at_advance, Ha by lia. cbn [first_char].
  change (diuox_base (code "0")) with (@ret Z 0).
  unfold bind at 1, ret at 1.
  change (negb (0 =? 0)) with false. cbv iota.
  change (switch "0") with Case_0. cbv iota.
  unfold bind at 1, modify. unfold unless_truncated, bind.
  replace (Z.of_nat n + 1) with (Z.of_nat (S n)) by lia.
  rewrite fmt_at_advance by assumption.
  now rewrite (advance_S n fmt _ _ Ha).
Qed.

(** A format that ends within a sequence, behind a length modifier or the
    flag [0]: the sequence puts out nothing. *)
Theorem vsnprintk_truncated_sequence U initial_buf size lit m args :
  plain lit = true ->
  size = Z.of_nat (List.length initial_buf) -> size < 2 ^ 31 ->
  Z.of_nat (String.length lit) < size ->
  (exists w, modifier m w /\ m <> EmptyString) \/ m = "0"%string ->
  vsnprintk U initial_buf size (lit ++ "%" ++ m) args =
  printed initial_buf size (list_ascii_of_string lit).
Proof.
  intros Hp Hsize Hrange Hfit Hm.
  pose proof (list_ascii_length lit) as Hl.
  set (seq := ("%" ++ m)%string).
  assert (Hseq : Vfs.strlen seq = Z.of_nat (String.length seq) /\
                 (1 <= String.length m)%nat).
  { unfold seq. cbn [String.append Vfs.strlen String.length].
    change (Ascii.eqb "%" Vfs.NUL) with false. cbv iota.
    destruct Hm as [(w & Hw & Hne)| ->].
    - rewrite (plain_strlen m (modifier_plain m w Hw)).
      destruct m; [now destruct Hne | cbn [String.length]; lia].
    - cbn. lia. }
  destruct Hseq as [Hseq Hm1].
  destruct (sequence_prelude lit seq 4 Hp Hseq) as (Hlen & Hfuel & Hadv).
  { unfold seq. cbn [String.append String.length]. lia. }
  fold seq.
  assert (Hcases : m = "l"%string \/ m = "h"%string \/ m = "z"%string \/
                   m = "j"%string \/ m = "q"%string \/ m = "L"%string \/
                   m = "ll"%string \/ m = "hh"%string \/ m = "0"%string).
  { destruct Hm as [(w & Hw & Hne)| ->]; [|tauto].
    destruct Hw; tauto. }
  destruct Hcases as [->|[->|[->|[->|[->|[->|[->|[->| ->]]]]]]]];
    unfold seq in *; cbn [String.append String.length] in *.
  all: eapply vsnprintk_put; try eassumption; [ lia | | | | ].
  all: try (change 0 with (Z.of_nat 0) at 1;
    (eapply exec_literal_to; [exact Hp | apply advance_0 | lia | side | lia |]);
    norm_index (String.length lit); jump_strict step_percent;
    repeat (norm_index (String.length lit);
            jump_strict step_next_modifier_more);
    norm_index (String.length lit);
    first [ jump_strict step_next_modifier_cut
          | jump_strict step_next_zero_cut ];
    apply exec_out_to).
  all: try (fields; lia).
  all: try (fields; cbn [Z.to_nat]; reflexivity).
Qed.

Lemma vsnprintk_truncated_sequence_witness :
  vsnprintk demo_util (blank 4) 4 "ab%l" [Arg_int 1] =
  Ok (2, ["a"; "b"; Vfs.NUL; " "]%char).
Proof.
  apply (vsnprintk_truncated_sequence demo_util (blank 4) 4 "ab" "l"
           [Arg_int 1]);
    try reflexivity; try (cbn; lia).
  left. exists pw_long. split; [constructor | discriminate].
Defined.

Lemma rendered_left st fmtX str w :
  left_padding st = w -> right_padding st = 0 ->
  zero_lpad st = false -> hash_sign st = false -> is_chr fmtX "p" = false ->
  rendered st fmtX str =
  repeat " "%char (Z.to_nat (w - Vfs.strlen str)) ++ chars str.
Proof.
  intros Hl Hp Hz Hh Hx. pose proof (strlen_nonneg str).
  unfold rendered. rewrite Hl, Hp, Hz, Hh, Hx. cbn [andb orb negb].
  replace (Z.max 0 (Z.max 0 (0 - Vfs.strlen str) - 0)) with 0 by lia.
  replace (Z.to_nat (Z.max 0 (Z.max 0 (w - Vfs.strlen str) - 0)))
    with (Z.to_nat (w - Vfs.strlen str)) by lia.
  cbn [Z.to_nat repeat app]. now rewrite app_nil_r.
Qed.

Lemma rendered_right st fmtX str w :
  left_padding st = 0 -> right_padding st = w ->
  zero_lpad st = false -> hash_sign st = false -> is_chr fmtX "p" = false ->
  rendered st fmtX str =
  chars str ++ repeat " "%char (Z.to_nat (w - Vfs.strlen str)).
Proof.
  intros Hl Hp Hz Hh Hx. pose proof (strlen_nonneg str).
  unfold rendered. rewrite Hl, Hp, Hz, Hh, Hx. cbn [andb orb negb].
  replace (Z.max 0 (Z.max 0 (0 - Vfs.strlen str) - 0)) with 0 by lia.
  replace (Z.to_nat (Z.max 0 (Z.max 0 (w - Vfs.strlen str) - 0)))
    with (Z.to_nat (w - Vfs.strlen str)) by lia.
  reflexivity.
Qed.

Lemma rendered_alternate st fmtX str :
  left_padding st = 0 -> right_padding st = 0 ->
  zero_lpad st = false -> is_chr fmtX "p" || hash_sign st = true ->
  rendered st fmtX str = prefix fmtX ++ chars str.
Proof.
  intros Hl Hp Hz Hh. pose proof (strlen_nonneg str).
  unfold rendered. rewrite Hl, Hp, Hz, Hh. cbn [andb orb negb].
  replace (Z.to_nat _) with 0%nat
    by (destruct (hash_sign st), (is_chr fmtX "x"), (is_chr fmtX "o"); lia).
  cbn [repeat app]. now rewrite app_nil_r.
Qed.

Lemma case_1_9_plain c :
  switch c = Case_1_9 ->
  c <> Vfs.NUL /\ is_chr c "%" || (128 <=? code c) = false.
Proof.
  destruct c as [[] [] [] [] [] [] [] []]; cbv; intros H;
    first [discriminate | split; [discriminate | reflexivity]].
Qed.

(** A number between the percent sign and [s] is the width of the field:
    the string is put out behind blanks that fill it up to the width that
    [tilck_strtol] reads; with a minus sign before the number the blanks
    follow the string. *)
Theorem vsnprintk_field_width U initial_buf size lit digs s w args :
  plain lit = true -> plain digs = true ->
  size = Z.of_nat (List.length initial_buf) -> size < 2 ^ 31 ->
  0 <= w < 2 ^ 31 -> Vfs.strlen s < 2 ^ 31 ->
  Z.of_nat (String.length lit) + Z.max w (Vfs.strlen s) < size ->
  (switch (first_char digs) = Case_1_9 ->
   tilck_strtol U (lit ++ "%" ++ digs ++ "s")
     (Z.of_nat (String.length lit) + 1) =
     (w, Z.of_nat (String.length lit) + 1 + Z.of_nat (String.length digs)) ->
   vsnprintk U initial_buf size (lit ++ "%" ++ digs ++ "s")
     (Arg_str s :: args) =
   printed initial_buf size
     (list_ascii_of_string lit ++
      repeat " "%char (Z.to_nat (w - Vfs.strlen s)) ++ chars s)) /\
  (tilck_strtol U (lit ++ "%-" ++ digs ++ "s")
     (Z.of_nat (String.length lit) + 2) =
     (w, Z.of_nat (String.length lit) + 2 + Z.of_nat (String.length digs)) ->
   vsnprintk U initial_buf size (lit ++ "%-" ++ digs ++ "s")
     (Arg_str s :: args) =
   printed initial_buf size
     (list_ascii_of_string lit ++
      chars s ++ repeat " "%char (Z.to_nat (w - Vfs.strlen s)))).
Proof.
  intros Hp Hpd Hsize Hrange Hw Hs Hfit.
  pose proof (list_ascii_length lit) as Hl.
  pose proof (strlen_nonneg s) as Hs0.
  pose proof (chars_length s) as Hcl.
  pose proof (plain_strlen digs Hpd) as Hdl.
  pose proof (to_int_small w ltac:(lia)) as Hti.
  split.
  - intros Hc Ht.
    destruct digs as [|c digs']; [cbv in Hc; discriminate|].
    cbn [first_char] in Hc.
    destruct (case_1_9_plain c Hc) as [Hcn Hcp].
    set (digs := String c digs') in *.
    set (seq := ("%" ++ digs ++ "s")%string).
    assert (Hseq : Vfs.strlen seq = Z.of_nat (String.length seq)).
    { unfold seq. cbn [String.append Vfs.strlen String.length].
      change (Ascii.eqb "%" Vfs.NUL) with false. cbv iota.
      rewrite strlen_app, length_append by assumption.
      change (Vfs.strlen "s") with 1. change (String.length "s") with 1%nat.
      lia. }
    destruct (sequence_prelude lit seq 5 Hp Hseq) as (Hlen & Hfuel & Hadv).
    { unfold seq. cbn [String.append String.length]. rewrite length_append.
      cbn [String.length]. lia. }
    assert (Hsl : String.length seq = (1 + String.length digs + 1)%nat).
    { unfold seq. cbn [String.append String.length].
      rewrite length_append. cbn [String.length]. lia. }
    rewrite Hsl in Hlen.
    assert (Hk : Vfs.advance (lit ++ seq)
                   (String.length lit + 1 + String.length digs) = "s"%string).
    { rewrite <- Nat.add_assoc, Hadv. unfold seq.
      cbn [String.append Nat.add Vfs.advance]. apply advance_app. }
    assert (Hend : Vfs.advance (lit ++ seq)
                     (S (String.length lit + 1 + String.length digs)) =
                   EmptyString) by now apply (advance_S _ _ _ _ Hk).
    replace (Z.of_nat (String.length lit) + 1)
      with (Z.of_nat (String.length lit + 1)) in Ht by lia.
    replace (Z.of_nat (String.length lit + 1) +
             Z.of_nat (String.length digs))
      with (Z.of_nat (String.length lit + 1 + String.length digs)) in Ht
      by lia.
    fold seq in Ht. fold seq.
    eapply vsnprintk_put; try eassumption.
    + rewrite !length_app, repeat_length. lia.
    + change 0 with (Z.of_nat 0) at 1.
      eapply exec_literal_to; [exact Hp | apply advance_0 | lia | side | lia |].
      norm_index (String.length lit). jump_strict step_percent.
      norm_index (String.length lit).
      eapply exec_step_to;
        [ eapply (step_next_width U _ _ c _ w
                    (String.length lit + 1 + String.length digs));
          [ rewrite Hadv; reflexivity | exact Hc | exact Ht | lia | lia
          | rewrite Hk; discriminate ]
        | discriminate | lia | ].
      rewrite Hti.
      eapply exec_step_to;
        [ eapply step_next_str;
          [ exact Hk | lia | fields; reflexivity
          | unfold paddings_fit; fields; lia
          | apply rendered_left; fields; reflexivity
          | unfold fits, within; fields;
            rewrite splice_length, length_app, repeat_length; lia ]
        | discriminate | lia | ].
      jump_strict step_end_nat.
      apply exec_end_to; [exact Hend | lia | lia].
    + fields. rewrite !length_app, repeat_length. lia.
    + one_stretch.
    + reflexivity.
  - intros Ht.
    set (seq := ("%-" ++ digs ++ "s")%string).
    assert (Hseq : Vfs.strlen seq = Z.of_nat (String.length seq)).
    { unfold seq. cbn [String.append Vfs.strlen String.length].
      change (Ascii.eqb "%" Vfs.NUL) with false.
      change (Ascii.eqb "-" Vfs.NUL) with false. cbv iota.
      rewrite strlen_app, length_append by assumption.
      change (Vfs.strlen "s") with 1. change (String.length "s") with 1%nat.
      lia. }
    destruct (sequence_prelude lit seq 5 Hp Hseq) as (Hlen & Hfuel & Hadv).
    { unfold seq. cbn [String.append String.length]. rewrite length_append.
      cbn [String.length]. lia. }
    assert (Hsl : String.length seq = (2 + String.length digs + 1)%nat).
    { unfold seq. cbn [String.append String.length].
      rewrite length_append. cbn [String.length]. lia. }
    rewrite Hsl in Hlen.
    assert (Hk : Vfs.advance (lit ++ seq)
                   (String.length lit + 2 + String.length digs) = "s"%string).
    { rewrite <- Nat.add_assoc, Hadv. unfold seq.
      cbn [String.append Nat.add Vfs.advance]. apply advance_app. }
    assert (Hend : Vfs.advance (lit ++ seq)
                     (S (String.length lit + 2 + String.length digs)) =
                   EmptyString) by now apply (advance_S _ _ _ _ Hk).
    replace (Z.of_nat (String.length lit) + 2)
      with (Z.of_nat (String.length lit + 1) + 1) in Ht by lia.
    replace (Z.of_nat (String.length lit + 1) + 1 +
             Z.of_nat (String.length digs))
      with (Z.of_nat (String.length lit + 2 + String.length digs)) in Ht
      by lia.
    fold seq in Ht. fold seq.
    eapply vsnprintk_put; try eassumption.
    + rewrite !length_app, repeat_length. lia.
    + change 0 with (Z.of_nat 0) at 1.
      eapply exec_literal_to; [exact Hp | apply advance_0 | lia | side | lia |].
      norm_index (String.length lit). jump_strict step_percent.
      norm_index (String.length lit).
      eapply exec_step_to;
        [ eapply (step_next_minus U _ _ _ w
                    (String.length lit + 2 + String.length digs));
          [ rewrite Hadv; reflexivity | exact Ht | lia | lia
          | rewrite Hk; discriminate ]
        | discriminate | lia | ].
      rewrite Hti.
      eapply exec_step_to;
        [ eapply step_next_str;
          [ exact Hk | lia | fields; reflexivity
          | unfold paddings_fit; fields; lia
          | apply rendered_right; fields; reflexivity
          | unfold fits, within; fields;
            rewrite splice_length, length_app, repeat_length; lia ]
        | discriminate | lia | ].
      jump_strict step_end_nat.
      apply exec_end_to; [exact Hend | lia | lia].
    + fields. rewrite !length_app, repeat_length. lia.
    + one_stretch.
    + reflexivity.
Qed.

Lemma vsnprintk_field_width_witness :
  vsnprintk demo_util (blank 8) 8 "%5s" [Arg_str "ab"] =
  Ok (5, [" "; " "; " "; "a"; "b"; Vfs.NUL; " "; " "]%char) /\
  vsnprintk demo_util (blank 8) 8 "%-5s" [Arg_str "ab"] =
  Ok (5, ["a"; "b"; " "; " "; " "; Vfs.NUL; " "; " "]%char).
Proof.
  assert (H : 0 <= 5 < 2 ^ 31) by lia.
  split.
  - apply (proj1 (vsnprintk_field_width demo_util (blank 8) 8 EmptyString "5"
                    "ab" 5 [] eq_refl eq_refl eq_refl eq_refl H eq_refl
                    eq_refl)); reflexivity.
  - apply (proj2 (vsnprintk_field_width demo_util (blank 8) 8 EmptyString "5"
                    "ab" 5 [] eq_refl eq_refl eq_refl eq_refl H eq_refl
                    eq_refl)); reflexivity.
Defined.

(** The alternate form and pointers: [%#x] puts [0x] before the digits and
    [%#o] puts [0] (the other conversions of integers put nothing), and
    [%p] puts [0x] before the digits of [uitoaN_hex_fixed]. *)
Theorem vsnprintk_alternate_form U initial_buf size lit v args :
  plain lit = true ->
  size = Z.of_nat (List.length initial_buf) -> size < 2 ^ 31 ->
  (forall d,
     base_of d <> 0 ->
     Vfs.strlen (converted U pw_default d v) < 64 ->
     Z.of_nat (String.length lit) + 2 +
       Vfs.strlen (converted U pw_default d v) < size ->
     vsnprintk U initial_buf size (lit ++ "%#" ++ String d EmptyString)
       (Arg_int v :: args) =
     printed initial_buf size
       (list_ascii_of_string lit ++ prefix d ++
        chars (converted U pw_default d v))) /\
  (Vfs.strlen (uitoaN_hex_fixed U v) < 64 ->
   Z.of_nat (String.length lit) + 2 +
     Vfs.strlen (uitoaN_hex_fixed U v) < size ->
   vsnprintk U initial_buf size (lit ++ "%p") (Arg_int v :: args) =
   printed initial_buf size
     (list_ascii_of_string lit ++ "0"%char :: "x"%char ::
      chars (uitoaN_hex_fixed U v))).
Proof.
  intros Hp Hsize Hrange.
  pose proof (list_ascii_length lit) as Hl.
  split.
  - intros d Hb Hs64 Hfit.
    destruct (base_of_conversion d Hb) as (Hnn & Hnp & Hc & Hdp).
    pose proof (strlen_nonneg (converted U pw_default d v)) as Hs0.
    pose proof (chars_length (converted U pw_default d v)) as Hcl.
    assert (Hpl : (List.length (prefix d) <= 2)%nat).
    { unfold prefix. destruct (is_chr d "x" || is_chr d "p");
        [|destruct (is_chr d "o")]; cbn [List.length]; lia. }
    set (seq := ("%#" ++ String d EmptyString)%string).
    assert (Hseq : Vfs.strlen seq = Z.of_nat (String.length seq)).
    { unfold seq. cbn [String.append Vfs.strlen String.length].
      change (Ascii.eqb "%" Vfs.NUL) with false.
      change (Ascii.eqb "#" Vfs.NUL) with false. cbv iota.
      apply Ascii.eqb_neq in Hnn. rewrite Hnn. lia. }
    destruct (sequence_prelude lit seq 5 Hp Hseq) as (Hlen & Hfuel & Hadv).
    { unfold seq. cbn [String.append String.length]. lia. }
    assert (Hend : Vfs.advance (lit ++ seq) (S (String.length lit + 2)) =
                   EmptyString) by (rewrite <- Nat.add_succ_r, Hadv; reflexivity).
    fold seq. unfold seq in *. cbn [String.append String.length] in *.
    eapply vsnprintk_put; try eassumption.
    + rewrite !length_app. lia.
    + change 0 with (Z.of_nat 0) at 1.
      eapply exec_literal_to; [exact Hp | apply advance_0 | lia | side | lia |].
      norm_index (String.length lit). jump_strict step_percent.
      replace (String.length lit + 0)%nat with (String.length lit) by lia.
      eapply exec_step_to;
        [ eapply step_next_hash;
          [ rewrite <- (Nat.add_0_r (String.length lit)), Hadv; reflexivity
          | lia | reflexivity | exact Hnn ]
        | discriminate | lia | ].
      norm_index (String.length lit).
      eapply exec_step_to;
        [ eapply step_next_number;
          [ side0 | side0 | side0 | side0 | side0 | fields; reflexivity
          | side0 | side0
          | apply rendered_alternate; fields;
            first [reflexivity | apply orb_true_r]
          | unfold fits, within; fields;
            rewrite splice_length, length_app; lia ]
        | discriminate | lia | ].
      jump_strict step_end_nat.
      apply exec_end_to; [exact Hend | lia | lia].
    + fields. rewrite !length_app. lia.
    + one_stretch.
    + reflexivity.
  - intros Hs64 Hfit.
    pose proof (strlen_nonneg (uitoaN_hex_fixed U v)) as Hs0.
    pose proof (chars_length (uitoaN_hex_fixed U v)) as Hcl.
    set (seq := "%p"%string).
    destruct (sequence_prelude lit seq 4 Hp eq_refl) as (Hlen & Hfuel & Hadv).
    { cbn. lia. }
    assert (Hend : Vfs.advance (lit ++ seq) (S (String.length lit + 1)) =
                   EmptyString) by (rewrite <- Nat.add_succ_r, Hadv; reflexivity).
    unfold seq in *. cbn [String.length] in *.
    eapply vsnprintk_put; try eassumption.
    + rewrite !length_app. cbn [List.length]. lia.
    + change 0 with (Z.of_nat 0) at 1.
      eapply exec_literal_to; [exact Hp | apply advance_0 | lia | side | lia |].
      norm_index (String.length lit). jump_strict step_percent.
      norm_index (String.length lit).
      eapply exec_step_to;
        [ eapply step_next_ptr;
          [ side0 | side0 | side0 | side0 | side0
          | apply rendered_alternate; fields; reflexivity
          | unfold fits, within; fields;
            rewrite splice_length, length_app; cbn [List.length prefix];
            change (prefix "p") with ["0"; "x"]%char; cbn [List.length]; lia ]
        | discriminate | lia | ].
      jump_strict step_end_nat.
      apply exec_end_to; [exact Hend | lia | lia].
    + fields. rewrite !length_app.
      change (prefix "p") with ["0"; "x"]%char. cbn [List.length]. lia.
    + change (prefix "p") with ["0"; "x"]%char. one_stretch.
    + reflexivity.
Qed.

Lemma vsnprintk_alternate_form_witness :
  vsnprintk demo_util (blank 8) 8 "%#x" [Arg_int 17] =
  Ok (4, ["0"; "x"; "1"; "7"; Vfs.NUL; " "; " "; " "]%char) /\
  vsnprintk demo_util (blank 8) 8 "%p" [Arg_int 17] =
  Ok (4, ["0"; "x"; "1"; "7"; Vfs.NUL; " "; " "; " "]%char).
Proof.
  split.
  - apply (proj1 (vsnprintk_alternate_form demo_util (blank 8) 8 EmptyString
                    17 [] eq_refl eq_refl eq_refl) "x"%char);
      [discriminate | reflexivity | reflexivity].
  - apply (proj2 (vsnprintk_alternate_form demo_util (blank 8) 8 EmptyString
                    17 [] eq_refl eq_refl eq_refl));
      reflexivity.
Defined.

End PrintkFacts.
